(* ===== verification/_CoqProject ===== *)
-Q . S2P
Prelude.v
Configuration.v
WorkerPool.v
WorkerPoolInv.v
WorkerPoolProps.v
WorkerPoolBag.v
WorkerPoolClaims.v
GoError.v
Interfaces.v
Poller.v
PollerLoop.v
Intake.v
Cycles.v
GoStrings.v
SqsProvider.v
SqsLocks.v
Job.v
Retryer.v
Git.v
Actions.v
Reader.v
Runbook.v
Callback.v
WindowsCallback.v
LogFiles.v
RepositoryLocks.v
MessageHandler.v
Delivery.v
Slices.v
DeliveryEnv.v
System.v
SystemInv.v
SystemClaims.v
Processor.v
ProcessorProps.v
ProcessorClaims.v
Lifecycle.v
LifecycleProps.v
LifecycleClaims.v
Main.v
WindowsService.v
WindowsMain.v
