(* ===== verification/Prelude.v ===== *)
(** * Jira Edge Connector: a verification development

    The connector polls SQS queues for messages, runs the action each message
    names as a local process and reports the result over HTTP. This library
    models the Go program under src/ and proves what its parts promise, alone
    and put together.

    ** The program

    [main] (main/main.go) reads a configuration (conf/), makes a queue
    processor (queue/processor.go) and starts it. The processor fetches a token
    that lists queues, downloads the git repositories of the actions (git/),
    starts the worker pool (worker_pool/) and a poller (queue/poller.go) with a
    provider (queue/sqs_provider.go) for each queue, and reconciles the pollers
    with every new token. A poller receives messages and submits a job
    (queue/job.go) for each to the pool, whose workers execute it: the message
    is deleted, handled (queue/message.go), which runs a script
    (runbook/executor.go), and its result is sent (runbook/sender.go) through
    the retryer (retryer/).

    ** How the code is modelled

    Sequential code is a Go computation [go S A] (below): a function from a
    state to a value or a panic and a state; [error] results are values of
    [option error] or [result] (GoError). Definitions keep the names of the
    code. Calls of what is not under src/ (the AWS SDK, net/http, go-git, the
    file system, os/exec, JSON and YAML decoding) are methods of classes over
    the state ([SQSClient], [HttpClient], [GitEnv], [ExecEnv], [ConfEnv],
    [MessageEnv], [Workers], [GoRuntime] for the order of a map's iteration);
    a class [...Spec] says what their documentation does: a call returns,
    does not panic, and appends one event with its arguments and its answer to
    the log of the state. The answers are arbitrary, so theorems hold for every
    behaviour of the outside. The program's own interfaces (SQSProvider,
    WorkerPool, MessageHandler) are such classes too (Interfaces), and
    SqsProvider and Delivery show that their implementations meet them.

    Concurrent code is a transition system whose states hold the program
    counters of all goroutines: the steps are either executable functions of a
    label ([WorkerPool.step], [PollerLoop.run_step], [Intake.intake_move],
    [Lifecycle.life_step]) or inductive relations. Logging is left out
    everywhere.

    Integers are [Z] with the wrap-around of their width where it can matter
    ([i32] for the pool's counters, [i64] for durations). Strings are lists of
    bytes.

    ** The files

    - Prelude: integers, the monad, sums and counting over lists.
    - Configuration: conf/configuration.go, [PollerConf] and [PoolConf].
    - WorkerPool: worker_pool/worker_pool.go and worker.go as a transition
      system; WorkerPoolInv: its invariant; WorkerPoolProps: conservation of
      jobs, termination of [Stop]; WorkerPoolBag: its specification as a bag of
      jobs with labelled events, and the refinement; WorkerPoolClaims: the
      properties and example schedules.
    - GoError: errors, records of queue/token.go and queue/payload.go, of SQS
      messages, HTTP and commands. Interfaces: the interfaces of package queue,
      their contracts, and an environment that records calls.
    - Poller: [poll] of queue/poller.go; PollerLoop: its [Start], [Stop] and
      [run] as a transition system; Intake: polling cycles and the worker pool
      together; Cycles: [poll] makes the calls of Intake's cycles.
    - GoStrings: the parts of strings and path/filepath that are used.
    - SqsProvider, SqsLocks: queue/sqs_provider.go, its operations and its two
      locks. Job: queue/job.go. Retryer: retryer/.
    - Git: git/ and util.ChmodRecursively; RepositoryLocks: the lock between
      scripts and the repository puller.
    - Actions: the actions of conf/configuration.go; Reader: conf/reader.go,
      util.go, local_reader.go and git_reader.go.
    - Runbook: runbook/executor.go and sender.go; Callback, WindowsCallback: the
      named pipe between a script and [Execute]
      (callback_context_handler_unix.go, callback_context_handler_windows.go).
    - LogFiles: the logs of main and of the pollers ([newQueueMessageLogrus]),
      with util.CheckLogFile's goroutines.
    - MessageHandler: queue/message.go. Delivery: job, provider, handler and
      sender together. Slices: Go's slices over shared arrays, for the slice
      [GlobalEnv] of message.go; DeliveryEnv: a delivery whose process gets other
      variables than its action's. System: pollers, pool and the deliveries of
      its workers together, over one trace of all their calls and one array of
      [GlobalEnv]; SystemInv: its invariant; SystemClaims: its properties.
    - Processor: queue/processor.go; ProcessorProps, ProcessorClaims: its
      lemmas and properties. Lifecycle, LifecycleProps, LifecycleClaims: its
      Start, Stop, run and startPullingRepositories interleaved. Main:
      main/main.go.
    - WindowsService, WindowsMain: windows_service/main/jecService.go, the
      service and its command line.

    ** What is shown

    - No message is lost: in every interleaving the messages received are those
      executed, made visible again or still in somebody's hands, and after a
      stop only the first two (Intake, on WorkerPoolProps' conservation and
      Poller's accounting); the events of the pool are those of a bag of jobs
      that opens and closes once (WorkerPoolBag), and the pool does not panic in
      one life, keeps its counters exact and drains on [Stop].
    - A message is delivered at most once: a job deletes its message, then
      handles it if it is addressed to the owner, then reports, and does that
      once; composed with the real provider, handler and sender it starts at
      most one process, the designated command (Job, MessageHandler, Delivery).
    - Both together (SystemClaims): however the pollers, the workers and the calls
      of their deliveries interleave, no message is delivered twice or made
      visible again as well; the process, its arguments and its report are those
      of its own message, and its environment has the global variables and as
      many more as its action has, each from some delivery's action (its own
      when the array of [GlobalEnv] has no room, and not always else:
      [environments_mix]); no more scripts run than the pool has workers, and
      when [Stop] has returned every message received was made visible
      again or has been delivered to the end, but for results that a goroutine
      nobody waits for has yet to send; the deliveries implement Intake's
      one-step execution of a job, hold nothing up, and [Stop] terminates.
    - What is started is stopped: pollers by the processor, in every
      interleaving of its callers and goroutines, which never deadlock
      (LifecycleClaims; ProcessorClaims has the sequential functions, which are
      interleavings too),
      everything by [main] (Main), which panics only on a token that is null
      or has a period that is not positive; [Stop] of pool and poller terminates.
    - Credentials: a token is reported expired exactly when it is, also under
      concurrent use (SqsProvider, SqsLocks).
    - Outside calls: attempts and waits of the retryer, the commands run, the
      results posted, the repositories cloned and reset, with their errors.
    - Configuration: what [Read] accepts and returns.
    - Behaviour that is probably not meant is stated as theorems too: lives
      that cannot be restarted ([restart_panics], [poller_restart_panics],
      [processor_restart_panics]), jobs stranded with no minimum of workers,
      the race on [err] in [Execute], the race on the callback context, the
      shared array of [GlobalEnv], the forgotten expiry report, panics on zero
      refresh periods, of the Windows service and of the Windows pipe, watchers
      of log files that never end and logs that two pollers of a region share.

    ** Bounds and fuel

    The retry loop runs on fuel [maxRetryCount], which its counter never
    exceeds, so running out is not reached ([backoff_run]). All other recursion
    is structural. Transition systems have no bound on callers, workers,
    cycles or messages; theorems on the pool ask for at most one [Start] that
    takes effect ([nstarts s <= 1]), since a second one panics. Pool
    configurations are those [New] leaves ([conf_ok]), with a keep-alive time
    and monitoring period whose nanoseconds fit 64 bits.

    ** Not modelled

    - JSON and YAML decoding (parameters); encoding is modelled for results and
      string maps, for ASCII text.
    - What is logged, the Prometheus metrics and the flag for their port;
      [CreateTempTestFile], which only tests use. The loggers' files are
      modelled (LogFiles), with one step for a call of a logger.
    - In the processor a poller or the pool is a component behind its
      interface; a pull is one step of the life cycle (RepositoryLocks has the
      lock it takes); a signal that arrives before [signal.Notify] is the
      runtime's.
    - A script opens the callback pipe at most once, and the buffer of the
      context is read and written in one step.
    - In System an append to the array of [GlobalEnv] and the copy of the result
      into the command are one step each.
    - In System a delivery that panics is left out: the panic ends the process
      (WorkerPool has it as the pool's state [panicked]). *)

From stdpp Require Import base list numbers strings gmap.
From Stdlib Require Import Lia ZifyBool ZifyNat.

(** ** Machine integers *)

(** Signed wrap-around at width [w]: what a Go [intN] variable holds after an
    assignment of the mathematical value [z]. *)
Definition wrap_signed (w z : Z) : Z :=
  ((z + 2 ^ (w - 1)) `mod` 2 ^ w - 2 ^ (w - 1))%Z.

Definition i32 (z : Z) : Z := wrap_signed 32 z.

Definition i64 (z : Z) : Z := wrap_signed 64 z.

Definition max_i32 : Z := 2147483647.

Definition max_i64 : Z := 9223372036854775807.

Definition is_i32 (z : Z) : Prop := (- max_i32 - 1 <= z <= max_i32)%Z.

Definition is_i64 (z : Z) : Prop := (- max_i64 - 1 <= z <= max_i64)%Z.

(** ** The Go execution monad

    A Go computation runs on a state [S], and either returns a value or
    panics; a panic keeps the state reached so far. A Go [error] result is an
    ordinary value and is not an effect. *)

Inductive outcome (A : Type) : Type :=
  | Done (a : A)
  | Panicked (why : string).

Arguments Done {A} a.
Arguments Panicked {A} why.

Definition go (S A : Type) : Type := S → outcome A * S.

Definition go_ret {S A : Type} (a : A) : go S A := λ s, (Done a, s).

Definition go_bind {S A B : Type} (m : go S A) (k : A → go S B) : go S B :=
  λ s, match m s with
       | (Done a, s') => k a s'
       | (Panicked why, s') => (Panicked why, s')
       end.

Definition go_panic {S A : Type} (why : string) : go S A := λ s, (Panicked why, s).

Definition go_get {S : Type} : go S S := λ s, (Done s, s).

Definition go_put {S : Type} (s : S) : go S unit := λ _, (Done (), s).

Definition go_modify {S : Type} (f : S → S) : go S unit := λ s, (Done (), f s).

Definition go_gets {S A : Type} (f : S → A) : go S A := λ s, (Done (f s), s).

Declare Scope go_scope.
Delimit Scope go_scope with go.
Notation "x <- m ; k" := (go_bind m (λ x, k))
  (at level 100, m at next level, right associativity) : go_scope.
Notation "m ;; k" := (go_bind m (λ _, k))
  (at level 100, right associativity) : go_scope.

(** ** Sums over lists *)

Fixpoint sumZ {A : Type} (f : A → Z) (l : list A) : Z :=
  match l with
  | [] => 0
  | x :: l' => f x + sumZ f l'
  end%Z.

(** The number of occurrences of [x] in [l]. *)
Definition occ {A : Type} `{EqDecision A} (x : A) (l : list A) : Z :=
  sumZ (λ y, if decide (y = x) then 1 else 0)%Z l.

Arguments occ : simpl never.

(** ** Lemmas *)

Create HintDb go.
Create Rewrite HintDb go.

Lemma wrap_signed_id (w z : Z) :
  (0 < w)%Z → (- 2 ^ (w - 1) <= z < 2 ^ (w - 1))%Z → wrap_signed w z = z.
Proof.
  intros Hw Hz. unfold wrap_signed.
  assert (E : (2 ^ w = 2 * 2 ^ (w - 1))%Z).
  { rewrite <- Z.pow_succ_r by lia. f_equal. lia. }
  rewrite Z.mod_small by lia. lia.
Qed.

Lemma i32_id z : is_i32 z → i32 z = z.
Proof. intros H. apply wrap_signed_id; unfold is_i32, max_i32 in H; simpl; lia. Qed.

Lemma i64_id z : is_i64 z → i64 z = z.
Proof. intros H. apply wrap_signed_id; unfold is_i64, max_i64 in H; simpl; lia. Qed.

Lemma wrap_signed_bounds (w z : Z) :
  (0 < w)%Z → (- 2 ^ (w - 1) <= wrap_signed w z < 2 ^ (w - 1))%Z.
Proof.
  intros Hw. unfold wrap_signed.
  assert (E : (2 ^ w = 2 * 2 ^ (w - 1))%Z).
  { rewrite <- Z.pow_succ_r by lia. f_equal. lia. }
  pose proof (Z.mod_pos_bound (z + 2 ^ (w - 1)) (2 ^ w)) as B.
  assert (0 < 2 ^ (w - 1))%Z by (apply Z.pow_pos_nonneg; lia). lia.
Qed.

Lemma i64_bounds z : is_i64 (i64 z).
Proof.
  pose proof (wrap_signed_bounds 64 z ltac:(lia)) as B.
  unfold is_i64, max_i64, i64. simpl in B. lia.
Qed.

Section monad_laws.
Context {S A B C : Type}.

Lemma go_ret_bind (a : A) (k : A → go S B) (s : S) : go_bind (go_ret a) k s = k a s.
Proof. reflexivity. Qed.

Lemma go_bind_ret (m : go S A) (s : S) : go_bind m go_ret s = m s.
Proof. unfold go_bind. by destruct (m s) as [[] ?]. Qed.

Lemma go_bind_assoc (m : go S A) (f : A → go S B) (g : B → go S C) (s : S) :
  go_bind (go_bind m f) g s = go_bind m (λ x, go_bind (f x) g) s.
Proof. unfold go_bind. by destruct (m s) as [[] ?]. Qed.
End monad_laws.

Lemma sumZ_app {A} (f : A → Z) l1 l2 : sumZ f (l1 ++ l2) = (sumZ f l1 + sumZ f l2)%Z.
Proof. induction l1; simpl; lia. Qed.

Lemma sumZ_insert {A} (f : A → Z) (l : list A) i x y :
  l !! i = Some x → sumZ f (<[i:=y]> l) = (sumZ f l - f x + f y)%Z.
Proof.
  revert i. induction l as [|z l IH]; intros [|i] H; simplify_eq/=; [lia|].
  rewrite (IH _ H). lia.
Qed.

Lemma sumZ_nonneg {A} (f : A → Z) l : (∀ x, 0 <= f x)%Z → (0 <= sumZ f l)%Z.
Proof. intros H. induction l as [|x l IH]; simpl; [lia|]. specialize (H x). lia. Qed.

Lemma sumZ_lookup_le {A} (f : A → Z) (l : list A) i x :
  (∀ y, 0 <= f y)%Z → l !! i = Some x → (f x <= sumZ f l)%Z.
Proof.
  intros H. revert i. induction l as [|z l IH]; intros [|i] Hi; simplify_eq/=.
  - pose proof (sumZ_nonneg f l H). lia.
  - specialize (IH _ Hi). specialize (H z). lia.
Qed.

Lemma sumZ_mono {A} (f g : A → Z) l : (∀ x, f x <= g x)%Z → (sumZ f l <= sumZ g l)%Z.
Proof. intros H. induction l as [|x l IH]; simpl; [lia|]. specialize (H x). lia. Qed.

Lemma sumZ_ext {A} (f g : A → Z) l : (∀ x, f x = g x) → sumZ f l = sumZ g l.
Proof. intros H. induction l as [|x l IH]; simpl; [done|]. by rewrite H, IH. Qed.

Lemma sumZ_add {A} (f g : A → Z) l :
  sumZ (λ x, f x + g x)%Z l = (sumZ f l + sumZ g l)%Z.
Proof. induction l; simpl; lia. Qed.

Lemma sumZ_zero {A} (f : A → Z) l : (∀ x, f x = 0%Z) → sumZ f l = 0%Z.
Proof. intros H. induction l as [|x l IH]; simpl; [done|]. rewrite H, IH. done. Qed.

Lemma sumZ_zero_lookup {A} (f : A → Z) (l : list A) i x :
  (∀ y, 0 <= f y)%Z → sumZ f l = 0%Z → l !! i = Some x → f x = 0%Z.
Proof. intros H E Hi. pose proof (sumZ_lookup_le f l i x H Hi). specialize (H x). lia. Qed.

Lemma sumZ_pos_lookup {A} (f : A → Z) (l : list A) :
  (∀ y, 0 <= f y)%Z → (0 < sumZ f l)%Z → ∃ i x, l !! i = Some x ∧ (0 < f x)%Z.
Proof.
  intros Hf. induction l as [|x l IH]; simpl; intros H; [lia|].
  destruct (decide (0 < f x)%Z) as [Hx|Hx]; [by exists 0, x|].
  destruct IH as (i & y & ? & ?); [lia|]. by exists (S i), y.
Qed.

Lemma sumZ_all_zero {A} (f : A → Z) (l : list A) :
  (∀ y, 0 <= f y)%Z → sumZ f l = 0%Z → Forall (λ x, f x = 0%Z) l.
Proof.
  intros Hf H. apply Forall_lookup. intros i x Hi. by eapply sumZ_zero_lookup.
Qed.

Section occ.
Context {A : Type} `{EqDecision A}.
Implicit Types l : list A.

Lemma occ_app x l1 l2 : occ x (l1 ++ l2) = (occ x l1 + occ x l2)%Z.
Proof. apply sumZ_app. Qed.

Lemma occ_cons x y l : occ x (y :: l) = ((if decide (y = x) then 1 else 0) + occ x l)%Z.
Proof. reflexivity. Qed.

Lemma occ_nil x : occ x (@nil A) = 0%Z.
Proof. reflexivity. Qed.

Lemma occ_nonneg x l : (0 <= occ x l)%Z.
Proof. apply sumZ_nonneg. intros y. case_decide; lia. Qed.

Lemma occ_zero x l : x ∉ l → occ x l = 0%Z.
Proof.
  induction l as [|y l IH]; [done|]. rewrite occ_cons, not_elem_of_cons.
  intros [? ?]. rewrite IH by done. by rewrite decide_False.
Qed.

Lemma occ_pos x l : (0 < occ x l)%Z → x ∈ l.
Proof. intros H. destruct (decide (x ∈ l)); [done|]. rewrite occ_zero in H by done. lia. Qed.

Lemma occ_permutation l1 l2 : (∀ x, occ x l1 = occ x l2) → l1 ≡ₚ l2.
Proof.
  revert l2. induction l1 as [|x l1 IH]; intros l2 H.
  - destruct l2 as [|y l2]; [done|]. specialize (H y). rewrite occ_cons, decide_True in H by done.
    pose proof (occ_nonneg y l2). rewrite occ_nil in H. lia.
  - assert (x ∈ l2) as (k1 & k2 & ->)%list_elem_of_split.
    { apply occ_pos. rewrite <- H, occ_cons, decide_True by done.
      pose proof (occ_nonneg x l1). lia. }
    rewrite <- Permutation_middle. f_equiv. apply IH. intros z. specialize (H z).
    rewrite occ_app, occ_cons in H. rewrite occ_cons in H. rewrite occ_app. lia.
Qed.

Lemma occ_of_permutation x l1 l2 : l1 ≡ₚ l2 → occ x l1 = occ x l2.
Proof. induction 1; rewrite ?occ_cons in *; lia. Qed.
End occ.

#[export] Hint Rewrite @sumZ_app @occ_app @occ_cons @occ_nil @length_app @length_insert : go.
#[export] Hint Resolve occ_nonneg : go.

(** Splits the hypotheses on the first [match], [if] or option in a step
    function's equation, until the successor state is a record. *)
Ltac inv_step H :=
  repeat (case_match; simplify_eq/=); try discriminate H.
