(* ===== verification/Configuration.v ===== *)
(** * conf/configuration.go: the configuration's data. *)

From stdpp Require Import base list numbers strings gmap.
From S2P Require Import Prelude.

(** [conf.PollerConf]; a [time.Duration] is an [int64]. *)
Record PollerConf : Type := mkPollerConf {
  PollingWaitIntervalInMillis : Z;
  VisibilityTimeoutInSeconds : Z;
  MaxNumberOfMessages : Z
}.

(** [conf.PoolConf]; the worker numbers and the queue size are [int32]. *)
Record PoolConf : Type := mkPoolConf {
  MaxNumberOfWorker : Z;
  MinNumberOfWorker : Z;
  QueueSize : Z;
  KeepAliveTimeInMillis : Z;
  MonitoringPeriodInMillis : Z
}.

(** The fields hold values of their Go types. *)
Definition poolconf_typed (c : PoolConf) : Prop :=
  is_i32 (MaxNumberOfWorker c) ∧ is_i32 (MinNumberOfWorker c) ∧
  is_i32 (QueueSize c) ∧ is_i64 (KeepAliveTimeInMillis c) ∧
  is_i64 (MonitoringPeriodInMillis c).

(** The fields are in the ranges the pool needs. *)
Definition poolconf_valid (c : PoolConf) : Prop :=
  (0 < MaxNumberOfWorker c ∧ 0 <= MinNumberOfWorker c <= MaxNumberOfWorker c ∧
   0 <= QueueSize c ∧ 0 < KeepAliveTimeInMillis c ∧ 0 < MonitoringPeriodInMillis c)%Z.
