(* ===== verification/WorkerPool.v ===== *)
(** * worker_pool/: the worker pool as a labelled transition system.

    The state [pool] holds the fields of [workerPool] and the program counter
    of every goroutine that touches them: the callers of [Start], [Stop] and
    [Submit], the workers, [run] and [monitorMetrics]. A label names the
    goroutine that moves and resolves its [select]; [step] executes the move.
    What a goroutine does while it holds [numberOfWorkerMu] is one move;
    [startStopMu] is part of the state, because its holders interleave with
    the other goroutines. *)

From stdpp Require Import base list numbers strings gmap.
From S2P Require Import Prelude Configuration.
Local Open Scope Z_scope.

Definition maxNumberOfWorker : Z := 12.

Definition minNumberOfWorker : Z := 4.

Definition queueSize : Z := 0.

Definition keepAliveTimeInMillis : Z := 6000.

Definition monitoringPeriodInMillis : Z := 15000.

(** [time.Millisecond] in nanoseconds, the unit of [time.Duration]. *)
Definition Millisecond : Z := 1000000.

Inductive panic_reason : Type :=
  | PanicCloseOfClosed
  | PanicSendOnClosed
  | PanicNegativeWaitGroup
  | PanicNonPositiveTicker
  | PanicInJob.

(** Why a caller got an error back. *)
Inductive pool_error : Type :=
  | ErrAlreadyRunning
  | ErrNotRunning
  | ErrNotWorking.

(** ** [New]: the configuration the pool runs with *)

Section New.

Definition set_max (v : Z) (c : PoolConf) : PoolConf :=
  mkPoolConf v (MinNumberOfWorker c) (QueueSize c)
    (KeepAliveTimeInMillis c) (MonitoringPeriodInMillis c).

Definition set_min (v : Z) (c : PoolConf) : PoolConf :=
  mkPoolConf (MaxNumberOfWorker c) v (QueueSize c)
    (KeepAliveTimeInMillis c) (MonitoringPeriodInMillis c).

Definition set_queue_size (v : Z) (c : PoolConf) : PoolConf :=
  mkPoolConf (MaxNumberOfWorker c) (MinNumberOfWorker c) v
    (KeepAliveTimeInMillis c) (MonitoringPeriodInMillis c).

Definition set_keep_alive (v : Z) (c : PoolConf) : PoolConf :=
  mkPoolConf (MaxNumberOfWorker c) (MinNumberOfWorker c) (QueueSize c)
    v (MonitoringPeriodInMillis c).

Definition set_monitoring (v : Z) (c : PoolConf) : PoolConf :=
  mkPoolConf (MaxNumberOfWorker c) (MinNumberOfWorker c) (QueueSize c)
    (KeepAliveTimeInMillis c) v.

(** The six guards of [New], in their order; the configuration is shared with
    the caller, so the result is also the caller's configuration. *)
Definition validate_conf (c : PoolConf) : PoolConf :=
  let c := if MaxNumberOfWorker c <=? 0 then set_max maxNumberOfWorker c else c in
  let c := if MinNumberOfWorker c <? 0 then set_min minNumberOfWorker c else c in
  let c := if MinNumberOfWorker c >? MaxNumberOfWorker c
           then set_min (MaxNumberOfWorker c) c else c in
  let c := if QueueSize c <? 0 then set_queue_size queueSize c else c in
  let c := if KeepAliveTimeInMillis c <=? 0
           then set_keep_alive keepAliveTimeInMillis c else c in
  if MonitoringPeriodInMillis c <=? 0
  then set_monitoring monitoringPeriodInMillis c else c.

End New.

(** ** Program counters *)

Section Pool.
Context {J : Type}.

(** A worker goroutine, [worker.work] (worker.go). *)
Inductive worker_pc : Type :=
  | WSpawned (initialJob : option J)
  | WDoJob (j : J)          (* doJob: before AddNumberOfIdleWorker(-1) *)
  | WExecuting (j : J)      (* inside job.Execute() *)
  | WJobDone                (* before the deferred AddNumberOfIdleWorker(1) *)
  | WSelect                 (* evaluating the select *)
  | WParked                 (* blocked in the select *)
  | WQuitting               (* before AddNumberOfCurrentAndIdleWorker(-1) *)
  | WTicked                 (* before CompareAndDecrementCurrentWorker() *)
  | WReturning              (* before the deferred workersWg.Done() *)
  | WExited.

(** What [Submit] gives back. *)
Definition submit_result : Type := bool * option pool_error.

(** A goroutine that calls an exported method. *)
Inductive caller_pc : Type :=
  | CSubmit (j : J)               (* before startStopMu.RLock() *)
  | CSubmitCheck (j : J)          (* before the test of isRunning *)
  | CSubmitSelect (j : J)         (* at the select *)
  | CSubmitGrow (j : J)           (* before CompareAndIncrementCurrentWorker() *)
  | CSubmitWgAdd (j : J)          (* before workersWg.Add(1) *)
  | CSubmitSpawn (j : J)          (* before go func() *)
  | CSubmitRet (r : submit_result)  (* before the deferred RUnlock() *)
  | CSubmitted (r : submit_result)
  | CStart                        (* before startStopMu.Lock() *)
  | CStartCheck                   (* before the test of isRunning *)
  | CStartGo                      (* before go wp.run(); go wp.monitorMetrics() *)
  | CStartSet                     (* before isRunning = true *)
  | CStartAdd                     (* before AddNumberOfCurrentAndIdleWorker(num) *)
  | CStartWgAdd                   (* before workersWg.Add(int(num)) *)
  | CStartSpawn (i : Z)           (* the for loop of addInitialWorkers *)
  | CStartRet (r : option pool_error)
  | CStarted (r : option pool_error)
  | CStop
  | CStopCheck
  | CStopSet                      (* before isRunning = false *)
  | CStopClose                    (* before close(wp.quit) *)
  | CStopWait                     (* workersWg.Wait() *)
  | CStopRet (r : option pool_error)
  | CStopped (r : option pool_error).

(** The goroutine [wp.run]. *)
Inductive runner_pc : Type :=
  | RSelect
  | RClose                        (* before close(wp.jobQueue) *)
  | RWait
  | RExited.

(** The goroutine [wp.monitorMetrics]. *)
Inductive monitor_pc : Type :=
  | MStart
  | MLoop
  | MExited.

(** ** The state *)

Record pool : Type := mkPool {
  poolConf : PoolConf;
  numberOfCurrentWorker : Z;
  numberOfIdleWorker : Z;
  jobQueue : list J;
  jobQueueClosed : bool;
  quit : bool;                    (* closed? *)
  quitNow : bool;                 (* closed? *)
  isRunning : bool;
  workersWg : Z;
  muWriter : bool;                (* startStopMu is write-locked *)
  muReaders : Z;                  (* read locks held on startStopMu *)
  workers : list worker_pc;
  callers : list caller_pc;
  runners : list runner_pc;
  monitors : list monitor_pc;
  panicked : option panic_reason;
  (* history: not part of the program's state *)
  nstarts : Z;                    (* Start calls that passed their check *)
  accepted : list J;              (* jobs Submit committed to *)
  executed : list J               (* jobs whose Execute returned *)
}.

Definition set_counters (cur idl : Z) (s : pool) : pool :=
  mkPool (poolConf s) cur idl (jobQueue s) (jobQueueClosed s) (quit s) (quitNow s)
    (isRunning s) (workersWg s) (muWriter s) (muReaders s) (workers s) (callers s)
    (runners s) (monitors s) (panicked s) (nstarts s) (accepted s) (executed s).

Definition set_queue (q : list J) (closed : bool) (s : pool) : pool :=
  mkPool (poolConf s) (numberOfCurrentWorker s) (numberOfIdleWorker s) q closed
    (quit s) (quitNow s) (isRunning s) (workersWg s) (muWriter s) (muReaders s)
    (workers s) (callers s) (runners s) (monitors s) (panicked s) (nstarts s)
    (accepted s) (executed s).

Definition set_life (running q : bool) (s : pool) : pool :=
  mkPool (poolConf s) (numberOfCurrentWorker s) (numberOfIdleWorker s) (jobQueue s)
    (jobQueueClosed s) q (quitNow s) running (workersWg s) (muWriter s) (muReaders s)
    (workers s) (callers s) (runners s) (monitors s) (panicked s) (nstarts s)
    (accepted s) (executed s).

Definition set_wg (n : Z) (s : pool) : pool :=
  mkPool (poolConf s) (numberOfCurrentWorker s) (numberOfIdleWorker s) (jobQueue s)
    (jobQueueClosed s) (quit s) (quitNow s) (isRunning s) n (muWriter s) (muReaders s)
    (workers s) (callers s) (runners s) (monitors s) (panicked s) (nstarts s)
    (accepted s) (executed s).

Definition set_mu (w : bool) (r : Z) (s : pool) : pool :=
  mkPool (poolConf s) (numberOfCurrentWorker s) (numberOfIdleWorker s) (jobQueue s)
    (jobQueueClosed s) (quit s) (quitNow s) (isRunning s) (workersWg s) w r
    (workers s) (callers s) (runners s) (monitors s) (panicked s) (nstarts s)
    (accepted s) (executed s).

Definition set_workers (ws : list worker_pc) (s : pool) : pool :=
  mkPool (poolConf s) (numberOfCurrentWorker s) (numberOfIdleWorker s) (jobQueue s)
    (jobQueueClosed s) (quit s) (quitNow s) (isRunning s) (workersWg s) (muWriter s)
    (muReaders s) ws (callers s) (runners s) (monitors s) (panicked s) (nstarts s)
    (accepted s) (executed s).

Definition set_callers (cs : list caller_pc) (s : pool) : pool :=
  mkPool (poolConf s) (numberOfCurrentWorker s) (numberOfIdleWorker s) (jobQueue s)
    (jobQueueClosed s) (quit s) (quitNow s) (isRunning s) (workersWg s) (muWriter s)
    (muReaders s) (workers s) cs (runners s) (monitors s) (panicked s) (nstarts s)
    (accepted s) (executed s).

Definition set_service (rs : list runner_pc) (ms : list monitor_pc) (s : pool) : pool :=
  mkPool (poolConf s) (numberOfCurrentWorker s) (numberOfIdleWorker s) (jobQueue s)
    (jobQueueClosed s) (quit s) (quitNow s) (isRunning s) (workersWg s) (muWriter s)
    (muReaders s) (workers s) (callers s) rs ms (panicked s) (nstarts s)
    (accepted s) (executed s).

Definition panic (why : panic_reason) (s : pool) : pool :=
  mkPool (poolConf s) (numberOfCurrentWorker s) (numberOfIdleWorker s) (jobQueue s)
    (jobQueueClosed s) (quit s) (quitNow s) (isRunning s) (workersWg s) (muWriter s)
    (muReaders s) (workers s) (callers s) (runners s) (monitors s) (Some why)
    (nstarts s) (accepted s) (executed s).

Definition set_history (n : Z) (acc exe : list J) (s : pool) : pool :=
  mkPool (poolConf s) (numberOfCurrentWorker s) (numberOfIdleWorker s) (jobQueue s)
    (jobQueueClosed s) (quit s) (quitNow s) (isRunning s) (workersWg s) (muWriter s)
    (muReaders s) (workers s) (callers s) (runners s) (monitors s) (panicked s)
    n acc exe.

Definition accept (j : J) (s : pool) : pool :=
  set_history (nstarts s) (accepted s ++ [j]) (executed s) s.

(** [New]. *)
Definition New (c : PoolConf) : pool :=
  mkPool (validate_conf c) 0 0 [] false false false false 0 false 0 [] [] [] []
    None 0 [] [].

(** ** The counters (worker_pool.go, under numberOfWorkerMu) *)

Definition NumberOfAvailableWorker (s : pool) : Z :=
  i32 (i32 (MaxNumberOfWorker (poolConf s) - numberOfCurrentWorker s)
       + numberOfIdleWorker s).

Definition AddNumberOfCurrentAndIdleWorker (num : Z) (s : pool) : pool :=
  set_counters (i32 (numberOfCurrentWorker s + num)) (i32 (numberOfIdleWorker s + num)) s.

Definition AddNumberOfIdleWorker (num : Z) (s : pool) : pool :=
  set_counters (numberOfCurrentWorker s) (i32 (numberOfIdleWorker s + num)) s.

Definition CompareAndIncrementCurrentWorker (s : pool) : bool * pool :=
  if numberOfCurrentWorker s <? MaxNumberOfWorker (poolConf s)
  then (true, AddNumberOfCurrentAndIdleWorker 1 s)
  else (false, s).

Definition CompareAndDecrementCurrentWorker (s : pool) : bool * pool :=
  if numberOfCurrentWorker s >? MinNumberOfWorker (poolConf s)
  then (true, AddNumberOfCurrentAndIdleWorker (-1) s)
  else (false, s).

(** [workersWg.Add]: a negative counter panics. *)
Definition wg_add (n : Z) (s : pool) : pool :=
  if workersWg s + n <? 0 then panic PanicNegativeWaitGroup s
  else set_wg (workersWg s + n) s.

(** ** Labels *)

Inductive call : Type :=
  | DoStart
  | DoStop
  | DoSubmit (j : J).

(** How a worker moves: it runs to its next program point, its job panics, or
    it resolves its select. *)
Inductive wchoice : Type :=
  | WRun
  | WExecPanic
  | WRecv
  | WPark
  | WTick
  | WQuitNow.

Inductive label : Type :=
  | Invoke (c : call)
  | Caller (i : nat) (k : nat)    (* [k]: the parked worker a send may meet *)
  | Worker (i : nat) (c : wchoice)
  | Runner (i : nat)
  | Monitor (i : nat).

(** ** The worker *)

Definition to_worker (i : nat) (w : worker_pc) (s : pool) : pool :=
  set_workers (<[i := w]> (workers s)) s.

Definition is_dynamic (s : pool) : bool :=
  negb (MinNumberOfWorker (poolConf s) =? MaxNumberOfWorker (poolConf s)).

(** [KeepAliveTimeInMillis * time.Millisecond], a product of [int64]s. *)
Definition keepAliveTime (s : pool) : Z :=
  i64 (KeepAliveTimeInMillis (poolConf s) * Millisecond).

(** The select of [runWithDynamicNumberOfWorker] waits on a new ticker, and
    [time.NewTicker] panics on a non-positive period; the select of
    [runWithFixedNumberOfWorker] has no ticker. *)
Definition to_select (i : nat) (s : pool) : pool :=
  if is_dynamic s && (keepAliveTime s <=? 0) then panic PanicNonPositiveTicker s
  else to_worker i WSelect s.

Definition worker_run (i : nat) (w : worker_pc) (s : pool) : option pool :=
  match w with
  | WSpawned None => Some (to_select i s)
  | WSpawned (Some j) => Some (to_worker i (WDoJob j) s)
  | WDoJob j => Some (to_worker i (WExecuting j) (AddNumberOfIdleWorker (-1) s))
  | WExecuting j =>
      Some (to_worker i WJobDone (set_history (nstarts s) (accepted s) (executed s ++ [j]) s))
  | WJobDone => Some (to_select i (AddNumberOfIdleWorker 1 s))
  | WQuitting => Some (to_worker i WReturning (AddNumberOfCurrentAndIdleWorker (-1) s))
  | WTicked =>
      let '(killed, s') := CompareAndDecrementCurrentWorker s in
      Some (if killed then to_worker i WReturning s' else to_select i s')
  | WReturning => Some (to_worker i WExited (wg_add (-1) s))
  | WSelect | WParked | WExited => None
  end.

(** The select of the two run loops; a dynamic worker has the ticker's case. *)
Definition worker_select (i : nat) (c : wchoice) (parked : bool) (s : pool) : option pool :=
  match c with
  | WRecv =>
      match jobQueue s with
      | j :: q => Some (to_worker i (WDoJob j) (set_queue q (jobQueueClosed s) s))
      | [] => if jobQueueClosed s then Some (to_worker i WQuitting s) else None
      end
  | WTick => if is_dynamic s then Some (to_worker i WTicked s) else None
  | WQuitNow => if quitNow s then Some (to_worker i WQuitting s) else None
  | WPark =>
      if negb parked && (length (jobQueue s) =? 0)%nat && negb (jobQueueClosed s)
         && negb (quitNow s)
      then Some (to_worker i WParked s) else None
  | WRun | WExecPanic => None
  end.

Definition worker_step (i : nat) (c : wchoice) (s : pool) : option pool :=
  match workers s !! i with
  | None => None
  | Some w =>
      match w, c with
      | WSelect, _ => worker_select i c false s
      | WParked, _ => worker_select i c true s
      | WExecuting _, WExecPanic => Some (panic PanicInJob s)
      | _, WRun => worker_run i w s
      | _, _ => None
      end
  end.

(** ** The callers *)

Definition to_caller (i : nat) (c : caller_pc) (s : pool) : pool :=
  set_callers (<[i := c]> (callers s)) s.

Definition is_parked (w : worker_pc) : bool :=
  match w with WParked => true | _ => false end.

(** The select of [Submit]: the send [wp.jobQueue <- job] on a channel of
    capacity [QueueSize]. An unbuffered channel hands the job to a worker
    blocked in its select; the default case runs when the send cannot. *)
Definition submit_default (i : nat) (j : J) (s : pool) : pool :=
  if MaxNumberOfWorker (poolConf s) =? MinNumberOfWorker (poolConf s)
  then to_caller i (CSubmitRet (false, None)) s
  else to_caller i (CSubmitGrow j) s.

Definition submit_select (i k : nat) (j : J) (s : pool) : option pool :=
  let sent := to_caller i (CSubmitRet (true, None)) (accept j s) in
  if jobQueueClosed s then Some (panic PanicSendOnClosed s)
  else if 0 <? QueueSize (poolConf s) then
    if Z.of_nat (length (jobQueue s)) <? QueueSize (poolConf s)
    then Some (set_queue (jobQueue s ++ [j]) false sent)
    else Some (submit_default i j s)
  else if existsb is_parked (workers s) then
    match workers s !! k with
    | Some WParked => Some (to_worker k (WDoJob j) sent)
    | _ => None
    end
  else Some (submit_default i j s).

Definition submit_step (i k : nat) (c : caller_pc) (s : pool) : option pool :=
  match c with
  | CSubmit j =>
      if muWriter s then None
      else Some (to_caller i (CSubmitCheck j) (set_mu false (muReaders s + 1) s))
  | CSubmitCheck j =>
      Some (to_caller i (if isRunning s then CSubmitSelect j
                         else CSubmitRet (false, Some ErrNotWorking)) s)
  | CSubmitSelect j => submit_select i k j s
  | CSubmitGrow j =>
      let '(grown, s') := CompareAndIncrementCurrentWorker s in
      Some (if grown then to_caller i (CSubmitWgAdd j) (accept j s')
            else to_caller i (CSubmitRet (false, None)) s')
  | CSubmitWgAdd j => Some (to_caller i (CSubmitSpawn j) (wg_add 1 s))
  | CSubmitSpawn j =>
      Some (to_caller i (CSubmitRet (true, None))
              (set_workers (workers s ++ [WSpawned (Some j)]) s))
  | CSubmitRet r =>
      Some (to_caller i (CSubmitted r) (set_mu (muWriter s) (muReaders s - 1) s))
  | _ => None
  end.

Definition start_step (i : nat) (c : caller_pc) (s : pool) : option pool :=
  let num := MinNumberOfWorker (poolConf s) in
  match c with
  | CStart =>
      if muWriter s || (0 <? muReaders s) then None
      else Some (to_caller i CStartCheck (set_mu true (muReaders s) s))
  | CStartCheck =>
      Some (if isRunning s then to_caller i (CStartRet (Some ErrAlreadyRunning)) s
            else to_caller i CStartGo
                   (set_history (nstarts s + 1) (accepted s) (executed s) s))
  | CStartGo =>
      Some (to_caller i CStartSet
              (set_service (runners s ++ [RSelect]) (monitors s ++ [MStart]) s))
  | CStartSet => Some (to_caller i CStartAdd (set_life true (quit s) s))
  | CStartAdd => Some (to_caller i CStartWgAdd (AddNumberOfCurrentAndIdleWorker num s))
  | CStartWgAdd => Some (to_caller i (CStartSpawn 0) (wg_add num s))
  | CStartSpawn n =>
      Some (if n <? num
            then to_caller i (CStartSpawn (n + 1))
                   (set_workers (workers s ++ [WSpawned None]) s)
            else to_caller i (CStartRet None) s)
  | CStartRet r => Some (to_caller i (CStarted r) (set_mu false (muReaders s) s))
  | _ => None
  end.

Definition stop_step (i : nat) (c : caller_pc) (s : pool) : option pool :=
  match c with
  | CStop =>
      if muWriter s || (0 <? muReaders s) then None
      else Some (to_caller i CStopCheck (set_mu true (muReaders s) s))
  | CStopCheck =>
      Some (to_caller i (if isRunning s then CStopSet
                         else CStopRet (Some ErrNotRunning)) s)
  | CStopSet => Some (to_caller i CStopClose (set_life false (quit s) s))
  | CStopClose =>
      Some (if quit s then panic PanicCloseOfClosed s
            else to_caller i CStopWait (set_life (isRunning s) true s))
  | CStopWait => if workersWg s =? 0 then Some (to_caller i (CStopRet None) s) else None
  | CStopRet r => Some (to_caller i (CStopped r) (set_mu false (muReaders s) s))
  | _ => None
  end.

Definition caller_step (i k : nat) (s : pool) : option pool :=
  match callers s !! i with
  | None => None
  | Some c =>
      match submit_step i k c s with
      | Some s' => Some s'
      | None =>
          match start_step i c s with
          | Some s' => Some s'
          | None => stop_step i c s
          end
      end
  end.

(** ** [run] and [monitorMetrics] *)

Definition runner_step (i : nat) (s : pool) : option pool :=
  let to r := set_service (<[i := r]> (runners s)) (monitors s) in
  match runners s !! i with
  | Some RSelect =>
      if quit s then Some (to RClose s) else if quitNow s then Some (to RExited s) else None
  | Some RClose =>
      Some (if jobQueueClosed s then panic PanicCloseOfClosed s
            else to RWait (set_queue (jobQueue s) true s))
  | Some RWait => if workersWg s =? 0 then Some (to RExited s) else None
  | _ => None
  end.

Definition monitoringPeriod (s : pool) : Z :=
  i64 (MonitoringPeriodInMillis (poolConf s) * Millisecond).

Definition monitor_step (i : nat) (s : pool) : option pool :=
  let to m := set_service (runners s) (<[i := m]> (monitors s)) in
  match monitors s !! i with
  | Some MStart =>
      Some (if MonitoringPeriodInMillis (poolConf s) =? 0 then to MExited s
            else if monitoringPeriod s <=? 0 then panic PanicNonPositiveTicker s
            else to MLoop s)
  | Some MLoop => if quit s then Some (to MExited s) else Some s
  | _ => None
  end.

Definition invoke (c : call) (s : pool) : pool :=
  set_callers (callers s ++
    [match c with DoStart => CStart | DoStop => CStop | DoSubmit j => CSubmit j end]) s.

(** A process that panicked makes no further move. *)
Definition step (l : label) (s : pool) : option pool :=
  match panicked s with
  | Some _ => None
  | None =>
      match l with
      | Invoke c => Some (invoke c s)
      | Caller i k => caller_step i k s
      | Worker i c => worker_step i c s
      | Runner i => runner_step i s
      | Monitor i => monitor_step i s
      end
  end.

(** Running a schedule. *)
Fixpoint exec (ls : list label) (s : pool) : option pool :=
  match ls with
  | [] => Some s
  | l :: ls => match step l s with Some s' => exec ls s' | None => None end
  end.

Definition reachable (c : PoolConf) (s : pool) : Prop :=
  ∃ ls, exec ls (New c) = Some s.

End Pool.

Arguments worker_pc : clear implicits.
Arguments caller_pc : clear implicits.
Arguments pool : clear implicits.
Arguments call : clear implicits.
Arguments label : clear implicits.
