(* ===== verification/WorkerPoolInv.v ===== *)
(** * The invariant of the worker pool's transition system.

    Every clause is linear arithmetic over the counters, the lengths of the
    queue and of the worker list, and sums over the goroutines of what each
    program counter contributes; [lia] proves its preservation. *)

From stdpp Require Import base list numbers strings gmap.
From Stdlib Require Import Lia ZifyBool ZifyNat.
From S2P Require Import Prelude Configuration WorkerPool.
Local Open Scope Z_scope.

Section Classes.
Context {J : Type}.

(** What a worker contributes to [numberOfCurrentWorker]. *)
Definition w_counted (w : worker_pc J) : Z :=
  match w with WReturning | WExited => 0 | _ => 1 end.

(** The worker is between the two updates of [numberOfIdleWorker] in [doJob]. *)
Definition w_busy (w : worker_pc J) : Z :=
  match w with WExecuting _ | WJobDone => 1 | _ => 0 end.

(** The worker has not called [workersWg.Done()]. *)
Definition w_live (w : worker_pc J) : Z :=
  match w with WExited => 0 | _ => 1 end.

Definition w_quitting (w : worker_pc J) : Z :=
  match w with WQuitting => 1 | _ => 0 end.

(** [Submit] after its test of [isRunning], and the parts of its progress. *)
Definition c_inside (c : caller_pc J) : Z :=
  match c with
  | CSubmitSelect _ | CSubmitGrow _ | CSubmitWgAdd _ | CSubmitSpawn _ => 1
  | _ => 0
  end.

Definition c_submit_edge (c : caller_pc J) : Z :=
  match c with CSubmitCheck _ | CSubmitRet _ => 1 | _ => 0 end.

Definition c_grown (c : caller_pc J) : Z :=
  match c with CSubmitWgAdd _ | CSubmitSpawn _ => 1 | _ => 0 end.

Definition c_start_pre (c : caller_pc J) : Z :=
  match c with CStartGo | CStartSet | CStartAdd => 1 | _ => 0 end.

Definition c_start_go (c : caller_pc J) : Z :=
  match c with CStartGo => 1 | _ => 0 end.

Definition c_start_post (c : caller_pc J) : Z :=
  match c with CStartWgAdd | CStartSpawn _ => 1 | _ => 0 end.

Definition c_start_edge (c : caller_pc J) : Z :=
  match c with CStartCheck | CStartRet _ => 1 | _ => 0 end.

Definition c_stop_set (c : caller_pc J) : Z :=
  match c with CStopSet => 1 | _ => 0 end.

Definition c_stop_close (c : caller_pc J) : Z :=
  match c with CStopClose => 1 | _ => 0 end.

Definition c_stop_wait (c : caller_pc J) : Z :=
  match c with CStopWait => 1 | _ => 0 end.

Definition c_stop_edge (c : caller_pc J) : Z :=
  match c with CStopCheck | CStopRet _ => 1 | _ => 0 end.

(** [Stop] got past its [Wait] (and may have returned). *)
Definition c_stopped (c : caller_pc J) : Z :=
  match c with CStopRet None | CStopped None => 1 | _ => 0 end.

(** Workers counted, resp. added to the wait group, but not yet spawned. *)
Definition c_current (num : Z) (c : caller_pc J) : Z :=
  match c with
  | CSubmitWgAdd _ | CSubmitSpawn _ => 1
  | CStartWgAdd => num
  | CStartSpawn i => Z.max 0 (num - i)
  | _ => 0
  end.

Definition c_wg (num : Z) (c : caller_pc J) : Z :=
  match c with
  | CSubmitSpawn _ => 1
  | CStartSpawn i => Z.max 0 (num - i)
  | _ => 0
  end.

Definition r_open (r : runner_pc) : Z :=
  match r with RSelect | RClose => 1 | _ => 0 end.

Definition r_closing (r : runner_pc) : Z :=
  match r with RClose => 1 | _ => 0 end.

(** A configuration [New] can leave, whose periods do not overflow a
    [time.Duration] in nanoseconds. *)
Definition conf_ok (c : PoolConf) : Prop :=
  0 < MaxNumberOfWorker c <= max_i32 ∧
  0 <= MinNumberOfWorker c <= MaxNumberOfWorker c ∧
  0 <= QueueSize c ∧
  0 < KeepAliveTimeInMillis c * Millisecond <= max_i64 ∧
  0 < MonitoringPeriodInMillis c * Millisecond <= max_i64.

Record Inv (s : pool J) : Prop := {
  inv_conf : conf_ok (poolConf s);
  inv_panicked : panicked s = None;
  inv_nstarts : 0 <= nstarts s <= 1;
  inv_current : numberOfCurrentWorker s =
    sumZ w_counted (workers s) +
    sumZ (c_current (MinNumberOfWorker (poolConf s))) (callers s);
  inv_idle : numberOfIdleWorker s = numberOfCurrentWorker s - sumZ w_busy (workers s);
  inv_wg : workersWg s =
    sumZ w_live (workers s) + sumZ (c_wg (MinNumberOfWorker (poolConf s))) (callers s);
  inv_readers : muReaders s = sumZ c_inside (callers s) + sumZ c_submit_edge (callers s);
  inv_writer : Z.b2z (muWriter s) =
    sumZ c_start_pre (callers s) + sumZ c_start_post (callers s) +
    sumZ c_start_edge (callers s) + sumZ c_stop_set (callers s) +
    sumZ c_stop_close (callers s) + sumZ c_stop_wait (callers s) +
    sumZ c_stop_edge (callers s);
  inv_exclusive : muWriter s = true → muReaders s = 0;
  inv_max : 0 <= numberOfCurrentWorker s <= MaxNumberOfWorker (poolConf s);
  inv_inside : 0 < sumZ c_inside (callers s) → isRunning s = true;
  inv_running : isRunning s = true → quit s = false ∧ nstarts s = 1;
  inv_quit : quit s = true → nstarts s = 1;
  inv_closed : jobQueueClosed s = true → quit s = true;
  inv_runners : sumZ r_open (runners s) + Z.b2z (jobQueueClosed s) +
    sumZ c_start_go (callers s) = nstarts s;
  inv_closing : 0 < sumZ r_closing (runners s) → quit s = true;
  inv_stop_set : 0 < sumZ c_stop_set (callers s) → isRunning s = true;
  inv_stop_close : 0 < sumZ c_stop_close (callers s) →
    isRunning s = false ∧ quit s = false ∧ nstarts s = 1;
  inv_stop_wait : 0 < sumZ c_stop_wait (callers s) → quit s = true ∧ isRunning s = false;
  inv_starting : 0 < sumZ c_start_pre (callers s) + sumZ c_start_post (callers s) →
    quit s = false ∧ nstarts s = 1;
  inv_fresh : nstarts s = 0 ∨ 0 < sumZ c_start_pre (callers s) →
    length (workers s) = 0%nat ∧ numberOfCurrentWorker s = 0 ∧
    length (jobQueue s) = 0%nat;
  inv_capacity : Z.of_nat (length (jobQueue s)) <= QueueSize (poolConf s);
  inv_quitting : 0 < sumZ w_quitting (workers s) →
    jobQueueClosed s = true ∧ length (jobQueue s) = 0%nat;
  inv_min : numberOfCurrentWorker s < MinNumberOfWorker (poolConf s) →
    (nstarts s = 0 ∨ 0 < sumZ c_start_pre (callers s)) ∨
    (jobQueueClosed s = true ∧ length (jobQueue s) = 0%nat);
  inv_stopped : 0 < sumZ c_stopped (callers s) →
    workersWg s = 0 ∧ quit s = true ∧ isRunning s = false;
  inv_quitNow : quitNow s = false
}.

(** ** What a single goroutine says about the sums *)

End Classes.

(** Compares what two classes say about each program counter. *)
Ltac by_pc :=
  let x := fresh in intros x;
  destruct x; unfold w_busy, w_counted, w_live, w_quitting, c_inside, c_submit_edge,
    c_grown, c_start_pre, c_start_go, c_start_post, c_start_edge, c_stop_set,
    c_stop_close, c_stop_wait, c_stop_edge, c_stopped, c_current, c_wg, r_open,
    r_closing; repeat case_match; lia.

Ltac sum_nonneg := apply sumZ_nonneg; by_pc.

Section Facts.
Context {J : Type}.

Lemma worker_facts (l : list (worker_pc J)) :
  0 <= sumZ w_busy l <= sumZ w_counted l ∧ sumZ w_counted l <= sumZ w_live l ∧
  0 <= sumZ w_quitting l <= sumZ w_counted l.
Proof.
  repeat split; first [sum_nonneg | apply sumZ_mono; by_pc].
Qed.

Lemma worker_at (l : list (worker_pc J)) i w : l !! i = Some w →
  w_busy w <= sumZ w_busy l ∧ w_counted w <= sumZ w_counted l ∧
  w_live w <= sumZ w_live l ∧ w_quitting w <= sumZ w_quitting l.
Proof. intros H. repeat split; (eapply sumZ_lookup_le; [by_pc|done]). Qed.

Lemma c_current_none num (l : list (caller_pc J)) : 0 <= num →
  sumZ c_inside l = 0 → sumZ c_start_post l = 0 →
  sumZ (c_current num) l = 0.
Proof.
  intros Hnum. induction l as [|c l IH]; [done|]. simpl.
  assert (0 <= sumZ c_inside l) by sum_nonneg.
  assert (0 <= sumZ c_start_post l) by sum_nonneg.
  destruct c; unfold c_current, c_inside, c_start_post in *; lia.
Qed.

Lemma caller_facts num (l : list (caller_pc J)) : 0 <= num →
  (0 <= sumZ c_inside l ∧ 0 <= sumZ c_submit_edge l ∧
   0 <= sumZ c_start_go l <= sumZ c_start_pre l ∧
   0 <= sumZ c_start_post l ∧ 0 <= sumZ c_start_edge l ∧ 0 <= sumZ c_stop_set l) ∧
  (0 <= sumZ c_stop_close l ∧ 0 <= sumZ c_stop_wait l ∧ 0 <= sumZ c_stop_edge l ∧
   0 <= sumZ c_stopped l ∧ 0 <= sumZ (c_wg num) l <= sumZ (c_current num) l ∧
   (sumZ c_inside l = 0 → sumZ c_start_post l = 0 → sumZ (c_current num) l = 0)).
Proof.
  intros Hnum.
  repeat split; first [sum_nonneg | apply sumZ_mono; by_pc | by apply c_current_none].
Qed.

Lemma caller_at num (l : list (caller_pc J)) i c : 0 <= num → l !! i = Some c →
  (c_inside c <= sumZ c_inside l ∧ c_submit_edge c <= sumZ c_submit_edge l ∧
   c_start_go c <= sumZ c_start_go l ∧ c_start_pre c <= sumZ c_start_pre l ∧
   c_start_post c <= sumZ c_start_post l ∧ c_start_edge c <= sumZ c_start_edge l) ∧
  (c_stop_set c <= sumZ c_stop_set l ∧ c_stop_close c <= sumZ c_stop_close l ∧
   c_stop_wait c <= sumZ c_stop_wait l ∧ c_stop_edge c <= sumZ c_stop_edge l ∧
   c_stopped c <= sumZ c_stopped l ∧ c_wg num c <= sumZ (c_wg num) l ∧
   c_current num c <= sumZ (c_current num) l).
Proof.
  intros Hnum H. repeat split; (eapply sumZ_lookup_le; [by_pc|done]).
Qed.

Lemma runner_facts l : 0 <= sumZ r_closing l <= sumZ r_open l.
Proof. split; [sum_nonneg|apply sumZ_mono; by_pc]. Qed.

Lemma runner_at l i r : l !! i = Some r →
  r_open r <= sumZ r_open l ∧ r_closing r <= sumZ r_closing l.
Proof. intros H. split; (eapply sumZ_lookup_le; [by_pc|done]). Qed.

Lemma worker_length (l : list (worker_pc J)) i w :
  l !! i = Some w → (0 < length l)%nat.
Proof. intros H%lookup_lt_Some. lia. Qed.

Lemma to_select_ok i (s : pool J) :
  conf_ok (poolConf s) → to_select i s = to_worker i WSelect s.
Proof.
  intros (?&?&?&Hk&?). unfold to_select, keepAliveTime.
  rewrite i64_id by (unfold is_i64, max_i64 in *; lia).
  by replace (_ <=? 0) with false by lia; rewrite andb_false_r.
Qed.

End Facts.

(** ** Preservation *)

(** Puts the facts about the moving goroutines and about all sums in the
    context, and reduces every clause of the successor's invariant to linear
    arithmetic. *)
Ltac pool_facts s :=
  let num := constr:(MinNumberOfWorker (poolConf s)) in
  assert (0 <= num) by (match goal with H : conf_ok _ |- _ => unfold conf_ok in H; lia end);
  pose proof (caller_facts num (callers s) ltac:(assumption));
  pose proof (worker_facts (workers s));
  pose proof (runner_facts (runners s));
  repeat match goal with
  | H : callers s !! _ = Some _ |- _ =>
      pose proof (caller_at num _ _ _ ltac:(assumption) H); revert H
  | H : workers s !! _ = Some _ |- _ =>
      pose proof (worker_at _ _ _ H); pose proof (worker_length _ _ _ H); revert H
  | H : runners s !! _ = Some _ |- _ => pose proof (runner_at _ _ _ H); revert H
  end;
  intros.

Ltac sums :=
  repeat match goal with
  | |- context [sumZ ?f (<[?i:=?y]> ?l)] => erewrite (sumZ_insert f l i) by eassumption
  | |- context [sumZ ?f (?l1 ++ ?l2)] => rewrite (sumZ_app f l1 l2)
  | |- context [length (_ ++ _)] => rewrite length_app
  | |- context [length (<[_:=_]> _)] => rewrite length_insert
  end;
  cbn [sumZ w_counted w_busy w_live w_quitting c_inside c_submit_edge c_grown c_start_pre
       c_start_go c_start_post c_start_edge c_stop_set c_stop_close c_stop_wait
       c_stop_edge c_stopped c_current c_wg r_open r_closing length].

(** [lia] without the implications among the hypotheses, whose case splits
    most clauses do not need; then with the clause's own implication; then
    with all of them. *)
Ltac lia_plain :=
  repeat match goal with
  | H : (?P → ?Q) |- _ => match type of P with Prop => clear H end
  | H : _ ∧ (_ ∧ _ ∧ _ ∧ _ ∧ _ ∧ _) |- _ => destruct_and! H
  end; lia.

Ltac clause :=
  first
  [ assumption
  | lia_plain
  | let HP := fresh in intros HP;
    match goal with H : ?P → ?Q |- ?Q => apply H; lia_plain end
  | lia ].

(** Proves that the state in the goal, reached from [s] by one move, satisfies
    the invariant. *)
Ltac preserve s :=
  pool_facts s;
  unfold accept, AddNumberOfIdleWorker, AddNumberOfCurrentAndIdleWorker, set_counters,
    to_worker, to_caller, set_workers, set_callers, set_mu, set_wg, set_life,
    set_queue, set_service, set_history in *;
  cbn [poolConf numberOfCurrentWorker numberOfIdleWorker jobQueue
    jobQueueClosed quit quitNow isRunning workersWg muWriter muReaders workers callers
    runners monitors panicked nstarts accepted executed
    w_counted w_busy w_live w_quitting c_inside c_submit_edge c_grown c_start_pre
    c_start_go c_start_post c_start_edge c_stop_set c_stop_close c_stop_wait
    c_stop_edge c_stopped c_current c_wg r_open r_closing length] in *;
  match goal with H : conf_ok _ |- _ => pose proof H; unfold conf_ok in H end;
  rewrite ?i32_id by (unfold is_i32, max_i32 in *; lia);
  constructor;
  cbn [poolConf numberOfCurrentWorker numberOfIdleWorker jobQueue
    jobQueueClosed quit quitNow isRunning workersWg muWriter muReaders workers callers
    runners monitors panicked nstarts accepted executed]; sums;
  try match goal with H : jobQueue s = _ |- _ => rewrite H; cbn [length] end;
  try clause.

Section Preservation.
Context {J : Type}.

Lemma worker_run_inv i w (s s' : pool J) :
  Inv s → workers s !! i = Some w → worker_run i w s = Some s' → Inv s'.
Proof.
  intros HI Hw H. pose proof (inv_conf s HI). destruct HI.
  destruct w as [[j|]|j|j| | | | | | |]; simplify_eq/=;
    rewrite ?to_select_ok by done; try (preserve s; done).
  - unfold CompareAndDecrementCurrentWorker in H.
    destruct (numberOfCurrentWorker s >? _) eqn:E; simplify_eq/=;
      rewrite ?to_select_ok by done; preserve s.
  - unfold wg_add. pose proof (worker_at _ _ _ Hw) as Hat. cbn in Hat.
    pose proof (caller_facts (MinNumberOfWorker (poolConf s)) (callers s)
      ltac:(unfold conf_ok in *; lia)).
    replace (workersWg s + -1 <? 0) with false by lia. preserve s.
Qed.

Lemma worker_select_inv i c (parked : bool) (s s' : pool J) :
  Inv s → workers s !! i = Some (if parked then WParked else WSelect) →
  worker_select i c parked s = Some s' → Inv s'.
Proof.
  intros HI Hw H. pose proof (inv_conf s HI). destruct HI.
  destruct c; simplify_eq/=.
  - destruct (jobQueue s) as [|j q] eqn:Hq; [destruct (jobQueueClosed s) eqn:Hc|];
      simplify_eq; destruct parked; preserve s.
  - destruct (negb parked && _ && _ && _); simplify_eq/=; destruct parked; preserve s.
  - destruct (is_dynamic s); simplify_eq/=; destruct parked; preserve s.
  - destruct (quitNow s); simplify_eq/=; lia.
Qed.

Lemma worker_step_inv i c (s s' : pool J) :
  Inv s → worker_step i c s = Some s' → panicked s' = Some PanicInJob ∨ Inv s'.
Proof.
  intros HI H. unfold worker_step in H.
  destruct (workers s !! i) as [w|] eqn:Hw; [|done].
  destruct w as [[j|]|j|j| | | | | | |];
    first [ right; by eapply (worker_select_inv i c false)
          | right; by eapply (worker_select_inv i c true)
          | destruct c; simplify_eq; first [by left | right; by eapply worker_run_inv] ].
Qed.

Lemma runner_step_inv i (s s' : pool J) : Inv s → runner_step i s = Some s' → Inv s'.
Proof.
  intros HI H. unfold runner_step in H.
  destruct (runners s !! i) as [r|] eqn:Hr; [|done].
  pose proof (inv_conf s HI). destruct HI.
  destruct r; simplify_eq/=.
  - destruct (quit s) eqn:Hquit; [|destruct (quitNow s); [lia|done]]; simplify_eq.
    preserve s.
  - pose proof (runner_at _ _ _ Hr) as Hat. cbn in Hat.
    pose proof (caller_facts (MinNumberOfWorker (poolConf s)) (callers s)
      ltac:(unfold conf_ok in *; lia)).
    destruct (jobQueueClosed s) eqn:Hc; [cbn in *; lia|]. preserve s.
  - destruct (workersWg s =? 0); simplify_eq. preserve s.
Qed.

Lemma monitor_step_inv i (s s' : pool J) : Inv s → monitor_step i s = Some s' → Inv s'.
Proof.
  intros HI H. unfold monitor_step, monitoringPeriod in H.
  pose proof (inv_conf s HI) as (Hm1&Hm2&Hm3&Hm4&Hm5).
  rewrite i64_id in H by (unfold is_i64, max_i64 in *; lia).
  destruct (monitors s !! i) as [[]|] eqn:Hr; [|destruct (quit s)|done|done];
    simplify_eq/=; [|pose proof (inv_conf s HI); destruct HI; preserve s|done].
  replace (MonitoringPeriodInMillis _ =? 0) with false by lia.
  replace (_ <=? 0) with false by lia.
  pose proof (inv_conf s HI); destruct HI; preserve s.
Qed.

Lemma start_step_inv i c (s s' : pool J) :
  Inv s → callers s !! i = Some c → start_step i c s = Some s' →
  nstarts s' <= 1 → Inv s'.
Proof.
  intros HI Hc H Hn. pose proof (inv_conf s HI). destruct HI.
  destruct c; simplify_eq/=.
  - destruct (muWriter s || _) eqn:E; simplify_eq. preserve s.
  - destruct (isRunning s) eqn:E; simplify_eq/=; preserve s.
  - preserve s.
  - preserve s.
  - preserve s.
  - unfold wg_add. replace (_ <? 0) with false by (pool_facts s; lia). preserve s.
  - destruct (i0 <? _) eqn:E; simplify_eq/=; preserve s.
  - preserve s.
Qed.

Lemma stop_step_inv i c (s s' : pool J) :
  Inv s → callers s !! i = Some c → stop_step i c s = Some s' → Inv s'.
Proof.
  intros HI Hc H. pose proof (inv_conf s HI). destruct HI.
  destruct c; simplify_eq/=.
  - destruct (muWriter s || _) eqn:E; simplify_eq. preserve s.
  - destruct (isRunning s) eqn:E; simplify_eq/=; preserve s.
  - preserve s.
  - destruct (quit s) eqn:E; simplify_eq/=; [pool_facts s; cbn in *; lia|]. preserve s.
  - destruct (_ =? 0) eqn:E; simplify_eq/=. preserve s.
  - destruct r; preserve s.
Qed.
Lemma submit_inside_open (s : pool J) i c :
  Inv s → callers s !! i = Some c → c_inside c = 1 →
  jobQueueClosed s = false ∧ nstarts s = 1 ∧ isRunning s = true.
Proof.
  intros HI Hc Hin. pose proof (inv_conf s HI).
  pose proof (caller_at (MinNumberOfWorker (poolConf s)) _ _ _
    ltac:(unfold conf_ok in *; lia) Hc) as [[Hat _] _].
  destruct (inv_running s HI) as [Hq Hn]; [apply (inv_inside s HI); lia|].
  split_and!; [|done|apply (inv_inside s HI); lia].
  destruct (jobQueueClosed s) eqn:E; [|done]. by rewrite (inv_closed s HI E) in Hq.
Qed.

Lemma submit_default_inv i j (s : pool J) :
  Inv s → callers s !! i = Some (CSubmitSelect j) → Inv (submit_default i j s).
Proof.
  intros HI Hc. unfold submit_default. pose proof (inv_conf s HI). destruct HI.
  destruct (_ =? _); preserve s.
Qed.

Lemma submit_select_inv i k j (s s' : pool J) :
  Inv s → callers s !! i = Some (CSubmitSelect j) →
  submit_select i k j s = Some s' → Inv s'.
Proof.
  intros HI Hc H. unfold submit_select in H.
  destruct (submit_inside_open s i _ HI Hc eq_refl) as (Hopen & Hn & Hrun).
  rewrite Hopen in H.
  destruct (0 <? QueueSize _) eqn:Hcap.
  - destruct (Z.of_nat _ <? _) eqn:Hlen; simplify_eq; [|by apply submit_default_inv].
    pose proof (inv_conf s HI). destruct HI. preserve s.
  - destruct (existsb is_parked (workers s)); [|simplify_eq; by apply submit_default_inv].
    destruct (workers s !! k) as [w|] eqn:Hk; [|done]. destruct w; simplify_eq/=.
    pose proof (inv_conf s HI). destruct HI. preserve s.
Qed.

Lemma submit_step_inv i k c (s s' : pool J) :
  Inv s → callers s !! i = Some c → submit_step i k c s = Some s' → Inv s'.
Proof.
  intros HI Hc H. pose proof (inv_conf s HI).
  destruct c; simplify_eq/=.
  - destruct HI. destruct (muWriter s) eqn:E; simplify_eq. preserve s.
  - destruct HI. destruct (isRunning s) eqn:E; preserve s.
  - by eapply submit_select_inv.
  - pose proof (submit_inside_open s i _ HI Hc eq_refl) as (?&?&?). destruct HI.
    unfold CompareAndIncrementCurrentWorker in H.
    destruct (_ <? _) eqn:E; simplify_eq/=; preserve s.
  - pose proof (submit_inside_open s i _ HI Hc eq_refl) as (?&?&?). destruct HI.
    unfold wg_add. replace (_ <? 0) with false by (pool_facts s; lia). preserve s.
  - pose proof (submit_inside_open s i _ HI Hc eq_refl) as (?&?&?). destruct HI. preserve s.
  - destruct HI. preserve s.
Qed.

Lemma caller_step_inv i k (s s' : pool J) :
  Inv s → caller_step i k s = Some s' → nstarts s' <= 1 → Inv s'.
Proof.
  intros HI H Hn. unfold caller_step in H.
  destruct (callers s !! i) as [c|] eqn:Hc; [|done].
  destruct (submit_step i k c s) eqn:H1; simplify_eq; [by eapply submit_step_inv|].
  destruct (start_step i c s) eqn:H2; simplify_eq; [by eapply start_step_inv|].
  by eapply stop_step_inv.
Qed.

Lemma invoke_inv c (s : pool J) : Inv s → Inv (invoke c s).
Proof.
  intros HI. unfold invoke. pose proof (inv_conf s HI). destruct HI.
  destruct c; preserve s.
Qed.

Lemma step_inv l (s s' : pool J) :
  Inv s → step l s = Some s' → nstarts s' <= 1 →
  panicked s' = Some PanicInJob ∨ Inv s'.
Proof.
  intros HI H Hn. unfold step in H. rewrite (inv_panicked s HI) in H.
  destruct l; simplify_eq.
  - right. by apply invoke_inv.
  - right. by eapply caller_step_inv.
  - by eapply worker_step_inv.
  - right. by eapply runner_step_inv.
  - right. by eapply monitor_step_inv.
Qed.
End Preservation.
