(* ===== verification/WorkerPoolProps.v ===== *)
(** * What the worker pool promises: no job is lost or run twice, its counters
    stay within the configured bounds, it never panics in one life cycle, and
    [Stop] drains it. *)

From stdpp Require Import base list numbers strings gmap.
From Stdlib Require Import Lia ZifyBool ZifyNat.
From S2P Require Import Prelude Configuration WorkerPool WorkerPoolInv.
Local Open Scope Z_scope.

Section Specification.
Context {J : Type}.

(** The jobs a worker, resp. a caller, holds. *)
Definition worker_jobs (w : worker_pc J) : list J :=
  match w with
  | WSpawned (Some j) | WDoJob j | WExecuting j => [j]
  | _ => []
  end.

Definition caller_jobs (c : caller_pc J) : list J :=
  match c with CSubmitWgAdd j | CSubmitSpawn j => [j] | _ => [] end.

(** The accepted jobs whose [Execute] has not returned. *)
Definition pending (s : pool J) : list J :=
  jobQueue s ++ (workers s ≫= worker_jobs) ++ (callers s ≫= caller_jobs).

(** [Submit] answered [true], or has committed to it. *)
Definition c_answered_true (c : caller_pc J) : Z :=
  match c with
  | CSubmitRet (true, _) | CSubmitted (true, _) | CSubmitWgAdd _ | CSubmitSpawn _ => 1
  | _ => 0
  end.

(** Remaining moves of a worker that finds the queue closed. *)
Definition w_rank (w : worker_pc J) : Z :=
  match w with
  | WSpawned (Some _) => 7
  | WDoJob _ => 6
  | WExecuting _ => 5
  | WSpawned None | WJobDone | WTicked => 4
  | WSelect | WParked => 3
  | WQuitting => 2
  | WReturning => 1
  | WExited => 0
  end.

Definition drain_measure (s : pool J) : Z :=
  sumZ w_rank (workers s) + 4 * Z.of_nat (length (jobQueue s)).

End Specification.

Section Conservation.
Context {J : Type} `{EqDecision J}.
Implicit Types (s : pool J).

Definition w_occ (x : J) (w : worker_pc J) : Z := occ x (worker_jobs w).

Definition c_occ (x : J) (c : caller_pc J) : Z := occ x (caller_jobs c).

Definition conserved s : Prop :=
  ∀ x, occ x (accepted s) =
    occ x (executed s) + occ x (jobQueue s) +
    sumZ (w_occ x) (workers s) + sumZ (c_occ x) (callers s).

Lemma occ_bind {A} x (f : A → list J) (l : list A) :
  occ x (l ≫= f) = sumZ (λ a, occ x (f a)) l.
Proof. induction l as [|a l IH]; [done|]. by rewrite bind_cons, occ_app, IH. Qed.

Lemma occ_pending x s :
  occ x (pending s) =
  occ x (jobQueue s) + sumZ (w_occ x) (workers s) + sumZ (c_occ x) (callers s).
Proof. unfold pending. rewrite !occ_app, !occ_bind. unfold w_occ, c_occ. lia. Qed.

Lemma conserved_pending s : conserved s ↔ accepted s ≡ₚ executed s ++ pending s.
Proof.
  split.
  - intros H. apply occ_permutation. intros x. rewrite occ_app, occ_pending, H. lia.
  - intros H x. rewrite (occ_of_permutation x _ _ H), occ_app, occ_pending. lia.
Qed.

Ltac conserve x H :=
  intros x; specialize (H x); cbn;
  repeat match goal with
  | |- context [sumZ ?f (<[?i:=?y]> ?l)] => erewrite (sumZ_insert f l i) by eassumption
  | |- context [sumZ ?f (?l1 ++ ?l2)] => rewrite (sumZ_app f l1 l2)
  end;
  try match goal with E : jobQueue _ = _ |- _ => rewrite E in * end;
  cbn [sumZ w_occ c_occ worker_jobs caller_jobs] in *; unfold w_occ, c_occ in *;
  cbn [worker_jobs caller_jobs] in *; rewrite ?occ_app, ?occ_cons, ?occ_nil in *; lia.

Lemma to_select_conserved i w s :
  conserved s → workers s !! i = Some w → worker_jobs w = [] →
  conserved (to_select i s).
Proof.
  intros H Hw Hj. unfold to_select. destruct (_ && _); [exact H|].
  intros x. specialize (H x). cbn. erewrite sumZ_insert by eassumption.
  unfold w_occ in *. rewrite Hj. cbn. rewrite occ_nil. lia.
Qed.

Lemma worker_step_conserved i c s s' :
  conserved s → worker_step i c s = Some s' → conserved s'.
Proof.
  intros H Hs. unfold worker_step in Hs.
  destruct (workers s !! i) as [w|] eqn:Hw; [|done].
  destruct w as [[j|]|j|j| | | | | | |], c; simplify_eq/=;
    try (eapply to_select_conserved; [|eassumption|done]; exact H);
    try (conserve x H);
    unfold CompareAndDecrementCurrentWorker, wg_add in *;
    repeat case_match; simplify_eq/=;
    try (eapply to_select_conserved; [|eassumption|done]; exact H);
    conserve x H.
Qed.

Lemma submit_step_conserved i k c s s' :
  conserved s → callers s !! i = Some c → submit_step i k c s = Some s' → conserved s'.
Proof.
  intros H Hc Hs. destruct c; simplify_eq/=;
    unfold submit_select, submit_default, CompareAndIncrementCurrentWorker, wg_add in *;
    repeat case_match; simplify_eq/=; conserve x H.
Qed.

Lemma caller_step_conserved i k s s' :
  conserved s → caller_step i k s = Some s' → conserved s'.
Proof.
  intros H Hs. unfold caller_step in Hs.
  destruct (callers s !! i) as [c|] eqn:Hc; [|done].
  destruct (submit_step i k c s) eqn:H1; simplify_eq; [by eapply submit_step_conserved|].
  destruct (start_step i c s) eqn:H2; simplify_eq;
    [destruct c; simplify_eq/=|destruct c; simplify_eq/=];
    unfold wg_add in *; repeat case_match; simplify_eq/=; conserve x H.
Qed.

Lemma step_conserved l s s' : conserved s → step l s = Some s' → conserved s'.
Proof.
  intros H Hs. unfold step in Hs. destruct (panicked s); [done|].
  destruct l; simplify_eq.
  - destruct c; conserve x H.
  - by eapply caller_step_conserved.
  - by eapply worker_step_conserved.
  - unfold runner_step in Hs. repeat case_match; simplify_eq/=; done.
  - unfold monitor_step in Hs. repeat case_match; simplify_eq/=; done.
Qed.
End Conservation.

(** ** Reachable states *)

Section Reachable.
Context {J : Type}.
Implicit Types (s : pool J) (c : PoolConf).

Lemma exec_app ls1 ls2 s s1 :
  exec ls1 s = Some s1 → exec (ls1 ++ ls2) s = exec ls2 s1.
Proof.
  revert s. induction ls1 as [|l ls1 IH]; intros s H; simplify_eq/=; [done|].
  destruct (step l s); [by apply IH|done].
Qed.

Lemma wg_add_nstarts n s : nstarts (wg_add n s) = nstarts s.
Proof. unfold wg_add. by destruct (_ <? 0). Qed.

Lemma to_select_nstarts i s : nstarts (to_select i s) = nstarts s.
Proof. unfold to_select. by destruct (_ && _). Qed.

Lemma step_nstarts l s s' : step l s = Some s' → nstarts s <= nstarts s'.
Proof.
  unfold step, caller_step, worker_step, runner_step, monitor_step.
  destruct (panicked s); [done|]. intros H.
  destruct l; unfold submit_step, start_step, stop_step, submit_select, submit_default,
    worker_select, worker_run, CompareAndIncrementCurrentWorker,
    CompareAndDecrementCurrentWorker in H; repeat case_match; simplify_eq/=;
    rewrite ?wg_add_nstarts, ?to_select_nstarts; cbn; rewrite ?wg_add_nstarts; lia.
Qed.

Lemma exec_nstarts ls s s' : exec ls s = Some s' → nstarts s <= nstarts s'.
Proof.
  revert s. induction ls as [|l ls IH]; intros s H; simplify_eq/=; [lia|].
  destruct (step l s) as [s1|] eqn:E; [|done].
  apply step_nstarts in E. apply IH in H. lia.
Qed.

Lemma New_inv c : conf_ok (validate_conf c) → Inv (New c : pool J).
Proof. intros H. constructor; cbn; unfold conf_ok in *; try done; lia. Qed.

Lemma exec_inv ls s s' :
  Inv s → exec ls s = Some s' → nstarts s' <= 1 →
  panicked s' = Some PanicInJob ∨ Inv s'.
Proof.
  revert s. induction ls as [|l ls IH]; intros s HI H Hn; simplify_eq/=; [by right|].
  destruct (step l s) as [s1|] eqn:E; [|done].
  pose proof (exec_nstarts _ _ _ H).
  destruct (step_inv l s s1 HI E ltac:(lia)) as [Hp|HI1]; [|by eapply IH].
  left. destruct ls; simplify_eq/=; [done|]. unfold step in H. by rewrite Hp in H.
Qed.

Lemma reachable_inv c s :
  conf_ok (validate_conf c) → reachable c s → nstarts s <= 1 →
  panicked s = Some PanicInJob ∨ Inv s.
Proof. intros Hc [ls H] Hn. eapply exec_inv; [by apply New_inv|done..]. Qed.

Lemma reachable_conserved `{EqDecision J} c s : reachable c s → conserved s.
Proof.
  intros [ls H]. assert (H0 : conserved (New c : pool J)) by (by intros x).
  revert H0 H. generalize (New c : pool J). induction ls as [|l ls IH];
    intros s0 H0 H; simplify_eq/=; [done|].
  destruct (step l s0) as [s1|] eqn:E; [|done].
  eapply IH; [|done]. by eapply step_conserved.
Qed.

(** Everything [Stop] waits for is done once it is past its [Wait]. *)
Lemma stopped_quiescent s :
  Inv s → 0 < sumZ c_stopped (callers s) →
  sumZ w_live (workers s) = 0 ∧ sumZ c_inside (callers s) = 0 ∧
  numberOfCurrentWorker s = 0.
Proof.
  intros HI Hst. pose proof (inv_conf s HI).
  destruct (inv_stopped s HI Hst) as (Hwg & Hquit & Hrun).
  pose proof (caller_facts (MinNumberOfWorker (poolConf s)) (callers s)
    ltac:(unfold conf_ok in *; lia)) as [? (?&?&?&?&?&Hnone)].
  pose proof (worker_facts (workers s)).
  destruct HI. rewrite Hwg in inv_wg. rewrite Hrun in inv_inside.
  rewrite Hquit in inv_starting.
  assert (sumZ c_inside (callers s) = 0) by lia.
  assert (sumZ c_start_post (callers s) = 0) by lia.
  rewrite Hnone in inv_current by done. lia.
Qed.

Lemma stopped_queue_empty s :
  Inv s → 0 < sumZ c_stopped (callers s) →
  1 <= MinNumberOfWorker (poolConf s) ∨ QueueSize (poolConf s) = 0 →
  jobQueue s = [].
Proof.
  intros HI Hst Hmin. apply length_zero_iff_nil.
  destruct (stopped_quiescent s HI Hst) as (?&?&Hcur).
  destruct (inv_stopped s HI Hst) as (_ & Hquit & _).
  pose proof (inv_quit s HI Hquit). pose proof (inv_capacity s HI).
  destruct Hmin; [|lia].
  destruct (inv_min s HI) as [[?|Hpre]|[_ ?]]; [lia|lia| |done].
  pose proof (inv_starting s HI) as Hs. rewrite Hquit in Hs.
  pose proof (caller_facts (MinNumberOfWorker (poolConf s)) (callers s)). lia.
Qed.

Lemma live_zero_exited s i w :
  sumZ w_live (workers s) = 0 → workers s !! i = Some w → w = WExited.
Proof.
  intros H Hi.
  assert (E : w_live w = 0) by (eapply sumZ_zero_lookup; [by_pc|done|done]).
  by destruct w.
Qed.

Lemma no_live_no_jobs (l : list (worker_pc J)) :
  sumZ w_live l = 0 → l ≫= worker_jobs = [].
Proof.
  intros H. apply sumZ_all_zero in H; [|by_pc].
  induction H as [|w l Hw _ IH]; [done|]. rewrite bind_cons, IH. by destruct w.
Qed.

Lemma none_inside_no_jobs (l : list (caller_pc J)) :
  sumZ c_inside l = 0 → l ≫= caller_jobs = [].
Proof.
  intros H. apply sumZ_all_zero in H; [|by_pc].
  induction H as [|c l Hc _ IH]; [done|]. rewrite bind_cons, IH. by destruct c.
Qed.
End Reachable.

(** ** Draining *)

Section Drain.
Context {J : Type}.
Implicit Types (s : pool J).

Lemma worker_step_callers i c s s' : worker_step i c s = Some s' → callers s' = callers s.
Proof.
  unfold worker_step. destruct (workers s !! i) as [w|]; [|done].
  intros H. destruct w as [[j|]|j|j| | | | | | |], c; simplify_eq/=;
    unfold CompareAndDecrementCurrentWorker, wg_add, to_select in *;
    repeat case_match; by simplify_eq/=.
Qed.

Lemma caller_step_callers i k s s' :
  caller_step i k s = Some s' → length (callers s') = length (callers s).
Proof.
  unfold caller_step. destruct (callers s !! i) as [c|]; [|done].
  intros H. destruct c; simplify_eq/=;
    unfold submit_select, submit_default, CompareAndIncrementCurrentWorker, wg_add in *;
    repeat case_match; simplify_eq/=; by rewrite ?length_insert.
Qed.

(** A move of a goroutine that is there already. *)
Definition no_call (l : label J) : bool := match l with Invoke _ => false | _ => true end.

Lemma step_callers_length l s s' :
  no_call l = true → step l s = Some s' → length (callers s') = length (callers s).
Proof.
  unfold step. destruct (panicked s); [done|]. intros Hl H. destruct l; simplify_eq/=.
  - by eapply caller_step_callers.
  - by erewrite worker_step_callers.
  - unfold runner_step in H. repeat case_match; by simplify_eq/=.
  - unfold monitor_step in H. repeat case_match; by simplify_eq/=.
Qed.

Lemma worker_drains i ch s s' :
  Inv s → ch = WRun ∨ ch = WRecv → worker_step i ch s = Some s' →
  drain_measure s' < drain_measure s ∧ callers s' = callers s ∧
  runners s' = runners s ∧ jobQueueClosed s' = jobQueueClosed s ∧
  nstarts s' = nstarts s ∧ panicked s' = panicked s.
Proof.
  intros HI Hch H. pose proof (inv_conf s HI) as Hconf. unfold worker_step in H.
  destruct (workers s !! i) as [w|] eqn:Hw; [|done].
  pose proof (worker_at _ _ _ Hw) as Hat.
  pose proof (caller_facts (MinNumberOfWorker (poolConf s)) (callers s)
    ltac:(unfold conf_ok in *; lia)).
  pose proof (inv_wg s HI).
  destruct Hch as [-> | ->], w as [[j|]|j|j| | | | | | |]; simplify_eq/=;
    unfold CompareAndDecrementCurrentWorker in *;
    repeat case_match; simplify_eq/=; rewrite ?to_select_ok by done;
    unfold wg_add; try (replace (workersWg s + -1 <? 0) with false by lia);
    unfold drain_measure; cbn; erewrite sumZ_insert by eassumption;
    try match goal with E : jobQueue s = _ |- _ => rewrite E; cbn [length] end;
    cbn [w_rank]; split_and!; try done; lia.
Qed.

Lemma worker_can_drain i w s :
  jobQueueClosed s = true → workers s !! i = Some w → w ≠ WExited →
  ∃ ch s', (ch = WRun ∨ ch = WRecv) ∧ worker_step i ch s = Some s'.
Proof.
  intros Hc Hw Hne. unfold worker_step. rewrite Hw.
  destruct w as [[j|]|j|j| | | | | | |]; try done;
    try (exists WRun; eexists; split; [by left|reflexivity]);
    try (exists WRecv; unfold worker_select; rewrite Hc;
         destruct (jobQueue s); eexists; split; [by right|reflexivity|by right|reflexivity]).
  exists WRun. cbn. unfold CompareAndDecrementCurrentWorker.
  destruct (_ >? _); eexists; (split; [by left|reflexivity]).
Qed.

Lemma drain_measure_nonneg s : 0 <= drain_measure s.
Proof.
  unfold drain_measure.
  assert (0 <= sumZ w_rank (workers s)); [|lia].
  apply sumZ_nonneg. intros w. destruct w as [[|]| | | | | | | | |]; cbn; lia.
Qed.

(** From a state whose queue is closed, the workers alone empty the pool, in
    no more moves than [drain_measure] says. *)
Lemma workers_drain s :
  Inv s → jobQueueClosed s = true →
  ∃ ls s', exec ls s = Some s' ∧ Inv s' ∧ callers s' = callers s ∧
    sumZ w_live (workers s') = 0 ∧ Z.of_nat (length ls) <= drain_measure s ∧
    Forall (λ l, no_call l = true) ls.
Proof.
  remember (Z.to_nat (drain_measure s)) as n eqn:Hn. revert s Hn.
  induction n as [n IH] using lt_wf_ind; intros s Hn HI Hc.
  pose proof (drain_measure_nonneg s) as Hpos.
  destruct (decide (sumZ w_live (workers s) = 0)) as [Hz|Hz].
  { exists [], s. split_and!; try done; cbn; lia. }
  destruct (sumZ_pos_lookup w_live (workers s)) as (i & w & Hw & Hlive); [by_pc| |].
  { pose proof (sumZ_nonneg w_live (workers s)) as H. specialize (H ltac:(by_pc)). lia. }
  destruct (worker_can_drain i w s Hc Hw) as (ch & s1 & Hch & Hstep); [by intros ->|].
  destruct (worker_drains i ch s s1 HI Hch Hstep) as (Hm & Hcal & Hrun & Hcl & Hns & Hp).
  assert (E : step (Worker i ch) s = Some s1) by (unfold step; by rewrite inv_panicked).
  pose proof (inv_nstarts s HI). pose proof (inv_panicked s HI) as Hpan.
  assert (Hle : nstarts s1 <= 1) by lia.
  destruct (step_inv _ s s1 HI E Hle) as [Hbad|HI1]; [congruence|].
  assert (Hlt : (Z.to_nat (drain_measure s1) < n)%nat).
  { pose proof (drain_measure_nonneg s1). lia. }
  destruct (IH _ Hlt s1 eq_refl HI1 ltac:(congruence))
    as (ls & s' & Hex & HI' & Hcal' & Hz' & Hlen & Hls).
  exists (Worker i ch :: ls), s'. cbn [exec]. rewrite E.
  split_and!; try done; [congruence| |by constructor]. cbn [length]. lia.
Qed.

Lemma queue_gets_closed s :
  Inv s → quit s = true →
  ∃ ls s', exec ls s = Some s' ∧ Inv s' ∧ callers s' = callers s ∧
    jobQueueClosed s' = true ∧ Forall (λ l, no_call l = true) ls.
Proof.
  intros HI Hq. destruct (jobQueueClosed s) eqn:Hc; [by exists [], s|].
  pose proof (inv_conf s HI) as Hconf.
  pose proof (caller_facts (MinNumberOfWorker (poolConf s)) (callers s)
    ltac:(unfold conf_ok in *; lia)).
  pose proof (inv_starting s HI) as Hst. rewrite Hq in Hst.
  pose proof (inv_quit s HI Hq) as Hn.
  pose proof (inv_runners s HI) as Hr. rewrite Hc in Hr. cbn in Hr.
  destruct (sumZ_pos_lookup r_open (runners s)) as (k & r & Hk & Hopen); [by_pc|lia|].
  pose proof (inv_panicked s HI) as Hp.
  assert (Hclose : ∀ s1, Inv s1 → nstarts s1 = 1 → jobQueueClosed s1 = false →
    runners s1 !! k = Some RClose →
    ∃ s2, step (Runner k) s1 = Some s2 ∧ Inv s2 ∧ callers s2 = callers s1 ∧
      jobQueueClosed s2 = true).
  { intros s1 HI1 Hn1 Hc1 Hk1. eexists. unfold step, runner_step.
    rewrite (inv_panicked s1 HI1), Hk1, Hc1. split; [reflexivity|].
    split_and!; try done. eapply (runner_step_inv k s1); [done|].
    unfold runner_step. by rewrite Hk1, Hc1. }
  destruct r; cbn in Hopen; try lia.
  - set (s1 := set_service (<[k:=RClose]> (runners s)) (monitors s) s).
    assert (E : step (Runner k) s = Some s1).
    { unfold step, runner_step. by rewrite Hp, Hk, Hq. }
    destruct (step_inv _ s s1 HI E ltac:(cbn; lia)) as [Hbad|HI1]; [cbn in Hbad; congruence|].
    destruct (Hclose s1 HI1 Hn Hc) as (s2 & E2 & HI2 & Hcal & Hc2).
    { apply list_lookup_insert_eq. by eapply lookup_lt_Some. }
    exists [Runner k; Runner k], s2. cbn [exec]. rewrite E, E2. split_and!; try done.
    by repeat constructor.
  - destruct (Hclose s HI Hn Hc Hk) as (s2 & E2 & HI2 & Hcal & Hc2).
    exists [Runner k], s2. cbn [exec]. rewrite E2. split_and!; try done.
    by repeat constructor.
Qed.

Lemma stop_completes i s :
  Inv s → callers s !! i = Some CStopWait →
  ∃ ls s', exec ls s = Some s' ∧ callers s' !! i = Some (CStopped None) ∧
    Forall (λ l, no_call l = true) ls.
Proof.
  intros HI Hi.
  assert (Hq : quit s = true).
  { apply (inv_stop_wait s HI).
    pose proof (sumZ_lookup_le c_stop_wait _ _ _ ltac:(by_pc) Hi). cbn in *. lia. }
  destruct (queue_gets_closed s HI Hq) as (ls1 & s1 & E1 & HI1 & Hcal1 & Hc1 & Hls1).
  destruct (workers_drain s1 HI1 Hc1) as (ls2 & s2 & E2 & HI2 & Hcal2 & Hz & _ & Hls2).
  assert (Hi2 : callers s2 !! i = Some CStopWait) by congruence.
  pose proof (inv_conf s2 HI2) as Hconf.
  pose proof (caller_at (MinNumberOfWorker (poolConf s2)) _ _ _
    ltac:(unfold conf_ok in *; lia) Hi2) as Hat. cbn in Hat.
  pose proof (caller_facts (MinNumberOfWorker (poolConf s2)) (callers s2)
    ltac:(unfold conf_ok in *; lia)) as Hf.
  assert (Hwg : workersWg s2 = 0).
  { pose proof (inv_wg s2 HI2). pose proof (inv_writer s2 HI2).
    pose proof (inv_readers s2 HI2). pose proof (inv_exclusive s2 HI2).
    destruct (muWriter s2); cbn [Z.b2z] in *; lia. }
  eexists (ls1 ++ ls2 ++ [Caller i 0; Caller i 0]), _.
  rewrite (exec_app _ _ _ _ E1), (exec_app _ _ _ _ E2).
  cbn [exec]. unfold step, caller_step. rewrite (inv_panicked s2 HI2), Hi2. cbn.
  rewrite Hwg. cbn. rewrite (inv_panicked s2 HI2).
  rewrite list_lookup_insert_eq by (by eapply lookup_lt_Some). cbn.
  split; [reflexivity|]. cbn. rewrite list_insert_insert_eq. split.
  - apply list_lookup_insert_eq. by eapply lookup_lt_Some.
  - rewrite !Forall_app. by repeat constructor.
Qed.

(** Without calls there are no further callers. *)
Lemma exec_no_call ls s s' :
  Forall (λ l, no_call l = true) ls → exec ls s = Some s' →
  length (callers s') = length (callers s).
Proof.
  revert s. induction ls as [|l ls IH]; intros s Hls; cbn; [by intros [= <-]|].
  apply Forall_cons in Hls as [Hl Hls]. destruct (step l s) as [s1|] eqn:E; [|done].
  intros Hr. rewrite (IH s1 Hls Hr). by eapply step_callers_length.
Qed.
End Drain.

(** The configuration [New] works with is in range. *)
Lemma validate_conf_valid (c : PoolConf) :
  poolconf_typed c → poolconf_valid (validate_conf c).
Proof.
  intros Ht. unfold poolconf_typed, is_i32, max_i32 in Ht. destruct c as [a b q k m]. cbn in Ht.
    unfold poolconf_valid, validate_conf, set_max, set_min, set_queue_size,
      set_keep_alive, set_monitoring, maxNumberOfWorker, minNumberOfWorker, queueSize,
      keepAliveTimeInMillis, monitoringPeriodInMillis; cbn.
    repeat (case_match; cbn in *); lia.
Qed.
