(* ===== verification/WorkerPoolBag.v ===== *)
(** * The specification of the worker pool: a bag of jobs with a life cycle,
    and the refinement of it by the detailed transition system.

    The specification is a labelled transition system whose events are what
    the rest of the program can see of the pool: it is opened by [Start] and
    closed by [Stop], accepts or refuses a job, begins and ends a job's
    execution, and [Stop] returns. The events of a run of [WorkerPool.exec] are
    read off the program counters of the goroutine that moved, without looking
    at the bag. *)

From stdpp Require Import base list numbers strings gmap.
From Stdlib Require Import Lia ZifyBool ZifyNat.
From S2P Require Import Prelude Configuration WorkerPool WorkerPoolInv WorkerPoolProps.
Local Open Scope Z_scope.

(** ** The specification *)

Section Bag.
Context {J : Type}.

(** A pool goes through its phases once. *)
Inductive bag_phase : Type := PNew | POpen | PClosed.

Record bag : Type := mkBag {
  bag_now : bag_phase;
  bag_waiting : list J;       (* accepted, not begun *)
  bag_running : list J;       (* inside Execute *)
  bag_done : list J           (* Execute has returned *)
}.

Inductive event : Type :=
  | EOpen
  | EClose
  | EAccept (j : J)
  | ERefuse (j : J)           (* Submit answers: not working *)
  | EFull (j : J)             (* Submit answers: no room *)
  | EBegin (j : J)
  | EEnd (j : J)
  | EStopped.                 (* Stop returned nil *)

(** The configuration decides how many jobs run at once, and whether the pool
    keeps its promise to empty the bag before [Stop] returns. *)
Inductive bag_step (c : PoolConf) : event → bag → bag → Prop :=
  | bag_open w r d : bag_step c EOpen (mkBag PNew w r d) (mkBag POpen w r d)
  | bag_close w r d : bag_step c EClose (mkBag POpen w r d) (mkBag PClosed w r d)
  | bag_accept j w r d :
      bag_step c (EAccept j) (mkBag POpen w r d) (mkBag POpen (j :: w) r d)
  | bag_refuse j ph w r d :
      ph ≠ POpen → bag_step c (ERefuse j) (mkBag ph w r d) (mkBag ph w r d)
  | bag_full j w r d :
      bag_step c (EFull j) (mkBag POpen w r d) (mkBag POpen w r d)
  | bag_begin j ph w r d :
      Z.of_nat (length r) < MaxNumberOfWorker c →
      bag_step c (EBegin j) (mkBag ph (j :: w) r d) (mkBag ph w (j :: r) d)
  | bag_end j ph w r d :
      bag_step c (EEnd j) (mkBag ph w (j :: r) d) (mkBag ph w r (j :: d))
  | bag_stopped w d :
      (1 <= MinNumberOfWorker c ∨ QueueSize c = 0 → w = []) →
      bag_step c EStopped (mkBag PClosed w [] d) (mkBag PClosed w [] d).

(** The order of the jobs in a bag does not matter. *)
Definition bag_equiv (b b' : bag) : Prop :=
  bag_now b = bag_now b' ∧ bag_waiting b ≡ₚ bag_waiting b' ∧
  bag_running b ≡ₚ bag_running b' ∧ bag_done b ≡ₚ bag_done b'.

#[global] Instance bag_equivalence : Equivalence bag_equiv.
Proof.
  split.
  - by intros b.
  - intros b b' (?&?&?&?). by split_and!.
  - intros b b1 b2 (E&?&?&?) (?&?&?&?). split_and!; [congruence|by etrans..].
Qed.

(** [bag_run c es b b']: the bag [b] shows the events [es] and becomes [b']. *)
Inductive bag_run (c : PoolConf) : list event → bag → bag → Prop :=
  | bag_run_nil b b' : bag_equiv b b' → bag_run c [] b b'
  | bag_run_cons e es b b1 b2 b' :
      bag_equiv b b1 → bag_step c e b1 b2 → bag_run c es b2 b' →
      bag_run c (e :: es) b b'.

Definition empty_bag : bag := mkBag PNew [] [] [].

Lemma bag_run_equiv c es b1 b2 b' :
  bag_equiv b1 b2 → bag_run c es b2 b' → bag_run c es b1 b'.
Proof.
  intros E H. destruct H as [b b' H|e es b b1' b2' b' H].
  - constructor. by trans b.
  - apply (bag_run_cons c e es b1 b1' b2'); [by trans b|done..].
Qed.

#[global] Instance bag_run_proper c :
  Proper ((=) ==> bag_equiv ==> (=) ==> iff) (bag_run c).
Proof. intros es ? <- b1 b2 Hb b' ? <-. split; by apply bag_run_equiv. Qed.

Lemma bag_run_app c es1 es2 b b1 b2 :
  bag_run c es1 b b1 → bag_run c es2 b1 b2 → bag_run c (es1 ++ es2) b b2.
Proof.
  induction 1 as [? ? E|]; intros H2; cbn.
  - by rewrite E.
  - econstructor; eauto.
Qed.

Lemma bag_run_one c e b b1 b2 b' :
  bag_step c e b1 b2 → bag_equiv b b1 → bag_equiv b2 b' → bag_run c [e] b b'.
Proof. intros. econstructor; [done..|]. by constructor. Qed.

(** ** The events of a run *)

(** The jobs of a worker that are waiting, resp. running. *)
Definition worker_waiting (w : worker_pc J) : list J :=
  match w with WSpawned (Some j) | WDoJob j => [j] | _ => [] end.

Definition worker_running (w : worker_pc J) : list J :=
  match w with WExecuting j => [j] | _ => [] end.

(** What a caller's move from [c] to [c'] shows. *)
Definition caller_events (c c' : option (caller_pc J)) : list event :=
  match c, c' with
  | Some CStartSet, Some CStartAdd => [EOpen]
  | Some CStopSet, Some CStopClose => [EClose]
  | Some (CSubmitSelect j), Some (CSubmitRet (true, _)) => [EAccept j]
  | Some (CSubmitGrow j), Some (CSubmitWgAdd _) => [EAccept j]
  | Some (CSubmitSelect j), Some (CSubmitRet (false, _))
  | Some (CSubmitGrow j), Some (CSubmitRet _) => [EFull j]
  | Some (CSubmitCheck j), Some (CSubmitRet (_, Some _)) => [ERefuse j]
  | Some (CStopRet None), Some (CStopped _) => [EStopped]
  | _, _ => []
  end.

Definition worker_events (w w' : option (worker_pc J)) : list event :=
  match w, w' with
  | Some (WDoJob j), Some (WExecuting _) => [EBegin j]
  | Some (WExecuting j), Some WJobDone => [EEnd j]
  | _, _ => []
  end.

Definition events_of (l : label J) (s s' : pool J) : list event :=
  match l with
  | Caller i _ => caller_events (callers s !! i) (callers s' !! i)
  | Worker i _ => worker_events (workers s !! i) (workers s' !! i)
  | Invoke _ | Runner _ | Monitor _ => []
  end.

Fixpoint trace_of (ls : list (label J)) (s : pool J) : list event :=
  match ls with
  | [] => []
  | l :: ls =>
      match step l s with
      | Some s' => events_of l s s' ++ trace_of ls s'
      | None => []
      end
  end.

(** ** The bag a state of the pool stands for *)

Definition waiting (s : pool J) : list J :=
  jobQueue s ++ (workers s ≫= worker_waiting) ++ (callers s ≫= caller_jobs).

Definition phase_of (s : pool J) : bag_phase :=
  if isRunning s then POpen
  else if quit s || (0 <? sumZ c_stop_close (callers s)) then PClosed else PNew.

Definition bag_of (s : pool J) : bag :=
  mkBag (phase_of s) (waiting s) (workers s ≫= worker_running) (executed s).

End Bag.

Arguments event : clear implicits.
Arguments bag : clear implicits.

(** ** Refinement *)

Section Refinement.
Context {J : Type} `{EqDecision J}.
Implicit Types (s : pool J).

(** [Start] has seen the pool stopped and has not set [isRunning] yet. *)
Definition c_unset (c : caller_pc J) : Z :=
  match c with CStartGo | CStartSet => 1 | _ => 0 end.

Definition unset_ok s : Prop :=
  0 < sumZ c_unset (callers s) → isRunning s = false.

Lemma c_unset_pre (l : list (caller_pc J)) :
  0 <= sumZ c_unset l <= sumZ c_start_pre l.
Proof. split; [apply sumZ_nonneg|apply sumZ_mono]; by intros []. Qed.

(** Only one caller holds the write lock. *)
Lemma unset_excludes s i c :
  Inv s → callers s !! i = Some c → 0 < sumZ c_unset (callers s) →
  c_inside c + c_submit_edge c + c_stop_set c + c_stop_close c + c_start_post c +
  c_start_edge c + c_stop_wait c + c_stop_edge c = 0.
Proof.
  intros HI Hc Hpos. pose proof (c_unset_pre (callers s)).
  pose proof (inv_conf s HI).
  pose proof (caller_facts (MinNumberOfWorker (poolConf s)) (callers s)
    ltac:(unfold conf_ok in *; lia)).
  pose proof (caller_at (MinNumberOfWorker (poolConf s)) _ _ _
    ltac:(unfold conf_ok in *; lia) Hc).
  pose proof (inv_writer s HI). pose proof (inv_readers s HI).
  pose proof (inv_exclusive s HI). destruct (muWriter s); cbn in *; [|lia].
  destruct c; cbn in *; lia.
Qed.

Lemma unset_once s : Inv s → sumZ c_unset (callers s) <= 1.
Proof.
  intros HI. pose proof (c_unset_pre (callers s)). pose proof (inv_conf s HI).
  pose proof (caller_facts (MinNumberOfWorker (poolConf s)) (callers s)
    ltac:(unfold conf_ok in *; lia)).
  pose proof (inv_writer s HI). destruct (muWriter s); cbn in *; lia.
Qed.

Ltac caller_sums :=
  repeat match goal with
  | |- context [sumZ ?f (<[?i:=?y]> ?l)] => erewrite (sumZ_insert f l i) by eassumption
  | |- context [sumZ ?f (?l1 ++ ?l2)] => rewrite (sumZ_app f l1 l2)
  end.

Lemma step_unset l s s' : Inv s → unset_ok s → step l s = Some s' → unset_ok s'.
Proof.
  intros HI Hu Hs. unfold step in Hs. rewrite (inv_panicked s HI) in Hs.
  destruct l as [k|i k|i k|i|i]; simplify_eq.
  - intros Hp. apply Hu. cbn in Hp. rewrite sumZ_app in Hp. destruct k; cbn in Hp; lia.
  - unfold caller_step in Hs. destruct (callers s !! i) as [c|] eqn:Hc; [|done].
    pose proof (unset_excludes s i c HI Hc) as Hx. unfold unset_ok in *.
    destruct c; simplify_eq/=;
      unfold submit_select, submit_default, CompareAndIncrementCurrentWorker, wg_add in *;
      repeat case_match; simplify_eq/=; caller_sums; cbn; intros; try lia;
      try (apply Hu; lia); try done.
    exfalso. pose proof (unset_once s HI). lia.
  - unfold unset_ok. rewrite (worker_step_callers _ _ _ _ Hs). intros Hp. specialize (Hu Hp).
    unfold worker_step in Hs. destruct (workers s !! i) as [w|]; [|done].
    destruct w as [[j|]|j|j| | | | | | |], k; simplify_eq/=;
      unfold CompareAndDecrementCurrentWorker, wg_add, to_select in *;
      repeat case_match; by simplify_eq/=.
  - unfold runner_step in Hs. repeat case_match; by simplify_eq/=.
  - unfold monitor_step in Hs. repeat case_match; by simplify_eq/=.
Qed.

Ltac same_jobs :=
  apply occ_permutation; intros x; cbn; unfold waiting; cbn;
  rewrite ?occ_cons, ?occ_app, ?occ_bind;
  caller_sums; try match goal with E : jobQueue _ = _ |- _ => rewrite E end;
  cbn [sumZ worker_waiting worker_running caller_jobs];
  rewrite ?occ_app, ?occ_cons, ?occ_nil; lia.

Ltac same_phase :=
  cbn; unfold phase_of; cbn; caller_sums; cbn [c_stop_close];
  rewrite ?Z.sub_0_r, ?Z.add_0_r; done.

(** Case analysis on the hypotheses only. *)
Ltac case_hyps :=
  repeat match goal with
  | H : context [match ?x with _ => _ end] |- _ => destruct x eqn:?; simplify_eq/=
  end.

Ltac case_ifs :=
  repeat match goal with
  | |- context [if ?b then _ else _] =>
      match type of b with bool => destruct b eqn:? end
  end.

Ltac silent := constructor; split_and!; [same_phase|same_jobs|same_jobs|done].

Lemma running_busy (l : list (worker_pc J)) :
  Z.of_nat (length (l ≫= worker_running)) <= sumZ w_busy l.
Proof.
  induction l as [|w l IH]; [done|]. rewrite bind_cons, length_app.
  destruct w; cbn [worker_running length sumZ w_busy]; lia.
Qed.

(** Room for one more job: the worker about to execute is counted. *)
Lemma begin_has_room s i j :
  Inv s → workers s !! i = Some (WDoJob j) →
  Z.of_nat (length (workers s ≫= worker_running)) < MaxNumberOfWorker (poolConf s).
Proof.
  intros HI Hw. pose proof (inv_max s HI). pose proof (inv_current s HI).
  pose proof (inv_conf s HI).
  pose proof (caller_facts (MinNumberOfWorker (poolConf s)) (callers s)
    ltac:(unfold conf_ok in *; lia)).
  pose proof (worker_facts (<[i := WExecuting j]> (workers s))) as Hf.
  rewrite !(sumZ_insert _ _ _ _ _ Hw) in Hf. cbn in Hf.
  pose proof (running_busy (workers s)). lia.
Qed.

Lemma worker_refines s i ch s' :
  Inv s → worker_step i ch s = Some s' →
  bag_run (poolConf s) (events_of (Worker i ch) s s') (bag_of s) (bag_of s').
Proof.
  intros HI Hs. unfold worker_step in Hs. cbn [events_of].
  destruct (workers s !! i) as [w|] eqn:Hw; [|done].
  assert (Hlt : (i < length (workers s))%nat) by (by eapply lookup_lt_Some).
  destruct w as [[j|]|j|j| | | | | | |], ch; simplify_eq/=;
    unfold CompareAndDecrementCurrentWorker, wg_add, to_select in *;
    case_hyps; rewrite ?list_lookup_insert_eq, ?Hw by done; cbn;
    repeat case_match; try silent.
  - set (s' := to_worker _ _ _).
    apply (bag_run_one _ _ _ _ _ _ (bag_begin _ j (phase_of s) (waiting s')
      (workers s ≫= worker_running) (executed s) (begin_has_room s i j HI Hw)));
      split_and!; subst s'; first [done|same_phase|same_jobs].
  - set (s' := to_worker _ _ _).
    apply (bag_run_one _ _ _ _ _ _ (bag_end _ j (phase_of s) (waiting s)
      (workers s' ≫= worker_running) (executed s)));
      split_and!; subst s'; first [done|same_phase|same_jobs].
Qed.

Lemma phase_not_open s : isRunning s = false → phase_of s ≠ POpen.
Proof. unfold phase_of. intros ->. by destruct (_ || _). Qed.

(** The phase in which each event happens. *)
Lemma phase_at s i c :
  Inv s → unset_ok s → callers s !! i = Some c →
  match c with
  | CSubmitSelect _ | CSubmitGrow _ | CStopSet => phase_of s = POpen
  | CStartSet => phase_of s = PNew
  | CStopClose | CStopRet None => phase_of s = PClosed
  | _ => True
  end.
Proof.
  intros HI Hu Hc. pose proof (inv_conf s HI).
  pose proof (caller_facts (MinNumberOfWorker (poolConf s)) (callers s)
    ltac:(unfold conf_ok in *; lia)).
  pose proof (caller_at (MinNumberOfWorker (poolConf s)) _ _ _
    ltac:(unfold conf_ok in *; lia) Hc) as Hat.
  pose proof (sumZ_lookup_le c_unset _ _ _ ltac:(by intros []) Hc) as Hun.
  pose proof (inv_writer s HI). pose proof (inv_inside s HI). pose proof (inv_stop_set s HI).
  pose proof (inv_stop_close s HI). pose proof (inv_stopped s HI).
  pose proof (inv_starting s HI). unfold phase_of, unset_ok in *.
  destruct c as [j|j|j|j|j|j|r|r| | | | | | |n|r|r| | | | | |r|r];
    try exact I; cbn in Hat, Hun.
  - by rewrite inv_inside by (done || lia).
  - by rewrite inv_inside by (done || lia).
  - rewrite Hu by lia. destruct (inv_starting s HI) as [-> _]; [lia|].
    replace (0 <? _) with false; [done|]. destruct (muWriter s); cbn in *; lia.
  - by rewrite inv_stop_set by (done || lia).
  - destruct (inv_stop_close s HI) as (-> & -> & _); [lia|].
    by replace (0 <? _) with true by lia.
  - destruct r; [done|]. by destruct (inv_stopped s HI) as (_ & -> & ->); [lia|].
Qed.

Lemma stopped_bag s :
  Inv s → 0 < sumZ c_stopped (callers s) →
  workers s ≫= worker_running = [] ∧
  (1 <= MinNumberOfWorker (poolConf s) ∨ QueueSize (poolConf s) = 0 → waiting s = []).
Proof.
  intros HI Hst. destruct (stopped_quiescent s HI Hst) as (Hlive & Hin & _).
  assert (Hw : ∀ f : worker_pc J → list J, f WExited = [] → workers s ≫= f = []).
  { intros f Hf. apply (sumZ_all_zero w_live) in Hlive; [|by_pc].
    induction Hlive as [|w l Hl _ IH]; [done|]. rewrite bind_cons, IH.
    destruct w; cbn in Hl; [lia..|]. by rewrite Hf. }
  split; [by apply Hw|]. intros Hmin. unfold waiting.
  by rewrite (stopped_queue_empty s HI Hst Hmin), Hw, none_inside_no_jobs.
Qed.

Lemma caller_refines s i k s' :
  Inv s → unset_ok s → caller_step i k s = Some s' →
  bag_run (poolConf s) (events_of (Caller i k) s s') (bag_of s) (bag_of s').
Proof.
  intros HI Hu Hs. unfold caller_step in Hs. cbn [events_of].
  destruct (callers s !! i) as [c|] eqn:Hc; [|done].
  assert (Hlt : (i < length (callers s))%nat) by (by eapply lookup_lt_Some).
  pose proof (phase_at s i c HI Hu Hc) as Hph.
  destruct c; simplify_eq/=;
    unfold submit_select, submit_default, CompareAndIncrementCurrentWorker, wg_add in *;
    case_hyps; case_ifs; cbn; rewrite ?list_lookup_insert_eq, ?Hc by done; cbn; try silent.
  all: lazymatch goal with
  | |- bag_run _ [ERefuse ?j] _ _ =>
      apply (bag_run_one _ _ _ _ _ _ (bag_refuse _ j (phase_of s) (waiting s)
        (workers s ≫= worker_running) (executed s) (phase_not_open s ltac:(assumption))))
  | |- bag_run _ [EAccept ?j] _ _ =>
      apply (bag_run_one _ _ _ _ _ _ (bag_accept _ j (waiting s)
        (workers s ≫= worker_running) (executed s)))
  | |- bag_run _ [EFull ?j] ?b _ =>
      apply (bag_run_one _ _ _ _ _ _ (bag_full _ j (bag_waiting b) (bag_running b)
        (bag_done b)))
  | |- bag_run _ [EOpen] _ _ =>
      apply (bag_run_one _ _ _ _ _ _ (bag_open _ (waiting s)
        (workers s ≫= worker_running) (executed s)))
  | |- bag_run _ [EClose] _ _ =>
      apply (bag_run_one _ _ _ _ _ _ (bag_close _ (waiting s)
        (workers s ≫= worker_running) (executed s)))
  | _ => idtac
  end.
  all: try (split_and!; try done; first [exact Hph|same_phase|same_jobs]).
  - (* close(wp.quit) is still to come *)
    split_and!; try done; [|same_jobs..]. cbn. unfold phase_of. cbn. caller_sums.
    pose proof (sumZ_nonneg c_stop_close (callers s) ltac:(by_pc)).
    cbn [c_stop_close]. replace (0 <? _) with true by lia. by rewrite orb_true_r.
  - constructor. split_and!; try done; [|same_jobs..]. cbn. rewrite Hph.
    unfold phase_of. cbn.
    pose proof (sumZ_lookup_le c_stop_close _ _ _ ltac:(by_pc) Hc) as Hpos. cbn in Hpos.
    by destruct (inv_stop_close s HI ltac:(lia)) as (-> & _).
  - pose proof (sumZ_lookup_le c_stopped _ _ _ ltac:(by_pc) Hc) as Hpos. cbn in Hpos.
    destruct (stopped_bag s HI ltac:(lia)) as [Hrun Hwait].
    apply (bag_run_one _ _ _ _ _ _ (bag_stopped _ (waiting s) (executed s) Hwait));
      split_and!; try done; cbn; rewrite ?Hrun; try done; [|same_jobs].
    rewrite <- Hph. same_phase.
Qed.

Lemma step_poolConf l s s' : step l s = Some s' → poolConf s' = poolConf s.
Proof.
  unfold step, caller_step, worker_step, runner_step, monitor_step.
  destruct (panicked s); [done|]. intros H.
  destruct l; unfold submit_step, start_step, stop_step, submit_select, submit_default,
    worker_select, worker_run, CompareAndIncrementCurrentWorker,
    CompareAndDecrementCurrentWorker, wg_add, to_select in H;
    repeat case_match; by simplify_eq/=.
Qed.

Lemma step_refines l s s' :
  Inv s → unset_ok s → step l s = Some s' →
  bag_run (poolConf s) (events_of l s s') (bag_of s) (bag_of s').
Proof.
  intros HI Hu Hs. unfold step in Hs. rewrite (inv_panicked s HI) in Hs.
  destruct l as [k|i k|i k|i|i]; simplify_eq.
  - unfold invoke. destruct k; silent.
  - by apply caller_refines.
  - by apply worker_refines.
  - unfold runner_step in Hs. cbn. repeat case_match; simplify_eq/=; silent.
  - unfold monitor_step in Hs. cbn. repeat case_match; simplify_eq/=; silent.
Qed.

Lemma exec_refines ls s s' :
  Inv s → unset_ok s → exec ls s = Some s' → nstarts s' <= 1 →
  bag_run (poolConf s) (trace_of ls s) (bag_of s) (bag_of s').
Proof.
  revert s. induction ls as [|l ls IH]; intros s HI Hu H Hn; simplify_eq/=; [by constructor|].
  destruct (step l s) as [s1|] eqn:E; [|done].
  pose proof (exec_nstarts _ _ _ H) as Hns.
  apply (bag_run_app _ _ _ _ (bag_of s1)); [by apply step_refines|].
  destruct (step_inv l s s1 HI E ltac:(lia)) as [Hp|HI1].
  - destruct ls; simplify_eq/=; [by constructor|]. unfold step in H. by rewrite Hp in H.
  - rewrite <- (step_poolConf _ _ _ E). apply IH; try done. by apply (step_unset l s).
Qed.

End Refinement.
