(* ===== verification/WorkerPoolClaims.v ===== *)
(** * The properties of the worker pool, with runs of the model that meet
    their hypotheses. *)

From stdpp Require Import base list numbers strings gmap.
From Stdlib Require Import Lia ZifyBool ZifyNat.
From S2P Require Import Prelude Configuration WorkerPool WorkerPoolInv WorkerPoolProps WorkerPoolBag.
Local Open Scope Z_scope.

Section Examples.

(** One to two workers on an unbuffered queue. *)
Definition small_conf : PoolConf := mkPoolConf 2 1 0 0 0.

(** The same pool with workers on demand only and a queue of five jobs. *)
Definition lazy_conf : PoolConf := mkPoolConf 2 0 5 0 0.

Definition start_schedule : list (label nat) :=
  Invoke DoStart :: replicate 9 (Caller 0 0).

(** Job 7 meets the parked worker; job 8 makes the pool grow. *)
Definition busy_schedule : list (label nat) :=
  start_schedule ++ [Worker 0 WRun; Worker 0 WPark] ++
  (Invoke (DoSubmit 7%nat) :: replicate 4 (Caller 1 0)) ++
  (Invoke (DoSubmit 8%nat) :: replicate 7 (Caller 2 0)) ++
  [Worker 0 WRun; Worker 1 WRun; Worker 1 WRun].

Definition stopping_schedule : list (label nat) :=
  busy_schedule ++ (Invoke DoStop :: replicate 4 (Caller 3 0)).

Definition stopped_schedule : list (label nat) :=
  stopping_schedule ++
  [Worker 0 WRun; Worker 0 WRun; Worker 1 WRun; Worker 1 WRun; Runner 0; Runner 0;
   Worker 0 WRecv; Worker 0 WRun; Worker 0 WRun;
   Worker 1 WRecv; Worker 1 WRun; Worker 1 WRun; Caller 3 0; Caller 3 0].

(** A complete life cycle, then a second [Start]. *)
Definition restart_schedule : list (label nat) :=
  stopped_schedule ++ (Invoke DoStart :: replicate 3 (Caller 4 0)) ++
  [Runner 1; Runner 1].

(** [Start], one [Submit] answered [true], [Stop] returning. *)
Definition stranded_schedule : list (label nat) :=
  (Invoke DoStart :: replicate 8 (Caller 0 0)) ++
  (Invoke (DoSubmit 7%nat) :: replicate 4 (Caller 1 0)) ++
  (Invoke DoStop :: replicate 6 (Caller 2 0)).

(** A pool with a fixed single worker that is not waiting turns a job down. *)
Definition rejecting_schedule : list (label nat) :=
  start_schedule ++ (Invoke (DoSubmit 7%nat) :: replicate 2 (Caller 1 0)).

Definition run_pool (c : PoolConf) (ls : list (label nat)) : pool nat :=
  default (New c) (exec ls (New c)).

End Examples.

Lemma small_conf_ok : conf_ok (validate_conf small_conf).
Proof. unfold conf_ok. repeat split; vm_compute; done. Qed.

Section Theorems.
Context {J : Type} (c : PoolConf).
Implicit Types (s : pool J).

(** C1. No job is lost and none runs twice: whatever the interleaving of
    callers, workers, [run] and [monitorMetrics], the jobs [Submit] committed
    to are exactly those whose [Execute] returned together with those still in
    the queue, in a worker's hands, or about to be handed to a new worker. *)
Theorem no_job_lost_or_duplicated `{EqDecision J} s :
  reachable c s → accepted s ≡ₚ executed s ++ pending s.
Proof. intros H. by apply conserved_pending, (reachable_conserved c). Qed.

Lemma stopped_pool_drained `{EqDecision J} s i :
  conf_ok (validate_conf c) →
  1 <= MinNumberOfWorker (poolConf s) ∨ QueueSize (poolConf s) = 0 →
  reachable c s → nstarts s <= 1 → panicked s = None →
  callers s !! i = Some (CStopped None) →
  executed s ≡ₚ accepted s ∧ jobQueue s = [] ∧
  ∀ k w, workers s !! k = Some w → w = WExited.
Proof.
  intros Hc Hmin Hr Hn Hp Hi.
  destruct (reachable_inv c s Hc Hr Hn) as [?|HI]; [congruence|].
  assert (Hst : 0 < sumZ c_stopped (callers s)).
  { pose proof (sumZ_lookup_le c_stopped _ _ _ ltac:(by_pc) Hi). cbn in *. lia. }
  destruct (stopped_quiescent s HI Hst) as (Hlive & Hin & _).
  pose proof (stopped_queue_empty s HI Hst Hmin) as Hq.
  split_and!; [|done|intros k w; by apply live_zero_exited].
  pose proof (proj1 (conserved_pending s) (reachable_conserved c s Hr)) as Hperm.
  unfold pending in Hperm.
  rewrite Hq, (no_live_no_jobs _ Hlive), (none_inside_no_jobs _ Hin) in Hperm.
  by rewrite app_nil_r in Hperm.
Qed.

(** C2. When [Stop] has returned [nil], every job ever accepted has been
    executed, the queue is empty and every worker goroutine has exited;
    provided at least one worker is kept alive or the queue is unbuffered. *)
Theorem stop_drains_the_pool `{EqDecision J} s i :
  conf_ok (validate_conf c) →
  1 <= MinNumberOfWorker (poolConf s) ∨ QueueSize (poolConf s) = 0 →
  reachable c s → nstarts s <= 1 → panicked s = None →
  callers s !! i = Some (CStopped None) →
  executed s ≡ₚ accepted s ∧ jobQueue s = [] ∧
  ∀ k w, workers s !! k = Some w → w = WExited.
Proof. apply stopped_pool_drained. Qed.

(** C17. In one life cycle (at most one [Start] that takes effect, any number
    of concurrent [Submit], [Start] and [Stop] calls) the pool never closes a
    closed channel, sends on a closed one, drives its wait group negative or
    creates a ticker with a non-positive period: the only panic is a job's. *)
Theorem pool_does_not_panic s :
  conf_ok (validate_conf c) → reachable c s → nstarts s <= 1 →
  panicked s = None ∨ panicked s = Some PanicInJob.
Proof.
  intros Hc Hr Hn. destruct (reachable_inv c s Hc Hr Hn) as [?|HI]; [by right|].
  left. apply (inv_panicked s HI).
Qed.

(** C24. The counters never leave the configured bounds nor wrap around, and
    [NumberOfAvailableWorker] is exactly the maximum less the workers that are
    inside [doJob]. *)
Theorem available_workers_exact s :
  conf_ok (validate_conf c) → reachable c s → nstarts s <= 1 → panicked s = None →
  NumberOfAvailableWorker s =
    MaxNumberOfWorker (poolConf s) - sumZ w_busy (workers s) ∧
  0 <= NumberOfAvailableWorker s <= MaxNumberOfWorker (poolConf s) ∧
  0 <= numberOfIdleWorker s <= numberOfCurrentWorker s ∧
  sumZ w_counted (workers s) <= MaxNumberOfWorker (poolConf s).
Proof.
  intros Hc Hr Hn Hp.
  destruct (reachable_inv c s Hc Hr Hn) as [?|HI]; [congruence|].
  pose proof (inv_conf s HI). pose proof (worker_facts (workers s)).
  pose proof (caller_facts (MinNumberOfWorker (poolConf s)) (callers s)
    ltac:(unfold conf_ok in *; lia)).
  destruct HI. unfold NumberOfAvailableWorker, conf_ok in *.
  rewrite !i32_id by (unfold is_i32, max_i32 in *; rewrite ?i32_id;
    unfold is_i32, max_i32; lia). lia.
Qed.

(** [Stop] terminates: from every state in which it waits for the workers,
    some continuation of the run lets it return [nil], without any further
    call being made. *)
Theorem stop_terminates s i :
  conf_ok (validate_conf c) → reachable c s → nstarts s <= 1 → panicked s = None →
  callers s !! i = Some CStopWait →
  ∃ ls s', exec ls s = Some s' ∧ callers s' !! i = Some (CStopped None) ∧
    Forall (λ l, no_call l = true) ls.
Proof.
  intros Hc Hr Hn Hp Hi.
  destruct (reachable_inv c s Hc Hr Hn) as [?|HI]; [congruence|].
  by apply stop_completes.
Qed.

(** C16. The pool implements the specification of a bag of jobs with a life
    cycle: whatever the interleaving, the events of the run - read off the
    goroutines that move - are events of the bag, which opens once and closes
    once, accepts jobs only while open and refuses them only while it is not,
    begins only a waiting job and only while fewer than the maximum run, ends
    only a running one, and lets [Stop] return when no job runs and, if a worker
    is kept alive or the queue is unbuffered, none waits. The bag it ends in is
    the one the final state stands for. *)
Theorem pool_refines_bag `{EqDecision J} ls s :
  conf_ok (validate_conf c) → exec ls (New c) = Some s → nstarts s <= 1 →
  bag_run (validate_conf c) (trace_of ls (New c)) empty_bag (bag_of s).
Proof.
  intros Hc H Hn. change (validate_conf c) with (poolConf (New c : pool J)).
  apply (exec_refines ls (New c)); [by apply New_inv|by intros ?|done..].
Qed.

(** [Submit] answers [false] without an error only when it found no room:
    the queue is full (or, unbuffered, no worker is waiting), and the pool is of
    fixed size or already has its maximal number of workers. *)
Theorem submit_rejects_only_when_saturated i k j s s' e :
  callers s !! i = Some (CSubmitSelect j) ∨ callers s !! i = Some (CSubmitGrow j) →
  caller_step i k s = Some s' → callers s' !! i = Some (CSubmitRet (false, e)) →
  e = None ∧
  (callers s !! i = Some (CSubmitSelect j) →
     is_dynamic s = false ∧
     (0 < QueueSize (poolConf s) →
        QueueSize (poolConf s) <= Z.of_nat (length (jobQueue s))) ∧
     (QueueSize (poolConf s) <= 0 → ∀ m, workers s !! m ≠ Some WParked)) ∧
  (callers s !! i = Some (CSubmitGrow j) →
     MaxNumberOfWorker (poolConf s) <= numberOfCurrentWorker s).
Proof.
  intros Hpc Hs Hr. unfold caller_step in Hs.
  assert (Hlt : (i < length (callers s))%nat).
  { destruct Hpc as [H|H]; by apply lookup_lt_Some in H. }
  destruct Hpc as [Hpc|Hpc]; rewrite Hpc in Hs; cbn in Hs;
    unfold submit_select, submit_default, CompareAndIncrementCurrentWorker, is_dynamic in *;
    repeat case_match; simplify_eq/=;
    rewrite ?list_lookup_insert_eq in Hr by done; simplify_eq/=;
    split_and!; try done; try (intros; simplify_eq; lia); intros _; split_and!; try lia.
  intros _ m Hm.
  match goal with H : existsb _ _ = false |- _ => rename H into Hex end.
  assert (existsb is_parked (workers s) = true) as Hex'; [|by rewrite Hex in Hex'].
  apply existsb_exists. exists WParked. split; [|done].
  apply list_elem_of_In. by eapply list_elem_of_lookup_2.
Qed.

End Theorems.

Lemma no_job_lost_or_duplicated_witness :
  reachable small_conf (run_pool small_conf busy_schedule) ∧
  accepted (run_pool small_conf busy_schedule) ≡ₚ
  executed (run_pool small_conf busy_schedule) ++
  pending (run_pool small_conf busy_schedule).
Proof.
  assert (H : reachable small_conf (run_pool small_conf busy_schedule)).
  { exists busy_schedule. vm_compute. reflexivity. }
  split; [exact H | exact (no_job_lost_or_duplicated small_conf _ H)].
Defined.

Lemma stop_drains_the_pool_witness :
  executed (run_pool small_conf stopped_schedule) = [7%nat; 8%nat] ∧
  executed (run_pool small_conf stopped_schedule) ≡ₚ
  accepted (run_pool small_conf stopped_schedule).
Proof.
  split; [vm_compute; reflexivity|].
  apply (stop_drains_the_pool small_conf _ 3).
  - exact small_conf_ok.
  - left. vm_compute. discriminate.
  - exists stopped_schedule. vm_compute. reflexivity.
  - vm_compute. discriminate.
  - vm_compute. reflexivity.
  - vm_compute. reflexivity.
Defined.

Lemma pool_does_not_panic_witness :
  panicked (run_pool small_conf stopped_schedule) = None ∨
  panicked (run_pool small_conf stopped_schedule) = Some PanicInJob.
Proof.
  apply (pool_does_not_panic small_conf).
  - exact small_conf_ok.
  - exists stopped_schedule. vm_compute. reflexivity.
  - vm_compute. discriminate.
Defined.

Lemma available_workers_exact_witness :
  NumberOfAvailableWorker (run_pool small_conf busy_schedule) = 0 ∧
  NumberOfAvailableWorker (run_pool small_conf busy_schedule) =
  MaxNumberOfWorker (poolConf (run_pool small_conf busy_schedule)) -
  sumZ w_busy (workers (run_pool small_conf busy_schedule)).
Proof.
  split; [vm_compute; reflexivity|].
  apply (available_workers_exact small_conf).
  - exact small_conf_ok.
  - exists busy_schedule. vm_compute. reflexivity.
  - vm_compute. discriminate.
  - vm_compute. reflexivity.
Defined.

Lemma stop_terminates_witness :
  ∃ ls s', exec ls (run_pool small_conf stopping_schedule) = Some s' ∧
    callers s' !! 3%nat = Some (CStopped None) ∧ Forall (λ l, no_call l = true) ls.
Proof.
  apply (stop_terminates small_conf).
  - exact small_conf_ok.
  - exists stopping_schedule. vm_compute. reflexivity.
  - vm_compute. discriminate.
  - vm_compute. reflexivity.
  - vm_compute. reflexivity.
Defined.

Lemma pool_refines_bag_witness :
  trace_of stopped_schedule (New small_conf) =
    [EOpen; EAccept 7%nat; EAccept 8%nat; EBegin 7%nat; EBegin 8%nat; EClose;
     EEnd 7%nat; EEnd 8%nat; EStopped] ∧
  bag_run (validate_conf small_conf) (trace_of stopped_schedule (New small_conf))
    empty_bag (mkBag PClosed [] [] [7%nat; 8%nat]).
Proof.
  split; [vm_compute; reflexivity|].
  apply (pool_refines_bag small_conf stopped_schedule (run_pool small_conf stopped_schedule)).
  - exact small_conf_ok.
  - vm_compute. reflexivity.
  - vm_compute. discriminate.
Defined.

Lemma submit_rejects_only_when_saturated_witness :
  let s := run_pool (mkPoolConf 1 1 0 0 0) rejecting_schedule in
  let s' := default s (caller_step 1 0 s) in
  callers s' !! 1%nat = Some (CSubmitRet (false, None)) ∧ is_dynamic s = false.
Proof.
  split; [vm_compute; reflexivity|].
  apply (submit_rejects_only_when_saturated 1 0 7%nat
    (run_pool (mkPoolConf 1 1 0 0 0) rejecting_schedule)
    (default (run_pool (mkPoolConf 1 1 0 0 0) rejecting_schedule)
       (caller_step 1 0 (run_pool (mkPoolConf 1 1 0 0 0) rejecting_schedule))) None).
  - left. vm_compute. reflexivity.
  - vm_compute. reflexivity.
  - vm_compute. reflexivity.
  - vm_compute. reflexivity.
Defined.

(** [New] leaves a configuration whose fields are in range whatever it is
    given, with each invalid field replaced by its default; it does not touch a
    valid configuration, so validating twice is validating once. *)
Theorem validate_conf_sound (c : PoolConf) :
  poolconf_typed c →
  let v := validate_conf c in
  (0 < MaxNumberOfWorker v <= max_i32 ∧
   0 <= MinNumberOfWorker v <= MaxNumberOfWorker v ∧ 0 <= QueueSize v ∧
   0 < KeepAliveTimeInMillis v ∧ 0 < MonitoringPeriodInMillis v) ∧
  MaxNumberOfWorker v =
    (if MaxNumberOfWorker c <=? 0 then maxNumberOfWorker else MaxNumberOfWorker c) ∧
  (poolconf_valid c → v = c) ∧ validate_conf v = v.
Proof.
  intros Ht.
  assert (Hid : ∀ d, poolconf_valid d → validate_conf d = d).
  { intros d Hd. unfold poolconf_valid in Hd. unfold validate_conf.
    repeat (match goal with |- context [if ?b then _ else _] =>
      replace b with false by lia end; cbv zeta). by destruct d. }
  pose proof (validate_conf_valid c Ht) as Hv.
  split_and!; [..|by apply Hid|by apply Hid]; try (unfold poolconf_valid in Hv; lia).
  - unfold poolconf_typed, is_i32 in Ht. unfold validate_conf. cbn zeta.
    repeat (case_match; cbn in *); unfold maxNumberOfWorker, max_i32 in *; lia.
  - unfold validate_conf. cbn zeta. repeat (case_match; cbn in *); lia.
Qed.

Lemma validate_conf_sound_witness :
  validate_conf (mkPoolConf (-1) (-1) (-1) (-1) (-1)) = mkPoolConf 12 4 0 6000 15000 ∧
  validate_conf (validate_conf (mkPoolConf 1 2 (-1) 0 0)) =
  validate_conf (mkPoolConf 1 2 (-1) 0 0).
Proof.
  split; [reflexivity|].
  apply (validate_conf_sound (mkPoolConf 1 2 (-1) 0 0)).
  unfold poolconf_typed, is_i32, is_i64. repeat split; vm_compute; discriminate.
Defined.

(** The pool is not restartable: after a complete life cycle a second
    [Start] succeeds, and its [run] goroutine finds [quit] closed and closes
    [jobQueue] a second time, which panics. *)
Theorem restart_panics :
  callers (run_pool small_conf restart_schedule) !! 3%nat = Some (CStopped None) ∧
  nstarts (run_pool small_conf restart_schedule) = 2 ∧
  panicked (run_pool small_conf restart_schedule) = Some PanicCloseOfClosed.
Proof. vm_compute. done. Qed.

(** With no worker kept alive and a buffered queue, [Submit] answers
    [true] for a job that only enters the buffer: no worker is started for it,
    and [Stop] returns [nil] with the job still queued and never executed. *)
Theorem zero_minimum_strands_jobs :
  let s := run_pool lazy_conf stranded_schedule in
  callers s !! 1%nat = Some (CSubmitted (true, None)) ∧
  callers s !! 2%nat = Some (CStopped None) ∧
  accepted s = [7%nat] ∧ executed s = [] ∧ jobQueue s = [7%nat] ∧ workers s = [].
Proof. vm_compute. done. Qed.

(** A keep-alive time that [New] accepts can overflow the nanosecond
    period of the ticker; the first dynamic worker then panics. *)
Theorem keep_alive_overflow_panics :
  let c := mkPoolConf 2 1 0 9300000000000 0 in
  validate_conf c = set_monitoring 15000 c ∧
  panicked (run_pool c (start_schedule ++ [Worker 0 WRun])) = Some PanicNonPositiveTicker.
Proof. vm_compute. done. Qed.
