(* ===== verification/GoError.v ===== *)
(** * Go error values and the queue package's data (queue/token.go,
    queue/payload.go, and the fields of [sqs.Message] the program reads). *)

From stdpp Require Import base list numbers strings gmap.
From S2P Require Import Prelude.

(** ** Errors *)

(** The dynamic types the program distinguishes: [errors.New]/[Errorf] values,
    an [awserr.Error], a [net.Error], [*runbook.ExecError] (which embeds the
    error of [cmd.Run]) and the sentinel [git.NoErrAlreadyUpToDate]. *)
Inductive error : Type :=
  | PlainError (msg : string)
  | AwsError (code msg : string)
  | NetError (timeout : bool) (msg : string)
  | ExecError (stderr : string) (err : string)
  | NoErrAlreadyUpToDate.

(** The [Error()] method. *)
Definition Error (e : error) : string :=
  match e with
  | PlainError msg => msg
  | AwsError code msg => code +:+ ": " +:+ msg
  | NetError _ msg => msg
  | ExecError _ err => err
  | NoErrAlreadyUpToDate => "already up-to-date"
  end.

#[export] Instance error_eq_dec : EqDecision error.
Proof. solve_decision. Defined.

(** What [%s] prints for an [error] operand that may be nil. *)
Definition show_error (e : option error) : string :=
  match e with Some e => Error e | None => "%!s(<nil>)" end.

(** A Go [(T, error)] result of which exactly one is meaningful. *)
Definition result (A : Type) : Type := A + error.

(** ** queue/token.go *)

Record Credentials : Type := mkCredentials {
  AccessKeyId : string;
  SecretAccessKey : string;
  SessionToken : string;
  cred_ExpireTimeMillis : Z
}.

Record AssumeRole : Type := mkAssumeRole {
  role_Id : string;
  role_Arn : string
}.

Record AssumeRoleResult : Type := mkAssumeRoleResult {
  arr_Credentials : Credentials;
  arr_AssumeRole : AssumeRole
}.

Record QueueConfiguration : Type := mkQueueConfiguration {
  SuccessRefreshPeriodInSeconds : Z;
  ErrorRefreshPeriodInSeconds : Z;
  conf_Region : string;
  conf_Url : string
}.

Record Properties : Type := mkProperties {
  props_AssumeRoleResult : AssumeRoleResult;
  props_Configuration : QueueConfiguration
}.

Record token : Type := mkToken {
  token_OwnerId : string;
  QueuePropertiesList : list Properties
}.

Definition ExpireTimeMillis (p : Properties) : Z :=
  cred_ExpireTimeMillis (arr_Credentials (props_AssumeRoleResult p)).

Definition Region (p : Properties) : string := conf_Region (props_Configuration p).

Definition Url (p : Properties) : string := conf_Url (props_Configuration p).

(** The zero value [AssumeRoleResult{}]. *)
Definition zero_AssumeRoleResult : AssumeRoleResult :=
  mkAssumeRoleResult (mkCredentials "" "" "" 0) (mkAssumeRole "" "").

#[export] Instance Credentials_eq_dec : EqDecision Credentials.
Proof. solve_decision. Defined.
#[export] Instance AssumeRole_eq_dec : EqDecision AssumeRole.
Proof. solve_decision. Defined.
#[export] Instance AssumeRoleResult_eq_dec : EqDecision AssumeRoleResult.
Proof. solve_decision. Defined.

(** ** queue/payload.go *)

Record entity : Type := mkEntity {
  entity_Id : string;
  entity_Type : string
}.

Record mappedAction : Type := mkMappedAction {
  action_Name : string;
  ExtraField : string
}.

Record payload : Type := mkPayload {
  payload_RequestId : string;
  Entity : entity;
  payload_Action : string;
  payload_MappedAction : mappedAction;
  payload_ActionType : string;
  DiscardScriptResponse : bool
}.

Definition CustomActionType : string := "custom".

Definition HttpActionType : string := "http".

(** ** sqs.Message: pointer fields are options; a nil attribute map is [None] *)

Record MessageAttributeValue : Type := mkAttr { StringValue : option string }.

Record Message : Type := mkMessage {
  MessageId : option string;
  Body : option string;
  ReceiptHandle : option string;
  MessageAttributes : option (gmap string MessageAttributeValue)
}.

(** SQS messages always have an id and a body. *)
Definition well_formed (m : Message) : Prop := is_Some (MessageId m) ∧ is_Some (Body m).

(** [*p] for a pointer [p]: a nil pointer panics. *)
Definition deref {S A : Type} (p : option A) : go S A :=
  match p with
  | Some a => go_ret a
  | None => go_panic "invalid memory address or nil pointer dereference"
  end.

(** [*attrs[name].StringValue]: the lookup of a missing name is a nil pointer. *)
Definition attr_value {S : Type} (attrs : gmap string MessageAttributeValue)
    (name : string) : go S string :=
  (v <- deref (attrs !! name) ; deref (StringValue v))%go.

(** ** The result of an action (runbook/sender.go) *)

Record HttpResponse : Type := mkHttpResponse {
  Headers : option (gmap string string);  (* a nil map is None *)
  http_Body : string;
  StatusCode : Z
}.

Record ActionResultPayload : Type := mkActionResultPayload {
  RequestId : string;
  IsSuccessful : bool;
  EntityId : string;
  EntityType : string;
  Action : string;
  ActionType : string;
  FailureMessage : string;
  CallbackContext : string;
  result_HttpResponse : option HttpResponse
}.

(** ** net/http *)

(** The parts of a request the program sets; [None] is a nil body. *)
Record http_Request : Type := mkRequest {
  Method : string;
  URL : string;
  Header : list (string * string);
  req_Body : option string
}.

Record http_Response : Type := mkResponse {
  resp_StatusCode : Z;
  resp_Status : string;
  resp_Token : string;          (* Header.Get("Token") *)
  resp_Body : result string     (* what reading the body gives *)
}.

(** [request.Header.Add]. *)
Definition add_header (name value : string) (q : http_Request) : http_Request :=
  mkRequest (Method q) (URL q) (Header q ++ [(name, value)]) (req_Body q).

(** What [http.Client.Do] returns. *)
Definition http_answer : Type := option http_Response * option error.

(** ** os/exec *)

(** Where a command's output goes: a log file, or a buffer of the program. *)
Inductive sink : Type :=
  | LogSink (file : string)
  | BufferSink.

Record exec_Cmd : Type := mkCmd {
  cmd_Name : string;
  cmd_Args : list string;
  cmd_Env : list string;
  cmd_Stdout : list sink;
  cmd_Stderr : list sink
}.

(** What [cmd.Run] leaves: the text written on stdout and on stderr, and the
    error. *)
Record run_result : Type := mkRun {
  run_stdout : string;
  run_stderr : string;
  run_err : option error
}.

(** ** Decidable equality of what calls carry *)

#[export] Instance result_eq_dec `{EqDecision A} : EqDecision (result A).
Proof. unfold result. apply _. Defined.
#[export] Instance MessageAttributeValue_eq_dec : EqDecision MessageAttributeValue.
Proof. solve_decision. Defined.
#[export] Instance Message_eq_dec : EqDecision Message.
Proof. solve_decision. Defined.
#[export] Instance HttpResponse_eq_dec : EqDecision HttpResponse.
Proof. solve_decision. Defined.
#[export] Instance ActionResultPayload_eq_dec : EqDecision ActionResultPayload.
Proof. solve_decision. Defined.
#[export] Instance http_Request_eq_dec : EqDecision http_Request.
Proof. solve_decision. Defined.
#[export] Instance http_Response_eq_dec : EqDecision http_Response.
Proof. solve_decision. Defined.
#[export] Instance http_answer_eq_dec : EqDecision http_answer.
Proof. unfold http_answer. apply _. Defined.
#[export] Instance sink_eq_dec : EqDecision sink.
Proof. solve_decision. Defined.
#[export] Instance exec_Cmd_eq_dec : EqDecision exec_Cmd.
Proof. solve_decision. Defined.
#[export] Instance run_result_eq_dec : EqDecision run_result.
Proof. solve_decision. Defined.
