(* ===== verification/Interfaces.v ===== *)
(** * The Go interfaces between the parts of package queue.

    A Go interface is a class over the state [St] its methods run on; the
    matching [...Spec] class is the contract the clients rely on: each call
    returns without panicking and appends one event, with its arguments and
    its answer, to the log of [St]. Clients (poller, job, processor) are proved
    against the contracts; sqs_provider.go discharges its own. *)

From stdpp Require Import base list numbers strings gmap.
From S2P Require Import Prelude GoError.

(** One call across an interface. *)
Inductive event : Type :=
  | EvAvailable (n : Z)
  | EvSubmit (m : Message) (r : bool * option error)
  | EvReceive (url : string) (max visibility : Z) (r : result (list Message))
  | EvDelete (url : string) (handle : option string) (r : option error)
  | EvVisibility (url : string) (handle : option string) (timeout : Z) (r : option error)
  | EvHandle (m : Message) (r : option ActionResultPayload * option error)
  | EvSend (p : ActionResultPayload) (apiKey baseUrl : string) (r : option error)
  | EvDo (q : http_Request) (sent : string) (r : http_answer)
  | EvDiscard (r : http_Response)
  | EvSleep (nanoseconds : Z)
  | EvClone (dir url : string) (authenticated : bool) (r : option error)
  | EvFetch (path : string) (authenticated : bool) (r : option error)
  | EvPull (path : string) (authenticated : bool) (r : option error)
  | EvReset (path hash : string) (r : option error)
  | EvChmod (path : string) (mode : Z) (r : option error)
  | EvRemoveAll (path : string) (r : option error)
  | EvRun (c : exec_Cmd) (r : run_result)
  | EvPoolStart (r : option error)
  | EvPoolStop (r : option error)
  | EvPollerStart (url : string) (r : option error)
  | EvPollerStop (url : string) (r : option error)
  | EvPollerRefresh (url : string) (role : AssumeRoleResult) (r : option error).

#[export] Instance event_eq_dec : EqDecision event.
Proof. solve_decision. Defined.

(** [ok] is the implementation's own invariant. *)
Class Logged (St : Type) := {
  log : St → list event;
  ok : St → Prop
}.

(** [s'] is [s] after exactly the events [es], and is still well formed. *)
Definition extends `{Logged St} (es : list event) (s s' : St) : Prop :=
  ok s' ∧ log s' = log s ++ es.

(** A call that returns [r] in state [s'] and whose only event is [e r]. *)
Definition calls `{Logged St} {A} (m : go St A) (s : St) (e : A → event) : Prop :=
  ∃ r s', m s = (Done r, s') ∧ extends [e r] s s'.

(** [queue.SQSProvider], for the provider of the queue [url]. *)
Class SQSProvider (St : Type) := {
  ChangeMessageVisibility : Message → Z → go St (option error);
  DeleteMessage : Message → go St (option error);
  ReceiveMessage : Z → Z → go St (result (list Message));
  IsTokenExpired : go St bool;
  provider_Properties : go St Properties;
}.

Class SQSProviderSpec (St : Type) `{Logged St, SQSProvider St} (url : string) := {
  ChangeMessageVisibility_spec m t s : ok s →
    calls (ChangeMessageVisibility m t) s (EvVisibility url (ReceiptHandle m) t);
  DeleteMessage_spec m s : ok s →
    calls (DeleteMessage m) s (EvDelete url (ReceiptHandle m));
  ReceiveMessage_spec n v s : ok s →
    calls (ReceiveMessage n v) s (EvReceive url n v);
  IsTokenExpired_spec s : ok s → ∃ b, IsTokenExpired s = (Done b, s);
  provider_Properties_spec s : ok s →
    ∃ p, provider_Properties s = (Done p, s) ∧ Url p = url;
}.

(** [worker_pool.WorkerPool], as the poller uses it. *)
Class WorkerPool (St : Type) := {
  pool_NumberOfAvailableWorker : go St Z;
  pool_Submit : Message → go St (bool * option error);
}.

Class WorkerPoolSpec (St : Type) `{Logged St, WorkerPool St} := {
  NumberOfAvailableWorker_spec s : ok s → calls pool_NumberOfAvailableWorker s EvAvailable;
  Submit_spec m s : ok s → calls (pool_Submit m) s (EvSubmit m);
}.

(** [queue.MessageHandler] and [runbook.SendResultToJsmFunc]. *)
Class MessageHandler (St : Type) := {
  handler_Handle : Message → go St (option ActionResultPayload * option error);
  SendResultToJsmFunc : ActionResultPayload → string → string → go St (option error);
}.

Class MessageHandlerSpec (St : Type) `{Logged St, MessageHandler St} := {
  Handle_spec m s : well_formed m → ok s → calls (handler_Handle m) s (EvHandle m);
  SendResult_spec p k u s : ok s →
    calls (SendResultToJsmFunc p k u) s (EvSend p k u);
}.

(** Runs an operation of the environment [W] of a component with state [P]. *)
Definition on_env {P W A : Type} (m : go W A) : go (P * W) A :=
  λ s, let '(r, w) := m s.2 in (r, (s.1, w)).

(** ** A recording environment

    The answers come from functions of the log so far, so that quantifying
    over them quantifies over all behaviours of the collaborators. *)

Record Answers : Type := mkAnswers {
  ans_available : list event → Z;
  ans_submit : list event → Message → bool * option error;
  ans_receive : list event → Z → Z → result (list Message);
  ans_delete : list event → Message → option error;
  ans_visibility : list event → Message → Z → option error;
  ans_expired : list event → bool;
  ans_handle : list event → Message → option ActionResultPayload * option error;
  ans_send : list event → ActionResultPayload → option error
}.

Section Recorder.
Context (a : Answers) (url : string).

Definition rec_state : Type := list event.

Definition record {A : Type} (f : list event → A) (e : A → event) : go rec_state A :=
  λ s, (Done (f s), s ++ [e (f s)]).

#[export] Instance rec_logged : Logged rec_state := {
  log s := s;
  ok _ := True
}.

#[export] Instance rec_provider : SQSProvider rec_state := {
  ChangeMessageVisibility m t :=
    record (λ s, ans_visibility a s m t) (EvVisibility url (ReceiptHandle m) t);
  DeleteMessage m := record (λ s, ans_delete a s m) (EvDelete url (ReceiptHandle m));
  ReceiveMessage n v := record (λ s, ans_receive a s n v) (EvReceive url n v);
  IsTokenExpired := λ s, (Done (ans_expired a s), s);
  provider_Properties := go_ret (mkProperties zero_AssumeRoleResult
    (mkQueueConfiguration 60 60 "us-west-2" url));
}.

#[export] Instance rec_pool : WorkerPool rec_state := {
  pool_NumberOfAvailableWorker := record (ans_available a) EvAvailable;
  pool_Submit m := record (λ s, ans_submit a s m) (EvSubmit m);
}.

#[export] Instance rec_handler : MessageHandler rec_state := {
  handler_Handle m := record (λ s, ans_handle a s m) (EvHandle m);
  SendResultToJsmFunc p k u := record (λ s, ans_send a s p) (EvSend p k u);
}.

Lemma record_calls {A} (f : list event → A) e s : calls (record f e) s e.
Proof. by eexists _, _. Qed.

#[export] Instance rec_provider_spec : SQSProviderSpec rec_state url.
Proof. split; intros; try apply record_calls; by eexists. Qed.

#[export] Instance rec_pool_spec : WorkerPoolSpec rec_state.
Proof. split; intros; apply record_calls. Qed.

#[export] Instance rec_handler_spec : MessageHandlerSpec rec_state.
Proof. split; intros; apply record_calls. Qed.
End Recorder.

(** ** Shared lemmas on runs and logs *)

Lemma go_bind_done {St A B} (m : go St A) (k : A → go St B) s a s' :
  m s = (Done a, s') → go_bind m k s = k a s'.
Proof. unfold go_bind. by intros ->. Qed.

Lemma go_bind_panicked {St A B} (m : go St A) (k : A → go St B) s why s' :
  m s = (Panicked why, s') → go_bind m k s = (Panicked why, s').
Proof. unfold go_bind. by intros ->. Qed.

Lemma go_bind_deref {St A B} (a : A) (k : A → go St B) s :
  go_bind (deref (Some a)) k s = k a s.
Proof. reflexivity. Qed.

Lemma go_bind_nil {St A B} (k : A → go St B) s :
  go_bind (deref None) k s =
  (Panicked "invalid memory address or nil pointer dereference", s).
Proof. reflexivity. Qed.

Lemma on_env_run {P W A} (m : go W A) (p : P) (w : W) r w' :
  m w = (r, w') → on_env m (p, w) = (r, (p, w')).
Proof. unfold on_env. cbn. by intros ->. Qed.

Section Extends.
Context `{Logged St}.

Lemma extends_nil s : ok s → extends [] s s.
Proof. unfold extends. by rewrite app_nil_r. Qed.

Lemma extends_ok es s s' : extends es s s' → ok s'.
Proof. by intros [? _]. Qed.

Lemma extends_trans es1 es2 s1 s2 s3 :
  extends es1 s1 s2 → extends es2 s2 s3 → extends (es1 ++ es2) s1 s3.
Proof. unfold extends. intros [_ E1] [? E2]. by rewrite E2, E1, (assoc_L (++)). Qed.

Lemma extends_cons e es s1 s2 s3 :
  extends [e] s1 s2 → extends es s2 s3 → extends (e :: es) s1 s3.
Proof. apply (extends_trans [e]). Qed.
End Extends.

#[export] Hint Resolve extends_nil extends_ok extends_trans extends_cons : go.
