(* ===== verification/Poller.v ===== *)
(** * queue/poller.go: one polling cycle.

    [poll] is written against the interfaces of the provider and of the worker
    pool; its theorems hold for every implementation that meets their
    contracts. The life cycle of the poller is in PollerLoop. *)

From stdpp Require Import base list numbers strings gmap.
From Stdlib Require Import Lia ZifyBool ZifyNat.
From S2P Require Import Prelude Configuration GoError Interfaces.
Local Open Scope Z_scope.

(** [util.Min]. *)
Definition Min (x y : Z) : Z := if x >? y then y else x.

Section Poll.
Context `{Logged St, SQSProvider St, WorkerPool St}.
Context (pollerConf : PollerConf).

Fixpoint terminateMessageVisibility (messages : list Message) : go St unit :=
  match messages with
  | [] => go_ret ()
  | m :: rest =>
      (_ <- deref (MessageId m) ;
       _ <- ChangeMessageVisibility m 0 ;
       terminateMessageVisibility rest)%go
  end.

(** The loop of [poll] over the received messages. *)
Fixpoint submit_all (messages : list Message) : go St bool :=
  match messages with
  | [] => go_ret false
  | m :: rest =>
      (_ <- deref (MessageId m) ;
       _ <- deref (Body m) ;
       r <- pool_Submit m ;
       match r.2 with
       | Some _ => terminateMessageVisibility (m :: rest) ;; go_ret true
       | None =>
           _ <- (if r.1 then go_ret () else terminateMessageVisibility [m]) ;
           submit_all rest
       end)%go
  end.

(** The result is [shouldWait]. *)
Definition poll : go St bool :=
  (availableWorkerCount <- pool_NumberOfAvailableWorker ;
   if negb (availableWorkerCount >? 0) then go_ret true
   else
     let maxNumberOfMessages :=
       Min (MaxNumberOfMessages pollerConf) availableWorkerCount in
     r <- ReceiveMessage maxNumberOfMessages (VisibilityTimeoutInSeconds pollerConf) ;
     match r with
     | inr _ => go_ret true
     | inl [] => go_ret true
     | inl messages => submit_all messages
     end)%go.

End Poll.

(** ** Reading a log *)

Section Reading.

(** What one call contributes: the handles of the messages received, the
    handles the pool took, the handles made visible again, the requests, the
    answers of [NumberOfAvailableWorker] and the errors of [Submit]. *)
Definition received1 (e : event) : list (option string) :=
  match e with EvReceive _ _ _ (inl ms) => ReceiptHandle <$> ms | _ => [] end.

Definition taken1 (e : event) : list (option string) :=
  match e with EvSubmit m (true, None) => [ReceiptHandle m] | _ => [] end.

Definition released1 (e : event) : list (option string) :=
  match e with
  | EvVisibility _ h t _ => if t =? 0 then [h] else []
  | _ => []
  end.

Definition requests1 (e : event) : list (Z * Z) :=
  match e with EvReceive _ n v _ => [(n, v)] | _ => [] end.

Definition available1 (e : event) : list Z :=
  match e with EvAvailable n => [n] | _ => [] end.

Definition submit_errors1 (e : event) : list error :=
  match e with EvSubmit _ (_, Some err) => [err] | _ => [] end.

Definition received (es : list event) := es ≫= received1.
Definition taken (es : list event) := es ≫= taken1.
Definition released (es : list event) := es ≫= released1.
Definition requests (es : list event) := es ≫= requests1.
Definition available (es : list event) := es ≫= available1.
Definition submit_errors (es : list event) := es ≫= submit_errors1.

(** The log says neither received nor asked for anything. *)
Definition only_submits (es : list event) : Prop :=
  received es = [] ∧ requests es = [] ∧ available es = [].

End Reading.

(** [read_log] computes the readings of a log that starts with known events. *)
Lemma bind_none {A B} (f : A → list B) : [] ≫= f = [].
Proof. reflexivity. Qed.

Ltac read_log :=
  unfold received, taken, released, requests, available, submit_errors in *;
  rewrite ?bind_app, ?bind_cons, ?bind_app, ?bind_none in *;
  cbn [received1 taken1 released1 requests1 available1 submit_errors1 Z.eqb app] in *;
  rewrite ?app_nil_r in *.

Section PollFacts.
Context `{Logged St, SQSProvider St, WorkerPool St}.
Context (url : string) `{!SQSProviderSpec St url, !WorkerPoolSpec St}.
Implicit Types (ms : list Message) (s : St).

Lemma terminate_run ms s :
  Forall well_formed ms → ok s →
  ∃ s' es, terminateMessageVisibility ms s = (Done (), s') ∧ extends es s s' ∧
    released es = ReceiptHandle <$> ms ∧ taken es = [] ∧ submit_errors es = [] ∧
    only_submits es.
Proof.
  intros Hwf. revert s. induction Hwf as [|m ms [[id Hid] _] _ IH]; intros s Hok.
  { exists s, []. by split_and!; eauto with go. }
  cbn [terminateMessageVisibility]. rewrite Hid.
  destruct (ChangeMessageVisibility_spec (url := url) m 0 s Hok) as (r & s1 & E & Hx).
  destruct (IH s1 (extends_ok _ _ _ Hx)) as (s' & es & E' & Hx' & Hrel & Htak & Herr & B1 & B2 & B3).
  rewrite go_bind_deref, (go_bind_done _ _ _ _ _ E), E'.
  eexists s', (_ :: es). split; [done|]. split; [by eapply extends_cons|].
  unfold only_submits. read_log. by rewrite Hrel.
Qed.

Lemma submit_all_run ms s :
  Forall well_formed ms → ok s →
  ∃ w s' es, submit_all ms s = (Done w, s') ∧ extends es s s' ∧
    (ReceiptHandle <$> ms) ≡ₚ taken es ++ released es ∧ only_submits es ∧
    (w = false ↔ submit_errors es = []).
Proof.
  intros Hwf. revert s. induction Hwf as [|m ms Hm Hms IH]; intros s Hok.
  { exists false, s, []. by split_and!; eauto with go. }
  cbn [submit_all]. pose proof Hm as [[id Hid] [b Hb]]. rewrite Hid, Hb.
  rewrite !go_bind_deref.
  destruct (Submit_spec m s Hok) as ([tk err] & s1 & E & Hx).
  rewrite (go_bind_done _ _ _ _ _ E). destruct err as [err|]; cbn [fst snd].
  - destruct (terminate_run (m :: ms) s1)
      as (s' & es & E' & Hx' & Hrel & Htak & Herr & B1 & B2 & B3);
      [by constructor|by eapply extends_ok|].
    rewrite (go_bind_done _ _ _ _ _ E').
    eexists true, s', (_ :: es). split; [done|]. split; [by eapply extends_cons|].
    unfold only_submits. read_log. rewrite Hrel, Htak. by destruct tk.
  - assert (Hskip : ∃ s2 es1, (if tk then go_ret () else terminateMessageVisibility [m]) s1
        = (Done (), s2) ∧ extends es1 s1 s2 ∧ taken es1 = [] ∧ submit_errors es1 = [] ∧
        released es1 = (if tk then [] else [ReceiptHandle m]) ∧ only_submits es1).
    { pose proof (extends_ok _ _ _ Hx).
      destruct tk; [exists s1, []; by split_and!; eauto with go|].
      destruct (terminate_run [m] s1) as (s2 & es1 & ? & ? & ? & ? & ? & ?);
        [by constructor|done|]. by exists s2, es1. }
    destruct Hskip as (s2 & es1 & E2 & Hx2 & Htak & Herr & Hrel & A1 & A2 & A3).
    rewrite (go_bind_done _ _ _ _ _ E2).
    destruct (IH s2 (extends_ok _ _ _ Hx2)) as (w & s' & es & E' & Hx' & Hp & (B1 & B2 & B3) & Hw).
    eexists w, s', (_ :: es1 ++ es). split; [done|].
    split; [eapply extends_cons; [done|by eapply extends_trans]|].
    unfold only_submits. read_log.
    rewrite Htak, Herr, Hrel, A1, A2, A3. split_and!; [|done..].
    rewrite fmap_cons, Hp. destruct tk; cbn; [done|]. by rewrite Permutation_middle.
Qed.
End PollFacts.

(** ** The properties of [poll] *)

Section PollClaims.
Context `{Logged St, SQSProvider St, WorkerPool St}.
Context (url : string) `{!SQSProviderSpec St url, !WorkerPoolSpec St}.
Context (c : PollerConf).
Implicit Types (s : St).

(** The queue delivers messages that have an id and a body. *)
Definition delivers_well_formed : Prop :=
  ∀ n v s ms s', ReceiveMessage n v s = (Done (inl ms), s') → Forall well_formed ms.

(** C19. A polling cycle accounts for every message it receives: each is either
    taken by the worker pool or made visible again in the queue, never both and
    never neither; and the cycle always completes, asking the poller to go on
    without waiting exactly when messages came and no submission failed. *)
Theorem poll_accounts_for_every_message s :
  delivers_well_formed → ok s →
  ∃ w s' es, poll c s = (Done w, s') ∧ extends es s s' ∧
    received es ≡ₚ taken es ++ released es ∧
    (w = false ↔ received es ≠ [] ∧ submit_errors es = []).
Proof.
  intros Hwf Hok. unfold poll.
  destruct (NumberOfAvailableWorker_spec s Hok) as (n & s1 & E1 & Hx1).
  rewrite (go_bind_done _ _ _ _ _ E1).
  destruct (negb (n >? 0)).
  { exists true, s1, [EvAvailable n]. split; [done|]. split; [done|]. read_log.
    split; [done|]. split; [done|by intros [[] _]]. }
  destruct (ReceiveMessage_spec (url := url) (Min (MaxNumberOfMessages c) n)
    (VisibilityTimeoutInSeconds c) s1 (extends_ok _ _ _ Hx1)) as (r & s2 & E2 & Hx2).
  rewrite (go_bind_done _ _ _ _ _ E2).
  assert (Hx : extends [EvAvailable n; EvReceive url (Min (MaxNumberOfMessages c) n)
    (VisibilityTimeoutInSeconds c) r] s s2) by (by eapply extends_cons).
  destruct r as [[|m ms]|err].
  - eexists true, s2, _. split; [done|]. split; [done|]. read_log.
    split; [done|]. split; [done|by intros [[] _]].
  - destruct (submit_all_run url (m :: ms) s2) as (w & s' & es & E & Hx' & Hp & Hon & Hw).
    { by eapply Hwf. }
    { by eapply extends_ok. }
    eexists w, s', _. split; [done|]. split; [by eapply extends_trans|].
    destruct Hon as (B1 & B2 & B3). read_log. rewrite B1, Hw, app_nil_r.
    split; [done|]. split; [done|by intros [_ ?]].
  - eexists true, s2, _. split; [done|]. split; [done|]. read_log.
    split; [done|]. split; [done|by intros [[] _]].
Qed.

(** A polling cycle asks the queue at most once, only when a worker is
    available, and for a number of messages that is positive and exceeds
    neither the number of available workers nor the configured maximum. *)
Theorem poll_requests_within_limits s :
  delivers_well_formed → ok s → 1 <= MaxNumberOfMessages c →
  ∃ w s' es a, poll c s = (Done w, s') ∧ extends es s s' ∧ available es = [a] ∧
    (requests es = [] ∧ a <= 0 ∨
     ∃ n, requests es = [(n, VisibilityTimeoutInSeconds c)] ∧
       1 <= n <= a ∧ n <= MaxNumberOfMessages c ∧
       (n = a ∨ n = MaxNumberOfMessages c)).
Proof.
  intros Hwf Hok Hmax. unfold poll.
  destruct (NumberOfAvailableWorker_spec s Hok) as (n & s1 & E1 & Hx1).
  rewrite (go_bind_done _ _ _ _ _ E1).
  destruct (n >? 0) eqn:Hn; cbn [negb].
  2: { exists true, s1, [EvAvailable n], n. read_log. split_and!; [done..|]. left. split; [done|lia]. }
  destruct (ReceiveMessage_spec (url := url) (Min (MaxNumberOfMessages c) n)
    (VisibilityTimeoutInSeconds c) s1 (extends_ok _ _ _ Hx1)) as (r & s2 & E2 & Hx2).
  rewrite (go_bind_done _ _ _ _ _ E2).
  assert (Hx : extends [EvAvailable n; EvReceive url (Min (MaxNumberOfMessages c) n)
    (VisibilityTimeoutInSeconds c) r] s s2) by (by eapply extends_cons).
  assert (Hrest : ∃ w s' es, match r with
      | inl [] | inr _ => go_ret true
      | inl ms => submit_all ms
      end s2 = (Done w, s') ∧ extends es s2 s' ∧ available es = [] ∧ requests es = []).
  { destruct r as [[|m ms]|err]; try (exists true, s2, []; pose proof (extends_ok _ _ _ Hx2); by split_and!; eauto with go).
    destruct (submit_all_run url (m :: ms) s2) as (w & s' & es & E & Hx' & _ & Hon & _).
    { by eapply Hwf. }
    { by eapply extends_ok. }
    destruct Hon as (_ & B2 & B3). by exists w, s', es. }
  destruct Hrest as (w & s' & es & E & Hx' & B3 & B2).
  eexists w, s', _, n. split; [destruct r as [[|? ?]|]; exact E|].
  split; [by eapply extends_trans|]. read_log. rewrite B2, B3. split; [done|]. right.
  eexists. split; [done|]. unfold Min. destruct (_ >? n) eqn:?; lia.
Qed.

End PollClaims.

(** ** A polling cycle of the recording environment: of three messages the pool
    takes the first, turns down the second and fails on the third. *)

Section PollExample.

Definition example_message (id : string) : Message :=
  mkMessage (Some id) (Some "{}") (Some ("handle-" +:+ id)) None.

Definition example_answers : Answers := mkAnswers
  (λ _, 3)
  (λ _ m, if decide (MessageId m = Some "1") then (true, None)
          else if decide (MessageId m = Some "2") then (false, None)
          else (false, Some (PlainError "Worker pool is not working")))
  (λ _ _ _, inl [example_message "1"; example_message "2"; example_message "3"])
  (λ _ _, None) (λ _ _ _, None) (λ _, false) (λ _ _, (None, None)) (λ _ _, None).

Definition example_conf : PollerConf := mkPollerConf 100 30 10.

Definition example_poll : outcome bool * list event :=
  @poll _ (rec_provider example_answers "queue") (rec_pool example_answers)
    example_conf [].

End PollExample.

Lemma example_delivers :
  @delivers_well_formed _ (rec_provider example_answers "queue").
Proof.
  intros n v s ms s' E. injection E as <- <-.
  repeat constructor; by eexists.
Qed.

Lemma poll_accounts_for_every_message_witness :
  fst example_poll = Done true ∧
  taken (snd example_poll) = [Some "handle-1"] ∧
  released (snd example_poll) = [Some "handle-2"; Some "handle-3"] ∧
  ∃ w s' es, @poll _ (rec_provider example_answers "queue") (rec_pool example_answers)
      example_conf [] = (Done w, s') ∧ extends es ([] : rec_state) s' ∧
    received es ≡ₚ taken es ++ released es ∧
    (w = false ↔ received es ≠ [] ∧ submit_errors es = []).
Proof.
  split_and!; [vm_compute; reflexivity..|].
  eapply (poll_accounts_for_every_message (St := rec_state) "queue" example_conf []);
    [exact example_delivers|exact I].
Defined.

Lemma poll_requests_within_limits_witness :
  requests (snd example_poll) = [(3, 30)] ∧
  ∃ w s' es a, @poll _ (rec_provider example_answers "queue") (rec_pool example_answers)
      example_conf [] = (Done w, s') ∧ extends es ([] : rec_state) s' ∧
    available es = [a] ∧
    (requests es = [] ∧ a <= 0 ∨
     ∃ n, requests es = [(n, 30)] ∧ 1 <= n <= a ∧ n <= 10 ∧ (n = a ∨ n = 10)).
Proof.
  split; [vm_compute; reflexivity|].
  eapply (poll_requests_within_limits (St := rec_state) "queue" example_conf []);
    [exact example_delivers|exact I|vm_compute; discriminate].
Defined.
