(* ===== verification/PollerLoop.v ===== *)
(** * queue/poller.go: the life cycle of a poller, [Start], [Stop], [run] and
    [wait], as a labelled transition system.

    A polling cycle is one move here (its effects are the subject of Poller);
    the label carries what it returns. The channels [quit] and [wakeUp] are
    only ever closed. *)

From stdpp Require Import base list numbers strings gmap.
From Stdlib Require Import Lia ZifyBool ZifyNat.
From S2P Require Import Prelude Configuration WorkerPool.
Local Open Scope Z_scope.

(** [errorRefreshPeriod = time.Minute] of processor.go. *)
Definition errorRefreshPeriod : Z := 60000 * Millisecond.

(** The goroutine [poller.run]. *)
Inductive run_pc : Type :=
  | PTop                    (* at the select of run *)
  | PDefault                (* in the default case, before IsTokenExpired() *)
  | PPoll                   (* inside poll() *)
  | PWait (interval : Z)    (* wait: before its ticker is created *)
  | PWaiting                (* wait: in its select *)
  | PDone                   (* before isRunningWg.Done() *)
  | PExited.

Inductive api_pc : Type :=
  | AStart
  | AStartCheck
  | AStartAdd               (* before isRunningWg.Add(1) *)
  | AStartGo                (* before go p.run() *)
  | AStartSet               (* before isRunning = true *)
  | AStartRet (err : bool)
  | AStarted (err : bool)
  | AStop
  | AStopCheck
  | AStopQuit               (* before close(p.quit) *)
  | AStopWake               (* before close(p.wakeUp) *)
  | AStopWait               (* isRunningWg.Wait() *)
  | AStopSet                (* before isRunning = false *)
  | AStopRet (err : bool)
  | AStopped (err : bool).

Record poller : Type := mkPoller {
  pollingWaitInterval : Z;
  p_isRunning : bool;
  p_locked : bool;          (* startStopMu *)
  p_wg : Z;                 (* isRunningWg *)
  p_quit : bool;
  p_wakeUp : bool;
  p_runs : list run_pc;
  p_apis : list api_pc;
  p_panicked : option panic_reason;
  (* history *)
  p_starts : Z;             (* Start calls that passed their check *)
  p_late : Z                (* polling cycles begun after quit was closed *)
}.

Definition with_life (running locked : bool) (wg : Z) (p : poller) : poller :=
  mkPoller (pollingWaitInterval p) running locked wg (p_quit p) (p_wakeUp p)
    (p_runs p) (p_apis p) (p_panicked p) (p_starts p) (p_late p).

Definition with_channels (quit wake : bool) (p : poller) : poller :=
  mkPoller (pollingWaitInterval p) (p_isRunning p) (p_locked p) (p_wg p) quit wake
    (p_runs p) (p_apis p) (p_panicked p) (p_starts p) (p_late p).

Definition with_runs (rs : list run_pc) (p : poller) : poller :=
  mkPoller (pollingWaitInterval p) (p_isRunning p) (p_locked p) (p_wg p) (p_quit p)
    (p_wakeUp p) rs (p_apis p) (p_panicked p) (p_starts p) (p_late p).

Definition with_apis (cs : list api_pc) (p : poller) : poller :=
  mkPoller (pollingWaitInterval p) (p_isRunning p) (p_locked p) (p_wg p) (p_quit p)
    (p_wakeUp p) (p_runs p) cs (p_panicked p) (p_starts p) (p_late p).

Definition with_history (starts late : Z) (p : poller) : poller :=
  mkPoller (pollingWaitInterval p) (p_isRunning p) (p_locked p) (p_wg p) (p_quit p)
    (p_wakeUp p) (p_runs p) (p_apis p) (p_panicked p) starts late.

Definition poller_panic (why : panic_reason) (p : poller) : poller :=
  mkPoller (pollingWaitInterval p) (p_isRunning p) (p_locked p) (p_wg p) (p_quit p)
    (p_wakeUp p) (p_runs p) (p_apis p) (Some why) (p_starts p) (p_late p).

(** [NewPoller]; [run] computes
    [PollingWaitIntervalInMillis * time.Millisecond] as an [int64]. *)
Definition NewPoller (c : PollerConf) : poller :=
  mkPoller (i64 (PollingWaitIntervalInMillis c * Millisecond))
    false false 0 false false [] [] None 0 0.

(** How the environment resolves a move of [run]: whether the token is
    expired, what [poll] returns, whether the ticker fires. *)
Inductive run_choice : Type :=
  | Go
  | Expired (b : bool)
  | Polled (shouldWait : bool)
  | TickerFires.

Inductive poller_label : Type :=
  | CallStart
  | CallStop
  | Api (i : nat)
  | Run (i : nat) (c : run_choice).

Definition p_wg_add (n : Z) (p : poller) : poller :=
  if p_wg p + n <? 0 then poller_panic PanicNegativeWaitGroup p
  else with_life (p_isRunning p) (p_locked p) (p_wg p + n) p.

Definition to_run (i : nat) (r : run_pc) (p : poller) : poller :=
  with_runs (<[i := r]> (p_runs p)) p.

(** The loop of [run], the call of [poll] and the loop of [wait]. *)
Definition run_step (i : nat) (c : run_choice) (p : poller) : option poller :=
  match p_runs p !! i with
  | None => None
  | Some r =>
      match r, c with
      | PTop, Go => Some (to_run i (if p_quit p then PDone else PDefault) p)
      | PDefault, Expired b =>
          Some (if b then to_run i (PWait errorRefreshPeriod) p
                else to_run i PPoll
                       (with_history (p_starts p)
                          (if p_quit p then p_late p + 1 else p_late p) p))
      | PPoll, Polled shouldWait =>
          Some (to_run i (if shouldWait then PWait (pollingWaitInterval p) else PTop) p)
      | PWait d, Go =>
          Some (if d <=? 0 then poller_panic PanicNonPositiveTicker p
                else to_run i PWaiting p)
      | PWaiting, Go => if p_wakeUp p then Some (to_run i PTop p) else None
      | PWaiting, TickerFires => Some (to_run i PTop p)
      | PDone, Go => Some (to_run i PExited (p_wg_add (-1) p))
      | _, _ => None
      end
  end.

Definition to_api (i : nat) (a : api_pc) (p : poller) : poller :=
  with_apis (<[i := a]> (p_apis p)) p.

(** [poller.Start] and [poller.Stop]. *)
Definition api_step (i : nat) (p : poller) : option poller :=
  match p_apis p !! i with
  | None => None
  | Some a =>
      match a with
      | AStart =>
          if p_locked p then None
          else Some (to_api i AStartCheck (with_life (p_isRunning p) true (p_wg p) p))
      | AStartCheck =>
          Some (if p_isRunning p then to_api i (AStartRet true) p
                else to_api i AStartAdd (with_history (p_starts p + 1) (p_late p) p))
      | AStartAdd => Some (to_api i AStartGo (p_wg_add 1 p))
      | AStartGo => Some (to_api i AStartSet (with_runs (p_runs p ++ [PTop]) p))
      | AStartSet =>
          Some (to_api i (AStartRet false) (with_life true (p_locked p) (p_wg p) p))
      | AStartRet e => Some (to_api i (AStarted e) (with_life (p_isRunning p) false (p_wg p) p))
      | AStop =>
          if p_locked p then None
          else Some (to_api i AStopCheck (with_life (p_isRunning p) true (p_wg p) p))
      | AStopCheck =>
          Some (to_api i (if p_isRunning p then AStopQuit else AStopRet true) p)
      | AStopQuit =>
          Some (if p_quit p then poller_panic PanicCloseOfClosed p
                else to_api i AStopWake (with_channels true (p_wakeUp p) p))
      | AStopWake =>
          Some (if p_wakeUp p then poller_panic PanicCloseOfClosed p
                else to_api i AStopWait (with_channels (p_quit p) true p))
      | AStopWait => if p_wg p =? 0 then Some (to_api i AStopSet p) else None
      | AStopSet =>
          Some (to_api i (AStopRet false) (with_life false (p_locked p) (p_wg p) p))
      | AStopRet e => Some (to_api i (AStopped e) (with_life (p_isRunning p) false (p_wg p) p))
      | AStarted _ | AStopped _ => None
      end
  end.

Definition poller_step (l : poller_label) (p : poller) : option poller :=
  match p_panicked p with
  | Some _ => None
  | None =>
      match l with
      | CallStart => Some (with_apis (p_apis p ++ [AStart]) p)
      | CallStop => Some (with_apis (p_apis p ++ [AStop]) p)
      | Api i => api_step i p
      | Run i c => run_step i c p
      end
  end.

Fixpoint poller_exec (ls : list poller_label) (p : poller) : option poller :=
  match ls with
  | [] => Some p
  | l :: ls => match poller_step l p with Some p' => poller_exec ls p' | None => None end
  end.

(** ** The invariant *)

Definition r_live (r : run_pc) : Z := match r with PExited => 0 | _ => 1 end.

(** [run] may still begin a polling cycle without reading [quit] again. *)
Definition r_committed (r : run_pc) : Z := match r with PDefault => 1 | _ => 0 end.

Definition r_bad_wait (r : run_pc) : Z :=
  match r with PWait d => if d <=? 0 then 1 else 0 | _ => 0 end.

Definition a_holds (a : api_pc) : Z :=
  match a with AStart | AStarted _ | AStop | AStopped _ => 0 | _ => 1 end.

(** In [Start] after its check; before the wait group's [Add]; after it; before
    the goroutine exists. *)
Definition a_starting (a : api_pc) : Z :=
  match a with AStartAdd | AStartGo | AStartSet => 1 | _ => 0 end.

Definition a_added (a : api_pc) : Z := match a with AStartGo => 1 | _ => 0 end.

Definition a_unborn (a : api_pc) : Z := match a with AStartAdd | AStartGo => 1 | _ => 0 end.

Definition a_quitting (a : api_pc) : Z := match a with AStopQuit => 1 | _ => 0 end.

Definition a_waking (a : api_pc) : Z := match a with AStopWake => 1 | _ => 0 end.

Definition a_waiting (a : api_pc) : Z := match a with AStopWait => 1 | _ => 0 end.

(** [Stop] is past its [Wait]. *)
Definition a_waited (a : api_pc) : Z :=
  match a with AStopSet | AStopRet false | AStopped false => 1 | _ => 0 end.

Definition a_settling (a : api_pc) : Z := match a with AStopSet => 1 | _ => 0 end.

Record PInv (p : poller) : Prop := {
  pi_panicked : p_panicked p = None;
  pi_interval : 0 < pollingWaitInterval p;
  pi_starts : 0 <= p_starts p <= 1;
  pi_locked : Z.b2z (p_locked p) = sumZ a_holds (p_apis p);
  pi_wg : p_wg p = sumZ r_live (p_runs p) + sumZ a_added (p_apis p);
  pi_runs : Z.of_nat (length (p_runs p)) + sumZ a_unborn (p_apis p) = p_starts p;
  pi_running : p_isRunning p = true → p_starts p = 1;
  pi_quit_starts : p_quit p = true → p_starts p = 1;
  pi_starting : 0 < sumZ a_starting (p_apis p) →
    p_isRunning p = false ∧ p_quit p = false ∧ p_wakeUp p = false ∧ p_starts p = 1;
  pi_wake : p_wakeUp p = true → p_quit p = true;
  pi_open : p_isRunning p = true →
    0 < sumZ a_waking (p_apis p) + sumZ a_waiting (p_apis p) + sumZ a_settling (p_apis p) ∨
    p_quit p = false;
  pi_quitting : 0 < sumZ a_quitting (p_apis p) → p_isRunning p = true ∧ p_quit p = false;
  pi_waking : 0 < sumZ a_waking (p_apis p) →
    p_isRunning p = true ∧ p_quit p = true ∧ p_wakeUp p = false;
  pi_waiting : 0 < sumZ a_waiting (p_apis p) → p_quit p = true ∧ p_wakeUp p = true;
  pi_waited : 0 < sumZ a_waited (p_apis p) →
    p_wg p = 0 ∧ p_quit p = true ∧ p_wakeUp p = true;
  pi_late : 0 <= p_late p ∧ (p_quit p = false → p_late p = 0) ∧
    p_late p + sumZ r_committed (p_runs p) <= 1;
  pi_wait : sumZ r_bad_wait (p_runs p) = 0
}.

(** ** Preservation *)

Ltac by_run_pc :=
  let x := fresh in intros x;
  destruct x; unfold r_live, r_committed, r_bad_wait, a_holds, a_starting, a_added,
    a_unborn, a_quitting, a_waking, a_waiting, a_waited, a_settling;
  repeat case_match; lia.

Definition r_top (r : run_pc) : Z := match r with PTop => 1 | _ => 0 end.

Lemma run_facts l :
  0 <= sumZ r_committed l ∧ 0 <= sumZ r_bad_wait l ∧ 0 <= sumZ r_live l ∧
  sumZ r_committed l + sumZ r_top l <= Z.of_nat (length l) ∧ 0 <= sumZ r_top l.
Proof.
  split_and!; try (apply sumZ_nonneg; by_run_pc); try (apply sumZ_nonneg; by intros []).
  induction l as [|[] l IH]; cbn [sumZ r_committed r_top length]; lia.
Qed.

Lemma run_at l i r : l !! i = Some r →
  r_committed r <= sumZ r_committed l ∧ r_bad_wait r <= sumZ r_bad_wait l ∧
  r_live r <= sumZ r_live l ∧ r_top r <= sumZ r_top l.
Proof.
  intros H. split_and!; (eapply sumZ_lookup_le; [|exact H]); first [by_run_pc | by intros []].
Qed.

Lemma api_facts l :
  (0 <= sumZ a_holds l ∧ 0 <= sumZ a_added l <= sumZ a_unborn l ∧
   sumZ a_unborn l <= sumZ a_starting l) ∧
  (0 <= sumZ a_quitting l ∧ 0 <= sumZ a_waking l ∧ 0 <= sumZ a_waiting l ∧
   0 <= sumZ a_waited l ∧ 0 <= sumZ a_settling l <= sumZ a_waited l) ∧
  sumZ a_starting l + sumZ a_quitting l + sumZ a_waking l + sumZ a_waiting l +
    sumZ a_settling l <= sumZ a_holds l.
Proof.
  split_and!; try (apply sumZ_nonneg; by_run_pc); try (apply sumZ_mono; by_run_pc).
  rewrite <- !sumZ_add. apply sumZ_mono. by_run_pc.
Qed.

Lemma api_at l i a : l !! i = Some a →
  (a_holds a <= sumZ a_holds l ∧ a_added a <= sumZ a_added l ∧
   a_unborn a <= sumZ a_unborn l ∧ a_starting a <= sumZ a_starting l ∧
   a_quitting a <= sumZ a_quitting l) ∧
  (a_waking a <= sumZ a_waking l ∧ a_waiting a <= sumZ a_waiting l ∧
   a_waited a <= sumZ a_waited l ∧ a_settling a <= sumZ a_settling l) ∧
  (a_starting a + a_quitting a + a_waking a + a_waiting a + a_settling a - a_holds a >=
   sumZ a_starting l + sumZ a_quitting l + sumZ a_waking l + sumZ a_waiting l +
   sumZ a_settling l - sumZ a_holds l).
Proof.
  intros H. split_and!; try (eapply sumZ_lookup_le; [by_run_pc|exact H]).
  set (f := λ a, a_holds a - (a_starting a + a_quitting a + a_waking a + a_waiting a
    + a_settling a)).
  assert (E : ∀ l, sumZ f l = sumZ a_holds l - (sumZ a_starting l + sumZ a_quitting l +
    sumZ a_waking l + sumZ a_waiting l + sumZ a_settling l)).
  { clear. induction l; cbn [sumZ]; unfold f in *; lia. }
  pose proof (sumZ_lookup_le f l i a) as Hle. rewrite E in Hle. unfold f in Hle.
  specialize (Hle ltac:(by_run_pc) H). lia.
Qed.

Ltac keep_pinv p :=
  pose proof (run_facts (p_runs p)); pose proof (api_facts (p_apis p));
  try match goal with H : p_runs p !! _ = Some _ |- _ => pose proof (run_at _ _ _ H) end;
  try match goal with H : p_apis p !! _ = Some _ |- _ => pose proof (api_at _ _ _ H) end;
  unfold to_run, to_api, with_runs, with_apis, with_life, with_channels, with_history in *;
  cbn [pollingWaitInterval p_isRunning p_locked p_wg p_quit p_wakeUp p_runs p_apis
    p_panicked p_starts p_late r_live r_committed r_bad_wait r_top a_holds a_starting
    a_added a_unborn a_quitting a_waking a_waiting a_waited a_settling] in *;
  constructor;
  cbn [pollingWaitInterval p_isRunning p_locked p_wg p_quit p_wakeUp p_runs p_apis
    p_panicked p_starts p_late];
  repeat match goal with
  | |- context [sumZ ?f (<[?i:=?y]> ?l)] => erewrite (sumZ_insert f l i) by eassumption
  | |- context [sumZ ?f (?l1 ++ ?l2)] => rewrite (sumZ_app f l1 l2)
  | |- context [length (_ ++ _)] => rewrite length_app
  | |- context [length (<[_:=_]> _)] => rewrite length_insert
  end;
  cbn [sumZ length r_live r_committed r_bad_wait r_top a_holds a_starting a_added
    a_unborn a_quitting a_waking a_waiting a_waited a_settling];
  try assumption; try lia.

Lemma run_step_pinv i c p p' : PInv p → run_step i c p = Some p' → PInv p'.
Proof.
  intros HI H. unfold run_step in H.
  destruct (p_runs p !! i) as [r|] eqn:Hr; [|done]. destruct HI.
  destruct r, c; simplify_eq/=.
  - destruct (p_quit p) eqn:Hq; keep_pinv p.
  - destruct b; [|destruct (p_quit p) eqn:Hq]; keep_pinv p.
    change (errorRefreshPeriod <=? 0) with false. lia.
  - destruct shouldWait; [|keep_pinv p]. keep_pinv p.
    all: replace (pollingWaitInterval p <=? 0) with false by lia; lia.
  - pose proof (run_at _ _ _ Hr) as Hat. pose proof (run_facts (p_runs p)).
    cbn [r_bad_wait] in Hat. destruct (interval <=? 0) eqn:Hd; [lia|]. keep_pinv p.
    rewrite Hd. lia.
  - destruct (p_wakeUp p) eqn:?; simplify_eq. keep_pinv p.
  - keep_pinv p.
  - pose proof (run_at _ _ _ Hr) as Hat. cbn [r_live] in Hat.
    pose proof (api_facts (p_apis p)).
    unfold p_wg_add. replace (p_wg p + -1 <? 0) with false by lia. keep_pinv p.
Qed.

Lemma api_step_pinv i p p' :
  PInv p → api_step i p = Some p' → p_starts p' <= 1 → PInv p'.
Proof.
  intros HI H Hn. unfold api_step in H.
  destruct (p_apis p !! i) as [a|] eqn:Ha; [|done]. destruct HI.
  destruct a; simplify_eq/=.
  - destruct (p_locked p) eqn:?; simplify_eq. keep_pinv p.
  - destruct (p_isRunning p) eqn:?; simplify_eq/=; keep_pinv p.
  - pose proof (run_facts (p_runs p)). pose proof (api_facts (p_apis p)).
    unfold p_wg_add. replace (p_wg p + 1 <? 0) with false by lia. keep_pinv p.
  - keep_pinv p.
  - keep_pinv p.
  - keep_pinv p.
  - destruct (p_locked p) eqn:?; simplify_eq. keep_pinv p.
  - destruct (p_isRunning p) eqn:?; simplify_eq/=; keep_pinv p.
  - pose proof (api_at _ _ _ Ha) as Hat. cbn [a_quitting] in Hat.
    destruct (p_quit p) eqn:?; simplify_eq/=; [lia|]. keep_pinv p.
  - pose proof (api_at _ _ _ Ha) as Hat. cbn [a_waking] in Hat.
    destruct (p_wakeUp p) eqn:?; simplify_eq/=; [lia|]. keep_pinv p.
  - destruct (p_wg p =? 0) eqn:?; simplify_eq. keep_pinv p.
  - keep_pinv p.
  - destruct err; keep_pinv p.
Qed.

Lemma poller_step_pinv l p p' :
  PInv p → poller_step l p = Some p' → p_starts p' <= 1 → PInv p'.
Proof.
  intros HI H Hn. unfold poller_step in H. rewrite (pi_panicked p HI) in H.
  destruct l; simplify_eq.
  1-2: destruct HI; keep_pinv p.
  - by eapply api_step_pinv.
  - by eapply run_step_pinv.
Qed.

Lemma poller_step_starts l p p' : poller_step l p = Some p' → p_starts p <= p_starts p'.
Proof.
  unfold poller_step, api_step, run_step, p_wg_add. destruct (p_panicked p); [done|].
  intros H. destruct l; repeat case_match; simplify_eq/=; lia.
Qed.

Lemma poller_exec_starts ls p p' :
  poller_exec ls p = Some p' → p_starts p <= p_starts p'.
Proof.
  revert p. induction ls as [|l ls IH]; intros p H; simplify_eq/=; [lia|].
  destruct (poller_step l p) as [p1|] eqn:E; [|done].
  apply poller_step_starts in E. apply IH in H. lia.
Qed.

Lemma poller_exec_pinv ls p p' :
  PInv p → poller_exec ls p = Some p' → p_starts p' <= 1 → PInv p'.
Proof.
  revert p. induction ls as [|l ls IH]; intros p HI H Hn; simplify_eq/=; [done|].
  destruct (poller_step l p) as [p1|] eqn:E; [|done].
  pose proof (poller_exec_starts _ _ _ H). eapply IH; [|done..].
  eapply poller_step_pinv; [done..|lia].
Qed.

Lemma poller_exec_app ls1 ls2 p p1 :
  poller_exec ls1 p = Some p1 → poller_exec (ls1 ++ ls2) p = poller_exec ls2 p1.
Proof.
  revert p. induction ls1 as [|l ls1 IH]; intros p H; simplify_eq/=; [done|].
  destruct (poller_step l p); [by apply IH|done].
Qed.

(** The polling interval [NewProcessor] leaves, short enough not to overflow. *)
Definition interval_ok (c : PollerConf) : Prop :=
  0 < PollingWaitIntervalInMillis c * Millisecond <= max_i64.

Lemma NewPoller_pinv c : interval_ok c → PInv (NewPoller c).
Proof.
  intros H. unfold interval_ok in H. constructor; cbn; try lia; try done.
  rewrite i64_id; [lia|]. unfold is_i64, max_i64 in *. lia.
Qed.

(** ** Once both channels are closed, [run] stops by itself *)

Definition run_rank (r : run_pc) : Z :=
  match r with
  | PDefault => 7 | PPoll => 6 | PWait _ => 4 | PWaiting => 3
  | PTop => 2 | PDone => 1 | PExited => 0
  end.

Definition is_run (l : poller_label) : Prop :=
  match l with Run _ _ => True | _ => False end.

Lemma run_step_rank i c p p' :
  p_quit p = true → run_step i c p = Some p' → p_panicked p' = None →
  sumZ run_rank (p_runs p') < sumZ run_rank (p_runs p) ∧ p_quit p' = true ∧
  p_wakeUp p' = p_wakeUp p ∧ p_apis p' = p_apis p ∧ p_starts p' = p_starts p.
Proof.
  intros Hq H Hp. unfold run_step in H.
  destruct (p_runs p !! i) as [r|] eqn:Hr; [|done].
  destruct r, c; simplify_eq/=; unfold p_wg_add in *; rewrite ?Hq in *;
    repeat case_match; simplify_eq/=;
    erewrite ?sumZ_insert by eassumption; cbn [run_rank]; split_and!; try done; lia.
Qed.

Lemma run_progress i r p :
  p_quit p = true → p_wakeUp p = true → p_runs p !! i = Some r → r ≠ PExited →
  ∃ c p', run_step i c p = Some p'.
Proof.
  intros Hq Hw Hr Hne. unfold run_step. rewrite Hr.
  destruct r; try done; first
    [ exists Go; rewrite ?Hq, ?Hw; by eexists | exists (Expired true); by eexists
    | exists (Polled false); by eexists ].
Qed.

Lemma run_rank_nonneg l : 0 <= sumZ run_rank l.
Proof. apply sumZ_nonneg. by intros []. Qed.

Lemma runs_finish p :
  PInv p → p_quit p = true → p_wakeUp p = true →
  ∃ ls p', poller_exec ls p = Some p' ∧ PInv p' ∧ p_apis p' = p_apis p ∧
    sumZ r_live (p_runs p') = 0.
Proof.
  remember (Z.to_nat (sumZ run_rank (p_runs p))) as n eqn:Hn. revert p Hn.
  induction n as [n IH] using lt_wf_ind; intros p Hn HI Hq Hw.
  pose proof (run_rank_nonneg (p_runs p)).
  destruct (decide (sumZ r_live (p_runs p) = 0)) as [Hz|Hz]; [by exists [], p|].
  pose proof (run_facts (p_runs p)) as Hf.
  destruct (sumZ_pos_lookup r_live (p_runs p)) as (i & r & Hr & Hl); [by_run_pc|lia|].
  destruct (run_progress i r p Hq Hw Hr) as (c & p1 & E); [by intros ->|].
  pose proof (run_step_pinv i c p p1 HI E) as HI1.
  destruct (run_step_rank i c p p1 Hq E (pi_panicked p1 HI1)) as (Hlt & Hq1 & Hw1 & Ha & Hs).
  pose proof (run_rank_nonneg (p_runs p1)).
  assert (Hm : (Z.to_nat (sumZ run_rank (p_runs p1)) < n)%nat) by lia.
  destruct (IH _ Hm p1 eq_refl HI1 Hq1 ltac:(congruence)) as (ls & p' & E' & ? & ? & ?).
  exists (Run i c :: ls), p'. cbn [poller_exec].
  unfold poller_step. rewrite (pi_panicked p HI), E. split_and!; [done..|congruence|done].
Qed.

Lemma runs_bounded ls p p' :
  PInv p → p_quit p = true → Forall is_run ls → poller_exec ls p = Some p' →
  Z.of_nat (length ls) <= sumZ run_rank (p_runs p).
Proof.
  revert p. induction ls as [|l ls IH]; intros p HI Hq Hls H; simplify_eq/=.
  { apply run_rank_nonneg. }
  apply Forall_cons in Hls as [Hl Hls]. destruct l as [| | |i c]; try done.
  unfold poller_step in H. rewrite (pi_panicked p HI) in H.
  destruct (run_step i c p) as [p1|] eqn:E; [|done].
  pose proof (run_step_pinv i c p p1 HI E) as HI1.
  destruct (run_step_rank i c p p1 Hq E (pi_panicked p1 HI1)) as (Hlt & Hq1 & _).
  specialize (IH p1 HI1 Hq1 Hls H). lia.
Qed.

Lemma rank_bound l : (length l <= 1)%nat → sumZ run_rank l <= 7.
Proof. destruct l as [|[] [|]]; cbn; lia. Qed.

Section LoopExamples.

Definition loop_conf : PollerConf := mkPollerConf 100 30 10.

(** [Start], one cycle begun, [Stop] called and waiting. *)
Definition stopping_poller : list poller_label :=
  [CallStart; Api 0; Api 0; Api 0; Api 0; Api 0; Api 0; Run 0 Go; CallStop;
   Api 1; Api 1; Api 1; Api 1; Run 0 (Expired false)].

Definition stopped_poller : list poller_label :=
  stopping_poller ++
  [Run 0 (Polled true); Run 0 Go; Run 0 Go; Run 0 Go; Run 0 Go; Api 1; Api 1; Api 1].

(** A second life cycle of the same poller. *)
Definition restarted_poller : list poller_label :=
  stopped_poller ++
  [CallStart; Api 2; Api 2; Api 2; Api 2; Api 2; Api 2; CallStop; Api 3; Api 3; Api 3].

Definition run_poller (ls : list poller_label) : poller :=
  default (NewPoller loop_conf) (poller_exec ls (NewPoller loop_conf)).

End LoopExamples.

Lemma loop_conf_ok : interval_ok loop_conf.
Proof. unfold interval_ok. split; vm_compute; done. Qed.

(** C25. In one life cycle, whatever the interleaving of [Start], [Stop] and the
    polling goroutine: the poller does not panic; at most one polling cycle
    begins after [quit] is closed; and once [Stop] has returned [nil] no polling
    goroutine is left, so that no message is received any more. *)
Theorem stopped_poller_is_quiet c ls p :
  interval_ok c → poller_exec ls (NewPoller c) = Some p → p_starts p <= 1 →
  p_panicked p = None ∧ p_late p <= 1 ∧
  ∀ i, p_apis p !! i = Some (AStopped false) →
    p_quit p = true ∧ ∀ k r, p_runs p !! k = Some r → r = PExited.
Proof.
  intros Hc H Hn.
  pose proof (poller_exec_pinv ls _ p (NewPoller_pinv c Hc) H Hn) as HI.
  pose proof (run_facts (p_runs p)). pose proof (api_facts (p_apis p)).
  pose proof (pi_late p HI). split_and!; [apply (pi_panicked p HI)|lia|].
  intros i Hi. pose proof (api_at _ _ _ Hi) as Hat. cbn in Hat.
  destruct (pi_waited p HI ltac:(lia)) as (Hwg & Hq & _). split; [done|].
  intros k r Hk. pose proof (pi_wg p HI).
  assert (E : r_live r = 0).
  { eapply sumZ_zero_lookup; [|  |exact Hk]; [by_run_pc|lia]. }
  by destruct r.
Qed.

(** [Stop] terminates: when it waits for the polling goroutine, that
    goroutine can always move until it exits, it takes at most seven more moves
    whatever happens, and [Stop] can then return [nil]. *)
Theorem poller_stop_terminates c ls p i :
  interval_ok c → poller_exec ls (NewPoller c) = Some p → p_starts p <= 1 →
  p_apis p !! i = Some AStopWait →
  (∃ ls' p', poller_exec ls' p = Some p' ∧ p_apis p' !! i = Some (AStopped false)) ∧
  (∀ ls' p', Forall is_run ls' → poller_exec ls' p = Some p' → (length ls' <= 7)%nat).
Proof.
  intros Hc H Hn Hi.
  pose proof (poller_exec_pinv ls _ p (NewPoller_pinv c Hc) H Hn) as HI.
  pose proof (api_at _ _ _ Hi) as Hat. cbn in Hat.
  pose proof (api_facts (p_apis p)).
  destruct (pi_waiting p HI ltac:(lia)) as [Hq Hw]. split.
  - destruct (runs_finish p HI Hq Hw) as (ls1 & p1 & E1 & HI1 & Ha & Hz).
    assert (Hwg : p_wg p1 = 0).
    { pose proof (pi_wg p1 HI1). rewrite Ha in *. pose proof (pi_starting p1 HI1) as Hst.
      pose proof (pi_locked p1 HI1). rewrite Ha in *. destruct (p_locked p1); cbn in *; lia. }
    assert (Hi1 : p_apis p1 !! i = Some AStopWait) by congruence.
    pose proof (lookup_lt_Some _ _ _ Hi1) as Hlt.
    exists (ls1 ++ [Api i; Api i; Api i]). eexists.
    rewrite (poller_exec_app _ _ _ _ E1). cbn [poller_exec]. unfold poller_step.
    rewrite (pi_panicked p1 HI1). unfold api_step at 1. rewrite Hi1, Hwg. cbn.
    rewrite (pi_panicked p1 HI1). unfold api_step at 1. cbn.
    rewrite list_lookup_insert_eq by done. cbn.
    rewrite (pi_panicked p1 HI1). unfold api_step at 1. cbn.
    rewrite list_insert_insert_eq, list_lookup_insert_eq by done. cbn.
    split; [reflexivity|]. cbn. rewrite ?list_insert_insert_eq.
    by apply list_lookup_insert_eq.
  - intros ls' p' Hls E. pose proof (runs_bounded ls' p p' HI Hq Hls E).
    pose proof (pi_runs p HI). pose proof (rank_bound (p_runs p)). lia.
Qed.

(** The poller is not restartable: after a complete life cycle a second
    [Start] succeeds, and the next [Stop] closes [quit] a second time, which
    panics. *)
Theorem poller_restart_panics :
  p_apis (run_poller stopped_poller) !! 1%nat = Some (AStopped false) ∧
  p_apis (run_poller restarted_poller) !! 2%nat = Some (AStarted false) ∧
  p_panicked (run_poller restarted_poller) = Some PanicCloseOfClosed.
Proof. vm_compute. done. Qed.

Lemma stopped_poller_is_quiet_witness :
  p_late (run_poller stopped_poller) = 1 ∧
  p_panicked (run_poller stopped_poller) = None ∧
  p_quit (run_poller stopped_poller) = true.
Proof.
  destruct (stopped_poller_is_quiet loop_conf stopped_poller (run_poller stopped_poller)
    loop_conf_ok ltac:(vm_compute; reflexivity) ltac:(vm_compute; discriminate))
    as (Hp & _ & Hs).
  split_and!; [vm_compute; reflexivity|exact Hp|].
  exact (proj1 (Hs 1%nat ltac:(vm_compute; reflexivity))).
Defined.

Lemma poller_stop_terminates_witness :
  ∃ ls' p', poller_exec ls' (run_poller stopping_poller) = Some p' ∧
    p_apis p' !! 1%nat = Some (AStopped false).
Proof.
  apply (poller_stop_terminates loop_conf stopping_poller
    (run_poller stopping_poller) 1 loop_conf_ok).
  - vm_compute. reflexivity.
  - vm_compute. discriminate.
  - vm_compute. reflexivity.
Defined.
