(* ===== verification/Intake.v ===== *)
(** * Pollers and the worker pool together (queue/poller.go, worker_pool/).

    Poller and WorkerPool model the two sides of [Submit] on their own; here any
    number of polling cycles, of one poller or of several, submit to the
    transition system of the pool while its workers, [run], [monitorMetrics] and
    the callers of [Start] and [Stop] move. A submission of a cycle is a caller
    of the pool, and the cycle waits for it to return. *)

From stdpp Require Import base list numbers strings relations.
From Stdlib Require Import Lia ZifyBool ZifyNat.
From S2P Require Import Prelude Configuration WorkerPool WorkerPoolInv WorkerPoolProps.
From S2P Require Import WorkerPoolClaims.
Local Open Scope Z_scope.

Section Intake.
Context {J : Type}.

(** The loop of [poll] over the messages received. *)
Inductive cycle_pc : Type :=
  | CySubmit (js : list J)                    (* at the head of the loop *)
  | CySubmitting (j : J) (js : list J) (i : nat)  (* in Submit, caller [i] of the pool *)
  | CyReturning (js rest : list J)            (* in terminateMessageVisibility *)
  | CyDone.

Record intake : Type := mkIntake {
  jobs : pool J;
  cycles : list cycle_pc;
  (* history *)
  received : list J;
  returned : list J                           (* made visible again *)
}.

Definition intake_init (c : PoolConf) : intake := mkIntake (New c) [] [] [].

Definition to_cycle (k : nat) (y : cycle_pc) (s : intake) : intake :=
  mkIntake (jobs s) (<[k:=y]> (cycles s)) (received s) (returned s).

(** [Start] and [Stop] are called from outside, [Submit] by the cycles. *)
Definition outside (l : label J) : bool :=
  match l with Invoke (DoSubmit _) => false | _ => true end.

Inductive intake_step : intake → intake → Prop :=
  | in_pool s l p :
      outside l = true → step l (jobs s) = Some p →
      intake_step s (mkIntake p (cycles s) (received s) (returned s))
  | in_receive s js :
      intake_step s
        (mkIntake (jobs s) (cycles s ++ [CySubmit js]) (received s ++ js) (returned s))
  | in_submit s k j js p :
      cycles s !! k = Some (CySubmit (j :: js)) →
      step (Invoke (DoSubmit j)) (jobs s) = Some p →
      intake_step s (mkIntake p
        (<[k:=CySubmitting j js (length (callers (jobs s)))]> (cycles s))
        (received s) (returned s))
  | in_taken s k j js i :
      cycles s !! k = Some (CySubmitting j js i) →
      callers (jobs s) !! i = Some (CSubmitted (true, None)) →
      intake_step s (to_cycle k (CySubmit js) s)
  | in_refused s k j js i :
      cycles s !! k = Some (CySubmitting j js i) →
      callers (jobs s) !! i = Some (CSubmitted (false, None)) →
      intake_step s (to_cycle k (CyReturning [j] js) s)
  | in_failed s k j js i b e :
      cycles s !! k = Some (CySubmitting j js i) →
      callers (jobs s) !! i = Some (CSubmitted (b, Some e)) →
      intake_step s (to_cycle k (CyReturning (j :: js) []) s)
  | in_return s k j js rest :
      cycles s !! k = Some (CyReturning (j :: js) rest) →
      intake_step s (mkIntake (jobs s) (<[k:=CyReturning js rest]> (cycles s))
        (received s) (returned s ++ [j]))
  | in_returned s k rest :
      cycles s !! k = Some (CyReturning [] rest) →
      intake_step s (to_cycle k (CySubmit rest) s)
  | in_done s k :
      cycles s !! k = Some (CySubmit []) → intake_step s (to_cycle k CyDone s).

(** ** Where a submission stands *)

Inductive stage : Type :=
  | Waiting (j : J)              (* not committed to yet *)
  | Taken
  | TurnedDown
  | Elsewhere.                   (* not a submission *)

Definition stage_of (c : caller_pc J) : stage :=
  match c with
  | CSubmit j | CSubmitCheck j | CSubmitSelect j | CSubmitGrow j => Waiting j
  | CSubmitWgAdd _ | CSubmitSpawn _ | CSubmitRet (true, None) | CSubmitted (true, None) => Taken
  | CSubmitRet (false, _) | CSubmitted (false, _) => TurnedDown
  | _ => Elsewhere
  end.

(** The messages a cycle has in hand, which neither the pool has taken nor the
    queue has got back. *)
Definition in_hand (p : pool J) (y : cycle_pc) : list J :=
  match y with
  | CySubmit js => js
  | CySubmitting j js i =>
      match stage_of <$> callers p !! i with
      | Some Taken => js
      | _ => j :: js
      end
  | CyReturning js rest => js ++ rest
  | CyDone => []
  end.

Definition in_hands (s : intake) : list J := cycles s ≫= in_hand (jobs s).

(** A move of the pool: it commits to one waiting job, or to none. *)
Definition pool_move (p p' : pool J) : Prop :=
  (accepted p' = accepted p ∧
   (∀ i c, callers p !! i = Some c → ∃ c', callers p' !! i = Some c' ∧
     (stage_of c' = stage_of c ∨ ∃ j, stage_of c = Waiting j ∧ stage_of c' = TurnedDown)) ∧
   ∀ i c', callers p !! i = None → callers p' !! i = Some c' → stage_of c' = Elsewhere) ∨
  ∃ i j c c', accepted p' = accepted p ++ [j] ∧
    callers p !! i = Some c ∧ stage_of c = Waiting j ∧
    callers p' = <[i:=c']> (callers p) ∧ stage_of c' = Taken.

Lemma pool_move_same p p' :
  accepted p' = accepted p → callers p' = callers p → pool_move p p'.
Proof.
  intros Ha Hc. left. rewrite Hc. split; [done|]. split; [|congruence].
  intros i c Hi. exists c. eauto.
Qed.

Lemma pool_move_caller i c c' p p' :
  callers p !! i = Some c → accepted p' = accepted p → callers p' = <[i:=c']> (callers p) →
  stage_of c' = stage_of c ∨ (∃ j, stage_of c = Waiting j ∧ stage_of c' = TurnedDown) →
  pool_move p p'.
Proof.
  intros Hi Ha Hc Hst. left. split; [done|]. rewrite Hc. split.
  2: { intros k d Hk [(-> & _)|[_ ?]]%list_lookup_insert_Some; congruence. }
  intros k d Hk. destruct (decide (k = i)) as [->|Hne].
  - rewrite Hi in Hk. injection Hk as <-. exists c'.
    rewrite list_lookup_insert_eq by (by eapply lookup_lt_Some). eauto.
  - exists d. rewrite list_lookup_insert_ne by done. eauto.
Qed.

Lemma pool_move_accepts i j c c' p p' :
  callers p !! i = Some c → stage_of c = Waiting j → accepted p' = accepted p ++ [j] →
  callers p' = <[i:=c']> (callers p) → stage_of c' = Taken → pool_move p p'.
Proof. intros. right. by exists i, j, c, c'. Qed.

Lemma to_select_frame i (p : pool J) :
  accepted (to_select i p) = accepted p ∧ callers (to_select i p) = callers p.
Proof. unfold to_select. by destruct (_ && _). Qed.

Lemma worker_step_move i c (p p' : pool J) : worker_step i c p = Some p' → pool_move p p'.
Proof.
  intros Hs. unfold worker_step in Hs.
  destruct (workers p !! i) as [w|]; [|done].
  destruct w as [[j|]|j|j| | | | | | |], c; simplify_eq/=;
    unfold CompareAndDecrementCurrentWorker, wg_add in *; repeat case_match; simplify_eq/=;
    apply pool_move_same; rewrite ?(proj1 (to_select_frame _ _)), ?(proj2 (to_select_frame _ _));
    done.
Qed.

Lemma caller_step_move i k (p p' : pool J) : caller_step i k p = Some p' → pool_move p p'.
Proof.
  intros Hs. unfold caller_step in Hs. destruct (callers p !! i) as [c|] eqn:Hi; [|done].
  destruct c; simplify_eq/=;
    unfold submit_select, submit_default, CompareAndIncrementCurrentWorker, wg_add in *;
    repeat case_match; simplify_eq/=;
    first
      [ apply pool_move_same; done
      | eapply pool_move_accepts; [exact Hi|reflexivity..]
      | eapply pool_move_caller; [exact Hi|reflexivity|reflexivity|]; cbn; eauto ].
Qed.

Lemma step_move l (p p' : pool J) :
  outside l = true → step l p = Some p' → pool_move p p'.
Proof.
  unfold step. intros Ho Hs. destruct (panicked p); [done|].
  destruct l as [c|i k|i c|i|i]; simplify_eq/=.
  - left. split; [done|]. cbn. split.
    + intros i d Hi. exists d. split; [|by left]. by apply lookup_app_l_Some.
    + intros i d Hi. rewrite lookup_app_r by (by apply lookup_ge_None).
      intros Hd. apply list_lookup_singleton_Some in Hd as [_ <-]. by destruct c.
  - by eapply caller_step_move.
  - by eapply worker_step_move.
  - unfold runner_step in Hs. repeat case_match; simplify_eq/=; by apply pool_move_same.
  - unfold monitor_step in Hs. repeat case_match; simplify_eq/=; by apply pool_move_same.
Qed.

(** ** The invariant *)

Record IntakeInv (s : intake) : Prop := {
  in_owner : ∀ i c j, callers (jobs s) !! i = Some c → stage_of c = Waiting j →
    ∃ k js, cycles s !! k = Some (CySubmitting j js i);
  in_unique : ∀ k k' j j' js js' i, cycles s !! k = Some (CySubmitting j js i) →
    cycles s !! k' = Some (CySubmitting j' js' i) → k = k';
  in_valid : ∀ k j js i, cycles s !! k = Some (CySubmitting j js i) →
    ∃ c, callers (jobs s) !! i = Some c ∧
      (stage_of c = Waiting j ∨ stage_of c = Taken ∨ stage_of c = TurnedDown)
}.

(** A cycle moves on from a submission or from elsewhere, the pool unchanged. *)
Lemma cycle_move_inv p l g h k y y' :
  IntakeInv (mkIntake p l g h) → l !! k = Some y →
  (∀ j js i, y' ≠ CySubmitting j js i) →
  (∀ j js i c, y = CySubmitting j js i → callers p !! i = Some c →
    ∀ j', stage_of c ≠ Waiting j') →
  ∀ g' h', IntakeInv (mkIntake p (<[k:=y']> l) g' h').
Proof.
  intros [I1 I2 I3] Hk Hy' Hy g' h'. cbn in *. split; cbn.
  - intros i c j Hi Hw. destruct (I1 i c j Hi Hw) as (k' & js & Hk'). exists k', js.
    rewrite list_lookup_insert_ne; [done|]. intros <-. rewrite Hk in Hk'.
    injection Hk' as ->. by eapply Hy.
  - intros k1 k2 j1 j2 js1 js2 i H1 H2.
    apply list_lookup_insert_Some in H1 as [(_ & E & _)|[_ H1]]; [by destruct (Hy' j1 js1 i)|].
    apply list_lookup_insert_Some in H2 as [(_ & E & _)|[_ H2]]; [by destruct (Hy' j2 js2 i)|].
    by eapply I2.
  - intros k1 j1 js1 i H1.
    apply list_lookup_insert_Some in H1 as [(_ & E & _)|[_ H1]]; [by destruct (Hy' j1 js1 i)|].
    by eapply I3.
Qed.

Lemma pool_move_inv p p' l g h :
  IntakeInv (mkIntake p l g h) → pool_move p p' → IntakeInv (mkIntake p' l g h).
Proof.
  intros [I1 I2 I3] Hm. cbn in *. split; cbn; [|exact I2|].
  - intros i c' j Hi Hw. destruct Hm as [(Ha & Hc & Hn)|(i0 & j0 & c & c0 & Ha & Hc & Hw0 & Hc' & Ht)].
    + destruct (callers p !! i) as [c|] eqn:Ei.
      * destruct (Hc i c Ei) as (c2 & E2 & Hst). rewrite Hi in E2. injection E2 as <-.
        destruct Hst as [E|(j' & _ & E)]; [|congruence]. apply (I1 i c j Ei). congruence.
      * rewrite (Hn i c' Ei Hi) in Hw. done.
    + rewrite Hc' in Hi. apply list_lookup_insert_Some in Hi as [(_ & <- & _)|[_ Hi]];
        [congruence|]. by eapply I1.
  - intros k j js i Hk. destruct (I3 k j js i Hk) as (c & Hi & Hst).
    destruct Hm as [(Ha & Hc & Hn)|(i0 & j0 & c1 & c0 & Ha & Hc & Hw0 & Hc' & Ht)].
    + destruct (Hc i c Hi) as (c2 & E2 & Hst'). exists c2. split; [done|].
      destruct Hst' as [E|(j' & E & E')]; [|rewrite E'; auto]. by rewrite E.
    + rewrite Hc'. destruct (decide (i = i0)) as [->|Hne].
      * exists c0. rewrite list_lookup_insert_eq by (by eapply lookup_lt_Some). auto.
      * exists c. by rewrite list_lookup_insert_ne.
Qed.

Lemma submit_inv p l g h k j js :
  IntakeInv (mkIntake p l g h) → l !! k = Some (CySubmit (j :: js)) →
  IntakeInv (mkIntake (invoke (DoSubmit j) p)
    (<[k:=CySubmitting j js (length (callers p))]> l) g h).
Proof.
  intros [I1 I2 I3] Hk. cbn in *.
  assert (Hlt : ∀ k' j' js' i, l !! k' = Some (CySubmitting j' js' i) → (i < length (callers p))%nat).
  { intros k' j' js' i Hk'. destruct (I3 k' j' js' i Hk') as (c & Hc & _).
    by eapply lookup_lt_Some. }
  assert (Hkl : (k < length l)%nat) by (by eapply lookup_lt_Some).
  split; cbn.
  - intros i c j' Hi Hw. apply lookup_snoc_Some in Hi as [[Hlen Hi]|[-> <-]].
    + destruct (I1 i c j' Hi Hw) as (k' & js' & Hk'). exists k', js'.
      rewrite list_lookup_insert_ne; [done|]. intros ->. congruence.
    + injection Hw as <-. exists k, js. by rewrite list_lookup_insert_eq.
  - intros k1 k2 j1 j2 js1 js2 i H1 H2.
    apply list_lookup_insert_Some in H1 as [(<- & [= <- <- <-] & _)|[Hn1 H1]];
      apply list_lookup_insert_Some in H2 as [(<- & E & _)|[Hn2 H2]]; try done.
    + apply Hlt in H2. lia.
    + injection E as <- <- <-. apply Hlt in H1. lia.
    + by eapply I2.
  - intros k' j' js' i H1.
    apply list_lookup_insert_Some in H1 as [(<- & [= <- <- <-] & _)|[Hn1 H1]].
    + exists (CSubmit j). rewrite lookup_app_r, Nat.sub_diag by lia. by split; [|left].
    + destruct (I3 k' j' js' i H1) as (c & Hc & Hst). exists c.
      split; [|done]. by apply lookup_app_l_Some.
Qed.

Lemma receive_inv p l g h js g' :
  IntakeInv (mkIntake p l g h) → IntakeInv (mkIntake p (l ++ [CySubmit js]) g' h).
Proof.
  assert (Hold : ∀ k j' js' i, (l ++ [CySubmit js]) !! k = Some (CySubmitting j' js' i) →
    l !! k = Some (CySubmitting j' js' i)).
  { intros k j' js' i Hk. by apply lookup_snoc_Some in Hk as [[_ Hk]|[_ [=]]]. }
  intros [I1 I2 I3]. cbn in *. split; cbn.
  - intros i c j Hi Hw. destruct (I1 i c j Hi Hw) as (k & js' & Hk). exists k, js'.
    by apply lookup_app_l_Some.
  - intros k k' j j' js1 js2 i H1%Hold H2%Hold. by eapply I2.
  - intros k j js1 i H1%Hold. by eapply I3.
Qed.

Lemma intake_step_inv s s' : IntakeInv s → intake_step s s' → IntakeInv s'.
Proof.
  intros HI Hs. destruct Hs as [[p l g h] lb p' Ho Hs|[p l g h] js|[p l g h] k j js p' Hk Hs
    |[p l g h] k j js i Hk Hi|[p l g h] k j js i Hk Hi|[p l g h] k j js i b e Hk Hi
    |[p l g h] k j js rest Hk|[p l g h] k rest Hk|[p l g h] k Hk]; cbn in *.
  - eapply pool_move_inv; [done|by eapply step_move].
  - by eapply receive_inv.
  - unfold step in Hs. destruct (panicked p); [done|]. injection Hs as <-. by apply submit_inv.
  - eapply cycle_move_inv; [done|exact Hk|done|].
    intros j1 js1 i1 c [= <- <- <-] Hc j2. cbn in Hc. rewrite Hi in Hc. by injection Hc as <-.
  - eapply cycle_move_inv; [done|exact Hk|done|].
    intros j1 js1 i1 c [= <- <- <-] Hc j2. cbn in Hc. rewrite Hi in Hc. by injection Hc as <-.
  - eapply cycle_move_inv; [done|exact Hk|done|].
    intros j1 js1 i1 c [= <- <- <-] Hc j2. cbn in Hc. rewrite Hi in Hc. injection Hc as <-. by destruct b.
  - by eapply cycle_move_inv; [|exact Hk|..].
  - by eapply cycle_move_inv; [|exact Hk|..].
  - by eapply cycle_move_inv; [|exact Hk|..].
Qed.

(** ** Accounting *)

Lemma sumZ_same {A} (f f' : A → Z) l :
  (∀ k y, l !! k = Some y → f' y = f y) → sumZ f' l = sumZ f l.
Proof.
  induction l as [|z l IH]; intros Hl; [done|]. cbn. rewrite (Hl 0%nat z eq_refl), IH; [done|].
  intros k y. apply (Hl (S k)).
Qed.

Lemma sumZ_at {A} (f f' : A → Z) l k x d :
  l !! k = Some x → f' x = f x + d →
  (∀ k' y, l !! k' = Some y → k' ≠ k → f' y = f y) → sumZ f' l = sumZ f l + d.
Proof.
  revert k. induction l as [|z l IH]; intros [|k] Hk Hx Hne; cbn in *; try done.
  - injection Hk as ->. rewrite Hx, (sumZ_same f f' l); [lia|].
    intros k' y Hy. by apply (Hne (S k') y Hy).
  - rewrite (Hne 0%nat z eq_refl) by done. rewrite (IH k Hk Hx); [lia|].
    intros k' y Hy Hk'. apply (Hne (S k') y Hy). lia.
Qed.

End Intake.

Arguments intake : clear implicits.
Arguments cycle_pc : clear implicits.

Section Accounting.
Context {J : Type} `{EqDecision J}.
Implicit Types (s : intake J) (p : pool J).

Definition hand_occ (x : J) p (y : cycle_pc J) : Z := occ x (in_hand p y).

Definition balanced s : Prop :=
  ∀ x, occ x (received s) = occ x (returned s) + occ x (accepted (jobs s)) +
    sumZ (hand_occ x (jobs s)) (cycles s).

Lemma pool_move_balanced p p' l g h :
  IntakeInv (mkIntake p l g h) → pool_move p p' →
  balanced (mkIntake p l g h) → balanced (mkIntake p' l g h).
Proof.
  intros [I1 I2 I3] Hm Hb x. specialize (Hb x). cbn in *. rewrite Hb.
  destruct Hm as [(Ha & Hc & _)|(i & j & c & c' & Ha & Hc & Hw & Hc' & Ht)]; rewrite Ha.
  - f_equal. symmetry. apply sumZ_same. intros k y Hk. unfold hand_occ. f_equal.
    destruct y as [|j js i| |]; try done. destruct (I3 k j js i Hk) as (c & Hi & Hst).
    destruct (Hc i c Hi) as (c' & Hi' & Hst'). cbn. rewrite Hi, Hi'. cbn.
    destruct Hst' as [-> | (j' & -> & ->)]; done.
  - rewrite occ_app, occ_cons, occ_nil.
    destruct (I1 i c j Hc Hw) as (k & js & Hk).
    rewrite (sumZ_at (hand_occ x p) (hand_occ x p') l k _
      (- (if decide (j = x) then 1 else 0)) Hk); [lia| |].
    + unfold hand_occ. cbn. rewrite Hc', Hc, list_lookup_insert_eq by (by eapply lookup_lt_Some).
      cbn. rewrite Hw, Ht, occ_cons. lia.
    + intros k' y Hk' Hne. unfold hand_occ. f_equal. destruct y as [|j' js' i'| |]; try done.
      cbn. rewrite Hc', list_lookup_insert_ne; [done|]. intros <-. apply Hne. by eapply I2.
Qed.

Lemma intake_step_balanced s s' :
  IntakeInv s → balanced s → intake_step s s' → balanced s'.
Proof.
  intros HI Hb Hs. destruct Hs as [[p l g h] lb p' Ho Hs|[p l g h] js|[p l g h] k j js p' Hk Hs
    |[p l g h] k j js i Hk Hi|[p l g h] k j js i Hk Hi|[p l g h] k j js i b e Hk Hi
    |[p l g h] k j js rest Hk|[p l g h] k rest Hk|[p l g h] k Hk]; cbn in *.
  - eapply pool_move_balanced; [done|by eapply step_move|done].
  - intros x. specialize (Hb x). cbn in *. rewrite occ_app, sumZ_app, Hb. unfold hand_occ. cbn. lia.
  - unfold step in Hs. destruct (panicked p); [done|]. injection Hs as <-.
    intros x. specialize (Hb x). cbn in *. rewrite Hb. f_equal.
    rewrite <- (sumZ_same (hand_occ x p) (hand_occ x (invoke (DoSubmit j) p))).
    + rewrite (sumZ_insert _ l k _ _ Hk). unfold hand_occ. cbn.
      rewrite lookup_app_r, Nat.sub_diag by lia. cbn. lia.
    + intros k' y Hk'. unfold hand_occ. f_equal. destruct y as [|j' js' i'| |]; try done.
      destruct (in_valid _ HI k' j' js' i' Hk') as (c & Hc & _). cbn in *.
      by rewrite (lookup_app_l_Some _ _ _ _ Hc), Hc.
  - intros x. specialize (Hb x). cbn in *. rewrite Hb, (sumZ_insert _ l k _ _ Hk).
    unfold hand_occ. cbn. rewrite Hi. cbn. lia.
  - intros x. specialize (Hb x). cbn in *. rewrite Hb, (sumZ_insert _ l k _ _ Hk).
    unfold hand_occ. cbn. rewrite Hi. cbn. lia.
  - intros x. specialize (Hb x). cbn in *. rewrite Hb, (sumZ_insert _ l k _ _ Hk).
    unfold hand_occ. cbn. rewrite Hi. cbn. destruct b; rewrite app_nil_r; lia.
  - intros x. specialize (Hb x). cbn in *. rewrite Hb, (sumZ_insert _ l k _ _ Hk).
    unfold hand_occ. cbn. rewrite !occ_app, !occ_cons, occ_app, occ_nil. lia.
  - intros x. specialize (Hb x). cbn in *. rewrite Hb, (sumZ_insert _ l k _ _ Hk).
    unfold hand_occ. cbn. lia.
  - intros x. specialize (Hb x). cbn in *. rewrite Hb, (sumZ_insert _ l k _ _ Hk).
    unfold hand_occ. cbn. lia.
Qed.

Lemma reachable_step c l p p' : reachable c p → step l p = Some p' → reachable c p'.
Proof.
  intros [ls E] Hs. exists (ls ++ [l]). erewrite exec_app by exact E. cbn. by rewrite Hs.
Qed.

Lemma intake_reachable c s :
  rtc intake_step (intake_init c) s →
  IntakeInv s ∧ balanced s ∧ reachable c (jobs s).
Proof.
  assert (Hi : IntakeInv (intake_init c : intake J) ∧
    balanced (intake_init c : intake J) ∧ reachable c (jobs (intake_init c : intake J))).
  { split; [by split|]. split; [done|]. by exists []. }
  revert Hi. generalize (intake_init c : intake J). intros s0 Hi Hr. revert Hi.
  induction Hr as [|s1 s2 s3 Hs _ IH]; [done|]. intros (HI & Hb & Hp). apply IH. split_and!.
  - by eapply intake_step_inv.
  - by eapply intake_step_balanced.
  - destruct Hs as [? l ? _ Hs| |? k j js ? _ Hs| | | | | |]; try exact Hp.
    + by eapply reachable_step.
    + by eapply reachable_step.
Qed.

Lemma intake_accounted c s :
  rtc intake_step (intake_init c) s →
  received s ≡ₚ returned s ++ executed (jobs s) ++ pending (jobs s) ++ in_hands s.
Proof.
  intros (HI & Hb & Hr)%intake_reachable. apply occ_permutation. intros x.
  pose proof (reachable_conserved c (jobs s) Hr x) as Hc. specialize (Hb x).
  rewrite !occ_app, occ_pending. unfold in_hands. rewrite occ_bind.
  change (λ a, occ x (in_hand (jobs s) a)) with (hand_occ x (jobs s)). lia.
Qed.

(** After [Stop], with no cycle under way, nothing is pending or in hand. *)
Lemma settled_nothing_left c s i :
  conf_ok (validate_conf c) →
  1 <= MinNumberOfWorker (poolConf (jobs s)) ∨ QueueSize (poolConf (jobs s)) = 0 →
  rtc intake_step (intake_init c) s →
  nstarts (jobs s) <= 1 → panicked (jobs s) = None →
  callers (jobs s) !! i = Some (CStopped None) →
  (∀ k y, cycles s !! k = Some y → y = CyDone) →
  received s ≡ₚ returned s ++ executed (jobs s) ∧
  ∀ k w, workers (jobs s) !! k = Some w → w = WExited.
Proof.
  intros Hc Hmin Hs Hn Hp Hi Hdone. apply intake_reachable in Hs as (HI & Hb & Hr).
  destruct (stopped_pool_drained c (jobs s) i Hc Hmin Hr Hn Hp Hi) as (Hex & _ & Hw).
  split; [|done]. apply occ_permutation. intros x. specialize (Hb x).
  rewrite (sumZ_same (λ _, 0) (hand_occ x (jobs s))) in Hb.
  - rewrite sumZ_zero in Hb by done. rewrite occ_app, (occ_of_permutation x _ _ Hex). lia.
  - intros k y Hk. by rewrite (Hdone k y Hk).
Qed.
End Accounting.

(** ** Schedules *)

Section Schedules.
Context {J : Type}.

Inductive intake_label : Type :=
  | LPool (l : label J)
  | LReceive (js : list J)
  | LCycle (k : nat).

Definition cycle_step (k : nat) (s : intake J) : option (intake J) :=
  match cycles s !! k with
  | Some (CySubmit []) => Some (to_cycle k CyDone s)
  | Some (CySubmit (j :: js)) =>
      match step (Invoke (DoSubmit j)) (jobs s) with
      | Some p => Some (mkIntake p
          (<[k:=CySubmitting j js (length (callers (jobs s)))]> (cycles s))
          (received s) (returned s))
      | None => None
      end
  | Some (CySubmitting j js i) =>
      match callers (jobs s) !! i with
      | Some (CSubmitted (_, Some _)) => Some (to_cycle k (CyReturning (j :: js) []) s)
      | Some (CSubmitted (true, None)) => Some (to_cycle k (CySubmit js) s)
      | Some (CSubmitted (false, None)) => Some (to_cycle k (CyReturning [j] js) s)
      | _ => None
      end
  | Some (CyReturning (j :: js) rest) =>
      Some (mkIntake (jobs s) (<[k:=CyReturning js rest]> (cycles s))
        (received s) (returned s ++ [j]))
  | Some (CyReturning [] rest) => Some (to_cycle k (CySubmit rest) s)
  | Some CyDone | None => None
  end.

Definition intake_move (l : intake_label) (s : intake J) : option (intake J) :=
  match l with
  | LPool l =>
      if outside l then
        match step l (jobs s) with
        | Some p => Some (mkIntake p (cycles s) (received s) (returned s))
        | None => None
        end
      else None
  | LReceive js =>
      Some (mkIntake (jobs s) (cycles s ++ [CySubmit js]) (received s ++ js) (returned s))
  | LCycle k => cycle_step k s
  end.

Fixpoint intake_run (ls : list intake_label) (s : intake J) : option (intake J) :=
  match ls with
  | [] => Some s
  | l :: ls => match intake_move l s with Some s' => intake_run ls s' | None => None end
  end.

Lemma intake_move_sound l s s' : intake_move l s = Some s' → intake_step s s'.
Proof.
  destruct l as [l|js|k]; cbn.
  - destruct (outside l) eqn:Ho; [|done]. destruct (step l (jobs s)) eqn:Es; [|done].
    intros [= <-]. by eapply in_pool.
  - intros [= <-]. apply in_receive.
  - unfold cycle_step. repeat case_match; intros [= <-]; subst; by econstructor.
Qed.

Lemma intake_step_move s s' : intake_step s s' → ∃ l, intake_move l s = Some s'.
Proof.
  intros Hs. destruct Hs as [s l p Ho Es|s js|s k j js p Hk Es|s k j js i Hk Hi|s k j js i Hk Hi
    |s k j js i b e Hk Hi|s k j js rest Hk|s k rest Hk|s k Hk].
  - exists (LPool l). cbn. by rewrite Ho, Es.
  - by exists (LReceive js).
  - exists (LCycle k). cbn. unfold cycle_step. by rewrite Hk, Es.
  - exists (LCycle k). cbn. unfold cycle_step. by rewrite Hk, Hi.
  - exists (LCycle k). cbn. unfold cycle_step. by rewrite Hk, Hi.
  - exists (LCycle k). cbn. unfold cycle_step. rewrite Hk, Hi. by destruct b.
  - exists (LCycle k). cbn. unfold cycle_step. by rewrite Hk.
  - exists (LCycle k). cbn. unfold cycle_step. by rewrite Hk.
  - exists (LCycle k). cbn. unfold cycle_step. by rewrite Hk.
Qed.

(** Moves of the pool's goroutines alone. *)
Lemma intake_pool_run ls : ∀ (s : intake J) p,
  Forall (λ l, no_call l = true) ls → exec ls (jobs s) = Some p →
  rtc intake_step s (mkIntake p (cycles s) (received s) (returned s)).
Proof.
  induction ls as [|l ls IH]; intros s p Hls; cbn.
  - intros [= <-]. by destruct s.
  - apply Forall_cons in Hls as [Hl Hls]. destruct (step l (jobs s)) as [p1|] eqn:E; [|done].
    intros Hr. eapply rtc_l; [apply (in_pool s l p1); [by destruct l|exact E]|].
    by apply (IH (mkIntake p1 (cycles s) (received s) (returned s))).
Qed.

Lemma intake_run_sound ls : ∀ s s', intake_run ls s = Some s' → rtc intake_step s s'.
Proof.
  induction ls as [|l ls IH]; intros s s'; cbn; [by intros [= <-]|].
  destruct (intake_move l s) as [s1|] eqn:E; [|done].
  intros Hr. eapply rtc_l; [by apply (intake_move_sound l)|by apply IH].
Qed.
End Schedules.

Arguments intake_label : clear implicits.

Section IntakeClaims.
Context {J : Type} `{EqDecision J}.
Implicit Types (s : intake J).

(** C3. No message is lost or handed out twice between the queue, the pollers
    and the pool: however polling cycles, submissions, workers, [Start] and
    [Stop] are interleaved, the messages received are, counted with their
    multiplicities, those made visible again, those whose job was executed,
    those pending in the pool and those a cycle still has in hand. *)
Theorem no_message_lost c s :
  rtc intake_step (intake_init c) s →
  received s ≡ₚ returned s ++ executed (jobs s) ++ pending (jobs s) ++ in_hands s.
Proof. apply intake_accounted. Qed.

(** When the pool's [Stop] has returned [nil] and the polling cycles are
    over, every message ever received was either executed or made visible
    again, exactly once; provided a worker is kept alive or the job queue is
    unbuffered. *)
Theorem stopped_intake_is_settled c s i :
  conf_ok (validate_conf c) →
  1 <= MinNumberOfWorker (poolConf (jobs s)) ∨ QueueSize (poolConf (jobs s)) = 0 →
  rtc intake_step (intake_init c) s →
  nstarts (jobs s) <= 1 → panicked (jobs s) = None →
  callers (jobs s) !! i = Some (CStopped None) →
  (∀ k y, cycles s !! k = Some y → y = CyDone) →
  received s ≡ₚ returned s ++ executed (jobs s).
Proof. intros. by eapply (settled_nothing_left c s i). Qed.
End IntakeClaims.

(** ** Three messages, two workers: the third message goes back to the queue *)

Definition settled_schedule : list (intake_label nat) :=
  (LPool <$> start_schedule ++ [Worker 0 WRun; Worker 0 WPark]) ++
  [LReceive [7; 8; 9]%nat; LCycle 0] ++ (LPool <$> replicate 4 (Caller 1 0)) ++
  [LCycle 0; LCycle 0] ++ (LPool <$> replicate 7 (Caller 2 0)) ++
  [LCycle 0; LCycle 0] ++ (LPool <$> replicate 5 (Caller 3 0)) ++
  replicate 4 (LCycle 0) ++
  (LPool <$> [Worker 0 WRun; Worker 1 WRun; Worker 1 WRun] ++
    (Invoke DoStop :: replicate 4 (Caller 4 0)) ++
    [Worker 0 WRun; Worker 0 WRun; Worker 1 WRun; Worker 1 WRun; Runner 0; Runner 0;
     Worker 0 WRecv; Worker 0 WRun; Worker 0 WRun;
     Worker 1 WRecv; Worker 1 WRun; Worker 1 WRun; Caller 4 0; Caller 4 0]).

Definition intake_at (n : nat) : intake nat :=
  default (intake_init small_conf)
    (intake_run (take n settled_schedule) (intake_init small_conf)).

Lemma intake_at_reachable n :
  is_Some (intake_run (take n settled_schedule) (intake_init small_conf)) →
  rtc intake_step (intake_init small_conf) (intake_at n).
Proof.
  unfold intake_at. intros [s E]. rewrite E. by eapply intake_run_sound.
Qed.

Lemma no_message_lost_witness :
  in_hands (intake_at 20) = [8; 9]%nat ∧
  received (intake_at 20) ≡ₚ returned (intake_at 20) ++ executed (jobs (intake_at 20)) ++
    pending (jobs (intake_at 20)) ++ in_hands (intake_at 20).
Proof.
  split; [vm_compute; reflexivity|].
  apply (no_message_lost small_conf), intake_at_reachable.
  vm_compute. by eexists.
Defined.

Lemma stopped_intake_is_settled_witness :
  executed (jobs (intake_at 100)) = [7; 8]%nat ∧ returned (intake_at 100) = [9]%nat ∧
  received (intake_at 100) ≡ₚ returned (intake_at 100) ++ executed (jobs (intake_at 100)).
Proof.
  split; [vm_compute; reflexivity|]. split; [vm_compute; reflexivity|].
  apply (stopped_intake_is_settled small_conf _ 4).
  - exact small_conf_ok.
  - left. vm_compute. discriminate.
  - apply intake_at_reachable. vm_compute. by eexists.
  - vm_compute. discriminate.
  - vm_compute. reflexivity.
  - vm_compute. reflexivity.
  - intros k y. assert (Hc : cycles (intake_at 100) = [CyDone]) by (vm_compute; reflexivity).
    rewrite Hc. intros [_ ->]%list_lookup_singleton_Some. reflexivity.
Defined.
