(* ===== verification/Cycles.v ===== *)
(** * The polling cycle of Poller is the cycle of Intake.

    Poller has [poll] as a function on its interfaces, Intake the program
    counters of its loop among the goroutines. [cycle_trace] reads the calls of
    a cycle off Intake's program counters; every run of [poll] makes the calls
    of such a trace, and every trace is made by moves of [cycle_step]. *)

From stdpp Require Import base list numbers strings gmap relations.
From Stdlib Require Import Lia.
From S2P Require Import Prelude Configuration GoError Interfaces Poller.
From S2P Require Import WorkerPool WorkerPoolClaims Intake.
Local Open Scope Z_scope.

(** Where [Submit]'s answer leads the loop. *)
Definition cycle_answer {J} (j : J) (js : list J) (taken failed : bool) : cycle_pc J :=
  if failed then CyReturning (j :: js) []
  else if taken then CySubmit js else CyReturning [j] js.

Definition is_err {E} (err : option E) : bool := match err with Some _ => true | None => false end.

(** The calls a cycle makes from a program counter to its end. *)
Inductive cycle_trace (url : string) : cycle_pc Message → list event → Prop :=
  | ct_done : cycle_trace url CyDone []
  | ct_end es : cycle_trace url CyDone es → cycle_trace url (CySubmit []) es
  | ct_submit m ms taken err es :
      cycle_trace url (cycle_answer m ms taken (is_err err)) es →
      cycle_trace url (CySubmit (m :: ms)) (EvSubmit m (taken, err) :: es)
  | ct_return m ms rest r es :
      cycle_trace url (CyReturning ms rest) es →
      cycle_trace url (CyReturning (m :: ms) rest) (EvVisibility url (ReceiptHandle m) 0 r :: es)
  | ct_returned rest es :
      cycle_trace url (CySubmit rest) es → cycle_trace url (CyReturning [] rest) es.

(** A cycle of Intake moves on as the trace says. *)
Lemma cycle_step_follows {J} k (s : intake J) y :
  cycles s !! k = Some y →
  match y with
  | CySubmit [] => cycle_step k s = Some (to_cycle k CyDone s)
  | CySubmit (j :: js) => ∀ s', cycle_step k s = Some s' →
      cycles s' !! k = Some (CySubmitting j js (length (callers (jobs s))))
  | CySubmitting j js i => ∀ taken err, callers (jobs s) !! i = Some (CSubmitted (taken, err)) →
      cycle_step k s = Some (to_cycle k (cycle_answer j js taken (is_err err)) s)
  | CyReturning (j :: js) rest => ∃ s', cycle_step k s = Some s' ∧
      cycles s' !! k = Some (CyReturning js rest) ∧ returned s' = returned s ++ [j]
  | CyReturning [] rest => cycle_step k s = Some (to_cycle k (CySubmit rest) s)
  | CyDone => cycle_step k s = None
  end.
Proof.
  intros Hk. pose proof (lookup_lt_Some _ _ _ Hk) as Hlt. unfold cycle_step.
  destruct y as [[|j js]|j js i|[|j js] rest|]; rewrite Hk; try done.
  - intros s'. destruct (step _ _); [|done]. intros [= <-]. by apply list_lookup_insert_eq.
  - intros taken err ->. by destruct taken, err.
  - eexists. split; [done|]. split; [by apply list_lookup_insert_eq|done].
Qed.

Section Cycles.
Context `{Logged St, SQSProvider St, Interfaces.WorkerPool St}.
Context (url : string) `{!SQSProviderSpec St url, !WorkerPoolSpec St}.
Implicit Types (ms : list Message) (s : St).

Lemma terminate_trace ms s :
  Forall well_formed ms → ok s →
  ∃ s' es1, terminateMessageVisibility ms s = (Done (), s') ∧ extends es1 s s' ∧
    ∀ rest es, cycle_trace url (CySubmit rest) es → cycle_trace url (CyReturning ms rest) (es1 ++ es).
Proof.
  intros Hwf. revert s. induction Hwf as [|m ms [[id Hid] _] _ IH]; intros s Hok.
  { exists s, []. split; [done|]. split; [by apply extends_nil|by apply ct_returned]. }
  cbn [terminateMessageVisibility]. rewrite Hid.
  destruct (ChangeMessageVisibility_spec (url := url) m 0 s Hok) as (r & s1 & E & Hx).
  destruct (IH s1 (extends_ok _ _ _ Hx)) as (s' & es1 & E' & Hx' & Ht).
  rewrite go_bind_deref, (go_bind_done _ _ _ _ _ E), E'.
  eexists s', (_ :: es1). split; [done|]. split; [by eapply extends_cons|].
  intros rest es Hes. by apply ct_return, Ht.
Qed.

(** What is done about a message that [Submit] did not fail on. *)
Lemma answer_trace m (taken : bool) s :
  well_formed m → ok s →
  ∃ s' es1, (if taken then go_ret () else terminateMessageVisibility [m]) s = (Done (), s') ∧
    extends es1 s s' ∧
    ∀ rest es, cycle_trace url (CySubmit rest) es →
      cycle_trace url (cycle_answer m rest taken false) (es1 ++ es).
Proof.
  intros Hm Hok. destruct taken.
  - exists s, []. split; [done|]. by split; [apply extends_nil|].
  - apply terminate_trace; [by apply Forall_singleton|done].
Qed.

Lemma submit_all_trace ms s :
  Forall well_formed ms → ok s →
  ∃ w s' es, submit_all ms s = (Done w, s') ∧ extends es s s' ∧
    cycle_trace url (CySubmit ms) es.
Proof.
  intros Hwf. revert s. induction Hwf as [|m ms Hm Hms IH]; intros s Hok.
  { exists false, s, []. split; [done|]. split; [by apply extends_nil|apply ct_end, ct_done]. }
  cbn [submit_all]. pose proof Hm as [[id Hid] [b Hb]]. rewrite Hid, Hb, !go_bind_deref.
  destruct (Submit_spec m s Hok) as ([tk err] & s1 & E & Hx).
  pose proof (extends_ok _ _ _ Hx) as Hok1.
  rewrite (go_bind_done _ _ _ _ _ E). destruct err as [err|]; cbn [fst snd].
  - destruct (terminate_trace (m :: ms) s1) as (s' & es & E' & Hx' & Ht); [by constructor|done|].
    rewrite (go_bind_done _ _ _ _ _ E').
    eexists true, s', (_ :: es). split; [done|]. split; [by eapply extends_cons|].
    apply ct_submit. rewrite <- (app_nil_r es). apply Ht, ct_end, ct_done.
  - destruct (answer_trace m tk s1 Hm Hok1) as (s2 & es1 & E2 & Hx2 & Ht).
    rewrite (go_bind_done _ _ _ _ _ E2).
    destruct (IH s2 (extends_ok _ _ _ Hx2)) as (w & s' & es & E' & Hx' & Ht').
    eexists w, s', (_ :: es1 ++ es). split; [done|].
    split; [eapply extends_cons; [done|by eapply extends_trans]|]. by apply ct_submit, Ht.
Qed.

(** C18. Every run of [poll] is a cycle of Intake: after the request it makes
    exactly the calls that Intake's program counters allow for the messages it
    received, in their order, whatever [Submit] and the queue answer; or it
    received nothing and makes no further call. *)
Theorem poll_is_a_cycle c s :
  delivers_well_formed → ok s →
  ∃ w s' es, poll c s = (Done w, s') ∧ extends es s s' ∧
    (Poller.received es = [] ∧ (length es <= 2)%nat ∨
     ∃ a n v ms rest, es = EvAvailable a :: EvReceive url n v (inl ms) :: rest ∧
       cycle_trace url (CySubmit ms) rest).
Proof.
  intros Hwf Hok. unfold poll.
  destruct (NumberOfAvailableWorker_spec s Hok) as (a & s1 & E1 & Hx1).
  rewrite (go_bind_done _ _ _ _ _ E1).
  destruct (negb (a >? 0)).
  { exists true, s1, [EvAvailable a]. split; [done|]. split; [done|]. left. split; [done|cbn; lia]. }
  set (n := Min _ _). set (v := VisibilityTimeoutInSeconds c).
  destruct (ReceiveMessage_spec (url := url) n v s1 (extends_ok _ _ _ Hx1)) as (r & s2 & E2 & Hx2).
  rewrite (go_bind_done _ _ _ _ _ E2).
  assert (Hx : extends [EvAvailable a; EvReceive url n v r] s s2) by (by eapply extends_cons).
  destruct r as [[|m ms]|err].
  - eexists true, s2, _. split; [done|]. split; [done|]. left. split; [done|cbn; lia].
  - destruct (submit_all_trace (m :: ms) s2) as (w & s' & es & E & Hx' & Ht).
    { by eapply Hwf. }
    { by eapply extends_ok. }
    eexists w, s', _. split; [done|]. split; [by eapply extends_trans|]. right.
    exists a, n, v, (m :: ms), es. by split.
  - eexists true, s2, _. split; [done|]. split; [done|]. left. split; [done|cbn; lia].
Qed.
End Cycles.

Lemma poll_is_a_cycle_witness :
  ∃ w s' es, @poll _ (rec_provider example_answers "queue") (rec_pool example_answers)
      example_conf [] = (Done w, s') ∧ extends es ([] : rec_state) s' ∧
    (Poller.received es = [] ∧ (length es <= 2)%nat ∨
     ∃ a n v ms rest, es = EvAvailable a :: EvReceive "queue" n v (inl ms) :: rest ∧
       cycle_trace "queue" (CySubmit ms) rest).
Proof.
  eapply (poll_is_a_cycle (St := rec_state) "queue" example_conf []);
    [exact example_delivers|exact I].
Defined.
