(* ===== verification/GoStrings.v ===== *)
(** * The parts of Go's [strings], [bytes], [strconv] and [path/filepath] the
    program uses, on a Unix system. Letters are mapped to lower or upper case
    in the ASCII range; other bytes stay as they are. *)

From Stdlib Require Import Ascii.
From stdpp Require Import base list numbers strings gmap pretty.
From Stdlib Require Import Lia.
From S2P Require Import Prelude.

(** ** strings *)

Definition HasPrefix (s prefix : string) : bool := String.prefix prefix s.

Fixpoint drop_string (n : nat) (s : string) : string :=
  match n, s with
  | S n, String _ s => drop_string n s
  | _, _ => s
  end.

Definition TrimPrefix (s prefix : string) : string :=
  if HasPrefix s prefix then drop_string (String.length prefix) s else s.

Fixpoint Contains (s substr : string) : bool :=
  String.prefix substr s ||
  match s with "" => false | String _ s' => Contains s' substr end.

Definition in_range (lo hi : nat) (c : Ascii.ascii) : bool :=
  (lo <=? Ascii.nat_of_ascii c)%nat && (Ascii.nat_of_ascii c <=? hi)%nat.

Definition lower_ascii (c : Ascii.ascii) : Ascii.ascii :=
  if in_range 65 90 c then Ascii.ascii_of_nat (Ascii.nat_of_ascii c + 32) else c.

Definition upper_ascii (c : Ascii.ascii) : Ascii.ascii :=
  if in_range 97 122 c then Ascii.ascii_of_nat (Ascii.nat_of_ascii c - 32) else c.

Fixpoint map_string (f : Ascii.ascii → Ascii.ascii) (s : string) : string :=
  match s with "" => "" | String c s => String (f c) (map_string f s) end.

Definition ToLower (s : string) : string := map_string lower_ascii s.

Definition ToUpper (s : string) : string := map_string upper_ascii s.

(** [strconv.Itoa] and [strconv.FormatInt(_, 10)]. *)
Definition FormatInt (z : Z) : string := pretty z.

(** ** path/filepath *)

Definition is_slash (c : Ascii.ascii) : bool := Ascii.eqb c "/"%char.

(** The components of a path, between its slashes. *)
Fixpoint split_slash (s : string) : list string :=
  match s with
  | "" => [""]
  | String c s =>
      if is_slash c then "" :: split_slash s
      else match split_slash s with
           | w :: ws => String c w :: ws
           | [] => [String c ""]
           end
  end.

Fixpoint join_slash (l : list string) : string :=
  match l with
  | [] => ""
  | [w] => w
  | w :: ws => w +:+ "/" +:+ join_slash ws
  end.

Definition IsAbs (path : string) : bool := HasPrefix path "/".

(** One component of [Clean]; the stack holds the output, last element first. *)
Definition clean_step (rooted : bool) (stack : list string) (w : string) : list string :=
  if decide (w = "" ∨ w = ".") then stack
  else if decide (w = "..") then
    match stack with
    | top :: rest => if decide (top = "..") then w :: stack else rest
    | [] => if rooted then [] else [w]
    end
  else w :: stack.

Definition clean_components (rooted : bool) (ws : list string) : list string :=
  reverse (foldl (clean_step rooted) [] ws).

Definition Clean (path : string) : string :=
  let rooted := IsAbs path in
  let ws := clean_components rooted (split_slash path) in
  if rooted then "/" +:+ join_slash ws
  else match ws with [] => "." | _ => join_slash ws end.

(** [Join]: empty leading elements are skipped. *)
Fixpoint Join (elems : list string) : string :=
  match elems with
  | [] => ""
  | e :: es => if decide (e = "") then Join es else Clean (join_slash (e :: es))
  end.

(** [Ext]: from the last dot of the last component. *)
Fixpoint Ext (path : string) : string :=
  match path with
  | "" => ""
  | String c rest =>
      let ext := Ext rest in
      if decide (ext ≠ "") then ext
      else if Ascii.eqb c "."%char && negb (Contains rest "/") then String c rest
      else ""
  end.

(** ** Lemmas *)

Fixpoint no_slash (s : string) : Prop :=
  match s with "" => True | String c s => is_slash c = false ∧ no_slash s end.

Lemma string_app_cons c s t : String c s +:+ t = String c (s +:+ t).
Proof. reflexivity. Qed.

Lemma string_app_nil_l t : "" +:+ t = t.
Proof. reflexivity. Qed.

Lemma string_app_nil_r s : s +:+ "" = s.
Proof. induction s as [|c s IH]; [done|]. by rewrite string_app_cons, IH. Qed.

Lemma string_assoc x y z : x +:+ y +:+ z = (x +:+ y) +:+ z.
Proof.
  induction x as [|c x IH]; [done|]. by rewrite !string_app_cons, IH.
Qed.

Lemma length_string_app x y :
  String.length (x +:+ y) = String.length x + String.length y.
Proof. induction x as [|c x IH]; [done|]. rewrite string_app_cons. cbn. by rewrite IH. Qed.

Lemma split_slash_nonempty s : split_slash s ≠ [].
Proof. destruct s as [|c s]; cbn; [done|]. destruct (is_slash c), (split_slash s); done. Qed.

Lemma split_no_slash s : Forall no_slash (split_slash s).
Proof.
  induction s as [|c s IH]; cbn; [by repeat constructor|].
  destruct (is_slash c) eqn:Hc; [by constructor|].
  destruct (split_slash s) as [|w ws]; [by repeat constructor|].
  apply Forall_cons in IH as [? ?]. by constructor.
Qed.

Lemma split_word w : no_slash w → split_slash w = [w].
Proof.
  induction w as [|c w IH]; [done|]. intros [Hc Hw]. cbn. by rewrite Hc, (IH Hw).
Qed.

Lemma split_app_slash w s :
  no_slash w → split_slash (w +:+ "/" +:+ s) = w :: split_slash s.
Proof.
  induction w as [|c w IH]; [done|]. intros [Hc Hw].
  rewrite string_app_cons. cbn [split_slash]. by rewrite Hc, (IH Hw).
Qed.

Lemma split_join ws : ws ≠ [] → Forall no_slash ws → split_slash (join_slash ws) = ws.
Proof.
  intros Hne H. induction H as [|w ws Hw Hws IH]; [done|].
  destruct ws as [|w' ws]; [by apply split_word|].
  change (split_slash (w +:+ "/" +:+ join_slash (w' :: ws)) = w :: w' :: ws).
  rewrite split_app_slash by done. by rewrite IH.
Qed.

(** A list of components [Clean] leaves alone: parent references first, and none
    in a rooted path. *)
Definition normal_word (w : string) : Prop := w ≠ "" ∧ w ≠ "." ∧ w ≠ "..".

Inductive clean_list (rooted : bool) : list string → Prop :=
  | clean_names ws : Forall normal_word ws → clean_list rooted ws
  | clean_parent ws : rooted = false → clean_list rooted ws → clean_list rooted (".." :: ws).

(** The stack of [Clean], read from its top. *)
Inductive clean_stack (rooted : bool) : list string → Prop :=
  | stack_nil : clean_stack rooted []
  | stack_name w st : normal_word w → clean_stack rooted st → clean_stack rooted (w :: st)
  | stack_parent n : rooted = false → clean_stack rooted (replicate (S n) "..").

Lemma clean_step_stack rooted st w :
  clean_stack rooted st → clean_stack rooted (clean_step rooted st w).
Proof.
  intros Hst. unfold clean_step. case_decide as H1; [done|].
  assert (w ≠ "" ∧ w ≠ ".") as [? ?] by naive_solver. case_decide as H2.
  - subst w. destruct Hst as [|top st (?&?&?) Hst|n Hr].
    + destruct rooted eqn:E; [constructor|]. by apply (stack_parent false 0).
    + by rewrite decide_False by done.
    + cbn. by apply (stack_parent rooted (S n)).
  - by constructor.
Qed.

Lemma foldl_clean_stack rooted ws st :
  clean_stack rooted st → clean_stack rooted (foldl (clean_step rooted) st ws).
Proof.
  revert st. induction ws as [|w ws IH]; intros st H; cbn; [done|].
  by apply IH, clean_step_stack.
Qed.

Lemma stack_reverse_clean rooted st :
  clean_stack rooted st → clean_list rooted (reverse st).
Proof.
  assert (Hsnoc : ∀ ws w, clean_list rooted ws → normal_word w →
    clean_list rooted (ws ++ [w])).
  { intros ws w Hws Hw. induction Hws as [ws Hws|ws Hr Hws IH].
    - constructor. apply Forall_app. split; [done|]. by constructor.
    - cbn. by apply clean_parent. }
  induction 1 as [|w st Hw Hst IH|n Hr].
  - by constructor.
  - rewrite reverse_cons. by apply Hsnoc.
  - rewrite reverse_replicate.
    induction n as [|n IH]; cbn; apply clean_parent; try done. by constructor.
Qed.

(** The components of a cleaned path survive a second cleaning. *)
Lemma foldl_clean_names rooted ws st :
  Forall normal_word ws → foldl (clean_step rooted) st ws = reverse ws ++ st.
Proof.
  intros H. revert st. induction H as [|w ws (?&?&?) Hws IH]; intros st; [done|].
  cbn [foldl]. rewrite IH, reverse_cons, <- (assoc_L (++)). f_equal.
  unfold clean_step. rewrite decide_False by (by intros [?|?]). by rewrite decide_False.
Qed.

Lemma clean_components_stable rooted ws :
  clean_list rooted ws → clean_components rooted ws = ws.
Proof.
  intros H. unfold clean_components.
  assert (G : ∀ n, rooted = false ∨ n = 0 →
    foldl (clean_step rooted) (replicate n "..") ws = reverse ws ++ replicate n "..").
  { induction H as [ws Hws|ws Hr Hws IH]; intros n Hn; [by apply foldl_clean_names|].
    cbn [foldl]. rewrite reverse_cons, <- (assoc_L (++)).
    assert (E : clean_step rooted (replicate n "..") ".." = replicate (S n) "..").
    { unfold clean_step. rewrite decide_False by (by intros [?|?]).
      rewrite decide_True by done. subst rooted. by destruct n. }
    rewrite E, IH by (by left). done. }
  specialize (G 0 ltac:(by right)). cbn in G. rewrite G, app_nil_r. apply reverse_involutive.
Qed.

Lemma clean_components_clean rooted ws : clean_list rooted (clean_components rooted ws).
Proof. apply stack_reverse_clean, foldl_clean_stack. constructor. Qed.

Lemma clean_components_words rooted ws (P : string → Prop) :
  P ".." → Forall P ws → Forall P (clean_components rooted ws).
Proof.
  intros Hp H. unfold clean_components. apply Forall_reverse.
  assert (G : ∀ st, Forall P st → Forall P (foldl (clean_step rooted) st ws)); [|by apply G].
  induction H as [|w ws Hw Hws IH]; intros st Hst; [done|]. cbn. apply IH.
  unfold clean_step. repeat case_decide; [done| |by constructor].
  destruct Hst as [|top st Ht Hst]; [destruct rooted; repeat constructor; by subst|].
  case_decide; [by repeat constructor; subst|done].
Qed.

Lemma clean_step_skips rooted ws :
  clean_components rooted ("" :: ws) = clean_components rooted ws.
Proof. reflexivity. Qed.

Lemma join_slash_rel ws :
  Forall no_slash ws → clean_list false ws → IsAbs (join_slash ws) = false.
Proof.
  intros Hn H.
  assert (Hw : ∀ w ws', ws = w :: ws' → w ≠ "" ∧ no_slash w).
  { intros w ws' ->. apply Forall_cons in Hn as [Hn _]. split; [|done].
    inversion H as [? Hf|]; subst; [|done]. apply Forall_cons in Hf as [(?&_) _]. done. }
  destruct ws as [|w ws]; [done|]. destruct (Hw _ _ eq_refl) as [Hne Hns].
  destruct w as [|c w]; [done|]. destruct Hns as [Hc _].
  unfold IsAbs, HasPrefix. unfold is_slash in Hc. apply Ascii.eqb_neq in Hc.
  assert (∃ t, join_slash (String c w :: ws) = String c t) as [t ->].
  { destruct ws; by eexists. }
  cbn [String.prefix]. destruct (Ascii.ascii_dec "/"%char c); congruence.
Qed.

Lemma Clean_idem path : Clean (Clean path) = Clean path.
Proof.
  unfold Clean at 2 3. set (r := IsAbs path).
  pose proof (clean_components_clean r (split_slash path)) as Hc.
  pose proof (clean_components_words r (split_slash path) no_slash ltac:(done)
    (split_no_slash path)) as Hw.
  destruct r.
  - unfold Clean. replace (IsAbs _) with true by (by destruct (join_slash _)).
    cbn [String.append].
    change (split_slash (String "/" ?x)) with ("" :: split_slash x).
    remember (clean_components true (split_slash path)) as ws eqn:Hws. clear Hws.
    change (split_slash ("/" +:+ join_slash ws)) with ("" :: split_slash (join_slash ws)).
    rewrite clean_step_skips. destruct ws as [|w ws]; [done|].
    by rewrite split_join, clean_components_stable.
  - destruct (clean_components false (split_slash path)) as [|w ws] eqn:E; [done|].
    pose proof (join_slash_rel _ Hw Hc) as Hrel. unfold Clean. rewrite Hrel.
    by rewrite split_join, clean_components_stable.
Qed.

Lemma Clean_rooted path : IsAbs (Clean path) = IsAbs path.
Proof.
  unfold Clean. pose proof (clean_components_clean (IsAbs path) (split_slash path)) as Hc.
  pose proof (clean_components_words (IsAbs path) (split_slash path) no_slash ltac:(done)
    (split_no_slash path)) as Hw.
  destruct (IsAbs path); [by destruct (join_slash _)|].
  destruct (clean_components _ _) as [|w ws]; [done|]. by apply join_slash_rel.
Qed.

(** A rooted path keeps no parent reference. *)
Lemma Clean_rooted_components path :
  IsAbs path = true →
  ∃ ws, Clean path = "/" +:+ join_slash ws ∧ Forall normal_word ws ∧ Forall no_slash ws.
Proof.
  intros H. unfold Clean. rewrite H. eexists. split; [done|]. split.
  - pose proof (clean_components_clean true (split_slash path)) as Hc.
    by inversion Hc as [|? Hr].
  - apply clean_components_words; [done|apply split_no_slash].
Qed.

Lemma IsAbs_slash s : IsAbs s = true ↔ ∃ rest, s = String "/" rest.
Proof.
  unfold IsAbs, HasPrefix. destruct s as [|c s]; [by split; [|intros []]|].
  cbn [String.prefix]. destruct (Ascii.ascii_dec "/" c) as [<-|Hc].
  - split; [by exists s|by destruct s].
  - split; [done|]. by intros [rest [= -> ->]].
Qed.

Lemma IsAbs_app home rest : IsAbs home = true → IsAbs (join_slash [home; rest]) = true.
Proof. rewrite !IsAbs_slash. intros [h ->]. by eexists. Qed.

Lemma IsAbs_no_tilde q : IsAbs q = true → HasPrefix q "~/" = false.
Proof. rewrite IsAbs_slash. by intros [rest ->]. Qed.
