(* ===== verification/SqsProvider.v ===== *)
(** * queue/sqs_provider.go: the provider of one queue.

    The AWS client and session are outside the program: [SQSClient] gives
    their operations on an abstract client type [C] and environment [W]. The
    provider implements [SQSProvider] on the pair of its own state and [W], and
    meets the interface's contract when the client logs its calls. The locks
    [refreshClientMu] and [expirationMu] are the subject of SqsLocks. *)

From stdpp Require Import base list numbers strings gmap.
From Stdlib Require Import Lia ZifyBool.
From S2P Require Import Prelude GoError GoStrings Interfaces.

Definition ownerId : string := "ownerId".

Definition channelId : string := "channelId".

(** ** The AWS SDK's side *)

Record ChangeMessageVisibilityInput : Type := mkVisibilityInput {
  vis_QueueUrl : string;
  vis_ReceiptHandle : option string;
  vis_VisibilityTimeout : Z
}.

Record DeleteMessageInput : Type := mkDeleteInput {
  del_QueueUrl : string;
  del_ReceiptHandle : option string
}.

Record ReceiveMessageInput : Type := mkReceiveInput {
  rcv_MessageAttributeNames : list string;
  rcv_QueueUrl : string;
  rcv_MaxNumberOfMessages : Z;
  rcv_VisibilityTimeout : Z;
  rcv_WaitTimeSeconds : Z
}.

Record aws_Config : Type := mkConfig {
  cfg_Region : string;
  cfg_AccessKeyId : string;
  cfg_SecretAccessKey : string;
  cfg_SessionToken : string
}.

(** [queue.SQSClient], and [session.NewSession] followed by [sqs.New]. *)
Class SQSClient (C W : Type) := {
  client_ChangeMessageVisibility : C → ChangeMessageVisibilityInput → go W (option error);
  client_DeleteMessage : C → DeleteMessageInput → go W (option error);
  client_ReceiveMessage : C → ReceiveMessageInput → go W (result (list Message));
  NewSession : aws_Config → go W (result C)
}.

(** ** The provider *)

Record sqsProvider (C : Type) : Type := mkProvider {
  queueProperties : Properties;
  client : option C;
  isTokenExpired : bool
}.

Arguments mkProvider {C}.
Arguments queueProperties {C}.
Arguments client {C}.
Arguments isTokenExpired {C}.

Section Provider.
Context {C W : Type} `{SQSClient C W}.

Definition provider_state : Type := sqsProvider C * W.

Definition set_expired (b : bool) (p : sqsProvider C) : sqsProvider C :=
  mkProvider (queueProperties p) (client p) b.

(** [err.(awserr.Error)] and its code. *)
Definition reports_expiry (err : option error) : bool :=
  match err with
  | Some (AwsError code _) => Contains code "ExpiredToken"
  | _ => false
  end.

Definition checkExpiration (err : option error) : go provider_state unit :=
  go_modify (λ s, if reports_expiry err then (set_expired true s.1, s.2) else s).

Definition sqs_ChangeMessageVisibility (message : Message) (visibilityTimeout : Z) :
    go provider_state (option error) :=
  (s <- go_get ;
   c <- deref (client s.1) ;
   err <- on_env (client_ChangeMessageVisibility c
     (mkVisibilityInput (Url (queueProperties s.1)) (ReceiptHandle message)
        visibilityTimeout)) ;
   _ <- checkExpiration err ;
   go_ret err)%go.

Definition sqs_DeleteMessage (message : Message) : go provider_state (option error) :=
  (s <- go_get ;
   c <- deref (client s.1) ;
   err <- on_env (client_DeleteMessage c
     (mkDeleteInput (Url (queueProperties s.1)) (ReceiptHandle message))) ;
   _ <- checkExpiration err ;
   go_ret err)%go.

Definition sqs_ReceiveMessage (maxNumOfMessage visibilityTimeout : Z) :
    go provider_state (result (list Message)) :=
  (s <- go_get ;
   c <- deref (client s.1) ;
   r <- on_env (client_ReceiveMessage c
     (mkReceiveInput [ownerId; channelId] (Url (queueProperties s.1))
        maxNumOfMessage visibilityTimeout 20)) ;
   _ <- checkExpiration (match r with inl _ => None | inr e => Some e end) ;
   go_ret r)%go.

Definition newConfig (p : sqsProvider C) (r : AssumeRoleResult) : aws_Config :=
  let c := arr_Credentials r in
  mkConfig (Region (queueProperties p)) (AccessKeyId c) (SecretAccessKey c) (SessionToken c).

Definition RefreshClient (r : AssumeRoleResult) : go provider_state (option error) :=
  (s <- go_get ;
   sess <- on_env (NewSession (newConfig s.1 r)) ;
   match sess with
   | inr err => go_ret (Some err)
   | inl c =>
       _ <- go_modify (λ s,
         (mkProvider (mkProperties r (props_Configuration (queueProperties s.1)))
            (Some c) (isTokenExpired s.1), s.2)) ;
       _ <- go_modify (λ s, (set_expired false s.1, s.2)) ;
       go_ret None
   end)%go.

(** [NewSqsProvider]. *)
Definition NewSqsProvider (p : Properties) : go W (result (sqsProvider C)) := λ w,
  match RefreshClient (props_AssumeRoleResult p) (mkProvider p None false, w) with
  | (Done None, (q, w')) => (Done (inl q), w')
  | (Done (Some err), (_, w')) => (Done (inr err), w')
  | (Panicked why, (_, w')) => (Panicked why, w')
  end.

Definition sqs_Properties : go provider_state Properties :=
  go_gets (λ s, queueProperties s.1).

Definition sqs_IsTokenExpired : go provider_state bool := go_gets (λ s, isTokenExpired s.1).

#[export] Instance sqs_provider : SQSProvider provider_state := {
  ChangeMessageVisibility := sqs_ChangeMessageVisibility;
  DeleteMessage := sqs_DeleteMessage;
  ReceiveMessage := sqs_ReceiveMessage;
  IsTokenExpired := sqs_IsTokenExpired;
  provider_Properties := sqs_Properties;
}.
End Provider.

(** ** The contract of a client: it logs one event per call *)

Section Contract.
Context {C W : Type} `{Logged W, SQSClient C W}.

Class SQSClientSpec := {
  client_visibility_spec c i w : ok w →
    calls (client_ChangeMessageVisibility c i) w
      (EvVisibility (vis_QueueUrl i) (vis_ReceiptHandle i) (vis_VisibilityTimeout i));
  client_delete_spec c i w : ok w →
    calls (client_DeleteMessage c i) w
      (EvDelete (del_QueueUrl i) (del_ReceiptHandle i));
  client_receive_spec c i w : ok w →
    calls (client_ReceiveMessage c i) w
      (EvReceive (rcv_QueueUrl i) (rcv_MaxNumberOfMessages i) (rcv_VisibilityTimeout i));
  new_session_spec cfg w : ok w →
    ∃ r w', NewSession cfg w = (Done r, w') ∧ extends [] w w'
}.

(** A provider that [NewSqsProvider] built for the queue [url]. *)
Definition ready (url : string) (p : sqsProvider C) : Prop :=
  Url (queueProperties p) = url ∧ is_Some (client p).

#[export] Instance provider_logged (url : string) : Logged provider_state := {
  log s := log s.2;
  ok s := ok s.2 ∧ ready url s.1
}.
End Contract.

(** ** Histories of calls *)

Inductive provider_call : Type :=
  | CallVisibility (m : Message) (t : Z)
  | CallDelete (m : Message)
  | CallReceive (n v : Z)
  | CallRefresh (r : AssumeRoleResult).

Section History.
Context {C W : Type} `{SQSClient C W}.

(** One call and the error it returned. *)
Definition run_call (c : provider_call) : go provider_state (option error) :=
  match c with
  | CallVisibility m t => sqs_ChangeMessageVisibility m t
  | CallDelete m => sqs_DeleteMessage m
  | CallReceive n v =>
      (r <- sqs_ReceiveMessage n v ;
       go_ret (match r with inl _ => None | inr e => Some e end))%go
  | CallRefresh r => RefreshClient r
  end.

Fixpoint run_calls (cs : list provider_call) : go provider_state (list (option error)) :=
  match cs with
  | [] => go_ret []
  | c :: cs =>
      (e <- run_call c ; es <- run_calls cs ; go_ret (e :: es))%go
  end.
End History.

(** What the history of calls says about the token: it is expired when an
    operation reported so after the last successful refresh. *)
Definition expiry_step (b : bool) (x : provider_call * option error) : bool :=
  match x with
  | (CallRefresh _, None) => false
  | (CallRefresh _, Some _) => b
  | (_, err) => b || reports_expiry err
  end.

(** The credentials in use: those of the last successful refresh. *)
Definition role_step (r : AssumeRoleResult) (x : provider_call * option error) :
    AssumeRoleResult :=
  match x with (CallRefresh r', None) => r' | _ => r end.

Section ProviderFacts.
Context {C W : Type} `{Logged W, SQSClient C W} (url : string).
Implicit Types (p : sqsProvider C) (w : W).

(** A queue operation's effect on the provider, given the error it got. *)
Definition flagged (err : option error) p : sqsProvider C :=
  set_expired (isTokenExpired p || reports_expiry err) p.

Lemma checkExpiration_run err p w :
  checkExpiration err (p, w) = (Done (), (flagged err p, w)).
Proof.
  unfold checkExpiration, go_modify, flagged, set_expired. cbn.
  by destruct (reports_expiry err), p as [? ? []].
Qed.

Lemma flagged_ready err p : ready url p → ready url (flagged err p).
Proof. done. Qed.

(** Running one of the three queue operations. *)
Lemma provider_op_run {A} (op : C → go W A) (err_of : A → option error) p c w r w' :
  client p = Some c → op c w = (Done r, w') →
  (s <- go_get ; c' <- deref (client s.1) ; r <- on_env (op c') ;
   _ <- checkExpiration (err_of r) ; go_ret r)%go (p, w) =
  (Done r, (flagged (err_of r) p, w')).
Proof.
  intros Hc E. unfold go_bind at 1, go_get. cbn [fst snd]. rewrite Hc, go_bind_deref.
  unfold go_bind at 1, on_env. cbn [fst snd]. rewrite E. cbv beta iota.
  by rewrite (go_bind_done _ _ _ _ _ (checkExpiration_run _ p w')).
Qed.

Context `{!SQSClientSpec (C := C) (W := W)}.

(** The three operations: one logged call with the provider's url, and the
    flag follows the error. *)
Lemma op_calls {A} (op : C → go W A) (err_of : A → option error) (e : A → event) p w :
  ready url p → ok w → (∀ c, calls (op c) w e) →
  ∃ r w', (s <- go_get ; c' <- deref (client s.1) ; r <- on_env (op c') ;
   _ <- checkExpiration (err_of r) ; go_ret r)%go (p, w) =
  (Done r, (flagged (err_of r) p, w')) ∧ extends [e r] w w'.
Proof.
  intros [_ [c Hc]] Hok Hcall. destruct (Hcall c) as (r & w' & E & Hx).
  exists r, w'. split; [|done]. by eapply provider_op_run.
Qed.

Lemma visibility_run m t p w :
  ready url p → ok w → ∃ err w',
    sqs_ChangeMessageVisibility m t (p, w) = (Done err, (flagged err p, w')) ∧
    extends [EvVisibility url (ReceiptHandle m) t err] w w'.
Proof.
  intros Hr Hok. pose proof Hr as [Hu _]. rewrite <- Hu.
  apply (op_calls (λ c, client_ChangeMessageVisibility c (mkVisibilityInput
    (Url (queueProperties p)) (ReceiptHandle m) t)) (λ e, e)); [done..|].
  intros c. by apply client_visibility_spec.
Qed.

Lemma delete_run m p w :
  ready url p → ok w → ∃ err w',
    sqs_DeleteMessage m (p, w) = (Done err, (flagged err p, w')) ∧
    extends [EvDelete url (ReceiptHandle m) err] w w'.
Proof.
  intros Hr Hok. pose proof Hr as [Hu _]. rewrite <- Hu.
  apply (op_calls (λ c, client_DeleteMessage c (mkDeleteInput
    (Url (queueProperties p)) (ReceiptHandle m))) (λ e, e)); [done..|].
  intros c. by apply client_delete_spec.
Qed.

Lemma receive_run n v p w :
  ready url p → ok w → ∃ r w',
    sqs_ReceiveMessage n v (p, w) =
      (Done r, (flagged (match r with inl _ => None | inr e => Some e end) p, w')) ∧
    extends [EvReceive url n v r] w w'.
Proof.
  intros Hr Hok. pose proof Hr as [Hu _]. rewrite <- Hu.
  apply (op_calls (λ c, client_ReceiveMessage c (mkReceiveInput [ownerId; channelId]
    (Url (queueProperties p)) n v 20))
    (λ r, match r with inl _ => None | inr e => Some e end)); [done..|].
  intros c. by apply client_receive_spec.
Qed.

(** A refresh installs a new client, or changes nothing. *)
Lemma refresh_run r p w :
  ok w → ∃ err w', extends [] w w' ∧
    RefreshClient r (p, w) = (Done err, (match err with
      | Some _ => p
      | None => mkProvider (mkProperties r (props_Configuration (queueProperties p)))
          (match NewSession (newConfig p r) w with
           | (Done (inl c), _) => Some c
           | _ => client p
           end) false
      end, w')) ∧
    (err = None → ∃ c, NewSession (newConfig p r) w = (Done (inl c), w')).
Proof.
  intros Hok. destruct (new_session_spec (newConfig p r) w Hok) as (res & w' & E & Hx).
  unfold RefreshClient, go_bind, go_get, on_env. cbn. rewrite E.
  destruct res as [c|err].
  - exists None, w'. split_and!; [done..|]. by exists c.
  - exists (Some err), w'. by split_and!.
Qed.

Lemma refresh_ready r p w :
  ready url p → ok w → ∃ err p' w',
    RefreshClient r (p, w) = (Done err, (p', w')) ∧ extends [] w w' ∧ ready url p' ∧
    isTokenExpired p' = expiry_step (isTokenExpired p) (CallRefresh r, err) ∧
    props_AssumeRoleResult (queueProperties p') =
      role_step (props_AssumeRoleResult (queueProperties p)) (CallRefresh r, err).
Proof.
  intros [Hu Hc] Hok. destruct (refresh_run r p w Hok) as (err & w' & Hx & E & Hn).
  eexists err, _, w'. split; [exact E|]. destruct err as [err|]; [by split_and!|].
  destruct Hn as [c Hs]; [done|]. rewrite Hs.
  split_and!; [done|split; [done|by eexists]|done..].
Qed.

Lemma provider_extends es p p' w w' :
  extends es w w' → ready url p' →
  @extends provider_state (provider_logged url) es (p, w) (p', w').
Proof. by intros [? ?] ?. Qed.

(** The implementation meets the interface's contract. *)
#[export] Instance sqs_provider_spec :
  @SQSProviderSpec provider_state (provider_logged url) sqs_provider url.
Proof.
  split.
  - intros m t [p w] [Hok Hr]. destruct (visibility_run m t p w) as (r & w' & E & Hx); [done..|].
    exists r, (flagged r p, w'). split; [exact E|]. by apply provider_extends.
  - intros m [p w] [Hok Hr]. destruct (delete_run m p w) as (r & w' & E & Hx); [done..|].
    exists r, (flagged r p, w'). split; [exact E|]. by apply provider_extends.
  - intros n v [p w] [Hok Hr]. destruct (receive_run n v p w) as (r & w' & E & Hx); [done..|].
    eexists r, (flagged _ p, w'). split; [exact E|]. by apply provider_extends.
  - intros [p w] _. by eexists.
  - intros [p w] [_ [? _]]. by exists (queueProperties p).
Qed.

Lemma run_call_run c p w :
  ready url p → ok w → ∃ err p' w',
    run_call c (p, w) = (Done err, (p', w')) ∧ ok w' ∧ ready url p' ∧
    isTokenExpired p' = expiry_step (isTokenExpired p) (c, err) ∧
    props_AssumeRoleResult (queueProperties p') =
      role_step (props_AssumeRoleResult (queueProperties p)) (c, err).
Proof.
  intros Hr Hok. destruct c as [m t|m|n v|r]; cbn [run_call].
  - destruct (visibility_run m t p w) as (err & w' & E & Hx & _); [done..|].
    rewrite E. by eexists _, _, _.
  - destruct (delete_run m p w) as (err & w' & E & Hx & _); [done..|].
    rewrite E. by eexists _, _, _.
  - destruct (receive_run n v p w) as (r & w' & E & Hx & _); [done..|].
    rewrite (go_bind_done _ _ _ _ _ E). by eexists _, _, _.
  - destruct (refresh_ready r p w) as (err & p' & w' & E & [Hx _] & ?); [done..|].
    by eexists _, _, _.
Qed.

End ProviderFacts.

(** ** The properties of the provider *)

Section ProviderClaims.
Context {C W : Type} `{Logged W, SQSClient C W, !SQSClientSpec (C := C) (W := W)}.
Context (url : string).

(** C26. Over any history of calls the provider stays usable and keeps its
    queue's url; its token is reported expired exactly when one of the queue
    operations got an ExpiredToken error since the last successful refresh (a
    failed refresh forgives nothing), and the credentials recorded are those of
    the last successful refresh. *)
Theorem token_expiry_follows_history (cs : list provider_call) (p : sqsProvider C) (w : W) :
  ready url p → ok w →
  ∃ errs p' w', run_calls cs (p, w) = (Done errs, (p', w')) ∧
    length errs = length cs ∧ ready url p' ∧
    isTokenExpired p' = fold_left expiry_step (zip cs errs) (isTokenExpired p) ∧
    props_AssumeRoleResult (queueProperties p') =
      fold_left role_step (zip cs errs) (props_AssumeRoleResult (queueProperties p)).
Proof.
  revert p w. induction cs as [|c cs IH]; intros p w Hr Hok.
  { by eexists [], p, w. }
  destruct (run_call_run url c p w Hr Hok) as (err & p1 & w1 & E1 & Hok1 & Hr1 & Hf & Hp).
  destruct (IH p1 w1 Hr1 Hok1) as (errs & p' & w' & E & Hlen & Hr' & Hf' & Hp').
  exists (err :: errs), p', w'. cbn [run_calls].
  rewrite (go_bind_done _ _ _ _ _ E1), (go_bind_done _ _ _ _ _ E). cbn [zip zip_with fold_left length].
  rewrite <- Hf, <- Hp. by rewrite Hlen.
Qed.

(** [NewSqsProvider] returns a provider of the queue the properties name,
    with a client for their credentials and an unexpired token, or the session's
    error. *)
Theorem new_provider_is_ready (props : Properties) (w : W) :
  ok w → ∃ r w', NewSqsProvider props w = (Done r, w') ∧ extends [] w w' ∧
    match r with
    | inl p => ready (Url props) p ∧ isTokenExpired p = false ∧ queueProperties p = props ∧
        ∃ c, client p = Some c ∧
          NewSession (mkConfig (Region props)
            (AccessKeyId (arr_Credentials (props_AssumeRoleResult props)))
            (SecretAccessKey (arr_Credentials (props_AssumeRoleResult props)))
            (SessionToken (arr_Credentials (props_AssumeRoleResult props)))) w
          = (Done (inl c), w')
    | inr _ => True
    end.
Proof.
  intros Hok. unfold NewSqsProvider.
  destruct (refresh_run (props_AssumeRoleResult props) (mkProvider props None false) w Hok)
    as (err & w' & Hx & E & Hc).
  rewrite E. destruct err as [err|]; [by exists (inr err), w'|].
  destruct Hc as [c Hc]; [done|]. rewrite Hc.
  eexists (inl _), w'. split; [done|]. split; [done|].
  split_and!; [split; [done|by eexists]|done|by destruct props|by exists c].
Qed.
End ProviderClaims.

(** ** A recording client: its second call reports an expired token *)

Section ProviderExample.

Definition example_error (s : rec_state) : option error :=
  if decide (length s = 1%nat) then Some (AwsError "ExpiredTokenException" "") else None.

#[export] Instance example_client : SQSClient aws_Config rec_state := {
  client_ChangeMessageVisibility _ i := record example_error
    (EvVisibility (vis_QueueUrl i) (vis_ReceiptHandle i) (vis_VisibilityTimeout i));
  client_DeleteMessage _ i := record example_error
    (EvDelete (del_QueueUrl i) (del_ReceiptHandle i));
  client_ReceiveMessage _ i := record (λ _, inl [])
    (EvReceive (rcv_QueueUrl i) (rcv_MaxNumberOfMessages i) (rcv_VisibilityTimeout i));
  NewSession cfg := go_ret (if decide (cfg_AccessKeyId cfg = "")
                            then inr (PlainError "no credentials") else inl cfg)
}.

#[export] Instance example_client_spec : SQSClientSpec (C := aws_Config) (W := rec_state).
Proof.
  split; intros; [apply record_calls..|].
  eexists _, w. split; [reflexivity|]. by apply extends_nil.
Qed.

Definition example_role (key : string) : AssumeRoleResult :=
  mkAssumeRoleResult (mkCredentials key "secret" "session" 0) (mkAssumeRole "id" "arn").

Definition example_properties : Properties :=
  mkProperties (example_role "key") (mkQueueConfiguration 60 60 "us-west-2" "queue").

Definition example_provider : sqsProvider aws_Config :=
  mkProvider example_properties (Some (mkConfig "us-west-2" "key" "secret" "session")) false.

(** Two calls, the second of which expires the token; a refresh that fails; *)
Definition example_calls : list provider_call :=
  [CallReceive 10 30; CallDelete (mkMessage None None None None);
   CallRefresh (example_role "")].

Lemma token_expiry_follows_history_witness :
  ready "queue" example_provider ∧
  ∃ errs p' w', run_calls example_calls (example_provider, []) = (Done errs, (p', w')) ∧
    length errs = length example_calls ∧ ready "queue" p' ∧
    isTokenExpired p' = fold_left expiry_step (zip example_calls errs) false ∧
    props_AssumeRoleResult (queueProperties p') =
      fold_left role_step (zip example_calls errs) (example_role "key").
Proof.
  assert (Hr : ready "queue" example_provider) by (split; [done|by eexists]).
  split; [exact Hr|].
  apply (token_expiry_follows_history "queue" example_calls example_provider []);
    [exact Hr|exact I].
Defined.

(** and a refresh that succeeds. *)
Example example_flag :
  (λ cs, isTokenExpired (run_calls cs (example_provider, [])).2.1) <$>
    [take 1 example_calls; take 2 example_calls; example_calls;
     example_calls ++ [CallRefresh (example_role "new")]] =
  [false; true; true; false].
Proof. vm_compute. reflexivity. Qed.

Lemma new_provider_is_ready_witness :
  ∃ r w', NewSqsProvider example_properties [] = (Done r, w') ∧
    extends [] ([] : rec_state) w' ∧
    match r with
    | inl p => ready "queue" p ∧ isTokenExpired p = false ∧
        queueProperties p = example_properties ∧
        ∃ c, client p = Some c ∧
          NewSession (mkConfig "us-west-2" "key" "secret" "session") ([] : rec_state) =
            (Done (inl c), w')
    | inr _ => True
    end.
Proof. apply (new_provider_is_ready example_properties []). exact I. Defined.
End ProviderExample.
