(* ===== verification/SqsLocks.v ===== *)
(** * queue/sqs_provider.go: the locks of a provider.

    The pollers and jobs of a queue call the provider's operations from many
    goroutines while the processor refreshes its client. Clients are numbered
    by the refresh that installed them. Each operation holds the read side of
    [refreshClientMu] from before it reads [qp.client] until after
    [checkExpiration]; [RefreshClient] holds the write side for the swap and
    resets the flag afterwards, under [expirationMu] only. *)

From stdpp Require Import base list numbers strings gmap.
From Stdlib Require Import Lia.
From S2P Require Import Prelude GoError SqsProvider.

(** Where a goroutine is in [ChangeMessageVisibility], [DeleteMessage] or
    [ReceiveMessage]. *)
Inductive op_pc : Type :=
  | OpStart                                      (* before RLock *)
  | OpLocked                                     (* RLock held *)
  | OpCalling (g : nat)                          (* in the call of client [g] *)
  | OpReturned (g : nat) (err : option error)    (* before checkExpiration *)
  | OpChecked                                    (* before RUnlock *)
  | OpDone.

(** Where the processor is in [RefreshClient]. *)
Inductive refresh_pc : Type :=
  | RefIdle
  | RefSession                                   (* in session.NewSession *)
  | RefLocked                                    (* Lock held *)
  | RefSwapped                                   (* before Unlock *)
  | RefUnlocked.                                 (* before the flag's reset *)

Record locked_provider : Type := mkLocked {
  current : nat;
  expired : bool;
  ops : list op_pc;
  refresher : refresh_pc;
  (* ghost: what the operations reported since the flag was last reset *)
  reports : list (nat * option error)
}.

(** The read side of [refreshClientMu]. *)
Definition reading (o : op_pc) : Prop :=
  match o with OpLocked | OpCalling _ | OpReturned _ _ | OpChecked => True | _ => False end.

(** The write side. *)
Definition writing (r : refresh_pc) : Prop :=
  match r with RefLocked | RefSwapped => True | _ => False end.

Definition at_op (i : nat) (o : op_pc) (s : locked_provider) : locked_provider :=
  mkLocked (current s) (expired s) (<[i:=o]> (ops s)) (refresher s) (reports s).

Definition at_refresh (r : refresh_pc) (s : locked_provider) : locked_provider :=
  mkLocked (current s) (expired s) (ops s) r (reports s).

Inductive locked_step : locked_provider → locked_provider → Prop :=
  | op_begin s :
      locked_step s (mkLocked (current s) (expired s) (ops s ++ [OpStart])
        (refresher s) (reports s))
  | op_rlock s i :
      ops s !! i = Some OpStart → ¬ writing (refresher s) →
      locked_step s (at_op i OpLocked s)
  | op_call s i :
      ops s !! i = Some OpLocked →
      locked_step s (at_op i (OpCalling (current s)) s)
  | op_return s i g err :
      ops s !! i = Some (OpCalling g) →
      locked_step s (at_op i (OpReturned g err) s)
  | op_check s i g err :
      ops s !! i = Some (OpReturned g err) →
      locked_step s (mkLocked (current s) (expired s || reports_expiry err)
        (<[i:=OpChecked]> (ops s)) (refresher s) (reports s ++ [(g, err)]))
  | op_runlock s i :
      ops s !! i = Some OpChecked →
      locked_step s (at_op i OpDone s)
  | refresh_begin s :
      refresher s = RefIdle →
      locked_step s (at_refresh RefSession s)
  | refresh_fail s :
      refresher s = RefSession →
      locked_step s (at_refresh RefIdle s)
  | refresh_lock s :
      refresher s = RefSession → Forall (λ o, ¬ reading o) (ops s) →
      locked_step s (at_refresh RefLocked s)
  | refresh_swap s :
      refresher s = RefLocked →
      locked_step s (mkLocked (S (current s)) (expired s) (ops s) RefSwapped (reports s))
  | refresh_unlock s :
      refresher s = RefSwapped →
      locked_step s (at_refresh RefUnlocked s)
  | refresh_reset s :
      refresher s = RefUnlocked →
      locked_step s (mkLocked (current s) false (ops s) RefIdle []).

(** A provider [NewSqsProvider] returned. *)
Definition locked_init : locked_provider := mkLocked 0 false [] RefIdle [].

(** ** The invariant *)

(** The client an operation has in hand is the current one. *)
Definition op_current (g : nat) (o : op_pc) : Prop :=
  match o with OpCalling g' | OpReturned g' _ => g' = g | _ => True end.

Record LockInv (s : locked_provider) : Prop := {
  inv_exclusion : writing (refresher s) → Forall (λ o, ¬ reading o) (ops s);
  inv_current : Forall (op_current (current s)) (ops s);
  inv_flag : expired s = existsb (λ x, reports_expiry x.2) (reports s);
  inv_reports : refresher s = RefIdle ∨ refresher s = RefSession →
    Forall (λ x, x.1 = current s) (reports s)
}.

Section LockFacts.
Implicit Types s : locked_provider.

Lemma not_reading_current g g' o : ¬ reading o → op_current g o → op_current g' o.
Proof. destruct o; cbn; tauto. Qed.

Lemma no_reader_at s i o :
  LockInv s → writing (refresher s) → ops s !! i = Some o → ¬ reading o.
Proof.
  intros Hinv Hw Hi. pose proof (inv_exclusion s Hinv Hw) as Hex.
  rewrite Forall_lookup in Hex. by eapply Hex.
Qed.

Lemma current_at s i o : LockInv s → ops s !! i = Some o → op_current (current s) o.
Proof.
  intros Hinv Hi. pose proof (inv_current s Hinv) as Hc.
  rewrite Forall_lookup in Hc. by eapply Hc.
Qed.

(** Moves of an operation that keep the refresher and the reports. *)
Lemma at_op_inv s i o :
  LockInv s → ¬ writing (refresher s) ∨ ¬ reading o → op_current (current s) o →
  LockInv (at_op i o s).
Proof.
  intros Hinv Hor Hc. destruct Hinv as [H1 H2 H3 H4]. split; cbn; [|by apply Forall_insert|done|done].
  intros Hw. apply Forall_insert; [auto|]. by destruct Hor.
Qed.

Lemma reading_not_writing s i o :
  LockInv s → ops s !! i = Some o → reading o → ¬ writing (refresher s).
Proof. intros Hinv Hi Hr Hw. by eapply no_reader_at. Qed.

Lemma locked_step_inv s s' : LockInv s → locked_step s s' → LockInv s'.
Proof.
  intros Hinv Hstep. destruct Hstep as
    [s|s i Hi Hw|s i Hi|s i g err Hi|s i g err Hi|s i Hi|s Hr|s Hr|s Hr Hn|s Hr|s Hr|s Hr].
  - destruct Hinv as [H1 H2 H3 H4]. split; cbn; [|apply Forall_app; by repeat constructor|done..].
    intros ?. apply Forall_app. split; [auto|]. apply Forall_singleton. by intros [].
  - apply at_op_inv; [done|by left|done].
  - apply at_op_inv; [done|left; by eapply reading_not_writing|done].
  - apply at_op_inv; [done|left; by eapply reading_not_writing|exact (current_at _ _ _ Hinv Hi)].
  - pose proof (reading_not_writing _ _ _ Hinv Hi I) as Hw.
    pose proof (current_at _ _ _ Hinv Hi) as Hg. cbn in Hg.
    destruct Hinv as [H1 H2 H3 H4]. split; cbn; [done|by apply Forall_insert|..].
    + rewrite existsb_app, H3. cbn. by rewrite orb_false_r.
    + intros ?. apply Forall_app. split; [auto|by repeat constructor].
  - apply at_op_inv; [done|by right; intros []|done].
  - destruct Hinv as [H1 H2 H3 H4]. split; cbn; [done..|]. intros _. apply H4. by left.
  - destruct Hinv as [H1 H2 H3 H4]. split; cbn; [done..|]. intros _. apply H4. by right.
  - destruct Hinv as [H1 H2 H3 H4]. split; cbn; [done..|]. by intros [].
  - destruct Hinv as [H1 H2 H3 H4]. rewrite Hr in H1. specialize (H1 I).
    split; cbn; [done| |done|by intros []].
    rewrite Forall_forall in *. intros o Ho. eapply not_reading_current; eauto.
  - destruct Hinv as [H1 H2 H3 H4]. split; cbn; [done..|]. by intros [].
  - destruct Hinv as [H1 H2 H3 H4]. split; cbn; [done..|]. by constructor.
Qed.

Lemma locked_reachable_inv s : rtc locked_step locked_init s → LockInv s.
Proof.
  intros Hr. assert (H0 : LockInv locked_init).
  { split; cbn; [done|constructor|done|by constructor]. }
  revert H0. induction Hr as [|s1 s2 s3 Hs _ IH]; [done|].
  intros ?. apply IH. by eapply locked_step_inv.
Qed.
End LockFacts.

(** ** The properties of the locks *)

Section LockClaims.

(** C27. The client is never swapped under an operation that is using it, and
    outside a refresh the expiry flag is raised exactly when an operation of
    the current client reported an expired token: an error of a client that was
    replaced can neither raise nor keep the flag. *)
Theorem expiry_flag_is_the_current_clients s :
  rtc locked_step locked_init s →
  (∀ i g, ops s !! i = Some (OpCalling g) → g = current s ∧ ¬ writing (refresher s)) ∧
  (refresher s = RefIdle →
    (expired s = true ↔
     ∃ err, (current s, err) ∈ reports s ∧ reports_expiry err = true)).
Proof.
  intros Hr. apply locked_reachable_inv in Hr as Hinv. split.
  - intros i g Hi. split; [by apply (current_at _ _ _ Hinv Hi)|].
    by eapply reading_not_writing.
  - intros Hidle. rewrite (inv_flag s Hinv), existsb_exists.
    pose proof (inv_reports s Hinv (or_introl Hidle)) as Hg. rewrite Forall_forall in Hg.
    split.
    + intros ([g err] & Hin & He). apply list_elem_of_In in Hin.
      exists err. by rewrite <- (Hg _ Hin).
    + intros (err & Hin & He). exists (current s, err). by rewrite <- list_elem_of_In.
Qed.

(** An expired token can be forgotten: an operation of the client just
    installed that reports it between the swap and the reset of the flag leaves
    the flag down. *)
Theorem expiry_report_lost_in_refresh :
  ∃ s1 s2, rtc locked_step locked_init s1 ∧ refresher s1 = RefUnlocked ∧
    (current s1, Some (AwsError "ExpiredToken" "")) ∈ reports s1 ∧ expired s1 = true ∧
    locked_step s1 s2 ∧ current s2 = current s1 ∧ refresher s2 = RefIdle ∧
    expired s2 = false.
Proof.
  eexists (mkLocked 1 true [OpChecked] RefUnlocked [(1, Some (AwsError "ExpiredToken" ""))]), _.
  split_and!; [|done|by constructor|done|by apply refresh_reset|done..].
  eapply rtc_l; [by apply refresh_begin|]. eapply rtc_l; [by apply refresh_lock|].
  eapply rtc_l; [by apply refresh_swap|]. eapply rtc_l; [by apply refresh_unlock|].
  eapply rtc_l; [apply op_begin|]. cbn.
  eapply rtc_l; [by apply (op_rlock _ 0); [|intros []]|]. cbn.
  eapply rtc_l; [by apply (op_call _ 0)|]. cbn.
  eapply rtc_l; [by apply (op_return _ 0 1 (Some (AwsError "ExpiredToken" "")))|]. cbn.
  eapply rtc_l; [by apply (op_check _ 0 1 (Some (AwsError "ExpiredToken" "")))|]. cbn.
  apply rtc_refl.
Qed.
End LockClaims.

(** A refresh that overlaps an operation of the old client. *)
Definition locked_example : locked_provider :=
  mkLocked 1 false [OpDone] RefIdle [].

Lemma locked_example_reachable : rtc locked_step locked_init locked_example.
Proof.
  eapply rtc_l; [apply op_begin|]. cbn.
  eapply rtc_l; [by apply (op_rlock _ 0); [|intros []]|]. cbn.
  eapply rtc_l; [by apply (op_call _ 0)|]. cbn.
  eapply rtc_l; [by apply refresh_begin|]. cbn.
  eapply rtc_l; [by apply (op_return _ 0 0 (Some (AwsError "ExpiredToken" "")))|]. cbn.
  eapply rtc_l; [by apply (op_check _ 0 0 (Some (AwsError "ExpiredToken" "")))|]. cbn.
  eapply rtc_l; [by apply (op_runlock _ 0)|]. cbn.
  eapply rtc_l; [apply refresh_lock; [done|by repeat constructor; intros []]|]. cbn.
  eapply rtc_l; [by apply refresh_swap|]. eapply rtc_l; [by apply refresh_unlock|].
  eapply rtc_l; [by apply refresh_reset|]. apply rtc_refl.
Qed.

Lemma expiry_flag_is_the_current_clients_witness :
  rtc locked_step locked_init locked_example ∧
  (refresher locked_example = RefIdle →
    (expired locked_example = true ↔
     ∃ err, (current locked_example, err) ∈ reports locked_example ∧
       reports_expiry err = true)).
Proof.
  split; [exact locked_example_reachable|].
  exact (proj2 (expiry_flag_is_the_current_clients locked_example locked_example_reachable)).
Defined.
