(* ===== verification/Job.v ===== *)
(** * queue/job.go: the job of one received message.

    [Execute] runs under [executeMutex], so calls of one job follow one
    another. The goroutine that sends the action's result assigns to the
    captured variable [err] without synchronisation; the argument [race] of
    [Execute] says when that happens. *)

From stdpp Require Import base list numbers strings gmap.
From Stdlib Require Import Lia.
From S2P Require Import Prelude GoError Interfaces SqsProvider.
Local Open Scope Z_scope.

Definition jobInitial : Z := 0.
Definition jobExecuting : Z := 1.
Definition jobFinished : Z := 2.
Definition jobError : Z := 3.

(** The provider and the handler are the environment's. *)
Record job : Type := mkJob {
  message : Message;
  job_ownerId : string;
  apiKey : string;
  baseUrl : string;
  state : Z
}.

Definition newJob (message : Message) (apiKey baseUrl ownerId : string) : job :=
  mkJob message ownerId apiKey baseUrl jobInitial.

Definition set_state (z : Z) (j : job) : job :=
  mkJob (message j) (job_ownerId j) (apiKey j) (baseUrl j) z.

(** When the goroutine's [err = SendResultToJsmFunc(...)] takes effect: before
    [if err != nil], between the test and the use of [err] in the error's text,
    or later. *)
Inductive race_point : Type :=
  | BeforeTest
  | BetweenTestAndUse
  | AfterUse.

Section Job.
Context `{SQSProvider St, MessageHandler St}.

Definition job_state : Type := job * St.

Definition put_state (z : Z) : go job_state unit :=
  go_modify (λ s, (set_state z s.1, s.2)).

(** The condition [messageAttr == nil || ... && ...], whose channel is looked
    up only when the owner differs. *)
Definition is_invalid (j : job) : go job_state bool :=
  match MessageAttributes (message j) with
  | None => go_ret true
  | Some attrs =>
      (o <- attr_value attrs ownerId ;
       if decide (o = job_ownerId j) then go_ret false
       else
         c <- attr_value attrs channelId ;
         go_ret (negb (bool_decide (c = job_ownerId j))))%go
  end.

(** The body of the goroutine. *)
Definition send_result (result : option ActionResultPayload) (j : job)
    (err : option error) : go job_state (option error) :=
  match result with
  | None => go_ret err
  | Some r => on_env (SendResultToJsmFunc r (apiKey j) (baseUrl j))
  end.

(** From [result, err := j.messageHandler.Handle(j.message)] to the end. *)
Definition process (race : race_point) (j : job) (messageId : string) :
    go job_state (option error) :=
  (r <- on_env (handler_Handle (message j)) ;
   let '(result, err) := r in
   err1 <- (match race with BeforeTest => send_result result j err | _ => go_ret err end) ;
   match err1 with
   | Some _ =>
       _ <- put_state jobError ;
       err2 <- (match race with
                | BetweenTestAndUse => send_result result j err1
                | _ => go_ret err1
                end) ;
       _ <- (match race with AfterUse => send_result result j err2 | _ => go_ret None end) ;
       go_ret (Some (PlainError
         ("Message[" +:+ messageId +:+ "] could not be processed: " +:+ show_error err2)))
   | None =>
       _ <- put_state jobFinished ;
       _ <- (match race with BeforeTest => go_ret None | _ => send_result result j err1 end) ;
       go_ret None
   end)%go.

Definition Execute (race : race_point) : go job_state (option error) :=
  (s <- go_get ;
   let j := s.1 in
   if negb (state j =? jobInitial) then
     id <- deref (MessageId (message j)) ;
     go_ret (Some (PlainError
       ("Job[" +:+ id +:+ "] is already executing or finished.")))
   else
     _ <- put_state jobExecuting ;
     p <- on_env provider_Properties ;
     messageId <- deref (MessageId (message j)) ;
     err <- on_env (DeleteMessage (message j)) ;
     match err with
     | Some err =>
         _ <- put_state jobError ;
         go_ret (Some (PlainError
           ("Message[" +:+ messageId +:+ "] could not be deleted from the queue[" +:+
            Region p +:+ "]: " +:+ Error err)))
     | None =>
         invalid <- is_invalid j ;
         if invalid then
           _ <- put_state jobError ;
           go_ret (Some (PlainError
             ("Message[" +:+ messageId +:+ "] is invalid, will not be processed.")))
         else process race j messageId
     end)%go.

(** Successive calls of [Execute] on one job. *)
Fixpoint executes (races : list race_point) : go job_state (list (option error)) :=
  match races with
  | [] => go_ret []
  | r :: rs => (e <- Execute r ; es <- executes rs ; go_ret (e :: es))%go
  end.
End Job.

(** ** What a job promises *)

(** The attributes a queue message carries. *)
Definition attr_of (name : string) (m : Message) : option string :=
  attrs ← MessageAttributes m; v ← attrs !! name; StringValue v.

(** The message is addressed to the owner, by owner or by channel. *)
Definition addressed (owner : string) (m : Message) : bool :=
  bool_decide (attr_of ownerId m = Some owner) ||
  bool_decide (attr_of channelId m = Some owner).

(** A message of SQS has no attributes or both. *)
Definition complete (m : Message) : Prop :=
  well_formed m ∧
  (MessageAttributes m = None ∨
   is_Some (attr_of ownerId m) ∧ is_Some (attr_of channelId m)).

(** The calls an execution makes: the deletion; the handler, when the message
    was deleted and is addressed to the owner; the result's sending, when the
    handler returned one. *)
Definition job_events (url : string) (j : job) (del : option error)
    (handled : option ActionResultPayload * option error) (sent : option error) :
    list event :=
  EvDelete url (ReceiptHandle (message j)) del ::
  match del with
  | Some _ => []
  | None =>
      if addressed (job_ownerId j) (message j) then
        EvHandle (message j) handled ::
        match handled.1 with
        | Some r => [EvSend r (apiKey j) (baseUrl j) sent]
        | None => []
        end
      else []
  end.

(** The error the test [if err != nil] sees, when the message was handled. *)
Definition tested_error (race : race_point)
    (handled : option ActionResultPayload * option error) (sent : option error) :
    option error :=
  match race, handled.1 with
  | BeforeTest, Some _ => sent
  | _, _ => handled.2
  end.

(** The error its text is made of. *)
Definition used_error (race : race_point)
    (handled : option ActionResultPayload * option error) (sent : option error) :
    option error :=
  match race, handled.1 with
  | AfterUse, _ | _, None => handled.2
  | _, Some _ => sent
  end.

(** What the execution returns after handling the message. *)
Definition processing_error (race : race_point) (id : string)
    (handled : option ActionResultPayload * option error) (sent : option error) :
    option error :=
  match tested_error race handled sent with
  | None => None
  | Some _ => Some (PlainError ("Message[" +:+ id +:+ "] could not be processed: " +:+
      show_error (used_error race handled sent)))
  end.

(** The execution succeeds. *)
Definition job_succeeds (race : race_point) (j : job) (del : option error)
    (handled : option ActionResultPayload * option error) (sent : option error) : bool :=
  bool_decide (del = None) && addressed (job_ownerId j) (message j) &&
  bool_decide (tested_error race handled sent = None).

(** ** Running a job *)

Section JobFacts.
Context `{Logged St, SQSProvider St, MessageHandler St}.
Context (url : string) `{!SQSProviderSpec St url, !MessageHandlerSpec St}.
Implicit Types (j : job) (s : St).

Lemma put_state_bind {A} z (k : unit → go job_state A) j s :
  go_bind (put_state z) k (j, s) = k () (set_state z j, s).
Proof. reflexivity. Qed.

Lemma on_env_bind {A B} (m : go St A) (k : A → go job_state B) j s a s' :
  m s = (Done a, s') → go_bind (on_env m) k (j, s) = k a (j, s').
Proof. intros E. by rewrite (go_bind_done _ _ _ _ _ (on_env_run _ j _ _ _ E)). Qed.

Lemma attr_value_run {X} attrs name m v (x : X) :
  MessageAttributes m = Some attrs → attr_of name m = Some v →
  attr_value attrs name x = (Done v, x).
Proof.
  unfold attr_of, attr_value. intros ->. cbn.
  destruct (attrs !! name) as [a|]; cbn; [|done]. unfold go_bind. cbn. by intros ->.
Qed.

Lemma is_invalid_run j (x : job * St) :
  complete (message j) →
  is_invalid j x = (Done (negb (addressed (job_ownerId j) (message j))), x).
Proof.
  intros [_ Hc]. unfold is_invalid. destruct Hc as [E|[[o Ho] [c Hc]]].
  { unfold addressed, attr_of. by rewrite E. }
  destruct (MessageAttributes (message j)) as [attrs|] eqn:E.
  2: { unfold attr_of in Ho. by rewrite E in Ho. }
  unfold addressed. rewrite Ho, Hc.
  rewrite (go_bind_done _ _ _ _ _ (attr_value_run _ _ _ _ x E Ho)).
  destruct (decide (o = job_ownerId j)) as [->|Hne]; [by rewrite bool_decide_eq_true_2|].
  rewrite (go_bind_done _ _ _ _ _ (attr_value_run _ _ _ _ x E Hc)). unfold go_ret.
  rewrite (bool_decide_eq_false_2 (Some o = _)) by congruence. cbn [orb].
  do 3 f_equal. apply bool_decide_ext. split; congruence.
Qed.

Lemma is_invalid_panics j attrs (x : job * St) :
  MessageAttributes (message j) = Some attrs → attrs !! ownerId = None →
  is_invalid j x = (Panicked "invalid memory address or nil pointer dereference", x).
Proof.
  intros Ha Ho. unfold is_invalid, attr_value. rewrite Ha, Ho. reflexivity.
Qed.

(** The sending of a result: its event, and the error it leaves. *)
Definition sends (j : job) (result : option ActionResultPayload) (sent : option error) :
    list event :=
  match result with
  | Some r => [EvSend r (apiKey j) (baseUrl j) sent]
  | None => []
  end.

Lemma send_result_run result j err j0 s :
  ok s → ∃ sent s', extends (sends j result sent) s s' ∧
    send_result result j err (j0, s) =
      (Done (match result with Some _ => sent | None => err end), (j0, s')).
Proof.
  intros Hok. destruct result as [r|]; cbn; [|by exists None, s; split; [apply extends_nil|]].
  destruct (SendResult_spec r (apiKey j) (baseUrl j) s Hok) as (sent & s' & E & Hx).
  exists sent, s'. split; [done|]. by apply on_env_run.
Qed.

(** Whenever the sending takes effect, the calls and their answers are the
    same; what is made of them depends on it. *)
Lemma process_races j id j0 s :
  well_formed (message j) → ok s → ∃ handled sent s',
    extends (EvHandle (message j) handled :: sends j handled.1 sent) s s' ∧
    ∀ race, process race j id (j0, s) =
      (Done (processing_error race id handled sent),
       (set_state (if bool_decide (tested_error race handled sent = None)
                   then jobFinished else jobError) j0, s')).
Proof.
  intros Hwf Hok.
  destruct (Handle_spec (message j) s Hwf Hok) as ([result err] & s1 & E & Hx).
  destruct (send_result_run result j None j0 s1) as (sent & s2 & Hx2 & E2);
    [by eapply extends_ok|].
  exists (result, err), sent, s2. split; [by eapply extends_cons|].
  assert (Hsend : ∀ e j1, send_result result j e (j1, s1) =
    (Done (match result with Some _ => sent | None => e end), (j1, s2))).
  { intros e j1. destruct result as [r|]; cbn in E2 |- *; [|by injection E2 as <-].
    unfold on_env in *. cbn [fst snd] in E2 |- *.
    destruct (SendResultToJsmFunc r (apiKey j) (baseUrl j) s1). by injection E2 as -> ->. }
  intros race. unfold process. rewrite (on_env_bind _ _ _ _ _ _ E). cbn [fst snd].
  unfold processing_error, tested_error, used_error. cbn [fst snd].
  destruct race; rewrite ?(go_bind_done _ _ _ _ _ (Hsend _ _)), ?go_ret_bind.
  - destruct result, sent, err; cbn; rewrite ?put_state_bind; reflexivity.
  - destruct err as [e|]; rewrite put_state_bind, (go_bind_done _ _ _ _ _ (Hsend _ _));
      by destruct result.
  - destruct err as [e|]; rewrite put_state_bind, ?go_ret_bind,
      (go_bind_done _ _ _ _ _ (Hsend _ _)); by destruct result.
Qed.

Lemma processing_error_none race id handled sent :
  processing_error race id handled sent = None ↔ tested_error race handled sent = None.
Proof. unfold processing_error. by destruct (tested_error _ _ _). Qed.

Lemma Execute_again race j s :
  is_Some (MessageId (message j)) → state j ≠ jobInitial →
  ∃ e, Execute race (j, s) = (Done (Some e), (j, s)).
Proof.
  intros [id Hid] Hst. unfold Execute. unfold go_bind at 1, go_get. cbn [fst].
  replace (state j =? jobInitial) with false by lia. cbn [negb].
  rewrite Hid, go_bind_deref. by eexists.
Qed.

(** The execution of a new job up to the answer of the deletion. *)
Lemma Execute_deletes j id s :
  state j = jobInitial → MessageId (message j) = Some id → ok s →
  ∃ del region s1, DeleteMessage (message j) s = (Done del, s1) ∧
    extends [EvDelete url (ReceiptHandle (message j)) del] s s1 ∧
    ∀ race, Execute race (j, s) = match del with
    | Some err => (Done (Some (PlainError
        ("Message[" +:+ id +:+ "] could not be deleted from the queue[" +:+
         region +:+ "]: " +:+ Error err))), (set_state jobError j, s1))
    | None =>
        (invalid <- is_invalid j ;
         if invalid then
           _ <- put_state jobError ;
           go_ret (Some (PlainError
             ("Message[" +:+ id +:+ "] is invalid, will not be processed.")))
         else process race j id)%go (set_state jobExecuting j, s1)
    end.
Proof.
  intros Hst Hid Hok.
  destruct (provider_Properties_spec (url := url) s Hok) as (p & Ep & _).
  destruct (DeleteMessage_spec (url := url) (message j) s Hok) as (del & s1 & E & Hx).
  exists del, (Region p), s1. split; [done|]. split; [done|]. intros race.
  unfold Execute. unfold go_bind at 1, go_get. cbn [fst].
  rewrite Hst, Hid. cbn [negb Z.eqb jobInitial].
  rewrite put_state_bind, (on_env_bind _ _ _ _ _ _ Ep), go_bind_deref.
  rewrite (on_env_bind _ _ _ _ _ _ E). by destruct del.
Qed.

(** The message is deleted and addressed to the owner, so it is handled. *)
Definition is_handled j (del : option error) : bool :=
  bool_decide (del = None) && addressed (job_ownerId j) (message j).

Lemma job_Execute_races j id s :
  state j = jobInitial → MessageId (message j) = Some id → complete (message j) → ok s →
  ∃ del handled sent why s', (∃ s1, DeleteMessage (message j) s = (Done del, s1)) ∧
    extends (job_events url j del handled sent) s s' ∧
    ∀ race, Execute race (j, s) =
      (Done (if is_handled j del then processing_error race id handled sent else Some why),
       (set_state (if job_succeeds race j del handled sent
                   then jobFinished else jobError) j, s')).
Proof.
  intros Hst Hid Hc Hok.
  destruct (Execute_deletes j id s Hst Hid Hok) as (del & region & s1 & Ed & Hx & E).
  unfold is_handled, job_succeeds, job_events. destruct del as [e|].
  { eexists (Some e), (None, None), None, _, s1. split; [by exists s1|]. split; [exact Hx|].
    intros race. by rewrite E. }
  assert (E' : ∀ race, Execute race (j, s) =
    (if negb (addressed (job_ownerId j) (message j)) then
       _ <- put_state jobError ;
       go_ret (Some (PlainError
         ("Message[" +:+ id +:+ "] is invalid, will not be processed.")))
     else process race j id)%go (set_state jobExecuting j, s1)).
  { intros race. rewrite E.
    exact (go_bind_done _ _ _ _ _ (is_invalid_run j (set_state jobExecuting j, s1) Hc)). }
  destruct (addressed (job_ownerId j) (message j)) eqn:Ha.
  - destruct (process_races j id (set_state jobExecuting j) s1)
      as (handled & sent & s' & Hx' & Ep); [by apply Hc|by eapply extends_ok|].
    exists None, handled, sent, (PlainError ""), s'. split; [by exists s1|].
    split; [by eapply extends_cons|].
    intros race. rewrite E'. cbn [negb]. by rewrite Ep.
  - eexists None, (None, None), None, _, s1. split; [by exists s1|]. split; [exact Hx|].
    intros race. by rewrite E'.
Qed.

Lemma job_Execute_run race j s :
  state j = jobInitial → complete (message j) → ok s →
  ∃ del handled sent err s',
    Execute race (j, s) =
      (Done err, (set_state (if job_succeeds race j del handled sent
                             then jobFinished else jobError) j, s')) ∧
    extends (job_events url j del handled sent) s s' ∧
    (err = None ↔ job_succeeds race j del handled sent = true) ∧
    ∃ s1, DeleteMessage (message j) s = (Done del, s1).
Proof.
  intros Hst Hc Hok. pose proof Hc as [[[id Hid] _] _].
  destruct (job_Execute_races j id s Hst Hid Hc Hok)
    as (del & handled & sent & why & s' & Hd & Hx & E).
  exists del, handled, sent. eexists _, s'. split; [apply E|]. split; [done|]. split; [|done].
  unfold is_handled, job_succeeds. destruct (_ && _); [|done]. cbn [andb].
  by rewrite processing_error_none, bool_decide_eq_true.
Qed.

Lemma executes_again races j s :
  is_Some (MessageId (message j)) → state j ≠ jobInitial →
  ∃ errs, executes races (j, s) = (Done errs, (j, s)) ∧ Forall is_Some errs ∧
    length errs = length races.
Proof.
  intros Hid Hst. induction races as [|r rs (errs & IH & Hall & Hlen)]; [by exists []|].
  destruct (Execute_again r j s Hid Hst) as [e E]. exists (Some e :: errs).
  cbn [executes]. rewrite (go_bind_done _ _ _ _ _ E), (go_bind_done _ _ _ _ _ IH).
  split; [done|]. split; [by repeat constructor|]. cbn. by rewrite Hlen.
Qed.
End JobFacts.

(** ** The properties of a job *)

Section JobClaims.
Context `{Logged St, SQSProvider St, MessageHandler St}.
Context (url : string) `{!SQSProviderSpec St url, !MessageHandlerSpec St}.
Implicit Types (j : job) (s : St).

(** C21. Executing a new job deletes its message, then handles it exactly when
    the deletion succeeded and the message is addressed to the owner (directly
    or by channel), then sends the result the handler produced; it ends
    finished and returns nil exactly when all that succeeded, and in the error
    state with an error otherwise. *)
Theorem execute_follows_protocol race j s :
  state j = jobInitial → complete (message j) → ok s →
  ∃ del handled sent err s',
    Execute race (j, s) =
      (Done err, (set_state (if job_succeeds race j del handled sent
                             then jobFinished else jobError) j, s')) ∧
    extends (job_events url j del handled sent) s s' ∧
    (err = None ↔ job_succeeds race j del handled sent = true).
Proof.
  intros Hst Hc Hok. destruct (job_Execute_run url race j s Hst Hc Hok)
    as (del & handled & sent & err & s' & E & Hx & Herr & _).
  by exists del, handled, sent, err, s'.
Qed.

(** C37. The sending goroutine assigns to the captured [err] without
    synchronisation, and that decides the job's outcome. Whenever the assignment
    takes effect, an execution makes the same calls and gets the same answers;
    but with the answers fixed, what it returns and the state it leaves are made
    of the handler's error or of the sending's, as the race falls. A handled
    job that has a result ends in different states at the two ends of the race
    exactly when one of the two errors is nil and the other is not; and when the
    sending succeeds between the test and the use, the text of the failure is
    lost. *)
Theorem send_result_race_changes_outcome j id s :
  state j = jobInitial → MessageId (message j) = Some id → complete (message j) → ok s →
  ∃ del handled sent why s', extends (job_events url j del handled sent) s s' ∧
    (∀ race, Execute race (j, s) =
      (Done (if is_handled j del then processing_error race id handled sent else Some why),
       (set_state (if job_succeeds race j del handled sent
                   then jobFinished else jobError) j, s'))) ∧
    (is_handled j del = true → is_Some handled.1 →
      ((Execute BeforeTest (j, s)).2 ≠ (Execute AfterUse (j, s)).2 ↔
         ¬ (sent = None ↔ handled.2 = None)) ∧
      (is_Some handled.2 → sent = None →
         (Execute BeforeTest (j, s)).1 = Done None ∧
         (Execute BetweenTestAndUse (j, s)).1 = Done (Some (PlainError
           ("Message[" +:+ id +:+ "] could not be processed: %!s(<nil>)"))))).
Proof.
  intros Hst Hid Hc Hok.
  destruct (job_Execute_races url j id s Hst Hid Hc Hok)
    as (del & handled & sent & why & s' & _ & Hx & E).
  exists del, handled, sent, why, s'. split; [done|]. split; [done|].
  intros Hh [r Hr]. rewrite !E. unfold job_succeeds. fold (is_handled j del).
  rewrite Hh. unfold processing_error, tested_error, used_error. rewrite Hr. cbn [fst snd andb].
  split; [|intros [e ->] ->; done].
  destruct sent as [e1|], handled.2 as [e2|]; cbn; split; try (intros; intuition congruence);
    intros _ Heq; discriminate (f_equal (λ x, state x.1) Heq).
Qed.

(** However often a job is executed, its message is deleted once, handled
    at most once and its result sent at most once: the first execution does it
    and all the others return an error and do nothing. *)
Theorem job_runs_at_most_once race races j s :
  state j = jobInitial → complete (message j) → ok s →
  ∃ del handled sent err errs j' s',
    executes (race :: races) (j, s) = (Done (err :: errs), (j', s')) ∧
    extends (job_events url j del handled sent) s s' ∧
    length errs = length races ∧ Forall is_Some errs ∧
    (state j' = jobFinished ∨ state j' = jobError).
Proof.
  intros Hst Hc Hok.
  destruct (job_Execute_run url race j s Hst Hc Hok) as (del & handled & sent & err & s' & E & Hx & _).
  set (j' := set_state _ j) in E.
  assert (Hst' : state j' = jobFinished ∨ state j' = jobError).
  { subst j'. cbn. case_match; auto. }
  destruct (executes_again races j' s') as (errs & E' & Hall & Hlen).
  { apply Hc. }
  { by destruct Hst' as [-> | ->]. }
  exists del, handled, sent, err, errs, j', s'. cbn [executes].
  by rewrite (go_bind_done _ _ _ _ _ E), (go_bind_done _ _ _ _ _ E').
Qed.

(** A message with attributes but no owner id makes [Execute] panic, after
    the message was deleted from the queue. *)
Theorem missing_owner_panics race j attrs s :
  state j = jobInitial → is_Some (MessageId (message j)) →
  MessageAttributes (message j) = Some attrs → attrs !! ownerId = None → ok s →
  ∃ del s', extends [EvDelete url (ReceiptHandle (message j)) del] s s' ∧
    match del with
    | Some _ => ∃ e, Execute race (j, s) = (Done (Some e), (set_state jobError j, s'))
    | None => ∃ why, Execute race (j, s) = (Panicked why, (set_state jobExecuting j, s'))
    end.
Proof.
  intros Hst [id Hid] Ha Ho Hok.
  destruct (Execute_deletes url j id s Hst Hid Hok) as (del & region & s1 & _ & Hx & E).
  exists del, s1. split; [done|]. rewrite E. destruct del as [e|]; [by eexists|].
  by rewrite (go_bind_panicked _ _ _ _ _ (is_invalid_panics j attrs _ Ha Ho)); eexists.
Qed.
End JobClaims.

(** ** A job in the recording environment: the handler fails with a result to
    report, and the report is sent. *)

Section JobExample.

Definition failing_result : ActionResultPayload := mkActionResultPayload
  "request" false "entity" "alert" "Create" "custom" "No mapped action" "" None.

Definition job_answers (handler_error send_error : option error) : Answers := mkAnswers
  (λ _, 0) (λ _ _, (false, None)) (λ _ _ _, inl []) (λ _ _, None) (λ _ _ _, None)
  (λ _, false) (λ _ _, (Some failing_result, handler_error)) (λ _ _, send_error).

Definition owned_message : Message := mkMessage (Some "1") (Some "{}") (Some "handle")
  (Some {[ ownerId := mkAttr (Some "me"); channelId := mkAttr (Some "other") ]}).

Definition unowned_message : Message := mkMessage (Some "1") (Some "{}") (Some "handle")
  (Some {[ channelId := mkAttr (Some "me") ]}).

Definition run_job (he se : option error) (races : list race_point) :
    outcome (list (option error)) * (job * rec_state) :=
  @executes rec_state (rec_provider (job_answers he se) "queue")
    (rec_handler (job_answers he se)) races
    (newJob owned_message "key" "https://api" "me", []).

End JobExample.

Lemma execute_follows_protocol_witness :
  ∃ del handled sent err s',
    @Execute rec_state (rec_provider (job_answers None None) "queue")
      (rec_handler (job_answers None None)) AfterUse
      (newJob owned_message "key" "https://api" "me", []) =
      (Done err, (set_state (if job_succeeds AfterUse
        (newJob owned_message "key" "https://api" "me") del handled sent
                             then jobFinished else jobError)
        (newJob owned_message "key" "https://api" "me"), s')) ∧
    extends (job_events "queue" (newJob owned_message "key" "https://api" "me")
      del handled sent) ([] : rec_state) s' ∧
    (err = None ↔ job_succeeds AfterUse (newJob owned_message "key" "https://api" "me")
      del handled sent = true).
Proof.
  eapply (execute_follows_protocol (St := rec_state) "queue" AfterUse
    (newJob owned_message "key" "https://api" "me") []); [reflexivity| |exact I].
  split; [by eexists|]. right. split; by eexists.
Defined.

Lemma job_runs_at_most_once_witness :
  (run_job None None [AfterUse; BeforeTest; AfterUse]).1 =
    Done [None; Some (PlainError "Job[1] is already executing or finished.");
          Some (PlainError "Job[1] is already executing or finished.")] ∧
  ∃ del handled sent err errs j' s',
    run_job None None [AfterUse; BeforeTest; AfterUse] =
      (Done (err :: errs), (j', s')) ∧
    extends (job_events "queue" (newJob owned_message "key" "https://api" "me")
      del handled sent) ([] : rec_state) s' ∧
    length errs = 2%nat ∧ Forall is_Some errs ∧
    (state j' = jobFinished ∨ state j' = jobError).
Proof.
  split; [vm_compute; reflexivity|].
  eapply (job_runs_at_most_once (St := rec_state) "queue" AfterUse [BeforeTest; AfterUse]
    (newJob owned_message "key" "https://api" "me") []); [reflexivity| |exact I].
  split; [by eexists|]. right. split; by eexists.
Defined.

Lemma missing_owner_panics_witness :
  ∃ del s', extends [EvDelete "queue" (Some "handle") del] ([] : rec_state) s' ∧
    match del with
    | Some _ => ∃ e, @Execute rec_state (rec_provider (job_answers None None) "queue")
        (rec_handler (job_answers None None)) AfterUse
        (newJob unowned_message "key" "https://api" "me", []) =
        (Done (Some e), (set_state jobError (newJob unowned_message "key" "https://api" "me"), s'))
    | None => ∃ why, @Execute rec_state (rec_provider (job_answers None None) "queue")
        (rec_handler (job_answers None None)) AfterUse
        (newJob unowned_message "key" "https://api" "me", []) =
        (Panicked why, (set_state jobExecuting (newJob unowned_message "key" "https://api" "me"), s'))
    end.
Proof.
  eapply (missing_owner_panics (St := rec_state) "queue" AfterUse
    (newJob unowned_message "key" "https://api" "me") _ []);
    [reflexivity|by eexists|reflexivity|vm_compute; reflexivity|exact I].
Defined.

(** A failed job whose result is sent, and a handled one whose result is not:
    what each race point makes of it. *)
Example race_outcomes_example :
  let failed := Some (PlainError "No mapped action") in
  let job_end he se race :=
    let '(r, (j, _)) := run_job he se [race] in (r, state j) in
  job_end failed None AfterUse =
    (Done [Some (PlainError "Message[1] could not be processed: No mapped action")], jobError) ∧
  job_end failed None BeforeTest = (Done [None], jobFinished) ∧
  job_end failed None BetweenTestAndUse =
    (Done [Some (PlainError "Message[1] could not be processed: %!s(<nil>)")], jobError) ∧
  job_end None (Some (PlainError "503")) AfterUse = (Done [None], jobFinished) ∧
  job_end None (Some (PlainError "503")) BeforeTest =
    (Done [Some (PlainError "Message[1] could not be processed: 503")], jobError).
Proof. split_and!; vm_compute; reflexivity. Qed.

Lemma send_result_race_changes_outcome_witness :
  ∃ del handled sent why s',
    extends (job_events "queue" (newJob owned_message "key" "https://api" "me")
      del handled sent) ([] : rec_state) s' ∧
    ∀ race, @Execute rec_state
      (rec_provider (job_answers (Some (PlainError "No mapped action")) None) "queue")
      (rec_handler (job_answers (Some (PlainError "No mapped action")) None)) race
      (newJob owned_message "key" "https://api" "me", []) =
      (Done (if is_handled (newJob owned_message "key" "https://api" "me") del
             then processing_error race "1" handled sent else Some why),
       (set_state (if job_succeeds race (newJob owned_message "key" "https://api" "me")
                        del handled sent then jobFinished else jobError)
          (newJob owned_message "key" "https://api" "me"), s')).
Proof.
  edestruct (send_result_race_changes_outcome (St := rec_state)
    (H0 := rec_provider (job_answers (Some (PlainError "No mapped action")) None) "queue")
    (H1 := rec_handler (job_answers (Some (PlainError "No mapped action")) None)) "queue"
    (newJob owned_message "key" "https://api" "me") "1" [])
    as (del & handled & sent & why & s' & Hx & Hr & _);
    [reflexivity|reflexivity| |exact I|exists del, handled, sent, why, s'; split; [exact Hx|exact Hr]].
  split; [split; by eexists|]. right. split; by eexists.
Defined.
