(* ===== verification/Retryer.v ===== *)
(** * Package retryer: HTTP requests repeated with an exponential back-off.

    The HTTP client is outside the program ([HttpClient]); it reads some of the
    request's body at each attempt, so the loop runs on the body's read
    position paired with the environment. *)

From stdpp Require Import base list numbers strings gmap pretty.
From Stdlib Require Import Lia ZifyBool ZifyNat.
From Stdlib Require String.
From S2P Require Import Prelude GoError Interfaces.
Local Open Scope Z_scope.

Definition maxRetryCount : Z := 5.

Definition Millisecond : Z := 1000000.

Definition Second : Z := 1000 * Millisecond.

Definition timeout : Z := 40 * Second.

Definition retryStatusCodes : gset Z := {[ 429 ]}.

Definition shouldRetry (statusCode : Z) : bool :=
  if ((500 <=? statusCode) && (statusCode <=? 599)) ||
     bool_decide (statusCode ∈ retryStatusCodes)
  then true else false.

(** [math.Pow] is exact here: the counts are small. *)
Definition getWaitTime (retryCount : Z) : Z :=
  let waitTime := 2 ^ retryCount * 100 in
  i64 (i64 waitTime * Millisecond).

(** [http.Client], the request's body as an [io.Seeker], and [time.Sleep].
    [client_Do c q sent] transmits [q] with the body [sent] and returns how much
    of it was read. *)
Class HttpClient (C St : Type) := {
  DefaultClient : C;
  client_Do : C → http_Request → string → go St (nat * http_answer);
  body_Seek : go St (option error);
  discard_body : http_Response → go St unit;
  Sleep : Z → go St unit;
  http_NewRequest : string → string → option string → result http_Request
}.

(** *** request.go *)

(** An [io.Reader] argument: nil, an [io.ReadSeeker], or another reader, with
    what [ioutil.ReadAll] gives for it. *)
Inductive reader : Type :=
  | NilReader
  | ReadSeeker (content : string)
  | PlainReader (read_all : result string).

Record Request : Type := mkRetryRequest {
  body : option string;
  request : http_Request
}.

Section Retryer.
Context {C St : Type} `{HttpClient C St}.

Definition NewRequest (method url : string) (b : reader) : result Request :=
  let rs := match b with
            | NilReader => inl None
            | ReadSeeker content => inl (Some content)
            | PlainReader (inl data) => inl (Some data)
            | PlainReader (inr err) => inr err
            end in
  match rs with
  | inr err => inr err
  | inl rs =>
      match http_NewRequest method url rs with
      | inr err => inr err
      | inl q => inl (mkRetryRequest rs q)
      end
  end.

(** *** retryer.go *)

Record Retryer : Type := mkRetryer {
  DoFunc : option (Request → go (nat * St) http_answer);
  client : option C
}.

(** [request.body.Seek(0, 0)]; the position is the state's first component. *)
Definition rewind (b : option string) : go (nat * St) (option error) :=
  match b with
  | None => go_ret None
  | Some _ =>
      (err <- on_env body_Seek ;
       match err with
       | Some e => go_ret (Some e)
       | None => _ <- go_modify (λ s, (0%nat, s.2)) ; go_ret None
       end)%go
  end.

(** [client.Do(request.Request)], which reads the body from its position. *)
Definition do_once (c : C) (q : Request) : go (nat * St) http_answer :=
  (s <- go_get ;
   let sent := match body q with
               | None => ""
               | Some content => String.substring s.1 (String.length content) content
               end in
   r <- on_env (client_Do c (request q) sent) ;
   _ <- go_modify (λ s, ((s.1 + r.1)%nat, s.2)) ;
   go_ret r.2)%go.

(** The [errMessage] of the last attempt. *)
Definition last_failure (r : http_answer) : go (nat * St) string :=
  match r with
  | (_, Some err) => go_ret ("last error: " +:+ Error err)
  | (response, None) =>
      (resp <- deref response ;
       go_ret ("status code: " +:+ pretty (resp_StatusCode resp)))%go
  end.

Definition give_up_error (errMessage : string) : error :=
  PlainError ("Couldn't get a success response, maximum retry count[" +:+
    pretty maxRetryCount +:+ "] is exceeded, " +:+ errMessage).

(** The loop. [fuel] bounds the attempts; [maxRetryCount] of it suffices. *)
Fixpoint backoff_loop (fuel : nat) (c : C) (q : Request) (retryCount : Z) :
    go (nat * St) http_answer :=
  match fuel with
  | O => go_panic "out of fuel"
  | S fuel =>
      (seek_err <- rewind (body q) ;
       match seek_err with
       | Some err => go_ret (None, Some err)
       | None =>
           r <- do_once c q ;
           let again :=
             let retryCount := retryCount + 1 in
             if retryCount =? maxRetryCount then
               errMessage <- last_failure r ;
               go_ret (None, Some (give_up_error errMessage))
             else
               _ <- on_env (Sleep (getWaitTime (retryCount - 1))) ;
               backoff_loop fuel c q retryCount in
           match r.2 with
           | Some (NetError timeout msg) =>
               if timeout then again else go_ret (None, r.2)
           | _ =>
               resp <- deref r.1 ;
               if shouldRetry (resp_StatusCode resp) then
                 _ <- on_env (discard_body resp) ; again
               else go_ret r
           end
       end)%go
  end.

Definition DoWithExponentialBackoff (retryer : Retryer) (q : Request) :
    go (nat * St) http_answer :=
  let c := match client retryer with Some c => c | None => DefaultClient end in
  backoff_loop (Z.to_nat maxRetryCount) c q 0.

Definition Do (r : Retryer) (q : Request) : go (nat * St) http_answer :=
  match DoFunc r with
  | Some f => f q
  | None => DoWithExponentialBackoff r q
  end.
End Retryer.

(** ** The contract of net/http *)

(** [Client.Do] returns a response or a [*url.Error], which is a [net.Error]. *)
Definition documented (r : http_answer) : Prop :=
  match r with
  | (Some _, None) => True
  | (_, Some (NetError _ _)) => True
  | _ => False
  end.

Class HttpClientSpec (C St : Type) `{Logged St, HttpClient C St} := {
  client_Do_spec c q sent s : ok s →
    ∃ n r s', client_Do c q sent s = (Done (n, r), s') ∧ documented r ∧
      extends [EvDo q sent r] s s';
  body_Seek_spec s : ok s → body_Seek s = (Done None, s);
  discard_body_spec r s : ok s →
    ∃ s', discard_body r s = (Done (), s') ∧ extends [EvDiscard r] s s';
  Sleep_spec d s : ok s →
    ∃ s', Sleep d s = (Done (), s') ∧ extends [EvSleep d] s s'
}.

(** ** What the retryer promises *)

(** The answer asks for another attempt. *)
Definition retryable (r : http_answer) : bool :=
  match r with
  | (_, Some (NetError timeout _)) => timeout
  | (Some resp, None) => shouldRetry (resp_StatusCode resp)
  | _ => false
  end.

Definition discards (r : http_answer) : list event :=
  match r with
  | (Some resp, None) => if shouldRetry (resp_StatusCode resp) then [EvDiscard resp] else []
  | _ => []
  end.

(** The calls of the attempts that got the answers [rs], from the [k]th on:
    every attempt transmits the whole body, and two attempts are separated by
    a wait of [100 * 2^k] milliseconds. *)
Fixpoint attempts (q : Request) (k : nat) (rs : list http_answer) : list event :=
  match rs with
  | [] => []
  | r :: rs =>
      EvDo (request q) (default "" (body q)) r :: discards r ++
      match rs with
      | [] => []
      | _ => EvSleep (100 * 2 ^ Z.of_nat k * Millisecond) :: attempts q (S k) rs
      end
  end.

Definition failure_text (r : http_answer) : string :=
  match r with
  | (_, Some err) => "last error: " +:+ Error err
  | (Some resp, None) => "status code: " +:+ pretty (resp_StatusCode resp)
  | (None, None) => ""
  end.

(** The result, from the last answer: it is returned as it is, or the request
    is given up. *)
Definition retry_result (r : http_answer) : http_answer :=
  if retryable r then (None, Some (give_up_error (failure_text r)))
  else match r with (_, Some e) => (None, Some e) | r => r end.

Section RetryFacts.
Context {C St : Type} `{Logged St, HttpClient C St, !HttpClientSpec C St}.
Implicit Types (q : Request) (s : St).

Lemma substring_all (x : string) : String.substring 0 (String.length x) x = x.
Proof. induction x as [|c x IH]; [done|]. cbn. by rewrite IH. Qed.

Lemma getWaitTime_exact (k : Z) :
  0 <= k < maxRetryCount → getWaitTime k = 100 * 2 ^ k * Millisecond.
Proof.
  unfold maxRetryCount. intros Hk.
  assert (k = 0 ∨ k = 1 ∨ k = 2 ∨ k = 3 ∨ k = 4) as H' by lia.
  by destruct H' as [-> | [-> | [-> | [-> | ->]]]].
Qed.

Lemma on_env_step {A B} (m : go St A) (k : A → go (nat * St) B) n s a s' :
  m s = (Done a, s') → go_bind (on_env m) k (n, s) = k a (n, s').
Proof. intros E. by rewrite (go_bind_done _ _ _ _ _ (on_env_run _ n _ _ _ E)). Qed.

(** The position [rewind] leaves. *)
Definition rewound (b : option string) (n : nat) : nat :=
  match b with None => n | Some _ => 0%nat end.

Lemma rewind_run b n s : ok s → rewind b (n, s) = (Done None, (rewound b n, s)).
Proof.
  intros Hok. destruct b as [b|]; [|done]. unfold rewind.
  by rewrite (on_env_step _ _ _ _ _ _ (body_Seek_spec s Hok)).
Qed.

Lemma do_once_run c q n s :
  ok s → ∃ r n' s', documented r ∧
    extends [EvDo (request q) (default "" (body q)) r] s s' ∧
    do_once c q (rewound (body q) n, s) = (Done r, (n', s')).
Proof.
  intros Hok.
  destruct (client_Do_spec c (request q) (default "" (body q)) s Hok)
    as (m & r & s' & E & Hd & Hx).
  exists r, (rewound (body q) n + m)%nat, s'. split; [done|]. split; [done|].
  unfold do_once. unfold go_bind at 1, go_get. cbn [fst].
  destruct (body q) as [b|]; cbn [rewound default] in *; [rewrite substring_all|];
    by rewrite (on_env_step _ _ _ _ _ _ E).
Qed.

(** The discard of the body of an answer that asks for another attempt. *)
Lemma discard_run resp (n : nat) s : ok s → ∃ s',
  on_env (discard_body resp) (n, s) = (Done (), (n, s')) ∧
  extends [EvDiscard resp] s s'.
Proof.
  intros Hok. destruct (discard_body_spec resp s Hok) as (s' & E & Hx).
  exists s'. split; [by apply on_env_run|done].
Qed.

(** What follows an attempt that asks for another one. *)
Definition again_or_give_up (fuel : nat) (c : C) q (k : Z) (r : http_answer) :
    go (nat * St) http_answer :=
  if k + 1 =? maxRetryCount then
    (errMessage <- last_failure r ; go_ret (None, Some (give_up_error errMessage)))%go
  else
    (_ <- on_env (Sleep (getWaitTime (k + 1 - 1))) ; backoff_loop fuel c q (k + 1))%go.

(** One round of the loop. *)
Lemma backoff_round fuel c q (k : Z) n s :
  ok s → ∃ r n' s',
    extends (EvDo (request q) (default "" (body q)) r :: discards r) s s' ∧
    documented r ∧
    backoff_loop (S fuel) c q k (n, s) =
      (if retryable r then again_or_give_up fuel c q k r
       else go_ret (retry_result r)) (n', s').
Proof.
  intros Hok. destruct (do_once_run c q n s Hok) as (r & n' & s1 & Hd & Hx & E).
  exists r, n'. cbn [backoff_loop].
  rewrite (go_bind_done _ _ _ _ _ (rewind_run (body q) n s Hok)), (go_bind_done _ _ _ _ _ E).
  destruct r as [[resp|] [[| | t msg | |]|]]; try done; cbn [fst snd discards retryable retry_result].
  - exists s1. split; [done|]. split; [done|]. by destruct t.
  - unfold retry_result, retryable. destruct (shouldRetry (resp_StatusCode resp)) eqn:Hs.
    + destruct (discard_run resp n' s1) as (s2 & E2 & Hx2); [by eapply extends_ok|].
      exists s2. split; [by eapply extends_cons|]. split; [done|].
      cbn [deref]. rewrite go_ret_bind, Hs. by rewrite (go_bind_done _ _ _ _ _ E2).
    + exists s1. split; [done|]. split; [done|].
      cbn [deref]. by rewrite go_ret_bind, Hs.
  - exists s1. split; [done|]. split; [done|]. by destruct t.
Qed.

Lemma give_up_run r (x : nat * St) :
  documented r → retryable r = true →
  (errMessage <- last_failure r ; go_ret (None, Some (give_up_error errMessage)))%go x =
  (Done (retry_result r), x).
Proof.
  unfold retry_result. intros Hd ->. by destruct r as [[resp|] [[]|]].
Qed.

(** The loop from the [k]th attempt on. *)
Lemma backoff_run (fuel k : nat) c q n s :
  Z.of_nat k + Z.of_nat fuel = maxRetryCount → (0 < fuel)%nat → ok s →
  ∃ rs r n' s', backoff_loop fuel c q (Z.of_nat k) (n, s) =
      (Done (retry_result r), (n', s')) ∧
    extends (attempts q k (rs ++ [r])) s s' ∧ documented r ∧
    Forall (λ r, retryable r = true) rs ∧
    (length rs < fuel)%nat ∧ (retryable r = true → length rs = (fuel - 1)%nat).
Proof.
  revert k n s. induction fuel as [|fuel IH]; intros k n s Hk Hf Hok; [lia|].
  destruct (backoff_round fuel c q (Z.of_nat k) n s Hok) as (r & n1 & s1 & Hx & Hd & E).
  rewrite E. destruct (retryable r) eqn:Hr.
  2: { exists [], r, n1, s1. split; [done|]. cbn. rewrite app_nil_r.
       split_and!; [done|done|done|lia|congruence]. }
  unfold again_or_give_up. destruct (Z.of_nat k + 1 =? maxRetryCount) eqn:Hlast.
  { exists [], r, n1, s1. rewrite (give_up_run r _ Hd Hr). cbn. rewrite app_nil_r.
    split_and!; [done|done|done|done|lia|lia]. }
  destruct (Sleep_spec (getWaitTime (Z.of_nat k + 1 - 1)) s1) as (s2 & E2 & Hx2);
    [by eapply extends_ok|].
  rewrite (on_env_step _ _ _ _ _ _ E2).
  replace (Z.of_nat k + 1) with (Z.of_nat (S k)) in * by lia.
  destruct (IH (S k) n1 s2) as (rs & r' & n' & s' & E' & Hx' & Hd' & Hall & Hlen & Hlast');
    [lia|lia|by eapply extends_ok|].
  exists (r :: rs), r', n', s'. split; [done|]. split_and!;
    [|done|by constructor|cbn; lia|cbn; intros ?; specialize (Hlast' ltac:(done)); lia].
  cbn [app attempts]. replace (Z.of_nat (S k) - 1) with (Z.of_nat k) in Hx2 by lia.
  rewrite getWaitTime_exact in Hx2 by (unfold maxRetryCount in *; lia).
  destruct (rs ++ [r']) eqn:El; [by destruct rs|]. rewrite <- El in *.
  rewrite app_comm_cons. eapply extends_trans; [exact Hx|]. by eapply extends_cons.
Qed.
End RetryFacts.

(** ** The properties of the retryer *)

Section RetryClaims.
Context {C St : Type} `{Logged St, HttpClient C St, !HttpClientSpec C St}.
Implicit Types (q : Request) (s : St).

(** C23. A request is attempted at least once and at most five times; every
    attempt transmits the whole body, whatever part of it the previous ones
    read; it is repeated only after a timeout, a 429 or a 5xx, whose body is
    discarded first, with waits of 100, 200, 400 and 800 milliseconds between
    the attempts; the last answer is returned as it is, or, when the fifth one
    is still a failure, an error that says why. *)
Theorem backoff_attempts (r : Retryer) q n s :
  DoFunc r = None → ok s →
  ∃ failed last n' s', Do r q (n, s) = (Done (retry_result last), (n', s')) ∧
    extends (attempts q 0 (failed ++ [last])) s s' ∧
    Forall (λ a, retryable a = true) failed ∧
    (length failed <= 4)%nat ∧ (retryable last = true → length failed = 4%nat).
Proof.
  intros HDo Hok. unfold Do, DoWithExponentialBackoff. rewrite HDo.
  change (Z.to_nat maxRetryCount) with 5%nat.
  destruct (backoff_run 5 0
    (match client r with Some c => c | None => DefaultClient end) q n s)
    as (rs & a & n' & s' & E & Hx & _ & Hall & Hlen & Hlast); [done|lia|done|].
  exists rs, a, n', s'. split_and!; [exact E|done|done|lia|exact Hlast].
Qed.

(** [shouldRetry] holds for the 5xx codes and 429 only, and [getWaitTime]
    has the documented values without overflow for every attempt. *)
Theorem retry_table (code k : Z) :
  (shouldRetry code = true ↔ 500 <= code <= 599 ∨ code = 429) ∧
  (0 <= k < maxRetryCount → getWaitTime k = 100 * 2 ^ k * Millisecond).
Proof.
  split; [|by apply getWaitTime_exact].
  unfold shouldRetry, retryStatusCodes.
  destruct ((500 <=? code) && (code <=? 599)) eqn:E; cbn; [lia|].
  case_bool_decide as Hin; rewrite elem_of_singleton in Hin; cbn; split; intros ?; lia.
Qed.
End RetryClaims.

(** ** A recording client that answers from a script *)

Section RetryExample.
Context (script : list http_answer).

(** The requests answered so far. *)
Definition answered (l : rec_state) : nat :=
  length (List.filter (λ e, match e with EvDo _ _ _ => true | _ => false end) l).

Definition scripted_answer (l : rec_state) : http_answer :=
  default (None, Some (NetError false "script over")) (script !! answered l).

#[local] Instance scripted_client : HttpClient unit rec_state := {
  DefaultClient := ();
  client_Do _ q sent :=
    (r <- record scripted_answer (EvDo q sent) ; go_ret (String.length sent, r))%go;
  body_Seek := go_ret None;
  discard_body r := record (λ _, ()) (λ _, EvDiscard r);
  Sleep d := record (λ _, ()) (λ _, EvSleep d);
  http_NewRequest m u b :=
    if decide (u = "") then inr (PlainError "empty url") else inl (mkRequest m u [] b)
}.

Lemma scripted_client_spec :
  Forall documented script → HttpClientSpec unit rec_state.
Proof.
  intros Hs. split; intros; try by eexists.
  eexists _, (scripted_answer s), _. split; [reflexivity|]. split; [|done].
  unfold scripted_answer. destruct (script !! answered s) eqn:E; cbn; [|done].
  rewrite Forall_lookup in Hs. by eapply Hs.
Qed.
End RetryExample.

Definition example_request : Request :=
  mkRetryRequest (Some "{}") (mkRequest "POST" "https://api/callback" [] (Some "{}")).

Definition ok_response : http_Response := mkResponse 202 "202 Accepted" "" (inl "").

Definition unavailable : http_Response := mkResponse 503 "503 Unavailable" "" (inl "later").

Definition example_script : list http_answer :=
  [(None, Some (NetError true "timeout")); (Some unavailable, None); (Some ok_response, None)].

(** A timeout, a 503 and an answer. *)
Example backoff_example :
  @Do unit rec_state (scripted_client example_script) (mkRetryer None None)
    example_request (0%nat, []) =
  (Done (Some ok_response, None), (2%nat,
    [EvDo (request example_request) "{}" (None, Some (NetError true "timeout"));
     EvSleep (100 * Millisecond);
     EvDo (request example_request) "{}" (Some unavailable, None);
     EvDiscard unavailable;
     EvSleep (200 * Millisecond);
     EvDo (request example_request) "{}" (Some ok_response, None)])).
Proof. vm_compute. reflexivity. Qed.

Lemma backoff_attempts_witness :
  ∃ failed last n' s', @Do unit rec_state (scripted_client example_script)
      (mkRetryer None None) example_request (0%nat, []) =
      (Done (retry_result last), (n', s')) ∧
    extends (attempts example_request 0 (failed ++ [last])) ([] : rec_state) s' ∧
    Forall (λ a, retryable a = true) failed ∧
    (length failed <= 4)%nat ∧ (retryable last = true → length failed = 4%nat).
Proof.
  pose proof (scripted_client_spec example_script ltac:(by repeat constructor)) as Hspec.
  apply (backoff_attempts (mkRetryer None None) example_request 0 []); [reflexivity|exact I].
Defined.

Lemma retry_table_witness :
  (shouldRetry 503 = true ↔ 500 <= 503 <= 599 ∨ 503 = 429) ∧
  getWaitTime 4 = 100 * 2 ^ 4 * Millisecond.
Proof.
  split; [exact (proj1 (retry_table 503 4))|].
  apply (proj2 (retry_table 503 4)). vm_compute. split; [discriminate|reflexivity].
Defined.
