(* ===== verification/Git.v ===== *)
(** * Package git: the repositories that actions are read from, and
    [util.ChmodRecursively].

    go-git, the SSH key files and the file system are outside the program
    ([GitEnv]). A map of repositories is shared by reference in Go, so its
    operations run on the map paired with the environment; a [range] over it
    visits the entries in the order [map_range] gives. *)

From stdpp Require Import base list numbers strings gmap pretty.
From S2P Require Import Prelude GoError Interfaces.
Local Open Scope Z_scope.

(** ** The environment *)

(** The order in which [range m] visits a map. *)
Class GoRuntime (St : Type) := {
  map_range : ∀ {A : Type}, gmap string A → go St (list (string * A))
}.

(** [Walk root f] is [filepath.Walk]; [R] is go-git's [*Repository], [K] a public
    key of package ssh. *)
Class GitEnv (R K St : Type) := {
  TempDir : go St (result string);
  RemoveAll_path : string → go St (option error);
  Chmod : string → Z → go St (option error);
  Walk : string → (string → option error → go St (option error)) → go St (option error);
  NewPublicKeysFromFile : string → string → go St (result K);
  PlainClone : string → string → option K → go St (option error);
  PlainOpen : string → go St (result R);
  Fetch : R → option K → go St (option error);
  MasterReference : R → go St (result string);
  Worktree : R → go St (option error);
  HardReset : R → string → go St (option error);
  WorktreePull : R → option K → go St (option error)
}.

(** ** Data *)

Record Options : Type := mkOptions {
  opt_Url : string;
  PrivateKeyFilepath : string;
  Passphrase : string
}.

#[export] Instance Options_eq_dec : EqDecision Options.
Proof. solve_decision. Defined.

(** [git.Options{}]. *)
Definition zero_Options : Options := mkOptions "" "" "".

Record Repository : Type := mkRepository {
  Path : string;
  repo_Options : Options
}.

Definition Repositories : Type := gmap string Repository.

Definition NewRepositories : Repositories := ∅.

Definition NotEmpty (r : Repositories) : bool := negb (size r =? 0)%nat.

Definition Get (r : Repositories) (url : string) : result Repository :=
  match r !! url with
  | Some repository => inl repository
  | None => inr (PlainError ("Git repository[" +:+ url +:+ "] could not be found."))
  end.

(** The file mode 0700. *)
Definition mode_0700 : Z := 448.

Section Git.
Context {R K St : Type} `{GitEnv R K St, GoRuntime St}.

(** [util.ChmodRecursively]. *)
Definition ChmodRecursively (path : string) (mode : Z) : go St (option error) :=
  Walk path (λ path err,
    match err with
    | Some e => go_ret (Some e)
    | None => Chmod path mode
    end).

(** The authentication of [cloneMaster] and [FetchAndReset]. *)
Definition ssh_auth (privateKeyFilepath passPhrase : string) : go St (result (option K)) :=
  (if decide (privateKeyFilepath = "") then go_ret (inl None)
   else
     auth <- NewPublicKeysFromFile privateKeyFilepath passPhrase ;
     go_ret (match auth with inl k => inl (Some k) | inr err => inr err end))%go.

(** *** clone.go *)

Definition cloneMaster (tmpDir gitUrl privateKeyFilepath passPhrase : string) :
    go St (option error) :=
  (auth <- ssh_auth privateKeyFilepath passPhrase ;
   match auth with
   | inr err => go_ret (Some err)
   | inl auth => PlainClone tmpDir gitUrl auth
   end)%go.

Definition CloneMaster (url privateKeyFilepath passPhrase : string) :
    go St (result string) :=
  (dir <- TempDir ;
   match dir with
   | inr err => go_ret (inr err)
   | inl tmpDir =>
       err <- cloneMaster tmpDir url privateKeyFilepath passPhrase ;
       match err with
       | Some err => _ <- RemoveAll_path tmpDir ; go_ret (inr err)
       | None => go_ret (inl tmpDir)
       end
   end)%go.

(** *** pull.go *)

Definition PullMaster (repositoryPath privateKeyFilePath passPhrase : string) :
    go St (option error) :=
  (r <- PlainOpen repositoryPath ;
   match r with
   | inr err => go_ret (Some err)
   | inl r =>
       w <- Worktree r ;
       match w with
       | Some err => go_ret (Some err)
       | None =>
           auth <- ssh_auth privateKeyFilePath passPhrase ;
           match auth with
           | inr err => go_ret (Some err)
           | inl auth => WorktreePull r auth
           end
       end
   end)%go.

Definition FetchAndReset (repositoryPath privateKeyFilePath passPhrase : string) :
    go St (option error) :=
  (r <- PlainOpen repositoryPath ;
   match r with
   | inr err => go_ret (Some err)
   | inl r =>
       auth <- ssh_auth privateKeyFilePath passPhrase ;
       match auth with
       | inr err => go_ret (Some err)
       | inl auth =>
           err <- Fetch r auth ;
           match err with
           | Some err => go_ret (Some err)
           | None =>
               ref <- MasterReference r ;
               match ref with
               | inr err => go_ret (Some err)
               | inl hash =>
                   w <- Worktree r ;
                   match w with
                   | Some err => go_ret (Some err)
                   | None => HardReset r hash
                   end
               end
           end
       end
   end)%go.

(** *** repository.go *)

(** A failing [Chmod] is only logged. *)
Definition NewRepository (path : string) (options : Options) : go St Repository :=
  (_ <- ChmodRecursively path mode_0700 ; go_ret (mkRepository path options))%go.

Definition Pull (r : Repository) : go St (option error) :=
  (err <- FetchAndReset (Path r) (PrivateKeyFilepath (repo_Options r))
            (Passphrase (repo_Options r)) ;
   _ <- ChmodRecursively (Path r) mode_0700 ;
   go_ret err)%go.

Definition Remove (r : Repository) : go St (option error) := RemoveAll_path (Path r).

Definition Download (options : Options) : go (Repositories * St) (option error) :=
  (s <- go_get ;
   match s.1 !! opt_Url options with
   | Some _ => go_ret None
   | None =>
       path <- on_env (CloneMaster (opt_Url options) (PrivateKeyFilepath options)
                         (Passphrase options)) ;
       match path with
       | inr err =>
           go_ret (Some (PlainError ("Git repository[" +:+ opt_Url options +:+
             "] could not be downloaded: " +:+ Error err)))
       | inl path =>
           repository <- on_env (NewRepository path options) ;
           _ <- go_modify (λ s, (<[opt_Url options := repository]> s.1, s.2)) ;
           go_ret None
       end
   end)%go.

Fixpoint DownloadAll (optionsList : list Options) :
    go (Repositories * St) (option error) :=
  match optionsList with
  | [] => go_ret None
  | options :: rest =>
      (err <- Download options ;
       match err with
       | Some err => go_ret (Some err)
       | None => DownloadAll rest
       end)%go
  end.

(** The loops of [PullAll] and [RemoveAll]; errors are only logged. *)
Fixpoint pull_each (l : list (string * Repository)) : go (Repositories * St) unit :=
  match l with
  | [] => go_ret ()
  | (_, repository) :: l => (_ <- on_env (Pull repository) ; pull_each l)%go
  end.

Definition PullAll : go (Repositories * St) unit :=
  (s <- go_get ; l <- on_env (map_range s.1) ; pull_each l)%go.

Fixpoint remove_each (l : list (string * Repository)) : go (Repositories * St) unit :=
  match l with
  | [] => go_ret ()
  | (_, repository) :: l => (_ <- on_env (Remove repository) ; remove_each l)%go
  end.

Definition RemoveAll : go (Repositories * St) unit :=
  (s <- go_get ; l <- on_env (map_range s.1) ; remove_each l)%go.
End Git.

(** ** The contract of the environment *)

(** [filepath.Walk] calls [f] on a sequence of entries until it fails. *)
Fixpoint visit_each {St} (f : string → option error → go St (option error))
    (visits : list (string * option error)) : go St (option error) :=
  match visits with
  | [] => go_ret None
  | (path, err) :: visits =>
      (r <- f path err ;
       match r with Some e => go_ret (Some e) | None => visit_each f visits end)%go
  end.

(** A call that is not recorded. *)
Definition silent `{Logged St} {A} (m : go St A) (s : St) : Prop :=
  ∃ r s', m s = (Done r, s') ∧ extends [] s s'.

Class GoRuntimeSpec (St : Type) `{Logged St, GoRuntime St} := {
  map_range_spec {A} (m : gmap string A) s : ok s →
    ∃ l s', map_range m s = (Done l, s') ∧ extends [] s s' ∧ l ≡ₚ map_to_list m
}.

Class GitEnvSpec (R K St : Type) `{Logged St, GitEnv R K St} := {
  repo_dir : R → string;
  TempDir_spec s : ok s → silent TempDir s;
  RemoveAll_path_spec p s : ok s → calls (RemoveAll_path p) s (EvRemoveAll p);
  Chmod_spec p m s : ok s → calls (Chmod p m) s (EvChmod p m);
  Walk_spec p f s : ok s → ∃ visits, Walk p f s = visit_each f visits s;
  NewPublicKeysFromFile_spec f p s : ok s → silent (NewPublicKeysFromFile f p) s;
  PlainClone_spec d u (auth : option K) s : ok s →
    calls (PlainClone d u auth) s (EvClone d u (bool_decide (is_Some auth)));
  PlainOpen_spec p s : ok s → ∃ r s', PlainOpen p s = (Done r, s') ∧ extends [] s s' ∧
    match r with inl repo => repo_dir repo = p | inr _ => True end;
  Fetch_spec repo (auth : option K) s : ok s →
    calls (Fetch repo auth) s (EvFetch (repo_dir repo) (bool_decide (is_Some auth)));
  MasterReference_spec repo s : ok s → silent (MasterReference repo) s;
  Worktree_spec repo s : ok s → silent (Worktree repo) s;
  HardReset_spec repo hash s : ok s →
    calls (HardReset repo hash) s (EvReset (repo_dir repo) hash);
  WorktreePull_spec repo (auth : option K) s : ok s →
    calls (WorktreePull repo auth) s (EvPull (repo_dir repo) (bool_decide (is_Some auth)))
}.

(** ** Reading the log of a download *)

Section GitLog.
Implicit Types rs : Repositories.

(** The events are changes of file modes below [path]. *)
Definition only_chmods (es : list event) : Prop :=
  Forall (λ e, match e with EvChmod _ _ _ => True | _ => False end) es.

(** What cloning does, given the temporary directory. *)
Definition clone_log (dir url key : string) (r : result string) (es : list event) : Prop :=
  match r with
  | inl d => d = dir ∧ es = [EvClone dir url (bool_decide (key ≠ "")) None]
  | inr err => ∃ e, es = [EvRemoveAll dir e] ∨
      es = [EvClone dir url (bool_decide (key ≠ "")) (Some err); EvRemoveAll dir e]
  end.

(** The urls cloned with success. *)
Definition cloned1 (e : event) : list string :=
  match e with EvClone _ url _ None => [url] | _ => [] end.

Definition cloned (es : list event) : list string := es ≫= cloned1.

Lemma cloned_chmods es : only_chmods es → cloned es = [].
Proof. induction 1 as [|[] es He Hes IH]; done. Qed.

Lemma cloned_failed dir url key err es : clone_log dir url key (inr err) es → cloned es = [].
Proof. by intros [e [-> | ->]]. Qed.

(** The calls a download makes. *)
Definition git_event (e : event) : Prop :=
  match e with EvClone _ _ _ _ | EvChmod _ _ _ | EvRemoveAll _ _ => True | _ => False end.

Lemma git_chmods es : only_chmods es → Forall git_event es.
Proof. intros Hc. eapply Forall_impl; [exact Hc|]. by intros []. Qed.

Lemma git_clone_log dir url key r es : clone_log dir url key r es → Forall git_event es.
Proof. destruct r; [intros [-> ->]|intros [? [-> | ->]]]; by repeat constructor. Qed.

Lemma cloned_app es1 es2 : cloned (es1 ++ es2) = cloned es1 ++ cloned es2.
Proof. apply bind_app. Qed.

(** What a download did to the map: the entries that were there are kept, and
    the new ones are the repositories cloned, each once. *)
Definition downloaded (rs rs' : Repositories) (es : list event) : Prop :=
  rs ⊆ rs' ∧ dom rs' = dom rs ∪ list_to_set (cloned es) ∧
  NoDup (cloned es) ∧ Forall (λ u, rs !! u = None) (cloned es).

Lemma downloaded_nil rs es : cloned es = [] → downloaded rs rs es.
Proof.
  unfold downloaded. intros ->. split; [done|]. split; [cbn; by rewrite (right_id_L ∅ (∪))|]. by split; constructor.
Qed.

Lemma downloaded_trans rs1 rs2 rs3 es1 es2 :
  downloaded rs1 rs2 es1 → downloaded rs2 rs3 es2 → downloaded rs1 rs3 (es1 ++ es2).
Proof.
  intros (S1 & D1 & N1 & F1) (S2 & D2 & N2 & F2). unfold downloaded. rewrite cloned_app.
  split; [by etrans|]. split; [by rewrite D2, D1, list_to_set_app_L, (assoc_L (∪))|].
  rewrite Forall_forall in F2. split.
  - apply NoDup_app. split_and!; [done| |done]. intros u Hu Hu2.
    specialize (F2 _ Hu2). apply (not_elem_of_dom (D := gset string)) in F2. apply F2.
    setoid_rewrite D1. by apply elem_of_union_r, elem_of_list_to_set.
  - apply Forall_app. split; [done|]. apply Forall_forall. intros u Hu.
    specialize (F2 _ Hu). by eapply lookup_weaken_None.
Qed.
End GitLog.

(** ** Running the operations *)

Section GitFacts.
Context {R K St : Type} `{Logged St, GitEnv R K St, GoRuntime St}.
Context `{!GitEnvSpec R K St, !GoRuntimeSpec St}.
Implicit Types (s : St) (rs : Repositories).

Lemma chmod_run path mode s :
  ok s → ∃ err s' es, ChmodRecursively path mode s = (Done err, s') ∧
    extends es s s' ∧ only_chmods es.
Proof.
  intros Hok. unfold ChmodRecursively.
  destruct (Walk_spec path (λ path err,
    match err with Some e => go_ret (Some e) | None => Chmod path mode end) s Hok)
    as [visits ->].
  revert s Hok. induction visits as [|[p [e|]] visits IH]; intros s Hok; cbn [visit_each].
  - exists None, s, []. by repeat split; [|apply extends_nil|constructor].
  - exists (Some e), s, []. by repeat split; [|apply extends_nil|constructor].
  - destruct (Chmod_spec p mode s Hok) as (r & s1 & E & Hx).
    rewrite (go_bind_done _ _ _ _ _ E). destruct r as [e|].
    { eexists (Some e), s1, [_]. split; [done|]. split; [exact Hx|]. by repeat constructor. }
    destruct (IH s1 (extends_ok _ _ _ Hx)) as (err & s' & es & E' & Hx' & Hc).
    eexists err, s', (_ :: es). split; [done|]. split; [by eapply extends_cons|].
    by constructor.
Qed.

Lemma ssh_auth_run f p s :
  ok s → ∃ r s', ssh_auth f p s = (Done r, s') ∧ extends [] s s' ∧
    match r with
    | inl auth => is_Some auth ↔ f ≠ ""
    | inr _ => f ≠ ""
    end.
Proof.
  intros Hok. unfold ssh_auth. destruct (decide (f = "")) as [->|Hf].
  { exists (inl None), s. split; [done|]. split; [by apply extends_nil|].
    split; [by intros []|done]. }
  destruct (NewPublicKeysFromFile_spec f p s Hok) as (r & s' & E & Hx).
  rewrite (go_bind_done _ _ _ _ _ E). destruct r as [k|e]; eexists _, s';
    (split; [done|]); (split; [done|]); [by split|done].
Qed.

Lemma clone_run url key pass s :
  ok s → ∃ t s1 r s' es, TempDir s = (Done t, s1) ∧
    CloneMaster url key pass s = (Done r, s') ∧ extends es s s' ∧
    match t with
    | inl dir => clone_log dir url key r es
    | inr err => r = inr err ∧ es = []
    end.
Proof.
  intros Hok. destruct (TempDir_spec s Hok) as (t & s1 & Et & Hx1).
  exists t, s1. unfold CloneMaster. rewrite (go_bind_done _ _ _ _ _ Et).
  destruct t as [dir|err]; [|by exists (inr err), s1, []].
  pose proof (extends_ok _ _ _ Hx1) as Hok1.
  destruct (ssh_auth_run key pass s1 Hok1) as (a & s2 & Ea & Hx2 & Ha).
  pose proof (extends_ok _ _ _ Hx2) as Hok2. pose proof (extends_trans _ _ _ _ _ Hx1 Hx2) as Hx12.
  unfold cloneMaster. rewrite go_bind_assoc, (go_bind_done _ _ _ _ _ Ea).
  destruct a as [auth|err].
  - destruct (PlainClone_spec dir url auth s2 Hok2) as (err & s3 & Ec & Hx3).
    rewrite (bool_decide_ext _ _ Ha) in Hx3.
    pose proof (extends_trans _ _ _ _ _ Hx12 Hx3) as Hx13.
    rewrite (go_bind_done _ _ _ _ _ Ec). destruct err as [err|].
    + destruct (RemoveAll_path_spec dir s3) as (e & s4 & Er & Hx4); [by eapply extends_ok|].
      rewrite (go_bind_done _ _ _ _ _ Er). exists (inr err), s4.
      eexists _. split; [done|]. split; [done|].
      split; [by eapply extends_trans|]. exists e. by right.
    + eexists (inl dir), s3, _. by split_and!.
  - rewrite go_ret_bind.
    destruct (RemoveAll_path_spec dir s2) as (e & s3 & Er & Hx3); [done|].
    rewrite (go_bind_done _ _ _ _ _ Er). exists (inr err), s3.
    eexists _. split; [done|]. split; [done|].
    split; [by eapply extends_trans|]. exists e. by left.
Qed.

Lemma Download_run o rs s :
  ok s → ∃ err rs' s' es, Download o (rs, s) = (Done err, (rs', s')) ∧
    extends es s s' ∧ Forall git_event es ∧ downloaded rs rs' es ∧
    match err with
    | None => is_Some (rs' !! opt_Url o) ∧ (is_Some (rs !! opt_Url o) → rs' = rs ∧ s' = s)
    | Some _ => rs' = rs ∧ rs !! opt_Url o = None
    end.
Proof.
  intros Hok. unfold Download. unfold go_bind at 1, go_get. cbn [fst].
  destruct (rs !! opt_Url o) as [r|] eqn:Hl.
  { exists None, rs, s, []. split; [done|]. split; [by apply extends_nil|].
    split; [constructor|]. split; [by apply downloaded_nil|]. by rewrite Hl. }
  destruct (clone_run (opt_Url o) (PrivateKeyFilepath o) (Passphrase o) s Hok)
    as (t & s1 & r & s2 & es & _ & E & Hx & Ht).
  rewrite (go_bind_done _ _ _ _ _ (on_env_run _ rs _ _ _ E)). destruct r as [dir|err].
  - destruct t as [d|]; [|by destruct Ht]. destruct Ht as [-> ->].
    destruct (chmod_run d mode_0700 s2) as (ch & s3 & es' & Ech & Hx' & Hc);
      [by eapply extends_ok|].
    assert (En : NewRepository d o s2 = (Done (mkRepository d o), s3)).
    { unfold NewRepository. by rewrite (go_bind_done _ _ _ _ _ Ech). }
    rewrite (go_bind_done _ _ _ _ _ (on_env_run _ rs _ _ _ En)).
    eexists None, _, s3, _. split; [reflexivity|].
    split; [by eapply extends_trans|].
    split; [apply Forall_app; split; [by repeat constructor|by apply git_chmods]|]. cbn [fst].
    assert (Hcl : cloned ([EvClone d (opt_Url o) (bool_decide (PrivateKeyFilepath o ≠ "")) None]
      ++ es') = [opt_Url o]) by (rewrite cloned_app, (cloned_chmods es') by done; done).
    split; [|split; [eexists; apply lookup_insert_eq|by intros []]].
    unfold downloaded. rewrite Hcl. split_and!.
    + by apply insert_subseteq.
    + etrans; [apply dom_insert_L|]. cbn. by rewrite (right_id_L ∅ (∪)), (comm_L (∪)).
    + apply NoDup_singleton.
    + by apply Forall_singleton.
  - eexists (Some _), rs, s2, es. split; [reflexivity|]. split; [done|].
    split; [destruct t; [by eapply git_clone_log|by destruct Ht as [_ ->]]|].
    split; [|done]. apply downloaded_nil. destruct t as [d|].
    + by eapply cloned_failed.
    + by destruct Ht as [_ ->].
Qed.

Lemma DownloadAll_run opts rs s :
  ok s → ∃ err rs' s' es, DownloadAll opts (rs, s) = (Done err, (rs', s')) ∧
    extends es s s' ∧ Forall git_event es ∧ downloaded rs rs' es ∧
    (err = None → Forall (λ o, is_Some (rs' !! opt_Url o)) opts) ∧
    (is_Some err → ∃ done o rest, opts = done ++ o :: rest ∧
      Forall (λ o, is_Some (rs' !! opt_Url o)) done ∧ rs' !! opt_Url o = None).
Proof.
  revert rs s. induction opts as [|o opts IH]; intros rs s Hok; cbn [DownloadAll].
  { exists None, rs, s, []. split; [done|]. split; [by apply extends_nil|].
    split; [constructor|]. split; [by apply downloaded_nil|].
    split; [by constructor|by intros []]. }
  destruct (Download_run o rs s Hok) as (err & rs1 & s1 & es1 & E & Hx1 & Hg1 & Hd1 & Herr).
  rewrite (go_bind_done _ _ _ _ _ E). destruct err as [err|].
  { destruct Herr as [-> Hn]. exists (Some err), rs, s1, es1. split_and!; [done..|].
    intros _. exists [], o, opts. by split. }
  destruct Herr as [Ho _].
  destruct (IH rs1 s1) as (err & rs2 & s2 & es2 & E2 & Hx2 & Hg2 & Hd2 & Hall & Hfail);
    [by eapply extends_ok|].
  assert (Ho2 : is_Some (rs2 !! opt_Url o)).
  { destruct Ho as [r Hr]. exists r. destruct Hd2 as [Hsub _]. by eapply lookup_weaken. }
  exists err, rs2, s2, (es1 ++ es2). split; [done|]. split; [by eapply extends_trans|].
  split; [by apply Forall_app|]. split; [by eapply downloaded_trans|]. split; [intros ?; by constructor; auto|].
  intros He. destruct (Hfail He) as (d & o' & rest & -> & Hdone & Hn).
  exists (o :: d), o', rest. split; [done|]. split; [by constructor|done].
Qed.

Lemma DownloadAll_again opts rs s :
  Forall (λ o, is_Some (rs !! opt_Url o)) opts →
  DownloadAll opts (rs, s) = (Done None, (rs, s)).
Proof.
  induction 1 as [|o opts [r Hr] _ IH]; [done|]. cbn [DownloadAll].
  assert (E : Download o (rs, s) = (Done None, (rs, s))).
  { unfold Download, go_bind, go_get. cbn [fst]. by rewrite Hr. }
  by rewrite (go_bind_done _ _ _ _ _ E).
Qed.

Lemma remove_each_run l rs s :
  ok s → ∃ s' errs, remove_each l (rs, s) = (Done (), (rs, s')) ∧ length errs = length l ∧
    extends (zip_with (λ p e, EvRemoveAll (Path p.2) e) l errs) s s'.
Proof.
  revert s. induction l as [|[u r] l IH]; intros s Hok; cbn [remove_each].
  { exists s, []. split; [done|]. split; [done|]. by apply extends_nil. }
  destruct (RemoveAll_path_spec (Path r) s Hok) as (e & s1 & E & Hx).
  rewrite (go_bind_done _ _ _ _ _ (on_env_run _ rs _ _ _ E)).
  destruct (IH s1 (extends_ok _ _ _ Hx)) as (s' & errs & E' & Hlen & Hx').
  exists s', (e :: errs). split; [done|]. split; [cbn; by rewrite Hlen|].
  cbn [zip_with]. by eapply extends_cons.
Qed.

(** [RemoveAll] only removes. *)
Lemma remove_all_run rs s :
  ok s → ∃ s' es, RemoveAll (rs, s) = (Done (), (rs, s')) ∧ extends es s s' ∧
    Forall (λ e, match e with EvRemoveAll _ _ => True | _ => False end) es.
Proof.
  intros Hok. unfold RemoveAll. unfold go_bind at 1, go_get. cbn [fst].
  destruct (map_range_spec rs s Hok) as (l & s1 & E & Hx & _).
  rewrite (go_bind_done _ _ _ _ _ (on_env_run _ rs _ _ _ E)).
  destruct (remove_each_run l rs s1) as (s' & errs & E' & _ & Hx'); [by eapply extends_ok|].
  eexists s', _. split; [done|]. split; [exact (extends_trans _ _ _ _ _ Hx Hx')|].
  clear. revert errs. induction l as [|p l IH]; intros [|e errs];
    [constructor|constructor|constructor|]. cbn. constructor; [done|apply IH].
Qed.
End GitFacts.

(** ** The properties of package git *)

Section GitClaims.
Context {R K St : Type} `{Logged St, GitEnv R K St, GoRuntime St}.
Context `{!GitEnvSpec R K St, !GoRuntimeSpec St}.
Implicit Types (s : St) (rs : Repositories).

(** [CloneMaster] returns a fresh directory that holds the clone, or an
    error after the directory it had created was removed. *)
Theorem clone_leaves_nothing_behind url key pass s :
  ok s → ∃ t s1 r s' es, TempDir s = (Done t, s1) ∧
    CloneMaster url key pass s = (Done r, s') ∧ extends es s s' ∧
    match t with
    | inl dir => clone_log dir url key r es
    | inr err => r = inr err ∧ es = []
    end.
Proof. apply clone_run. Qed.

(** [DownloadAll] keeps the repositories already there and clones each
    missing url once, in order, up to the first failure; when it returns nil
    every action's repository is in the map, and a second call does nothing. *)
Theorem download_all_completes opts rs s :
  ok s → ∃ err rs' s' es, DownloadAll opts (rs, s) = (Done err, (rs', s')) ∧
    extends es s s' ∧ downloaded rs rs' es ∧
    (err = None → Forall (λ o, is_Some (rs' !! opt_Url o)) opts ∧
      DownloadAll opts (rs', s') = (Done None, (rs', s'))) ∧
    (is_Some err → ∃ done o rest, opts = done ++ o :: rest ∧
      Forall (λ o, is_Some (rs' !! opt_Url o)) done ∧ rs' !! opt_Url o = None).
Proof.
  intros Hok. destruct (DownloadAll_run opts rs s Hok)
    as (err & rs' & s' & es & E & Hx & _ & Hd & Hall & Hfail).
  exists err, rs', s', es. split_and!; [done..| |done].
  intros Hn. split; [by apply Hall|]. by apply DownloadAll_again, Hall.
Qed.

(** [RemoveAll] removes the directory of every repository exactly once,
    whatever the order of the map and the errors of the removals, but keeps
    the map's entries. *)
Theorem remove_all_removes_each rs s :
  ok s → ∃ s' es paths, RemoveAll (rs, s) = (Done (), (rs, s')) ∧ extends es s s' ∧
    Forall2 (λ e p, ∃ r, e = EvRemoveAll p r) es paths ∧
    paths ≡ₚ (Path ∘ snd) <$> map_to_list rs.
Proof.
  intros Hok. unfold RemoveAll. unfold go_bind at 1, go_get. cbn [fst].
  destruct (map_range_spec rs s Hok) as (l & s1 & E & Hx & Hl).
  rewrite (go_bind_done _ _ _ _ _ (on_env_run _ rs _ _ _ E)).
  destruct (remove_each_run l rs s1) as (s' & errs & E' & Hlen & Hx'); [by eapply extends_ok|].
  eexists s', _, ((Path ∘ snd) <$> l). split; [done|].
  split; [exact (extends_trans _ _ _ _ _ Hx Hx')|]. split; [|by rewrite Hl].
  clear -Hlen. revert errs Hlen. induction l as [|p l IH]; intros [|e errs] Hlen; try done.
  cbn. constructor; [by eexists|]. apply IH. by injection Hlen.
Qed.

Lemma fetch_run path key pass s :
  ok s → ∃ err s' es, FetchAndReset path key pass s = (Done err, s') ∧
    extends es s s' ∧
    ((es = [] ∧ is_Some err) ∨
     (∃ e, es = [EvFetch path (bool_decide (key ≠ "")) (Some e)] ∧ err = Some e) ∨
     (es = [EvFetch path (bool_decide (key ≠ "")) None] ∧ is_Some err) ∨
     (∃ hash, es = [EvFetch path (bool_decide (key ≠ "")) None; EvReset path hash err])).
Proof.
  intros Hok. unfold FetchAndReset.
  destruct (PlainOpen_spec path s Hok) as (r & s1 & E1 & Hx1 & Hr).
  rewrite (go_bind_done _ _ _ _ _ E1). destruct r as [repo|e].
  2: { exists (Some e), s1, []. split_and!; [done..|]. by left. }
  destruct (ssh_auth_run key pass s1) as (a & s2 & E2 & Hx2 & Ha); [by eapply extends_ok|].
  rewrite (go_bind_done _ _ _ _ _ E2).
  pose proof (extends_trans _ _ _ _ _ Hx1 Hx2) as Hx12. destruct a as [auth|e].
  2: { exists (Some e), s2, []. split_and!; [done..|]. by left. }
  destruct (Fetch_spec repo auth s2) as (err & s3 & E3 & Hx3); [by eapply extends_ok|].
  rewrite (go_bind_done _ _ _ _ _ E3). rewrite Hr, (bool_decide_ext _ _ Ha) in Hx3.
  pose proof (extends_trans _ _ _ _ _ Hx12 Hx3) as Hx13. destruct err as [e|].
  { eexists (Some e), s3, _. split; [done|]. split; [exact Hx13|]. right. left. by exists e. }
  destruct (MasterReference_spec repo s3) as (ref & s4 & E4 & Hx4); [by eapply extends_ok|].
  rewrite (go_bind_done _ _ _ _ _ E4).
  pose proof (extends_trans _ _ _ _ _ Hx13 Hx4) as Hx14. destruct ref as [hash|e].
  2: { eexists (Some e), s4, _. split; [done|]. split; [exact Hx14|]. right. right. by left. }
  destruct (Worktree_spec repo s4) as (w & s5 & E5 & Hx5); [by eapply extends_ok|].
  rewrite (go_bind_done _ _ _ _ _ E5).
  pose proof (extends_trans _ _ _ _ _ Hx14 Hx5) as Hx15. destruct w as [e|].
  { eexists (Some e), s5, _. split; [done|]. split; [exact Hx15|]. right. right. by left. }
  destruct (HardReset_spec repo hash s5) as (e & s6 & E6 & Hx6); [by eapply extends_ok|].
  rewrite Hr in Hx6. eexists e, s6, _. split; [done|].
  split; [exact (extends_trans _ _ _ _ _ Hx15 Hx6)|]. right. right. right. by exists hash.
Qed.

(** [FetchAndReset] resets the working tree to the fetched master exactly
    when the fetch succeeded; any error of the fetch, [NoErrAlreadyUpToDate]
    included, leaves the working tree as it was, so a reset that failed is not
    tried again until a new commit is fetched. *)
Theorem reset_follows_fetch path key pass s :
  ok s → ∃ err s' es, FetchAndReset path key pass s = (Done err, s') ∧
    extends es s s' ∧
    ((es = [] ∧ is_Some err) ∨
     (∃ e, es = [EvFetch path (bool_decide (key ≠ "")) (Some e)] ∧ err = Some e) ∨
     (es = [EvFetch path (bool_decide (key ≠ "")) None] ∧ is_Some err) ∨
     (∃ hash, es = [EvFetch path (bool_decide (key ≠ "")) None; EvReset path hash err])).
Proof. apply fetch_run. Qed.
End GitClaims.

(** ** A recording environment: the url "bad" cannot be cloned *)

Section GitExample.

#[export] Instance rec_runtime : GoRuntime rec_state := {
  map_range A m := go_ret (map_to_list m)
}.

#[export] Instance rec_runtime_spec : GoRuntimeSpec rec_state.
Proof. split. intros A m s Hok. eexists _, s. split; [done|]. by split; [apply extends_nil|]. Qed.

#[export] Instance rec_git : GitEnv string unit rec_state := {
  TempDir := λ s, (Done (inl ("/tmp/jec" +:+ pretty (length s))), s);
  RemoveAll_path p := record (λ _, None) (EvRemoveAll p);
  Chmod p m := record (λ _, None) (EvChmod p m);
  Walk p f := visit_each f [(p, None); (p +:+ "/action.sh", None)];
  NewPublicKeysFromFile f p := go_ret (inl ());
  PlainClone d u auth :=
    record (λ _, if decide (u = "bad") then Some (PlainError "not found") else None)
      (EvClone d u (bool_decide (is_Some auth)));
  PlainOpen p := go_ret (inl p);
  Fetch p auth := record (λ _, None) (EvFetch p (bool_decide (is_Some auth)));
  MasterReference p := go_ret (inl "abcdef");
  Worktree p := go_ret None;
  HardReset p hash := record (λ _, None) (EvReset p hash);
  WorktreePull p auth := record (λ _, None) (EvPull p (bool_decide (is_Some auth)))
}.

#[export] Instance rec_git_spec : GitEnvSpec string unit rec_state.
Proof.
  apply (Build_GitEnvSpec _ _ _ _ _ (λ p, p)); intros; try apply record_calls; try (by eexists _, _; split; [|apply extends_nil]).
  - by eexists.
  - eexists _, s. split; [done|]. by split; [apply extends_nil|].
Defined.

Definition example_options : list Options :=
  [mkOptions "a" "" ""; mkOptions "a" "key" "pass"; mkOptions "b" "key" "pass"].

(** The first options of a url win; the second url is cloned with a key. *)
Example download_example :
  (DownloadAll example_options (∅, [])).2.2 =
  [EvClone "/tmp/jec0" "a" false None; EvChmod "/tmp/jec0" 448 None;
   EvChmod "/tmp/jec0/action.sh" 448 None;
   EvClone "/tmp/jec3" "b" true None; EvChmod "/tmp/jec3" 448 None;
   EvChmod "/tmp/jec3/action.sh" 448 None].
Proof. vm_compute. reflexivity. Qed.

Lemma clone_leaves_nothing_behind_witness :
  ∃ t s1 r s' es, TempDir ([] : rec_state) = (Done t, s1) ∧
    CloneMaster "bad" "" "" ([] : rec_state) = (Done r, s') ∧
    extends es ([] : rec_state) s' ∧
    match t with
    | inl dir => clone_log dir "bad" "" r es
    | inr err => r = inr err ∧ es = []
    end.
Proof. apply (clone_leaves_nothing_behind "bad" "" "" ([] : rec_state)). exact I. Defined.

Lemma download_all_completes_witness :
  ∃ err rs' s' es, DownloadAll example_options (∅, ([] : rec_state)) = (Done err, (rs', s')) ∧
    extends es ([] : rec_state) s' ∧ downloaded ∅ rs' es ∧
    (err = None → Forall (λ o, is_Some (rs' !! opt_Url o)) example_options ∧
      DownloadAll example_options (rs', s') = (Done None, (rs', s'))) ∧
    (is_Some err → ∃ done o rest, example_options = done ++ o :: rest ∧
      Forall (λ o, is_Some (rs' !! opt_Url o)) done ∧ rs' !! opt_Url o = None).
Proof. apply (download_all_completes example_options ∅ ([] : rec_state)). exact I. Defined.

Definition example_repositories : Repositories :=
  {[ "a" := mkRepository "/tmp/jec0" (mkOptions "a" "" "");
     "b" := mkRepository "/tmp/jec3" (mkOptions "b" "key" "pass") ]}.

Lemma remove_all_removes_each_witness :
  ∃ s' es paths, RemoveAll (example_repositories, ([] : rec_state)) =
      (Done (), (example_repositories, s')) ∧ extends es ([] : rec_state) s' ∧
    Forall2 (λ e p, ∃ r, e = EvRemoveAll p r) es paths ∧
    paths ≡ₚ (Path ∘ snd) <$> map_to_list example_repositories.
Proof. apply (remove_all_removes_each example_repositories ([] : rec_state)). exact I. Defined.

Lemma reset_follows_fetch_witness :
  ∃ err s' es, FetchAndReset "/tmp/jec0" "" "" ([] : rec_state) = (Done err, s') ∧
    extends es ([] : rec_state) s' ∧
    ((es = [] ∧ is_Some err) ∨
     (∃ e, es = [EvFetch "/tmp/jec0" (bool_decide ("" ≠ "")) (Some e)] ∧ err = Some e) ∨
     (es = [EvFetch "/tmp/jec0" (bool_decide ("" ≠ "")) None] ∧ is_Some err) ∨
     (∃ hash, es = [EvFetch "/tmp/jec0" (bool_decide ("" ≠ "")) None;
                    EvReset "/tmp/jec0" hash err])).
Proof. apply (reset_follows_fetch "/tmp/jec0" "" "" ([] : rec_state)). exact I. Defined.
End GitExample.
