(* ===== verification/Actions.v ===== *)
(** * conf/configuration.go: the configured actions.

    Map iterations run in the order [map_range] gives. Decoding JSON and YAML
    is the library's ([Decoder]); [UnmarshalJSON] and [UnmarshalYAML] add the
    program's own treatment of HTTP actions. *)

From Stdlib Require Import Ascii.
From Stdlib Require String.
From stdpp Require Import base list numbers strings gmap sorting.
From Stdlib Require Import Lia ZifyNat.
From S2P Require Import Prelude Configuration GoError Interfaces GoStrings Git.

(** ** Data *)

Definition Flags : Type := gmap string string.

Record MappedAction : Type := mkMapped {
  act_Type : string;
  SourceType : string;
  GitOptions : Options;
  Filepath : string;
  act_Flags : Flags;
  act_Args : list string;
  act_Env : list string;
  Stdout : string;
  Stderr : string
}.

Definition ActionMappings : Type := gmap string MappedAction.

Record ActionSpecifications : Type := mkSpecs {
  Mappings : ActionMappings;
  GlobalFlags : Flags;
  GlobalArgs : list string;
  GlobalEnv : list string
}.

Record httpFields : Type := mkHttpFields {
  hf_Url : string;
  hf_Headers : gmap string string;
  hf_Params : gmap string string;
  hf_Method : string
}.

(** [action.Flags = f] and [action.Type = t]. *)
Definition with_Flags (f : Flags) (a : MappedAction) : MappedAction :=
  mkMapped (act_Type a) (SourceType a) (GitOptions a) (Filepath a) f (act_Args a)
    (act_Env a) (Stdout a) (Stderr a).

Definition with_Type (t : string) (a : MappedAction) : MappedAction :=
  mkMapped t (SourceType a) (GitOptions a) (Filepath a) (act_Flags a) (act_Args a)
    (act_Env a) (Stdout a) (Stderr a).

Section Actions.
Context `{GoRuntime St}.

Fixpoint git_options (l : list (string * MappedAction)) : list Options :=
  match l with
  | [] => []
  | (_, action) :: l =>
      if decide (GitOptions action ≠ zero_Options) then GitOptions action :: git_options l
      else git_options l
  end.

Definition GitActions (m : ActionMappings) : go St (list Options) :=
  (l <- map_range m ; go_ret (git_options l))%go.

Fixpoint flag_args (l : list (string * string)) : list string :=
  match l with
  | [] => []
  | (flagName, flagValue) :: l => ("-" +:+ flagName) :: flagValue :: flag_args l
  end.

Definition Args (f : Flags) : go St (list string) :=
  (l <- map_range f ; go_ret (flag_args l))%go.
End Actions.

(** ** [json.Marshal] of a [map[string]string], on ASCII strings

    Keys are sorted; quotes, backslashes, control characters and the three
    HTML characters are escaped. *)

Definition quote_char : ascii := "034"%char.

Definition backslash : ascii := "092"%char.

Definition hex_digit (n : nat) : ascii :=
  ascii_of_nat (if (n <? 10)%nat then 48 + n else 87 + n).

Definition json_char (c : ascii) : string :=
  let n := nat_of_ascii c in
  if Ascii.eqb c quote_char || Ascii.eqb c backslash then String backslash (String c "")
  else if (n =? 10)%nat then String backslash "n"
  else if (n =? 13)%nat then String backslash "r"
  else if (n =? 9)%nat then String backslash "t"
  else if (n <? 32)%nat || Ascii.eqb c "<"%char || Ascii.eqb c ">"%char || Ascii.eqb c "&"%char
  then String backslash ("u00" +:+ String (hex_digit (n / 16)) (String (hex_digit (n mod 16)) ""))
  else String c "".

Fixpoint json_escape (s : string) : string :=
  match s with "" => "" | String c s => json_char c +:+ json_escape s end.

Definition json_string (s : string) : string :=
  String quote_char "" +:+ json_escape s +:+ String quote_char "".

Definition json_member (kv : string * string) : string :=
  json_string kv.1 +:+ ":" +:+ json_string kv.2.

Definition key_le (x y : string * string) : Prop := String.leb x.1 y.1 = true.

#[export] Instance key_le_dec : RelDecision key_le.
Proof. intros x y. unfold key_le. apply _. Defined.

Definition json_marshal_map (m : gmap string string) : string :=
  "{" +:+ String.concat "," (json_member <$> merge_sort key_le (map_to_list m)) +:+ "}".

(** ** HTTP actions *)

(** [action.Flags[name] = v], when the field is there. *)
Definition set_flag (present : bool) (name v : string) (f : gmap string string) :
    gmap string string :=
  if present then <[name := v]> f else f.

(** Marshalling a map of strings cannot fail. *)
Definition appendHttpFields (action : MappedAction) (fields : httpFields) : MappedAction :=
  let flags :=
    set_flag (negb (bool_decide (hf_Url fields = ""))) "url" (hf_Url fields) ∅ in
  let flags :=
    set_flag (negb (bool_decide (hf_Method fields = ""))) "method" (hf_Method fields) flags in
  let flags :=
    set_flag (0 <? size (hf_Headers fields))%nat "headers"
      (json_marshal_map (hf_Headers fields)) flags in
  let flags :=
    set_flag (0 <? size (hf_Params fields))%nat "params"
      (json_marshal_map (hf_Params fields)) flags in
  with_Flags flags action.

Definition http_methods : gset string :=
  {["GET"; "HEAD"; "POST"; "PUT"; "PATCH"; "DELETE"; "CONNECT"; "OPTIONS"; "TRACE"]}.

(** [encoding/json] or [yaml.v2] on a document of type [D]; [url_Parse] is
    [url.Parse]. *)
Class Decoder (D : Type) := {
  decode_action : D → result MappedAction;
  decode_fields : D → result httpFields;
  url_Parse : string → option error
}.

Section Unmarshal.
Context `{Decoder D}.

Definition validateHttpFields (fields : httpFields) : option error :=
  if decide (hf_Method fields ≠ "" ∧ ToUpper (hf_Method fields) ∉ http_methods) then
    Some (PlainError ("Http method is not valid: [" +:+ hf_Method fields +:+ "]."))
  else url_Parse (hf_Url fields).

Definition UnmarshalJSON (b : D) : result MappedAction :=
  match decode_action b with
  | inr err => inr err
  | inl action =>
      if decide (act_Type action = "http") then
        match decode_fields b with
        | inr err => inr err
        | inl fields =>
            match validateHttpFields fields with
            | Some err => inr err
            | None => inl (appendHttpFields action fields)
            end
        end
      else if decide (act_Type action = "") then inl (with_Type "custom" action)
      else inl action
  end.

(** The same steps, on the YAML decoder. *)
Definition UnmarshalYAML (unmarshal : D) : result MappedAction :=
  match decode_action unmarshal with
  | inr err => inr err
  | inl action =>
      if decide (act_Type action = "http") then
        match decode_fields unmarshal with
        | inr err => inr err
        | inl fields =>
            match validateHttpFields fields with
            | Some err => inr err
            | None => inl (appendHttpFields action fields)
            end
        end
      else if decide (act_Type action = "") then inl (with_Type "custom" action)
      else inl action
  end.
End Unmarshal.

(** ** Lemmas *)

(** A flag list read back, two by two. *)
Fixpoint parse_flags (args : list string) : list (string * string) :=
  match args with
  | name :: value :: rest => (TrimPrefix name "-", value) :: parse_flags rest
  | _ => []
  end.

Lemma trim_dash name : TrimPrefix ("-" +:+ name) "-" = name.
Proof. rewrite string_app_cons. unfold TrimPrefix, HasPrefix. cbn. by destruct name. Qed.

Lemma parse_flag_args l : parse_flags (flag_args l) = l.
Proof. induction l as [|[n v] l IH]; [done|]. cbn [flag_args parse_flags]. by rewrite trim_dash, IH. Qed.

Lemma length_flag_args l : length (flag_args l) = 2 * length l.
Proof. induction l as [|[n v] l IH]; [done|]. cbn. rewrite IH. lia. Qed.

Lemma elem_of_git_options l o :
  o ∈ git_options l ↔ o ≠ zero_Options ∧ ∃ n a, (n, a) ∈ l ∧ GitOptions a = o.
Proof.
  induction l as [|[n a] l IH]; cbn [git_options].
  { split; [by intros ?%elem_of_nil|by intros (_ & ? & ? & ?%elem_of_nil & _)]. }
  case_decide as Hz; [rewrite elem_of_cons|]; rewrite IH.
  - split.
    + intros [-> | [Ho (n' & a' & Hin & E)]].
      * split; [done|]. exists n, a. by split; [left|].
      * split; [done|]. exists n', a'. by split; [right|].
    + intros [Ho (n' & a' & Hin & E)]. apply elem_of_cons in Hin as [[= -> ->]|Hin]; [by left|].
      right. split; [done|]. by exists n', a'.
  - split.
    + intros [Ho (n' & a' & Hin & E)]. split; [done|]. exists n', a'. by split; [right|].
    + intros [Ho (n' & a' & Hin & E)]. split; [done|].
      apply elem_of_cons in Hin as [[= -> ->]|Hin]; [|by exists n', a'].
      subst. by destruct Hz.
Qed.

Lemma lookup_set_flag p name v f k x :
  set_flag p name v f !! k = Some x ↔
  (p = true ∧ k = name ∧ x = v) ∨ ((p = false ∨ k ≠ name) ∧ f !! k = Some x).
Proof.
  unfold set_flag. destruct p; [rewrite lookup_insert_Some|]; intuition congruence.
Qed.

Lemma size_positive {A} (m : gmap string A) : (0 <? size m)%nat = true ↔ m ≠ ∅.
Proof.
  rewrite Nat.ltb_lt. rewrite <- map_size_non_empty_iff. lia.
Qed.

(** The flags of an HTTP action: the fields that are present. *)
Definition http_flag (fields : httpFields) (name v : string) : Prop :=
  (name = "url" ∧ v = hf_Url fields ∧ v ≠ "") ∨
  (name = "method" ∧ v = hf_Method fields ∧ v ≠ "") ∨
  (name = "headers" ∧ v = json_marshal_map (hf_Headers fields) ∧ hf_Headers fields ≠ ∅) ∨
  (name = "params" ∧ v = json_marshal_map (hf_Params fields) ∧ hf_Params fields ≠ ∅).

Lemma append_flags action fields name v :
  act_Flags (appendHttpFields action fields) !! name = Some v ↔ http_flag fields name v.
Proof.
  unfold appendHttpFields, http_flag. cbn [act_Flags with_Flags].
  rewrite !lookup_set_flag, !size_positive, lookup_empty, !negb_true_iff, !bool_decide_eq_false.
  split; [intuition congruence|].
  intros [(-> & -> & Hv)|[(-> & -> & Hv)|[(-> & -> & Hv)|(-> & -> & Hv)]]].
  - right. split; [by right|]. right. split; [by right|]. right. split; [by right|]. by left.
  - right. split; [by right|]. right. split; [by right|]. by left.
  - right. split; [by right|]. by left.
  - by left.
Qed.

Lemma validate_fields_ok `{Decoder D} fields :
  validateHttpFields fields = None ↔
  (hf_Method fields = "" ∨ ToUpper (hf_Method fields) ∈ http_methods) ∧
  url_Parse (hf_Url fields) = None.
Proof.
  unfold validateHttpFields. case_decide as Hm.
  - split; [done|]. intros [[Hn|Hn] _]; tauto.
  - split; [|by intros [_ ?]]. intros E. split; [|done].
    destruct (decide (hf_Method fields = "")); [by left|].
    destruct (decide (ToUpper (hf_Method fields) ∈ http_methods)); [by right|tauto].
Qed.

(** ** The properties of the actions *)

Section ActionClaims.
Context `{Logged St, !GoRuntime St, !GoRuntimeSpec St}.

(** C39. The command line of a flag map carries every flag once, as [-name]
    followed by its value, whatever the order of the iteration: read back two
    by two it is the map. *)
Theorem flags_round_trip (f : Flags) (s : St) :
  ok s → ∃ args s', Args f s = (Done args, s') ∧ extends [] s s' ∧
    length args = 2 * size f ∧ list_to_map (parse_flags args) = f.
Proof.
  intros Hok. destruct (map_range_spec f s Hok) as (l & s' & E & Hx & Hl).
  exists (flag_args l), s'. unfold Args. rewrite (go_bind_done _ _ _ _ _ E).
  split; [done|]. split; [done|]. split.
  - rewrite length_flag_args, Hl. by rewrite length_map_to_list.
  - rewrite parse_flag_args. rewrite <- (list_to_map_to_list f).
    apply list_to_map_proper; [|done]. rewrite Hl. apply NoDup_fst_map_to_list.
Qed.

(** [GitActions] lists the options of exactly the actions that have any. *)
Theorem git_actions_exact (m : ActionMappings) (s : St) :
  ok s → ∃ opts s', GitActions m s = (Done opts, s') ∧ extends [] s s' ∧
    ∀ o, o ∈ opts ↔ o ≠ zero_Options ∧ ∃ n a, m !! n = Some a ∧ GitOptions a = o.
Proof.
  intros Hok. destruct (map_range_spec m s Hok) as (l & s' & E & Hx & Hl).
  exists (git_options l), s'. unfold GitActions. rewrite (go_bind_done _ _ _ _ _ E).
  split; [done|]. split; [done|]. intros o. rewrite elem_of_git_options.
  split; intros [Ho (n & a & Hin & E')]; (split; [done|]); exists n, a; (split; [|done]).
  - apply elem_of_map_to_list. by rewrite <- Hl.
  - rewrite Hl. by apply elem_of_map_to_list.
Qed.
End ActionClaims.

Section UnmarshalClaims.
Context `{Decoder D}.

(** C38. A decoded action always has a type, [custom] unless the document gives
    one. An HTTP action is accepted only with a known method, in either case,
    and a parsable url, and its flags are exactly the HTTP fields the document
    gives: the document's own flags are dropped. Other actions are left as they
    were decoded. *)
Theorem unmarshal_action (b : D) (a : MappedAction) :
  UnmarshalJSON b = inl a →
  UnmarshalYAML b = inl a ∧
  ∃ a0, decode_action b = inl a0 ∧ act_Type a ≠ "" ∧
    (act_Type a0 = "" → a = with_Type "custom" a0) ∧
    (act_Type a0 ≠ "" → act_Type a0 ≠ "http" → a = a0) ∧
    (act_Type a0 = "http" → ∃ fields, decode_fields b = inl fields ∧
      a = with_Flags (act_Flags a) a0 ∧
      (hf_Method fields = "" ∨ ToUpper (hf_Method fields) ∈ http_methods) ∧
      url_Parse (hf_Url fields) = None ∧
      ∀ name v, act_Flags a !! name = Some v ↔ http_flag fields name v).
Proof.
  intros E. split; [exact E|]. unfold UnmarshalJSON in E.
  destruct (decode_action b) as [a0|err] eqn:Ea; [|done]. exists a0. split; [done|].
  case_decide as Ht.
  - destruct (decode_fields b) as [fields|err] eqn:Ef; [|done].
    destruct (validateHttpFields fields) as [err|] eqn:Ev; [done|]. injection E as <-.
    apply validate_fields_ok in Ev as [Hm Hu].
    split; [cbn; congruence|]. split; [congruence|]. split; [congruence|]. intros _.
    exists fields. split_and!; [done|done|done|done|]. apply append_flags.
  - case_decide as Ht'; injection E as <-; split_and!; try done; congruence.
Qed.
End UnmarshalClaims.

(** ** A decoder for the examples: documents are what they decode to *)

Section ActionExample.

#[local] Instance pair_decoder : Decoder (MappedAction * httpFields) := {
  decode_action d := inl d.1;
  decode_fields d := inl d.2;
  url_Parse u := None
}.

Definition example_action : MappedAction :=
  mkMapped "http" "local" zero_Options "/path/to/http-executor"
    {[ "own" := "flag" ]} [] [] "" "".

Definition example_fields : httpFields :=
  mkHttpFields "https://atlassian.com" {[ "Authentication" := "Basic <JNjDkNsKaMs>" ]}
    ∅ "put".

Definition example_document : MappedAction * httpFields := (example_action, example_fields).

Definition example_flags : Flags := {[ "url" := "u"; "method" := "PUT" ]}.

Lemma unmarshal_action_witness :
  UnmarshalJSON example_document = inl (appendHttpFields example_action example_fields) ∧
  ∃ a0, decode_action example_document = inl a0.
Proof.
  assert (E : UnmarshalJSON example_document =
    inl (appendHttpFields example_action example_fields)) by (vm_compute; reflexivity).
  split; [exact E|].
  destruct (unmarshal_action _ _ E) as (_ & a0 & Ea & _). exists a0. exact Ea.
Defined.

Lemma flags_round_trip_witness :
  size example_flags = 2 ∧
  ∃ args s', Args example_flags ([] : rec_state) = (Done args, s') ∧
    extends [] ([] : rec_state) s' ∧ length args = 2 * size example_flags ∧
    list_to_map (parse_flags args) = example_flags.
Proof.
  split; [vm_compute; reflexivity|].
  apply (flags_round_trip example_flags ([] : rec_state)). exact I.
Defined.

Lemma git_actions_exact_witness :
  ∃ opts s', GitActions {[ "Create" := example_action ]} ([] : rec_state) = (Done opts, s') ∧
    extends [] ([] : rec_state) s' ∧
    ∀ o, o ∈ opts ↔ o ≠ zero_Options ∧
      ∃ n a, ({[ "Create" := example_action ]} : ActionMappings) !! n = Some a ∧
        GitOptions a = o.
Proof. apply (git_actions_exact {[ "Create" := example_action ]} ([] : rec_state)). exact I. Defined.
End ActionExample.
