(* ===== verification/Reader.v ===== *)
(** * conf/reader.go, util.go, local_reader.go, git_reader.go: reading the
    configuration, on a Unix system.

    The environment variables, the file system and logrus's level names are
    outside the program ([ConfEnv]). *)

From stdpp Require Import base list numbers strings gmap.
From Stdlib Require Import Lia.
From S2P Require Import Prelude Configuration GoError Interfaces GoStrings Git Actions.

Definition LocalSourceType : string := "local".

Definition GitSourceType : string := "git".

Definition DefaultBaseUrl : string := "https://api.atlassian.com".

Definition defaultConfFilepath : string := Join ["~"; "jec"; "config.json"].

Record Configuration : Type := mkConfiguration {
  Specs : ActionSpecifications;
  AppName : string;
  ApiKey : string;
  BaseUrl : string;
  conf_PollerConf : PollerConf;
  conf_PoolConf : PoolConf;
  LogLevel : string;
  LogrusLevel : Z
}.

(** [conf.ActionMappings], through the embedded struct. *)
Definition conf_Mappings (c : Configuration) : ActionMappings := Mappings (Specs c).

Definition with_Mappings (m : ActionMappings) (c : Configuration) : Configuration :=
  mkConfiguration (mkSpecs m (GlobalFlags (Specs c)) (GlobalArgs (Specs c)) (GlobalEnv (Specs c)))
    (AppName c) (ApiKey c) (BaseUrl c) (conf_PollerConf c) (conf_PoolConf c) (LogLevel c)
    (LogrusLevel c).

Definition with_GlobalArgs (l : list string) (c : Configuration) : Configuration :=
  mkConfiguration (mkSpecs (Mappings (Specs c)) (GlobalFlags (Specs c)) l (GlobalEnv (Specs c)))
    (AppName c) (ApiKey c) (BaseUrl c) (conf_PollerConf c) (conf_PoolConf c) (LogLevel c)
    (LogrusLevel c).

Definition with_ApiKey (k : string) (c : Configuration) : Configuration :=
  mkConfiguration (Specs c) (AppName c) k (BaseUrl c) (conf_PollerConf c) (conf_PoolConf c)
    (LogLevel c) (LogrusLevel c).

Definition with_BaseUrl (u : string) (c : Configuration) : Configuration :=
  mkConfiguration (Specs c) (AppName c) (ApiKey c) u (conf_PollerConf c) (conf_PoolConf c)
    (LogLevel c) (LogrusLevel c).

Definition with_Level (name : string) (level : Z) (c : Configuration) : Configuration :=
  mkConfiguration (Specs c) (AppName c) (ApiKey c) (BaseUrl c) (conf_PollerConf c)
    (conf_PoolConf c) name level.

(** Environment variables, reading and decoding a file, and logrus's levels. A
    decoder returns the configuration it filled with its error. *)
Class ConfEnv (St : Type) := {
  Getenv : string → string;
  windows : bool;
  ReadFile : string → go St (result string);
  json_Unmarshal : string → Configuration * option error;
  yaml_Unmarshal : string → Configuration * option error;
  ParseLevel : string → result Z;
  InfoLevel : Z
}.

(** A function's [( *Configuration, error)] result. *)
Definition conf_result : Type := option Configuration * option error.

Definition quoted (s : string) : string :=
  String quote_char "" +:+ s +:+ String quote_char "".

Definition unknown_extension (extension : string) : error :=
  PlainError ("Unknown configuration file extension[" +:+ extension +:+
    "]. Only " +:+ quoted ".json" +:+ " and " +:+ quoted ".yml(.yaml)" +:+
    " types are allowed.").

Section Reader.
Context {R K St : Type} `{ConfEnv St, GitEnv R K St, GoRuntime St}.

(** *** util.go *)

Definition checkFileExtension (filepath : string) : option error :=
  let extension := Ext (ToLower filepath) in
  if decide (extension = ".json" ∨ extension = ".yml" ∨ extension = ".yaml") then None
  else Some (unknown_extension extension).

Definition readFile (filepath : string) : go St conf_result :=
  (file <- ReadFile filepath ;
   match file with
   | inr err => go_ret (None, Some err)
   | inl file =>
       let extension := Ext (ToLower filepath) in
       if decide (extension = ".json") then
         let '(configuration, err) := json_Unmarshal file in
         go_ret (Some configuration, err)
       else if decide (extension = ".yml" ∨ extension = ".yaml") then
         let '(configuration, err) := yaml_Unmarshal file in
         go_ret (Some configuration, err)
       else go_ret (None, Some (unknown_extension extension))
   end)%go.

Definition homeDir : string :=
  if windows then Getenv "USERPROFILE" else Getenv "HOME".

Definition addHomeDirPrefix (filepath : string) : string :=
  if decide (filepath = "") then filepath
  else
    let tildePrefix := "~/" in
    if HasPrefix filepath tildePrefix then
      Join [homeDir; TrimPrefix filepath tildePrefix]
    else Clean filepath.

(** The body of the loop of [addHomeDirPrefixToActionMappings]. *)
Definition home_prefix_action (action : MappedAction) : MappedAction :=
  mkMapped (act_Type action) (SourceType action)
    (if decide (SourceType action = GitSourceType) then
       mkOptions (opt_Url (GitOptions action))
         (addHomeDirPrefix (PrivateKeyFilepath (GitOptions action)))
         (Passphrase (GitOptions action))
     else GitOptions action)
    (if decide (SourceType action = LocalSourceType)
     then addHomeDirPrefix (Filepath action) else Filepath action)
    (act_Flags action) (act_Args action) (act_Env action)
    (addHomeDirPrefix (Stdout action)) (addHomeDirPrefix (Stderr action)).

Fixpoint home_prefix_each (l : list (string * MappedAction)) (mappings : ActionMappings) :
    ActionMappings :=
  match l with
  | [] => mappings
  | (index, action) :: l =>
      home_prefix_each l (<[index := home_prefix_action action]> mappings)
  end.

Definition addHomeDirPrefixToActionMappings (mappings : ActionMappings) :
    go St ActionMappings :=
  (l <- map_range mappings ; go_ret (home_prefix_each l mappings))%go.

(** The body of the loop of [AddRepositoryPathToGitActionFilepaths], as the new
    entry, if any. *)
Definition repository_action (repositories : Repositories) (action : MappedAction) :
    option MappedAction :=
  if decide (SourceType action = GitSourceType) then
    match Get repositories (opt_Url (GitOptions action)) with
    | inr _ => None
    | inl repository =>
        Some (mkMapped (act_Type action) (SourceType action) (GitOptions action)
          (Join [Path repository; Filepath action]) (act_Flags action) (act_Args action)
          (act_Env action) (Stdout action) (Stderr action))
    end
  else None.

Fixpoint repository_each (repositories : Repositories) (l : list (string * MappedAction))
    (mappings : ActionMappings) : ActionMappings :=
  match l with
  | [] => mappings
  | (index, action) :: l =>
      repository_each repositories l
        (match repository_action repositories action with
         | Some action => <[index := action]> mappings
         | None => mappings
         end)
  end.

Definition AddRepositoryPathToGitActionFilepaths (mappings : ActionMappings)
    (repositories : Repositories) : go St ActionMappings :=
  (l <- map_range mappings ; go_ret (repository_each repositories l mappings))%go.

Fixpoint chmod_each (l : list (string * MappedAction)) (mode : Z) : go St unit :=
  match l with
  | [] => go_ret ()
  | (_, action) :: l =>
      (_ <- (if decide (SourceType action = LocalSourceType)
             then Chmod (Filepath action) mode else go_ret None) ;
       chmod_each l mode)%go
  end.

Definition chmodLocalActions (mappings : ActionMappings) (mode : Z) : go St unit :=
  (l <- map_range mappings ; chmod_each l mode)%go.

(** *** local_reader.go and git_reader.go *)

Definition readFileFromLocal (filepath : string) : go St conf_result :=
  match checkFileExtension filepath with
  | Some err => go_ret (None, Some err)
  | None => readFile filepath
  end.

Definition readFileFromGit (url privateKeyFilepath passPhrase filepath : string) :
    go St conf_result :=
  match checkFileExtension filepath with
  | Some err => go_ret (None, Some err)
  | None =>
      (repo <- CloneMaster url privateKeyFilepath passPhrase ;
       match repo with
       | inr err => go_ret (None, Some err)
       | inl repoFilepath =>
           r <- readFile (Join [repoFilepath; filepath]) ;
           _ <- RemoveAll_path repoFilepath ;
           go_ret r
       end)%go
  end.

(** *** reader.go *)

Definition readFileFromSource (confSourceType : string) : go St conf_result :=
  if decide (confSourceType = GitSourceType) then
    let url := Getenv "JEC_CONF_GIT_URL" in
    let privateKeyFilepath := Getenv "JEC_CONF_GIT_PRIVATE_KEY_FILEPATH" in
    let passphrase := Getenv "JEC_CONF_GIT_PASSPHRASE" in
    let confFilepath := Getenv "JEC_CONF_GIT_FILEPATH" in
    let privateKeyFilepath :=
      if decide (privateKeyFilepath = "") then privateKeyFilepath
      else addHomeDirPrefix privateKeyFilepath in
    if decide (confFilepath = "") then
      go_ret (None, Some (PlainError "Git configuration filepath could not be empty."))
    else readFileFromGit url privateKeyFilepath passphrase confFilepath
  else if decide (confSourceType = LocalSourceType) then
    let confFilepath := Getenv "JEC_CONF_LOCAL_FILEPATH" in
    let confFilepath :=
      if decide (confFilepath = "") then addHomeDirPrefix defaultConfFilepath
      else addHomeDirPrefix confFilepath in
    readFileFromLocal confFilepath
  else if decide (confSourceType = "") then
    go_ret (None, Some (PlainError ("JEC_CONF_SOURCE_TYPE should be set as " +:+
      quoted "local" +:+ " or " +:+ quoted "git" +:+ ".")))
  else
    go_ret (None, Some (PlainError ("Unknown configuration source type[" +:+
      confSourceType +:+ "], valid types are " +:+ quoted "local" +:+ " and " +:+
      quoted "git" +:+ "."))).

Definition addDefaultFlags (c : Configuration) : Configuration :=
  with_GlobalArgs
    (["-apiKey"; ApiKey c; "-jsmUrl"; BaseUrl c; "-logLevel"; ToUpper (LogLevel c)] ++
     GlobalArgs (Specs c)) c.

(** The loop of [validate] over the actions. *)
Fixpoint validate_actions (l : list (string * MappedAction)) : option error :=
  match l with
  | [] => None
  | (actionName, action) :: l =>
      if decide (SourceType action ≠ LocalSourceType ∧ SourceType action ≠ GitSourceType) then
        Some (PlainError ("Action source type of action[" +:+ actionName +:+
          "] should be either local or git."))
      else if decide (Filepath action = "") then
        Some (PlainError ("Filepath of action[" +:+ actionName +:+ "] is empty."))
      else if decide (SourceType action = GitSourceType ∧ GitOptions action = zero_Options) then
        Some (PlainError ("Git options of action[" +:+ actionName +:+ "] is empty."))
      else validate_actions l
  end.

(** The error, and the configuration as [validate] leaves it. The comparison of
    [conf] with the address of a new struct is never true. *)
Definition validate (conf : option Configuration) :
    go St (option error * option Configuration) :=
  match conf with
  | None => go_ret (Some (PlainError "The configuration is empty."), None)
  | Some c =>
      if decide (ApiKey c = "") then
        go_ret (Some (PlainError "ApiKey is not found in the configuration file."), Some c)
      else
        let c := if decide (BaseUrl c = "") then with_BaseUrl DefaultBaseUrl c else c in
        if (size (conf_Mappings c) =? 0)%nat then
          go_ret (Some (PlainError
            "Action mappings configuration is not found in the configuration file."), Some c)
        else
          (l <- map_range (conf_Mappings c) ;
           match validate_actions l with
           | Some err => go_ret (Some err, Some c)
           | None =>
               go_ret (None, Some match ParseLevel (LogLevel c) with
                                  | inr _ => with_Level "info" InfoLevel c
                                  | inl level => with_Level (LogLevel c) level c
                                  end)
           end)%go
  end.

Definition Read : go St conf_result :=
  (r <- readFileFromSource (ToLower (Getenv "JEC_CONF_SOURCE_TYPE")) ;
   match r.2 with
   | Some err => go_ret (None, Some err)
   | None =>
       conf <- (if decide (Getenv "JEC_API_KEY" = "") then go_ret r.1
                else c <- deref r.1 ; go_ret (Some (with_ApiKey (Getenv "JEC_API_KEY") c))) ;
       v <- validate conf ;
       match v.1 with
       | Some err => go_ret (None, Some err)
       | None =>
           c <- deref v.2 ;
           mappings <- addHomeDirPrefixToActionMappings (conf_Mappings c) ;
           _ <- chmodLocalActions mappings mode_0700 ;
           go_ret (Some (addDefaultFlags (with_Mappings mappings c)), None)
       end
   end)%go.

(** [copyActionMappings]. *)
Fixpoint copy_each (l : list (string * MappedAction)) (m : ActionMappings) : ActionMappings :=
  match l with
  | [] => m
  | (k, v) :: l => copy_each l (<[k := v]> m)
  end.

Definition copyActionMappings (mappings : ActionMappings) : go St ActionMappings :=
  (l <- map_range mappings ; go_ret (copy_each l ∅))%go.
End Reader.

(** [PrepareLogFormat]: the formatters of logrus it chooses from. *)
Inductive log_formatter : Type :=
  | PlainTextFormatter
  | JSONFormatter
  | ColoredTextFormatter.

Definition PrepareLogFormat (JEC_LOG_FORMAT_TYPE : string) : log_formatter :=
  let formatType := ToLower JEC_LOG_FORMAT_TYPE in
  if decide (formatType = "text") then PlainTextFormatter
  else if decide (formatType = "json") then JSONFormatter
  else ColoredTextFormatter.

(** ** Iterations over a map *)

Section Ranges.
Context {A : Type}.
Implicit Types (m : gmap string A) (l : list (string * A)).

(** A loop over the entries [l] that replaces some of them in [m]. *)
Fixpoint range_update (f : A → option A) l m : gmap string A :=
  match l with
  | [] => m
  | (k, a) :: l => range_update f l (match f a with Some b => <[k := b]> m | None => m end)
  end.

Lemma range_update_lookup f l m k :
  NoDup l.*1 →
  range_update f l m !! k =
  match (list_to_map l : gmap string A) !! k with
  | Some a => match f a with Some b => Some b | None => m !! k end
  | None => m !! k
  end.
Proof.
  revert m. induction l as [|[i a] l IH]; intros m Hnd;
    [cbn; by rewrite (lookup_empty (M := gmap string))|].
  cbn [fmap list_fmap fst] in Hnd. apply NoDup_cons in Hnd as [Hi Hnd].
  cbn [range_update]. rewrite (IH _ Hnd), list_to_map_cons.
  destruct (decide (i = k)) as [->|Hk].
  - rewrite (not_elem_of_list_to_map_1 l k Hi), lookup_insert_eq.
    destruct (f a); [apply lookup_insert_eq|done].
  - rewrite lookup_insert_ne by done.
    assert (E : (match f a with Some b => <[i := b]> m | None => m end) !! k = m !! k).
    { destruct (f a); [by rewrite lookup_insert_ne|done]. }
    by rewrite E.
Qed.

Lemma Forall_range (P : A → Prop) l m :
  l ≡ₚ map_to_list m → Forall (λ p, P p.2) l ↔ ∀ n a, m !! n = Some a → P a.
Proof.
  intros ->. rewrite Forall_forall. split.
  - intros Hall n a Ha. apply (Hall (n, a)). by apply elem_of_map_to_list.
  - intros Hall [n a] Ha. apply (Hall n a). by apply elem_of_map_to_list.
Qed.

(** Over all the entries of [m], in any order. *)
Lemma range_update_all f l m :
  l ≡ₚ map_to_list m → range_update f l m = (λ a, default a (f a)) <$> m.
Proof.
  intros Hl. assert (Hnd : NoDup l.*1) by (rewrite Hl; apply NoDup_fst_map_to_list).
  apply map_eq. intros k. rewrite (range_update_lookup f l m k Hnd), lookup_fmap.
  assert (E : (list_to_map l : gmap string A) = m).
  { rewrite <- (list_to_map_to_list m). by apply list_to_map_proper. }
  rewrite E. destruct (m !! k) as [a|]; cbn; [|done]. by destruct (f a).
Qed.
End Ranges.

(** ** What preparing the actions does to their paths *)

Section PreparedPaths.
Context `{ConfEnv St}.

(** [p'] is the path [p] of the configuration on this host. *)
Definition expanded (p p' : string) : Prop :=
  (p = "" ∧ p' = "") ∨
  (∃ r, p = "~/" +:+ r ∧ p' = Join [homeDir; r]) ∨
  ((∀ r, p ≠ "~/" +:+ r) ∧ p' = Clean p).

Record prepared_action (rs : Repositories) (a a' : MappedAction) : Prop := {
  pa_kept : act_Type a' = act_Type a ∧ SourceType a' = SourceType a ∧
    act_Flags a' = act_Flags a ∧ act_Args a' = act_Args a ∧ act_Env a' = act_Env a;
  pa_logs : expanded (Stdout a) (Stdout a') ∧ expanded (Stderr a) (Stderr a');
  pa_local : SourceType a = "local" →
    expanded (Filepath a) (Filepath a') ∧ GitOptions a' = GitOptions a;
  pa_git : SourceType a = "git" →
    Filepath a' = match rs !! opt_Url (GitOptions a) with
                  | Some r => Join [Path r; Filepath a]
                  | None => Filepath a
                  end ∧
    opt_Url (GitOptions a') = opt_Url (GitOptions a) ∧
    Passphrase (GitOptions a') = Passphrase (GitOptions a) ∧
    expanded (PrivateKeyFilepath (GitOptions a)) (PrivateKeyFilepath (GitOptions a'));
  pa_other : SourceType a ≠ "local" → SourceType a ≠ "git" →
    Filepath a' = Filepath a ∧ GitOptions a' = GitOptions a
}.
End PreparedPaths.

Section ReaderFacts.
Context {R K St : Type} `{Logged St, ConfEnv St, GitEnv R K St, GoRuntime St}.
Context `{!GitEnvSpec R K St, !GoRuntimeSpec St}.
Implicit Types (s : St) (m : ActionMappings).

Lemma home_prefix_each_update l m :
  home_prefix_each l m = range_update (λ a, Some (home_prefix_action a)) l m.
Proof. revert m. induction l as [|[k a] l IH]; intros m; [done|]. cbn. by rewrite IH. Qed.

Lemma repository_each_update rs l m :
  repository_each rs l m = range_update (repository_action rs) l m.
Proof. revert m. induction l as [|[k a] l IH]; intros m; [done|]. cbn. by rewrite IH. Qed.

Lemma copy_each_all l m : l ≡ₚ map_to_list m → copy_each l ∅ = m.
Proof.
  intros Hl. assert (E : ∀ m0, copy_each l m0 = range_update Some l m0).
  { clear Hl. induction l as [|[k a] l IH]; intros m0; [done|]. cbn. by rewrite IH. }
  assert (Hnd : NoDup l.*1) by (rewrite Hl; apply NoDup_fst_map_to_list).
  rewrite E. apply map_eq. intros k. rewrite (range_update_lookup Some l ∅ k Hnd).
  assert (El : (list_to_map l : gmap string MappedAction) = m).
  { rewrite <- (list_to_map_to_list m). by apply list_to_map_proper. }
  rewrite El, (lookup_empty (M := gmap string)). by case_match.
Qed.

Lemma home_prefix_run m s :
  ok s → ∃ s', addHomeDirPrefixToActionMappings m s =
    (Done (home_prefix_action <$> m), s') ∧ extends [] s s'.
Proof.
  intros Hok. destruct (map_range_spec m s Hok) as (l & s' & E & Hx & Hl).
  exists s'. unfold addHomeDirPrefixToActionMappings. rewrite (go_bind_done _ _ _ _ _ E).
  rewrite home_prefix_each_update, (range_update_all _ _ _ Hl). by split.
Qed.

Lemma repository_run m rs s :
  ok s → ∃ s', AddRepositoryPathToGitActionFilepaths m rs s =
    (Done ((λ a, default a (repository_action rs a)) <$> m), s') ∧ extends [] s s'.
Proof.
  intros Hok. destruct (map_range_spec m s Hok) as (l & s' & E & Hx & Hl).
  exists s'. unfold AddRepositoryPathToGitActionFilepaths. rewrite (go_bind_done _ _ _ _ _ E).
  rewrite repository_each_update, (range_update_all _ _ _ Hl). by split.
Qed.

Lemma tilde_prefix p :
  match HasPrefix p "~/" with
  | true => p = "~/" +:+ TrimPrefix p "~/"
  | false => ∀ r, p ≠ "~/" +:+ r
  end.
Proof.
  unfold TrimPrefix, HasPrefix. destruct (String.prefix "~/" p) eqn:E.
  - apply String.prefix_correct in E. destruct p as [|c1 [|c2 r]]; try done.
    cbn in E. injection E as -> ->. cbn. by destruct r.
  - intros r ->. cbn in E. by destruct r.
Qed.

Lemma addHomeDirPrefix_expanded p : expanded p (addHomeDirPrefix p).
Proof.
  unfold addHomeDirPrefix. destruct (decide (p = "")) as [->|Hne]; [by left|].
  pose proof (tilde_prefix p) as Ht. right.
  destruct (HasPrefix p "~/"); [left; by eexists|by right].
Qed.

Lemma prepared_action_spec rs a :
  prepared_action rs a
    (default (home_prefix_action a) (repository_action rs (home_prefix_action a))).
Proof.
  unfold repository_action, home_prefix_action, Get. cbn [SourceType GitOptions].
  destruct (decide (SourceType a = GitSourceType)) as [Hg|Hg];
    [cbn [opt_Url]; destruct (rs !! opt_Url (GitOptions a)) as [r|] eqn:Er|];
    split; cbn; rewrite ?Hg, ?Er; try (intros; done);
    try (split_and!; try done; apply addHomeDirPrefix_expanded).
  - rewrite (decide_False (P := GitSourceType = LocalSourceType)) by done.
    intros _. split_and!; try done.
    apply addHomeDirPrefix_expanded.
  - rewrite (decide_False (P := GitSourceType = LocalSourceType)) by done.
    intros _. split_and!; try done.
    apply addHomeDirPrefix_expanded.
  - intros Hl. rewrite decide_True by exact Hl. split; [apply addHomeDirPrefix_expanded|done].
  - intros Hl _. by rewrite decide_False by exact Hl.
Qed.

(** The events of [chmodLocalActions]. *)
Lemma chmod_each_run l mode s :
  ok s → ∃ s' es, chmod_each l mode s = (Done (), s') ∧ extends es s s' ∧
    Forall2 (λ e p, ∃ r, e = EvChmod p mode r) es
      (Filepath <$> (snd <$> List.filter
        (λ p, bool_decide (SourceType p.2 = LocalSourceType)) l)).
Proof.
  revert s. induction l as [|[k a] l IH]; intros s Hok; cbn [chmod_each List.filter].
  { exists s, []. split; [done|]. split; [by apply extends_nil|constructor]. }
  cbn [snd]. case_decide as Hl.
  - rewrite bool_decide_eq_true_2 by done.
    destruct (Chmod_spec (Filepath a) mode s Hok) as (r & s1 & E & Hx).
    destruct (IH s1 (extends_ok _ _ _ Hx)) as (s' & es & E' & Hx' & Hf).
    rewrite (go_bind_done _ _ _ _ _ E). eexists s', (_ :: es). split; [done|].
    split; [by eapply extends_cons|]. cbn. constructor; [by eexists|done].
  - rewrite bool_decide_eq_false_2 by done. rewrite go_ret_bind. by apply IH.
Qed.

(** The action is usable. *)
Definition valid_action (a : MappedAction) : Prop :=
  (SourceType a = LocalSourceType ∨ SourceType a = GitSourceType ∧ GitOptions a ≠ zero_Options) ∧
  Filepath a ≠ "".

Definition valid_conf (c : Configuration) : Prop :=
  ApiKey c ≠ "" ∧ conf_Mappings c ≠ ∅ ∧
  ∀ n a, conf_Mappings c !! n = Some a → valid_action a.

(** The configuration with its defaults. *)
Definition defaulted (c : Configuration) : Configuration :=
  let c := if decide (BaseUrl c = "") then with_BaseUrl DefaultBaseUrl c else c in
  match ParseLevel (LogLevel c) with
  | inr _ => with_Level "info" InfoLevel c
  | inl level => with_Level (LogLevel c) level c
  end.

Lemma validate_actions_ok l :
  validate_actions l = None ↔ Forall (λ p, valid_action p.2) l.
Proof.
  induction l as [|[n a] l IH]; cbn [validate_actions]; [by split|].
  rewrite Forall_cons, <- IH. unfold valid_action. cbn [snd]. case_decide as V1.
  { split; [done|]. intros [[[?|[? _]] _] _]; tauto. }
  case_decide as V2; [split; [done|tauto]|]. case_decide as V3.
  { split; [done|]. intros [[[Hl|[_ Hz]] _] _]; [|tauto].
    destruct V3 as [Hg _]. rewrite Hl in Hg. done. }
  split; [|by intros [_ ?]]. intros Hv. split; [|done]. split; [|done].
  destruct (decide (SourceType a = LocalSourceType)); [by left|].
  destruct (decide (SourceType a = GitSourceType)); [|tauto]. right. tauto.
Qed.
End ReaderFacts.

Section ReadFacts.
Context {R K St : Type} `{Logged St, ConfEnv St, GitEnv R K St, GoRuntime St}.
Context `{!GitEnvSpec R K St, !GoRuntimeSpec St}.
Implicit Types (s : St) (c : Configuration).

(** Reading a file returns its content or an error, and records nothing. *)
Definition reads_files : Prop := ∀ p s, ok s → silent (ReadFile p) s.

Lemma validate_run c s :
  ok s → ∃ err c' s', validate (Some c) s = (Done (err, Some c'), s') ∧ extends [] s s' ∧
    (valid_conf c → err = None ∧ c' = defaulted c) ∧ (¬ valid_conf c → is_Some err).
Proof.
  intros Hok. unfold validate, valid_conf.
  destruct (decide (ApiKey c = "")) as [Ha|Ha].
  { eexists (Some _), c, s. split; [done|]. split; [by apply extends_nil|]. by split; [tauto|]. }
  set (c1 := if decide (BaseUrl c = "") then with_BaseUrl DefaultBaseUrl c else c).
  assert (Em : conf_Mappings c1 = conf_Mappings c) by (unfold c1; by case_decide).
  rewrite Em. destruct (size (conf_Mappings c) =? 0)%nat eqn:Hs.
  { apply Nat.eqb_eq, map_size_empty_inv in Hs.
    eexists (Some _), c1, s. split; [done|]. split; [by apply extends_nil|]. by split; [tauto|]. }
  assert (Hne : conf_Mappings c ≠ ∅).
  { intros E. rewrite E in Hs. by vm_compute in Hs. }
  destruct (map_range_spec (conf_Mappings c) s Hok) as (l & s' & E & Hx & Hl).
  rewrite (go_bind_done _ _ _ _ _ E).
  pose proof (validate_actions_ok l) as Hv. rewrite (Forall_range valid_action l _ Hl) in Hv.
  destruct (validate_actions l) as [err|]; eexists _, _, s'; (split; [reflexivity|]);
    (split; [done|]); split; try done.
  - intros (_ & _ & Hall). by apply Hv in Hall.
  - intros Hnv. exfalso. apply Hnv. split; [done|]. split; [done|]. by apply Hv.
Qed.

Lemma readFile_run p s :
  reads_files → ok s → ∃ r err s', readFile p s = (Done (r, err), s') ∧ extends [] s s' ∧
    (err = None → is_Some r).
Proof.
  intros Hr Hok. destruct (Hr p s Hok) as (f & s' & E & Hx).
  unfold readFile. rewrite (go_bind_done _ _ _ _ _ E).
  destruct f as [f|err]; [|by exists None, (Some err), s'].
  case_decide; [destruct (json_Unmarshal f) as [c e]; by exists (Some c), e, s'|].
  case_decide; [destruct (yaml_Unmarshal f) as [c e]; by exists (Some c), e, s'|].
  by eexists None, (Some _), s'.
Qed.

(** Every directory cloned is removed at the end. *)
Definition cleaned (es : list event) : Prop :=
  ∀ d url b, EvClone d url b None ∈ es → ∃ e, last es = Some (EvRemoveAll d e).

Lemma readFileFromGit_run url key pass p s :
  reads_files → ok s → ∃ r err s' es,
    readFileFromGit url key pass p s = (Done (r, err), s') ∧ extends es s s' ∧
    (cleaned es ∧ Forall git_event es) ∧
    (is_Some (checkFileExtension p) → es = []) ∧ (err = None → is_Some r).
Proof.
  intros Hr Hok. unfold readFileFromGit.
  destruct (checkFileExtension p) as [err|].
  { exists None, (Some err), s, []. split; [done|]. split; [by apply extends_nil|].
    split; [split; [by intros d u b ?%elem_of_nil|done]|done]. }
  destruct (clone_run url key pass s Hok) as (t & s1 & r & s2 & es & _ & E & Hx & Ht).
  rewrite (go_bind_done _ _ _ _ _ E). destruct r as [dir|err].
  - destruct t as [d|]; [|by destruct Ht]. destruct Ht as [-> ->].
    pose proof (extends_ok _ _ _ Hx) as Hok2.
    destruct (readFile_run (Join [d; p]) s2 Hr Hok2) as (c & err & s3 & Er & Hx3 & Hc).
    rewrite (go_bind_done _ _ _ _ _ Er).
    destruct (RemoveAll_path_spec d s3) as (e & s4 & Ed & Hx4); [by eapply extends_ok|].
    rewrite (go_bind_done _ _ _ _ _ Ed).
    pose proof (extends_trans _ _ _ _ _ (extends_trans _ _ _ _ _ Hx Hx3) Hx4) as Hx'.
    eexists c, err, s4, _. split; [done|]. split; [exact Hx'|].
    split; [|by split; [intros []|]]. split; [|by repeat constructor].
    intros d' u b Hin. exists e.
    cbn in Hin. apply elem_of_cons in Hin as [[= -> -> ->]|Hin]; [done|].
    by apply list_elem_of_singleton in Hin.
  - exists None, (Some err), s2, es. split; [done|]. split; [done|].
    split; [|by split; [intros []|]].
    split; [|destruct t; [by eapply git_clone_log|destruct Ht as [_ ->]; constructor]].
    intros d' u b Hin. destruct t as [d|]; [|destruct Ht as [_ ->]; by apply elem_of_nil in Hin].
    destruct Ht as [e [-> | ->]]; exfalso; repeat (apply elem_of_cons in Hin as [?|Hin]; [done|]);
      by apply elem_of_nil in Hin.
Qed.
End ReadFacts.

Section ReaderClaims.
Context {R K St : Type} `{Logged St, ConfEnv St, GitEnv R K St, GoRuntime St}.
Context `{!GitEnvSpec R K St, !GoRuntimeSpec St}.
Implicit Types (s : St) (c : Configuration).

Lemma readFileFromSource_run t s :
  reads_files → ok s → ∃ r err s' es,
    readFileFromSource t s = (Done (r, err), s') ∧ extends es s s' ∧
    (cleaned es ∧ Forall git_event es) ∧
    (t ≠ GitSourceType → es = []) ∧ (err = None → is_Some r).
Proof.
  intros Hr Hok. pose proof (extends_nil s Hok) as Hnil.
  assert (Hc : cleaned [] ∧ Forall git_event []) by (split; [intros d u b ?%elem_of_nil|]; done).
  unfold readFileFromSource. case_decide as Hg.
  { case_decide; [by eexists None, (Some _), s, []|].
    edestruct readFileFromGit_run as (r & err & s' & es & E & Hx & Hcl & _ & Hs);
      [done|done|]. by exists r, err, s', es. }
  case_decide.
  { unfold readFileFromLocal. case_match; [by eexists None, (Some _), s, []|].
    edestruct readFile_run as (r & err & s' & E & Hx & Hs); [done|done|].
    by exists r, err, s', []. }
  case_decide; by eexists None, (Some _), s, [].
Qed.

(** The configuration read, with the API key of the environment. *)
Definition keyed c : Configuration :=
  if decide (Getenv "JEC_API_KEY" = "") then c else with_ApiKey (Getenv "JEC_API_KEY") c.

(** The configuration [Read] returns for the one it read. *)
Definition prepared c : Configuration :=
  addDefaultFlags
    (with_Mappings (home_prefix_action <$> conf_Mappings c) (defaulted c)).

Lemma Read_run s :
  reads_files → ok s →
  ∃ (c0 : option Configuration) err0 s0 es0, readFileFromSource (ToLower (Getenv "JEC_CONF_SOURCE_TYPE")) s =
      (Done (c0, err0), s0) ∧ extends es0 s s0 ∧ cleaned es0 ∧ Forall git_event es0 ∧
  ∃ r s' es, Read s = (Done r, s') ∧ extends es s0 s' ∧
    match err0 with
    | Some err => r = (None, Some err) ∧ es = []
    | None => ∃ c, c0 = Some c ∧
        (¬ valid_conf (keyed c) → es = [] ∧ ∃ err, r = (None, Some err)) ∧
        (valid_conf (keyed c) → r = (Some (prepared (keyed c)), None) ∧
          ∃ l, l ≡ₚ map_to_list (home_prefix_action <$> conf_Mappings (keyed c)) ∧
            Forall2 (λ e p, ∃ r, e = EvChmod p mode_0700 r) es
              (Filepath <$> (snd <$> List.filter
                (λ p, bool_decide (SourceType p.2 = LocalSourceType)) l)))
    end.
Proof.
  intros Hr Hok.
  destruct (readFileFromSource_run (ToLower (Getenv "JEC_CONF_SOURCE_TYPE")) s Hr Hok)
    as (c0 & err0 & s0 & es0 & E & Hx & [Hcl Hg] & _ & Hs).
  exists c0, err0, s0, es0. split; [done|]. split; [done|]. split; [done|]. split; [done|].
  pose proof (extends_ok _ _ _ Hx) as Hok0. pose proof (extends_nil s0 Hok0) as Hnil.
  unfold Read. rewrite (go_bind_done _ _ _ _ _ E). cbn [fst snd].
  destruct err0 as [err|]; [by exists (None, Some err), s0, []|].
  destruct (Hs eq_refl) as [c ->].
  assert (Ek : (if decide (Getenv "JEC_API_KEY" = "") then go_ret (Some c)
    else c <- deref (Some c) ; go_ret (Some (with_ApiKey (Getenv "JEC_API_KEY") c)))%go s0 =
    (Done (Some (keyed c)), s0)) by (unfold keyed; by case_decide).
  rewrite (go_bind_done _ _ _ _ _ Ek).
  destruct (validate_run (keyed c) s0 Hok0) as (err & c' & s1 & Ev & Hx1 & Hval & Hinv).
  rewrite (go_bind_done _ _ _ _ _ Ev). cbn [fst snd]. destruct err as [err|].
  { exists (None, Some err), s1, []. split_and!; [done..|]. exists c. split; [done|].
    split; [intros _; split; [done|by exists err]|]. intros Hv. by destruct (Hval Hv). }
  rewrite go_bind_deref.
  destruct (home_prefix_run (conf_Mappings c') s1) as (s2 & Eh & Hx2);
    [by eapply extends_ok|].
  rewrite (go_bind_done _ _ _ _ _ Eh). unfold chmodLocalActions.
  destruct (map_range_spec (home_prefix_action <$> conf_Mappings c') s2)
    as (l & s3 & El & Hx3 & Hl); [by eapply extends_ok|].
  rewrite go_bind_assoc, (go_bind_done _ _ _ _ _ El).
  destruct (chmod_each_run l mode_0700 s3) as (s4 & es & Ec & Hx4 & Hf);
    [by eapply extends_ok|].
  rewrite (go_bind_done _ _ _ _ _ Ec). eexists _, s4, es. split; [reflexivity|].
  split; [exact (extends_trans _ _ _ _ _ (extends_trans _ _ _ _ _
    (extends_trans _ _ _ _ _ Hx1 Hx2) Hx3) Hx4)|].
  exists c. split; [done|]. split; [intros Hn; by destruct (Hinv Hn)|].
  intros Hv. destruct (Hval Hv) as [_ ->].
  assert (Em : conf_Mappings (defaulted (keyed c)) = conf_Mappings (keyed c)).
  { unfold defaulted. cbv zeta. repeat case_decide; by case_match. }
  rewrite Em in *. split; [done|]. by exists l.
Qed.

(** C28. [Read] returns an error exactly when the file could not be read and
    decoded or the configuration is not valid (no API key in the file nor in
    the environment, no action, or an action without a source, a file path or
    git options); otherwise it returns the configuration with its defaults, the
    home directory put into every path and the three default flags in front of
    the global arguments, after making the local actions' files executable. It
    never panics, and the clone of a git configuration is always removed. *)
Theorem read_configuration s :
  reads_files → ok s →
  ∃ (c0 : option Configuration) err0 s0 es0, readFileFromSource (ToLower (Getenv "JEC_CONF_SOURCE_TYPE")) s =
      (Done (c0, err0), s0) ∧ extends es0 s s0 ∧ cleaned es0 ∧
  ∃ r s' es, Read s = (Done r, s') ∧ extends es s0 s' ∧
    match err0 with
    | Some err => r = (None, Some err) ∧ es = []
    | None => ∃ c, c0 = Some c ∧
        (¬ valid_conf (keyed c) → es = [] ∧ ∃ err, r = (None, Some err)) ∧
        (valid_conf (keyed c) → r = (Some (prepared (keyed c)), None) ∧
          ∃ l, l ≡ₚ map_to_list (home_prefix_action <$> conf_Mappings (keyed c)) ∧
            Forall2 (λ e p, ∃ r, e = EvChmod p mode_0700 r) es
              (Filepath <$> (snd <$> List.filter
                (λ p, bool_decide (SourceType p.2 = LocalSourceType)) l)))
    end.
Proof.
  intros Hr Hok. destruct (Read_run s Hr Hok)
    as (c0 & err0 & s0 & es0 & E & Hx & Hcl & _ & r & s' & es & Hrun).
  exists c0, err0, s0, es0. split; [done|]. split; [done|]. split; [done|]. by exists r, s', es.
Qed.

(** C40. Preparing the actions rewrites exactly the paths that name files on
    this host, in whatever order the runtime visits the actions: the log files
    always, the script of a local action and the key of a git action get the
    home directory for their [~/]; then the script of a git action is put under
    the path of its repository, when that was downloaded. Every other field of
    every action stays, no action is added or lost, and a copy of the actions is
    equal to them. *)
Theorem path_updates_are_maps (m : ActionMappings) (rs : Repositories) s :
  ok s →
  ∃ m1 m2 s1 s2, addHomeDirPrefixToActionMappings m s = (Done m1, s1) ∧
    AddRepositoryPathToGitActionFilepaths m1 rs s1 = (Done m2, s2) ∧
    (∃ s3, copyActionMappings m s = (Done m, s3)) ∧
    ∀ name, option_Forall2 (prepared_action rs) (m !! name) (m2 !! name).
Proof.
  intros Hok.
  destruct (home_prefix_run m s Hok) as (s1 & E1 & Hx1).
  destruct (repository_run (home_prefix_action <$> m) rs s1) as (s2 & E2 & _);
    [by eapply extends_ok|].
  eexists _, _, s1, s2. split; [exact E1|]. split; [exact E2|]. split.
  - destruct (map_range_spec m s Hok) as (l & s3 & E3 & _ & Hl). exists s3.
    unfold copyActionMappings. rewrite (go_bind_done _ _ _ _ _ E3).
    rewrite (copy_each_all l m Hl). done.
  - intros name. unfold ActionMappings in *. rewrite lookup_fmap, lookup_fmap.
    destruct (m !! name) as [a|]; constructor.
    apply prepared_action_spec.
Qed.
End ReaderClaims.

Section PathClaims.
Context `{ConfEnv St}.

(** A path keeps no [~/] prefix: it becomes the clean path under the home
    directory, and other paths are only cleaned; the result is absolute when
    the path was, or when it was under a home directory that is. *)
Theorem home_prefix_paths (p : string) :
  IsAbs homeDir = true → p ≠ "" →
  Clean (addHomeDirPrefix p) = addHomeDirPrefix p ∧
  IsAbs (addHomeDirPrefix p) = IsAbs p || HasPrefix p "~/" ∧
  (IsAbs (addHomeDirPrefix p) = true → addHomeDirPrefix (addHomeDirPrefix p) = addHomeDirPrefix p).
Proof.
  intros Hh Hp.
  assert (Hcl : Clean (addHomeDirPrefix p) = addHomeDirPrefix p ∧
    IsAbs (addHomeDirPrefix p) = IsAbs p || HasPrefix p "~/").
  { unfold addHomeDirPrefix. destruct (decide (p = "")); [done|].
    destruct (HasPrefix p "~/") eqn:Ht.
    - cbn [Join]. destruct (decide (homeDir = "")) as [E|_]; [by rewrite E in Hh|].
      split; [apply Clean_idem|]. rewrite Clean_rooted, orb_true_r. by apply IsAbs_app.
    - split; [apply Clean_idem|]. by rewrite Clean_rooted, orb_false_r. }
  destruct Hcl as [Hcl Habs]. split; [done|]. split; [done|]. intros Ha.
  remember (addHomeDirPrefix p) as q eqn:Eq. clear Eq. unfold addHomeDirPrefix.
  destruct (decide (q = "")) as [->|_]; [done|].
  by rewrite (IsAbs_no_tilde q Ha).
Qed.
End PathClaims.

(** ** A recording environment with one configuration file *)

Section ReaderExample.

Definition local_action : MappedAction :=
  mkMapped "custom" "local" zero_Options "~/scripts/create.py" ∅ [] ["e1=v1"] "" "~/out.log".

Definition git_action : MappedAction :=
  mkMapped "custom" "git" (mkOptions "testUrl" "~/.ssh/key" "") "close.sh" ∅ [] [] "" "".

Definition example_configuration : Configuration :=
  mkConfiguration
    (mkSpecs {[ "Create" := local_action; "Close" := git_action ]} ∅ ["-x"] [])
    "" "" "" (mkPollerConf 0 0 0) (mkPoolConf 0 0 0 0 0) "nosuchlevel" 0.

Definition example_env (name : string) : string :=
  if decide (name = "HOME") then "/home/jec"
  else if decide (name = "JEC_API_KEY") then "secret"
  else if decide (name = "JEC_CONF_SOURCE_TYPE") then "LOCAL" else "".

#[export] Instance rec_conf : ConfEnv rec_state := {
  Getenv := example_env;
  windows := false;
  ReadFile p := go_ret (if decide (p = "/home/jec/jec/config.json") then inl "{}"
                        else inr (PlainError "no such file"));
  json_Unmarshal _ := (example_configuration, None);
  yaml_Unmarshal _ := (example_configuration, Some (PlainError "bad yaml"));
  ParseLevel l := if decide (l = "debug") then inl 5%Z else inr (PlainError "not a level");
  InfoLevel := 4%Z
}.

Lemma rec_reads_files : reads_files (St := rec_state).
Proof. intros p s Hok. eexists _, s. split; [reflexivity|]. by apply extends_nil. Qed.

(** The default file of the home directory is read, and the result is ready. *)
Example read_example :
  match @Read string unit rec_state _ _ _ [] with
  | (Done (Some c, None), es) =>
      ApiKey c = "secret" ∧ BaseUrl c = DefaultBaseUrl ∧ LogLevel c = "info" ∧
      GlobalArgs (Specs c) = ["-apiKey"; "secret"; "-jsmUrl"; DefaultBaseUrl;
                              "-logLevel"; "INFO"; "-x"] ∧
      (Filepath <$> conf_Mappings c) =
        {[ "Create" := "/home/jec/scripts/create.py"; "Close" := "close.sh" ]} ∧
      es = [EvChmod "/home/jec/scripts/create.py" 448 None]
  | _ => False
  end.
Proof. vm_compute. by repeat split. Qed.

Lemma read_configuration_witness :
  valid_conf (keyed example_configuration) ∧
  ∃ (c0 : option Configuration) err0 s0 es0,
    readFileFromSource (ToLower (Getenv "JEC_CONF_SOURCE_TYPE")) [] = (Done (c0, err0), s0) ∧
    extends es0 ([] : rec_state) s0 ∧ cleaned es0.
Proof.
  split.
  { split; [done|]. split; [done|].
    apply (Forall_range valid_action (map_to_list (conf_Mappings example_configuration)));
      [done|].
    change (Forall (λ p, valid_action p.2) [("Create", local_action); ("Close", git_action)]).
    apply Forall_cons. split; [split; [by left|done]|]. apply Forall_singleton.
    split; [by right|done]. }
  edestruct (read_configuration (R := string) (K := unit) (St := rec_state) [])
    as (c0 & err0 & s0 & es0 & E & Hx & Hc & _); [exact rec_reads_files|exact I|].
  exists c0, err0, s0, es0. split; [exact E|]. split; [exact Hx|exact Hc].
Defined.

Lemma path_updates_are_maps_witness :
  ∃ m1 m2 s1 s2,
    addHomeDirPrefixToActionMappings (conf_Mappings example_configuration) [] = (Done m1, s1) ∧
    AddRepositoryPathToGitActionFilepaths m1 example_repositories s1 = (Done m2, s2) ∧
    (∃ s3, copyActionMappings (conf_Mappings example_configuration) [] =
       (Done (conf_Mappings example_configuration), s3)) ∧
    ∀ name, option_Forall2 (prepared_action example_repositories)
      (conf_Mappings example_configuration !! name) (m2 !! name).
Proof.
  apply (path_updates_are_maps (St := rec_state)
    (conf_Mappings example_configuration) example_repositories []). exact I.
Defined.

Lemma home_prefix_paths_witness :
  addHomeDirPrefix "~/scripts/../create.py" = "/home/jec/create.py" ∧
  Clean (addHomeDirPrefix "~/scripts/../create.py") = addHomeDirPrefix "~/scripts/../create.py" ∧
  IsAbs (addHomeDirPrefix "~/scripts/../create.py") =
    IsAbs "~/scripts/../create.py" || HasPrefix "~/scripts/../create.py" "~/" ∧
  (IsAbs (addHomeDirPrefix "~/scripts/../create.py") = true →
   addHomeDirPrefix (addHomeDirPrefix "~/scripts/../create.py") =
   addHomeDirPrefix "~/scripts/../create.py").
Proof.
  split; [vm_compute; reflexivity|].
  apply (home_prefix_paths "~/scripts/../create.py"); [reflexivity|discriminate].
Defined.
End ReaderExample.
