(* ===== verification/Runbook.v ===== *)
(** * Package runbook: executor.go, the callback context's buffer, sender.go.

    Starting a process and the named pipe are outside the program ([ExecEnv]);
    [pipe_data path] is what the goroutine [Read] has read from the pipe [path]
    when [Execute] looks at its buffer. What that can be is the subject of
    Callback. *)

From Stdlib Require Import Ascii.
From Stdlib Require String.
From stdpp Require Import base list numbers strings gmap pretty.
From Stdlib Require Import Lia ZifyNat.
From S2P Require Import Prelude GoError Interfaces GoStrings Retryer Git Actions.

(** ** executor.go *)

(** The first word is the command, the others come before the path. *)
Definition executables : gmap string (string * list string) :=
  list_to_map
    [(".bat", ("cmd", ["/C"])); (".cmd", ("cmd", ["/C"]));
     (".ps1", ("powershell", ["-File"])); (".sh", ("sh", []));
     (".py", ("python", [])); (".groovy", ("groovy", [])); (".go", ("go", ["run"]))].

Class ExecEnv (St : Type) := {
  Environ : list string;
  Run : exec_Cmd → go St run_result;
  pipe_data : string → go St string
}.

(** [NewCallbackContextHandler]'s path. *)
Definition pipePath (executionId : string) : string :=
  Join ["/var"; "tmp"; "jec"; "jecCallbackPipe-" +:+ executionId].

Definition buffer_size : nat := Z.to_nat 16384.

Definition nul : ascii := "000"%char.

Fixpoint nuls (n : nat) : string :=
  match n with O => "" | S n => String nul (nuls n) end.

(** [copy(buffer, data)] into a buffer. *)
Fixpoint copy_into (buffer data : string) : string :=
  match buffer, data with
  | String _ buffer, String c data => String c (copy_into buffer data)
  | buffer, _ => buffer
  end.

(** [bytes.Trim(_, x00)], from the left and from the right. *)
Fixpoint trim_left_nul (s : string) : string :=
  match s with
  | String c s' => if Ascii.eqb c nul then trim_left_nul s' else s
  | "" => ""
  end.

Fixpoint trim_right_nul (s : string) : string :=
  match s with
  | "" => ""
  | String c s =>
      let t := trim_right_nul s in
      if Ascii.eqb c nul && bool_decide (t = "") then "" else String c t
  end.

Definition Trim_nul (s : string) : string := trim_right_nul (trim_left_nul s).

(** The text [Execute] makes of what was read. *)
Definition callback_context (data : string) : string :=
  Trim_nul (copy_into (nuls buffer_size) data).

Section Execute.
Context `{ExecEnv St}.

(** The command of an executable file. *)
Definition build_command (executablePath : string) (args env : list string)
    (stdout stderr : list sink) : exec_Cmd :=
  let fileExt := Ext (ToLower executablePath) in
  match executables !! fileExt with
  | Some (command, words) =>
      mkCmd command ((words ++ [executablePath]) ++ args) env stdout stderr
  | None => mkCmd executablePath args env stdout stderr
  end.

(** [Execute]; a nil writer is [None]. The first component of the result is what
    the command wrote to the caller's buffer. *)
Definition Execute (executionId executablePath : string)
    (args environmentVars : list string) (stdout stderr : option (list sink)) :
    go St (string * (string * option error)) :=
  (let args := args ++ ["--jecNamedPipe"; pipePath executionId] in
   let stdout := default [] stdout in
   let cmd_stderr := match stderr with
                     | Some w => w ++ [BufferSink]
                     | None => [BufferSink]
                     end in
   r <- Run (build_command executablePath args (Environ ++ environmentVars) stdout cmd_stderr) ;
   data <- pipe_data (pipePath executionId) ;
   let written := if bool_decide (BufferSink ∈ stdout) then run_stdout r else "" in
   match run_err r with
   | Some err => go_ret (written, ("", Some (ExecError (run_stderr r) (Error err))))
   | None => go_ret (written, (callback_context data, None))
   end)%go.
End Execute.

(** ** sender.go *)

Definition resultPath : string := "/jsm/ops/jec/v1/callback".

Definition json_bool (b : bool) : string := if b then "true" else "false".

(** A member [name: value] of an object; [omitempty] drops an empty string. *)
Definition json_field (name value : string) : list string :=
  [json_string name +:+ ":" +:+ value].

Definition json_omit (name value : string) : list string :=
  if decide (value = "") then [] else json_field name (json_string value).

Definition json_headers (h : option (gmap string string)) : string :=
  match h with None => "null" | Some m => json_marshal_map m end.

(** [json.Marshal(resultPayload)]: the fields' tags, with the HTTP response's
    fields inlined. *)
Definition marshal_result (p : ActionResultPayload) : string :=
  "{" +:+ String.concat ","
    (json_omit "requestId" (RequestId p) ++
     (if IsSuccessful p then json_field "isSuccessful" (json_bool true) else []) ++
     json_omit "entityId" (EntityId p) ++
     json_omit "entityType" (EntityType p) ++
     json_omit "action" (Action p) ++
     json_omit "actionType" (ActionType p) ++
     json_omit "failureMessage" (FailureMessage p) ++
     json_field "callbackContext" (json_string (CallbackContext p)) ++
     match result_HttpResponse p with
     | None => []
     | Some r =>
         json_field "headers" (json_headers (Headers r)) ++
         json_field "body" (json_string (http_Body r)) ++
         json_field "statusCode" (FormatInt (StatusCode r))
     end) +:+ "}".

(** Runs a request on a fresh body reader. *)
Definition with_reader {St A} (m : go (nat * St) A) : go St A :=
  λ s, let '(r, (_, s')) := m (0%nat, s) in (r, s').

Section Sender.
Context {C St : Type} `{HttpClient C St}.

Definition with_headers (apiKey : string) (q : Request) : Request :=
  mkRetryRequest (body q)
    (add_header "Content-Type" "application/json; charset=UTF-8"
      (add_header "Authorization" ("GenieKey " +:+ apiKey) (request q))).

Definition unexpected_status (resp : http_Response) : error :=
  let errorMessage :=
    "Unexpected response status: " +:+ FormatInt (resp_StatusCode resp) in
  match resp_Body resp with
  | inl body => PlainError (errorMessage +:+ ", error message: " +:+ body)
  | inr err => PlainError (errorMessage +:+ ", also could not read response body: " +:+ Error err)
  end.

(** Marshalling cannot fail: all the fields are strings, booleans and numbers. *)
Definition SendResultToJsm (resultPayload : ActionResultPayload) (apiKey baseUrl : string) :
    go St (option error) :=
  match NewRequest "POST" (baseUrl +:+ resultPath) (ReadSeeker (marshal_result resultPayload)) with
  | inr err => go_ret (Some err)
  | inl q =>
      (r <- with_reader (Do (mkRetryer None None) (with_headers apiKey q)) ;
       match r.2 with
       | Some err => go_ret (Some err)
       | None =>
           resp <- deref r.1 ;
           if decide (resp_StatusCode resp = 202%Z) then go_ret None
           else go_ret (Some (unexpected_status resp))
       end)%go
  end.
End Sender.

(** ** Lemmas *)

Fixpoint take_string (n : nat) (s : string) : string :=
  match n, s with
  | S n, String c s => String c (take_string n s)
  | _, _ => ""
  end.

Lemma trim_right_nuls n : trim_right_nul (nuls n) = "".
Proof. induction n as [|n IH]; [done|]. cbn. by rewrite IH. Qed.

Lemma trim_right_copy n data :
  trim_right_nul (copy_into (nuls n) data) = trim_right_nul (take_string n data).
Proof.
  revert data. induction n as [|n IH]; intros data; [by destruct data|].
  destruct data as [|c data]; [apply (trim_right_nuls (S n))|].
  cbn [nuls copy_into take_string trim_right_nul]. by rewrite IH.
Qed.

Lemma trim_left_copy n data :
  trim_right_nul (trim_left_nul (copy_into (nuls n) data)) =
  trim_right_nul (trim_left_nul (take_string n data)).
Proof.
  revert data. induction n as [|n IH]; intros data; [by destruct data|].
  destruct data as [|c data].
  - cbn [copy_into take_string trim_left_nul]. clear IH.
    change (copy_into (nuls (S n)) "") with (nuls (S n)). induction n as [|n IH]; [done|].
    apply IH.
  - cbn [nuls copy_into take_string trim_left_nul].
    destruct (Ascii.eqb c nul); [apply IH|].
    cbn [trim_right_nul]. by rewrite trim_right_copy.
Qed.

Lemma callback_context_take data :
  callback_context data = Trim_nul (take_string buffer_size data).
Proof. apply trim_left_copy. Qed.

Fixpoint no_nul (s : string) : Prop :=
  match s with "" => True | String c s => Ascii.eqb c nul = false ∧ no_nul s end.

Lemma trim_right_no_nul s : no_nul s → trim_right_nul s = s.
Proof.
  induction s as [|c s IH]; [done|]. intros [Hc Hs]. cbn. by rewrite Hc, (IH Hs).
Qed.

Lemma Trim_no_nul s : no_nul s → Trim_nul s = s.
Proof.
  intros Hs. unfold Trim_nul. rewrite <- (trim_right_no_nul s Hs) at 2. f_equal.
  destruct s as [|c s]; [done|]. cbn. by rewrite (proj1 Hs).
Qed.

Lemma take_no_nul n s : no_nul s → no_nul (take_string n s).
Proof.
  revert s. induction n as [|n IH]; intros [|c s]; try done.
  intros [Hc Hs]. split; [done|by apply IH].
Qed.

Lemma take_string_all n s : (String.length s <= n)%nat → take_string n s = s.
Proof.
  revert s. induction n as [|n IH]; intros [|c s] Hn; try done; cbn in *; [lia|].
  rewrite IH by lia. done.
Qed.

(** ** The properties of package runbook *)

Section ExecuteClaims.
Context `{Logged St, ExecEnv St}.

(** The callback context is what the script wrote, when that is at most
    16 kB of text without NUL characters; anything longer is cut to its first
    16 kB, and NULs are trimmed at both ends. *)
Theorem callback_context_text (data : string) :
  callback_context data = Trim_nul (take_string buffer_size data) ∧
  (no_nul data → callback_context data = take_string buffer_size data) ∧
  (no_nul data → (String.length data <= buffer_size)%nat → callback_context data = data).
Proof.
  split; [apply callback_context_take|]. rewrite callback_context_take. split.
  - intros Hn. by apply Trim_no_nul, take_no_nul.
  - intros Hn Hlen. by rewrite take_string_all, Trim_no_nul.
Qed.

(** Running a process records it; the pipe is silent. *)
Class ExecEnvSpec := {
  Run_spec c s : ok s → calls (Run c) s (EvRun c);
  pipe_data_spec p s : ok s → silent (pipe_data p) s
}.

Context `{!ExecEnvSpec}.

Lemma Execute_run id path args env stdout stderr s :
  ok s → ∃ cmd r data s', extends [EvRun cmd r] s s' ∧
    cmd = build_command path (args ++ ["--jecNamedPipe"; pipePath id]) (Environ ++ env)
      (default [] stdout) (default [] stderr ++ [BufferSink]) ∧
    Execute id path args env stdout stderr s =
      (Done (if bool_decide (BufferSink ∈ default [] stdout) then run_stdout r else "",
        match run_err r with
        | Some err => ("", Some (ExecError (run_stderr r) (Error err)))
        | None => (callback_context data, None)
        end), s').
Proof.
  intros Hok. eexists.
  destruct (Run_spec (build_command path (args ++ ["--jecNamedPipe"; pipePath id])
    (Environ ++ env) (default [] stdout) (default [] stderr ++ [BufferSink])) s Hok)
    as (r & s1 & E & Hx).
  destruct (pipe_data_spec (pipePath id) s1) as (data & s2 & E2 & Hx2); [by eapply extends_ok|].
  exists r, data, s2. split; [exact (extends_trans _ _ _ _ _ Hx Hx2)|]. split; [done|].
  unfold Execute.
  assert (Es : match stderr with Some w => w ++ [BufferSink] | None => [BufferSink] end =
    default [] stderr ++ [BufferSink]) by (by destruct stderr).
  rewrite Es, (go_bind_done _ _ _ _ _ E), (go_bind_done _ _ _ _ _ E2). by destruct (run_err r).
Qed.

(** An execution starts exactly one process: the script's interpreter for a
    known extension in any case, the file itself otherwise, with the caller's
    arguments followed by the pipe's name, the connector's environment followed
    by the caller's, and standard error always captured. It returns the
    callback context when the process succeeds, and an [ExecError] with the
    captured standard error and no callback context when it fails. *)
Theorem execute_runs_the_command id path args env stdout stderr s :
  ok s → ∃ cmd r data s', extends [EvRun cmd r] s s' ∧
    cmd_Name cmd :: cmd_Args cmd =
      match executables !! Ext (ToLower path) with
      | Some (command, words) => [command] ++ words
      | None => []
      end ++ [path] ++ args ++ ["--jecNamedPipe"; pipePath id] ∧
    cmd_Env cmd = Environ ++ env ∧ cmd_Stdout cmd = default [] stdout ∧
    BufferSink ∈ cmd_Stderr cmd ∧
    Execute id path args env stdout stderr s =
      (Done (if bool_decide (BufferSink ∈ default [] stdout) then run_stdout r else "",
        match run_err r with
        | Some err => ("", Some (ExecError (run_stderr r) (Error err)))
        | None => (callback_context data, None)
        end), s').
Proof.
  intros Hok. destruct (Execute_run id path args env stdout stderr s Hok)
    as (cmd & r & data & s' & Hx & -> & E).
  eexists _, r, data, s'. split; [exact Hx|].
  assert (Hin : BufferSink ∈ default [] stderr ++ [BufferSink]).
  { apply elem_of_app. right. by left. }
  unfold build_command. destruct (executables !! Ext (ToLower path)) as [[c ws]|]; cbn;
    split_and!; try done. by rewrite <- !(assoc_L (++)).
Qed.
End ExecuteClaims.

Arguments ExecEnvSpec St {_ _}.

Section SenderClaims.
Context {C St : Type} `{Logged St, HttpClient C St, !HttpClientSpec C St}.

(** The request that carries a result. *)
Definition result_request (p : ActionResultPayload) (apiKey : string) (q : http_Request) :
    Request :=
  with_headers apiKey (mkRetryRequest (Some (marshal_result p)) q).

(** What [SendResultToJsm] does: the events of its attempts and its error. *)
Definition sent_as (p : ActionResultPayload) (apiKey baseUrl : string) (err : option error)
    (es : list event) : Prop :=
  match http_NewRequest "POST" (baseUrl +:+ resultPath) (Some (marshal_result p)) with
  | inr e => err = Some e ∧ es = []
  | inl q => ∃ failed last,
      es = attempts (result_request p apiKey q) 0 (failed ++ [last]) ∧
      Forall (λ a, retryable a = true) failed ∧ (length failed <= 4)%nat ∧
      (err = None ↔ ∃ resp, last = (Some resp, None) ∧ resp_StatusCode resp = 202%Z)
  end.

Lemma send_result_posts (p : ActionResultPayload) (apiKey baseUrl : string) (s : St) :
  ok s →
  match http_NewRequest "POST" (baseUrl +:+ resultPath) (Some (marshal_result p)) with
  | inr err => SendResultToJsm p apiKey baseUrl s = (Done (Some err), s)
  | inl q => ∃ failed last err s',
      SendResultToJsm p apiKey baseUrl s = (Done err, s') ∧
      extends (attempts (result_request p apiKey q) 0 (failed ++ [last])) s s' ∧
      Forall (λ a, retryable a = true) failed ∧ (length failed <= 4)%nat ∧
      (err = None ↔ ∃ resp, last = (Some resp, None) ∧ resp_StatusCode resp = 202%Z)
  end.
Proof.
  intros Hok. unfold SendResultToJsm, NewRequest.
  destruct (http_NewRequest _ _ _) as [q|err]; [|done].
  destruct (backoff_run 5 0 DefaultClient (result_request p apiKey q) 0 s)
    as (failed & last & n' & s' & E & Hx & Hd & Hall & Hlen & _); [done|lia|done|].
  change (Z.of_nat 0) with 0%Z in E.
  assert (Ed : with_reader (Do (mkRetryer None None) (result_request p apiKey q)) s =
    (Done (retry_result last), s')).
  { unfold with_reader, Do, DoWithExponentialBackoff. cbn [DoFunc client].
    change (Z.to_nat maxRetryCount) with 5%nat. by rewrite E. }
  exists failed, last. change (with_headers apiKey _) with (result_request p apiKey q).
  rewrite (go_bind_done _ _ _ _ _ Ed). clear E Ed.
  assert (Hrest : ∀ err : option error, (err = None ↔ ∃ resp, last = (Some resp, None) ∧
      resp_StatusCode resp = 202%Z) →
    ∃ err' s'', (Done err, s') = (Done err', s'') ∧
      extends (attempts (result_request p apiKey q) 0 (failed ++ [last])) s s'' ∧
      Forall (λ a, retryable a = true) failed ∧ (length failed <= 4)%nat ∧
      (err' = None ↔ ∃ resp, last = (Some resp, None) ∧ resp_StatusCode resp = 202%Z)).
  { intros err Hiff. exists err, s'. split; [done|]. split; [done|]. split; [done|].
    split; [lia|done]. }
  unfold retry_result. destruct (retryable last) eqn:Hr.
  - apply Hrest. split; [done|]. intros (resp & -> & Hc). cbn in Hr.
    unfold shouldRetry in Hr. by rewrite Hc in Hr.
  - destruct last as [[resp|] [e|]]; try done; cbn [fst snd].
    + apply Hrest. split; [done|]. by intros (? & [=] & _).
    + rewrite go_bind_deref. case_decide as Hc; apply Hrest.
      * split; [|done]. intros _. by exists resp.
      * split; [done|]. by intros (resp' & [= <-] & ?).
    + apply Hrest. split; [done|]. by intros (? & [=] & _).
Qed.
Lemma send_result_sent p apiKey baseUrl (s : St) :
  ok s → ∃ err s' es, SendResultToJsm p apiKey baseUrl s = (Done err, s') ∧
    extends es s s' ∧ sent_as p apiKey baseUrl err es.
Proof.
  intros Hok. pose proof (send_result_posts p apiKey baseUrl s Hok) as Hrun. unfold sent_as.
  destruct (http_NewRequest _ _ _) as [q|e].
  - destruct Hrun as (failed & last & err & s' & E & Hx & Hall & Hlen & Hiff).
    eexists err, s', _. split; [exact E|]. split; [exact Hx|]. by exists failed, last.
  - exists (Some e), s, []. split; [exact Hrun|]. split; [by apply extends_nil|done].
Qed.

(** C29. Sending a result posts its JSON to the callback path with the API key,
    through the retryer; it returns nil exactly when the last answer is a 202,
    and otherwise the error of the retryer or one that gives the status. *)
Theorem send_result_outcome (p : ActionResultPayload) (apiKey baseUrl : string) (s : St) :
  ok s →
  match http_NewRequest "POST" (baseUrl +:+ resultPath) (Some (marshal_result p)) with
  | inr err => SendResultToJsm p apiKey baseUrl s = (Done (Some err), s)
  | inl q => ∃ failed last err s',
      SendResultToJsm p apiKey baseUrl s = (Done err, s') ∧
      extends (attempts (result_request p apiKey q) 0 (failed ++ [last])) s s' ∧
      Forall (λ a, retryable a = true) failed ∧ (length failed <= 4)%nat ∧
      (err = None ↔ ∃ resp, last = (Some resp, None) ∧ resp_StatusCode resp = 202%Z)
  end.
Proof. apply send_result_posts. Qed.
End SenderClaims.

(** ** A recording environment: scripts fail when called without arguments *)

Section RunbookExample.

#[export] Instance rec_exec : ExecEnv rec_state := {
  Environ := ["PATH=/bin"];
  Run c := record (λ _, mkRun "out" "err"
             (if decide (length (cmd_Args c) <= 3) then Some (PlainError "exit status 1")
              else None)) (EvRun c);
  pipe_data p := go_ret "context"
}.

#[export] Instance rec_exec_spec : ExecEnvSpec rec_state.
Proof.
  split; intros; [apply record_calls|]. eexists _, s. split; [reflexivity|].
  by apply extends_nil.
Qed.

Lemma callback_context_text_witness : callback_context "created" = "created".
Proof.
  apply (proj2 (proj2 (callback_context_text "created"))); [by vm_compute|].
  apply Nat.leb_le. vm_compute. reflexivity.
Defined.

Example execute_example :
  Execute "1" "/scripts/Create.PY" ["-payload"; "{}"] ["e=v"] (Some [BufferSink]) None [] =
  (Done ("out", ("context", None)),
   [EvRun (mkCmd "python" ["/scripts/Create.PY"; "-payload"; "{}"; "--jecNamedPipe";
                           "/var/tmp/jec/jecCallbackPipe-1"]
             ["PATH=/bin"; "e=v"] [BufferSink] [BufferSink]) (mkRun "out" "err" None)]).
Proof. vm_compute. reflexivity. Qed.

Lemma execute_runs_the_command_witness :
  ∃ cmd r data s', extends [EvRun cmd r] ([] : rec_state) s' ∧
    cmd_Name cmd :: cmd_Args cmd =
      match executables !! Ext (ToLower "/scripts/Create.PY") with
      | Some (command, words) => [command] ++ words
      | None => []
      end ++ ["/scripts/Create.PY"] ++ [] ++ ["--jecNamedPipe"; pipePath "1"] ∧
    cmd_Env cmd = Environ ++ [] ∧ cmd_Stdout cmd = default [] None ∧
    BufferSink ∈ cmd_Stderr cmd ∧
    Execute "1" "/scripts/Create.PY" [] [] None None ([] : rec_state) =
      (Done (if bool_decide (BufferSink ∈ default [] (None : option (list sink)))
             then run_stdout r else "",
        match run_err r with
        | Some err => ("", Some (ExecError (run_stderr r) (Error err)))
        | None => (callback_context data, None)
        end), s').
Proof.
  apply (execute_runs_the_command "1" "/scripts/Create.PY" [] [] None None ([] : rec_state)).
  exact I.
Defined.

Definition example_result : ActionResultPayload := mkActionResultPayload
  "request" true "entity" "alert" "Create" "http" "" "context"
  (Some (mkHttpResponse (Some {[ "h" := "v" ]}) "body" 200)).

(** The text posted, with quotes written as apostrophes. *)
Example marshal_example :
  map_string (λ c, if Ascii.eqb c quote_char then "'"%char else c)
    (marshal_result example_result) =
  "{'requestId':'request','isSuccessful':true,'entityId':'entity','entityType':'alert','action':'Create','actionType':'http','callbackContext':'context','headers':{'h':'v'},'body':'body','statusCode':200}".
Proof. vm_compute. reflexivity. Qed.

Lemma send_result_outcome_witness :
  ∃ failed last err s',
    @SendResultToJsm unit rec_state (scripted_client example_script) example_result
      "key" "https://api" [] = (Done err, s') ∧
    extends (attempts (result_request example_result "key"
      (mkRequest "POST" ("https://api" +:+ resultPath) [] (Some (marshal_result example_result))))
      0 (failed ++ [last])) ([] : rec_state) s' ∧
    Forall (λ a, retryable a = true) failed ∧ (length failed <= 4)%nat ∧
    (err = None ↔ ∃ resp, last = (Some resp, None) ∧ resp_StatusCode resp = 202%Z).
Proof.
  pose proof (scripted_client_spec example_script ltac:(by repeat constructor)) as Hspec.
  exact (send_result_outcome (H0 := scripted_client example_script) example_result "key"
    "https://api" ([] : rec_state) I).
Defined.
End RunbookExample.
