(* ===== verification/Callback.v ===== *)
(** * runbook/callback_context_handler_unix.go: the callback pipe.

    [Execute] creates a named pipe, starts [Read] in a goroutine, runs the
    script, calls [ClosePipe] and then looks at the buffer. The three processes
    meet in the pipe: opening one end blocks until the other end is opened or
    being opened, and a read returns everything written so far or, when no
    writer is left, the end of the file. The script writes its context in
    pieces, and may exit before it has written all of them. [Read] copies the
    text into a buffer of 16384 zero bytes, which cuts a longer one, and
    [Execute] trims the zero bytes off what it finds there. The copy is one step
    here: a use of the buffer in the middle of it is a data race of the program,
    whose outcome Go leaves open. *)

From stdpp Require Import base list numbers strings relations.
From Stdlib Require Import Lia.
From S2P Require Import Prelude GoStrings Runbook.

#[local] Arguments nuls : simpl never.
#[local] Arguments buffer_size : simpl never.

(** [ClosePipe]'s default message. *)
Definition default_message : string := "Execution Finished!".

(** [Read], with what [ioutil.ReadAll] has read so far. *)
Inductive reader_pc : Type :=
  | RdStart                      (* before OpenFile *)
  | RdOpening                    (* blocked in OpenFile *)
  | RdOpened                     (* before pipeOpenedByScript = true *)
  | RdReading (acc : string)     (* in ReadAll *)
  | RdGot (acc : string)         (* before copy *)
  | RdCopied                     (* before os.Remove *)
  | RdRemoved                    (* before the deferred Close *)
  | RdClosed.

(** The script: it may open the pipe, write its context piece by piece and
    close it; [n] pieces are written. *)
Inductive script_pc : Type :=
  | ScStart
  | ScOpening
  | ScWriting (n : nat)
  | ScExited (n : nat).

(** [Execute] from [cmd.Run] on. *)
Inductive main_pc : Type :=
  | MnRun                        (* in cmd.Run *)
  | MnCheck                      (* in ClosePipe, before the test of the flag *)
  | MnOpening                    (* in ClosePipe's OpenFile *)
  | MnOpened (failed : bool)     (* before Write *)
  | MnWrote (failed : bool)      (* before the deferred Close *)
  | MnClosed                     (* before the use of the buffer *)
  | MnFinal (context : string).

Record pipe : Type := mkPipe {
  present : bool;                (* the pipe is in the file system *)
  unread : string;
  writers : nat;                 (* open write ends *)
  reader : reader_pc;
  script : script_pc;
  main : main_pc;
  pipeOpenedByScript : bool;
  callbackContextBuffer : string
}.

(** [NewCallbackContextHandler] and [CreatePipe], with a given buffer. *)
Definition pipe_with (buffer : string) : pipe :=
  mkPipe true "" 0 RdStart ScStart MnRun false buffer.

Definition pipe_init : pipe := pipe_with (nuls buffer_size).

(** The read end is open, or is being opened. *)
Definition has_reader (r : reader_pc) : Prop :=
  match r with RdStart | RdClosed => False | _ => True end.

Definition to_reader (r : reader_pc) (s : pipe) : pipe :=
  mkPipe (present s) (unread s) (writers s) r (script s) (main s)
    (pipeOpenedByScript s) (callbackContextBuffer s).

Definition to_script (sc : script_pc) (n : nat) (s : pipe) : pipe :=
  mkPipe (present s) (unread s) n (reader s) sc (main s)
    (pipeOpenedByScript s) (callbackContextBuffer s).

Definition to_main (m : main_pc) (n : nat) (s : pipe) : pipe :=
  mkPipe (present s) (unread s) n (reader s) (script s) m
    (pipeOpenedByScript s) (callbackContextBuffer s).

Definition put_unread (x : string) (s : pipe) : pipe :=
  mkPipe (present s) x (writers s) (reader s) (script s) (main s)
    (pipeOpenedByScript s) (callbackContextBuffer s).

#[export] Instance has_reader_dec r : Decision (has_reader r).
Proof. unfold Decision. destruct r; cbn; first [left; exact I|right; intros []]. Defined.

(** An open by a writer wakes a reader that is blocked in its own open. *)
Definition wake (r : reader_pc) : reader_pc :=
  match r with RdOpening => RdOpened | r => r end.

Inductive pipe_step (chunks : list string) : pipe → pipe → Prop :=
  (* Read *)
  | rd_open s :
      reader s = RdStart → pipe_step chunks s (to_reader RdOpening s)
  | rd_flag s :
      reader s = RdOpened →
      pipe_step chunks s (mkPipe (present s) (unread s) (writers s) (RdReading "") (script s)
        (main s) true (callbackContextBuffer s))
  | rd_read s acc :
      reader s = RdReading acc → unread s ≠ "" →
      pipe_step chunks s (put_unread "" (to_reader (RdReading (acc +:+ unread s)) s))
  | rd_eof s acc :
      reader s = RdReading acc → unread s = "" → writers s = 0 →
      pipe_step chunks s (to_reader (RdGot acc) s)
  | rd_copy s acc :
      reader s = RdGot acc →
      pipe_step chunks s (mkPipe (present s) (unread s) (writers s) RdCopied (script s)
        (main s) (pipeOpenedByScript s) (copy_into (callbackContextBuffer s) acc))
  | rd_remove s :
      reader s = RdCopied →
      pipe_step chunks s (mkPipe false (unread s) (writers s) RdRemoved (script s)
        (main s) (pipeOpenedByScript s) (callbackContextBuffer s))
  | rd_close s :
      reader s = RdRemoved → pipe_step chunks s (to_reader RdClosed s)
  (* the script *)
  | sc_exit s :
      script s = ScStart → pipe_step chunks s (to_script (ScExited 0) (writers s) s)
  | sc_open s :
      script s = ScStart → pipe_step chunks s (to_script ScOpening (writers s) s)
  | sc_opened s :
      script s = ScOpening → has_reader (reader s) →
      pipe_step chunks s (to_reader (wake (reader s)) (to_script (ScWriting 0) (S (writers s)) s))
  | sc_write s n c :
      script s = ScWriting n → chunks !! n = Some c →
      pipe_step chunks s (put_unread (unread s +:+ c) (to_script (ScWriting (S n)) (writers s) s))
  | sc_close s n :
      script s = ScWriting n →
      pipe_step chunks s (to_script (ScExited n) (pred (writers s)) s)
  (* Execute and ClosePipe *)
  | mn_exited s n :
      main s = MnRun → script s = ScExited n → pipe_step chunks s (to_main MnCheck (writers s) s)
  | mn_skip s :
      main s = MnCheck → pipeOpenedByScript s = true →
      pipe_step chunks s (to_main MnClosed (writers s) s)
  | mn_default s :
      main s = MnCheck → pipeOpenedByScript s = false →
      pipe_step chunks s (to_main MnOpening (writers s) s)
  | mn_open s :
      main s = MnOpening → present s = true → has_reader (reader s) →
      pipe_step chunks s (to_reader (wake (reader s)) (to_main (MnOpened false) (S (writers s)) s))
  | mn_open_fails s :
      main s = MnOpening → present s = false →
      pipe_step chunks s (to_main (MnOpened true) (writers s) s)
  | mn_write s :
      main s = MnOpened false → has_reader (reader s) →
      pipe_step chunks s
        (put_unread (unread s +:+ default_message) (to_main (MnWrote false) (writers s) s))
  | mn_write_fails s b :
      main s = MnOpened b → b = true ∨ ¬ has_reader (reader s) →
      pipe_step chunks s (to_main (MnWrote b) (writers s) s)
  | mn_close s b :
      main s = MnWrote b →
      pipe_step chunks s (to_main MnClosed (if b then writers s else pred (writers s)) s)
  | mn_final s :
      main s = MnClosed →
      pipe_step chunks s (to_main (MnFinal (Trim_nul (callbackContextBuffer s))) (writers s) s).

(** ** Termination: every step decreases the work left *)

Definition reader_rank (r : reader_pc) : nat :=
  match r with
  | RdStart => 7 | RdOpening => 6 | RdOpened => 5 | RdReading _ => 4 | RdGot _ => 3
  | RdCopied => 2 | RdRemoved => 1 | RdClosed => 0
  end.

Definition main_rank (m : main_pc) : nat :=
  match m with
  | MnRun => 6 | MnCheck => 5 | MnOpening => 4 | MnOpened _ => 3 | MnWrote _ => 2
  | MnClosed => 1 | MnFinal _ => 0
  end.

Section PipeFacts.
Context (chunks : list string).

Definition script_rank (sc : script_pc) : nat :=
  match sc with
  | ScStart => length chunks + 3 | ScOpening => length chunks + 2
  | ScWriting n => length chunks - n + 1 | ScExited _ => 0
  end.

Definition work (s : pipe) : nat :=
  reader_rank (reader s) + 2 * script_rank (script s) + 2 * main_rank (main s) +
  (if decide (unread s = "") then 0 else 1).

Lemma wake_rank r : reader_rank (wake r) <= reader_rank r.
Proof. destruct r; cbn; lia. Qed.

Lemma work_decreases s s' : pipe_step chunks s s' → work s' < work s.
Proof.
  intros Hs. pose proof (wake_rank (reader s)) as Hw. unfold work.
  assert (Hlt : ∀ n c, chunks !! n = Some c → n < length chunks)
    by (intros n c; apply lookup_lt_Some).
  destruct Hs; try (match goal with E : chunks !! _ = _ |- _ => apply Hlt in E end); cbn [reader script main unread to_reader to_script to_main put_unread];
    repeat match goal with
    | E : reader _ = _ |- _ => rewrite E in Hw |- *; clear E
    | E : script _ = _ |- _ => rewrite E; clear E
    | E : main _ = _ |- _ => rewrite E; clear E
    end; cbn [reader_rank script_rank main_rank wake] in *; repeat case_decide; try done; lia.
Qed.

(** ** Progress *)

Definition writing (sc : script_pc) : bool := match sc with ScWriting _ => true | _ => false end.
Definition over (sc : script_pc) : bool := match sc with ScExited _ => true | _ => false end.

(** Before the end of the file. *)
Definition reads (r : reader_pc) : bool :=
  match r with RdOpened | RdReading _ => true | _ => false end.

(** What the script still has to do keeps the reader from finishing, and the
    pipe is there as long as the reader has not removed it. *)
Record PipeInv (s : pipe) : Prop := {
  pi_before : script s = ScStart ∨ script s = ScOpening →
    reader s = RdStart ∨ reader s = RdOpening;
  pi_writing : writing (script s) = true → 0 < writers s ∧ reads (reader s) = true;
  pi_running : over (script s) = false → main s = MnRun;
  pi_present : present s = false ↔ reader s = RdRemoved ∨ reader s = RdClosed
}.

Lemma pipe_step_inv s s' : PipeInv s → pipe_step chunks s s' → PipeInv s'.
Proof.
  intros [I1 IW I2 I3] Hs. destruct Hs;
    split; cbn [reader script main present writers to_reader to_script to_main put_unread] in *;
    try done.
  all: repeat match goal with
    | E : reader _ = _ |- _ => rewrite ?E in *; clear E
    | E : script _ = _ |- _ => rewrite ?E in *; clear E
    | E : main _ = _ |- _ => rewrite ?E in *; clear E
    end; cbn in *.
  all: try (destruct (reader s); cbn in *; intuition (congruence || lia); fail).
  all: destruct (script s); cbn in *; intuition (congruence || lia).
Qed.

Lemma pipe_init_inv : PipeInv pipe_init.
Proof. split; cbn; try done; [by left|]. split; [done|by intros []]. Qed.

Lemma pipe_reachable_inv s : rtc (pipe_step chunks) pipe_init s → PipeInv s.
Proof.
  intros Hr. pose proof pipe_init_inv as Hi. revert Hi.
  induction Hr as [|s1 s2 s3 Hs _ IH]; [done|]. intros Hi. by eapply IH, pipe_step_inv.
Qed.

Definition finished (s : pipe) : Prop := ∃ c, main s = MnFinal c.

Lemma pipe_progress s : PipeInv s → ¬ finished s → ∃ s', pipe_step chunks s s'.
Proof.
  intros [I1 IW I2 I3] Hn. destruct (main s) eqn:Em.
  - destruct (script s) eqn:Es.
    + eexists. by apply sc_exit.
    + destruct I1 as [E|E]; [by right| |].
      * eexists. by apply rd_open.
      * eexists. apply sc_opened; [done|]. by rewrite E.
    + eexists. by eapply sc_close.
    + eexists. by eapply mn_exited.
  - destruct (pipeOpenedByScript s) eqn:Ef; eexists; [by apply mn_skip|by apply mn_default].
  - destruct (present s) eqn:Ep.
    + destruct (reader s) eqn:Er; try (eexists; apply mn_open; [done|done|by rewrite Er]).
      * eexists. by apply rd_open.
      * discriminate (proj2 I3 (or_intror eq_refl)).
    + eexists. by apply mn_open_fails.
  - destruct failed.
    + eexists. eapply mn_write_fails; [done|by left].
    + destruct (reader s) eqn:Er;
        try (eexists; apply mn_write; [done|by rewrite Er]);
        eexists; (eapply mn_write_fails; [done|right; rewrite Er; by intros []]).
  - eexists. by eapply mn_close.
  - eexists. by apply mn_final.
  - destruct Hn. by eexists.
Qed.
End PipeFacts.

(** ** What the buffer can hold *)

Definition text_of (cs : list string) : string := foldr String.append "" cs.

Lemma text_of_snoc cs c : text_of (cs ++ [c]) = text_of cs +:+ c.
Proof.
  unfold text_of. induction cs as [|c' cs IH]; [apply string_app_nil_r|].
  cbn [foldr app]. by rewrite IH, string_assoc.
Qed.

Section Contents.
Context (chunks : list string).

(** The pieces the script has written. *)
Definition pieces (sc : script_pc) : nat :=
  match sc with ScWriting n | ScExited n => n | _ => 0 end.

Definition written (sc : script_pc) : string := text_of (take (pieces sc) chunks).

(** What [ReadAll] has read, until it is copied. *)
Definition read_text (s : pipe) : string :=
  match reader s with RdReading acc | RdGot acc => acc | _ => "" end.

Definition copied (r : reader_pc) : bool :=
  match r with RdCopied | RdRemoved | RdClosed => true | _ => false end.

(** [ReadAll] has returned. *)
Definition got (r : reader_pc) : bool := match r with RdGot _ => true | _ => false end.

Definition before_default (m : main_pc) : bool :=
  match m with MnRun | MnCheck | MnOpening | MnOpened _ => true | _ => false end.

(** All that the script has written, or that with the default message. *)
Definition whole (sc : script_pc) (t : string) : Prop :=
  t = written sc ∨ t = written sc +:+ default_message.

(** The buffer holds as much of a text [t] as fits. *)
Definition holds (s : pipe) (t : string) : Prop :=
  callbackContextBuffer s = copy_into (nuls buffer_size) t.

Record TextInv (s : pipe) : Prop := {
  ti_pieces : pieces (script s) <= length chunks;
  ti_before : before_default (main s) = true → copied (reader s) = false →
    read_text s +:+ unread s = written (script s);
  ti_text : copied (reader s) = false → whole (script s) (read_text s +:+ unread s);
  ti_got : got (reader s) = true → whole (script s) (read_text s);
  ti_copied : copied (reader s) = true → ∃ t, whole (script s) t ∧ holds s t;
  ti_buffer : copied (reader s) = false → callbackContextBuffer s = nuls buffer_size;
  ti_final : ∀ c, main s = MnFinal c →
    ∃ t, (t = "" ∨ whole (script s) t) ∧ c = callback_context t
}.

Lemma copy_into_nothing b : copy_into b "" = b.
Proof. by destruct b. Qed.

Lemma buffer_possible s : TextInv s → ∃ t, (t = "" ∨ whole (script s) t) ∧ holds s t.
Proof.
  intros [_ _ _ _ T4 T5 _]. unfold holds. destruct (copied (reader s)).
  - destruct T4 as (t & Ht & ?); [done|]. exists t. auto.
  - exists "". rewrite copy_into_nothing. auto.
Qed.

(** Steps that only move a process along. *)
Lemma text_frame s s' :
  TextInv s → read_text s' = read_text s → unread s' = unread s →
  callbackContextBuffer s' = callbackContextBuffer s →
  copied (reader s') = copied (reader s) → got (reader s') = got (reader s) →
  pieces (script s') = pieces (script s) →
  (before_default (main s') = true → before_default (main s) = true) →
  (∀ c, main s' = MnFinal c → main s = MnFinal c) → TextInv s'.
Proof.
  intros [T0 T1 T2 T3 T4 T5 T6] Er Eu Eb F1 F2 F3 F4 F5.
  split; unfold whole, holds, written in *; rewrite ?Er, ?Eu, ?Eb, ?F1, ?F2, ?F3; auto.
Qed.

Lemma wake_text s :
  read_text (to_reader (wake (reader s)) s) = read_text s ∧
  copied (wake (reader s)) = copied (reader s) ∧ got (wake (reader s)) = got (reader s).
Proof. unfold read_text. cbn. by destruct (reader s). Qed.

Ltac frame E :=
  eapply text_frame; [eassumption|..]; unfold read_text; cbn; rewrite ?E; try done;
  try (intros ? [=]; fail).

Lemma read_step_text acc s :
  TextInv s → reader s = RdReading acc → unread s ≠ "" →
  TextInv (put_unread "" (to_reader (RdReading (acc +:+ unread s)) s)).
Proof.
  intros [T0 T1 T2 T3 T4 T5 T6] E Hu. unfold read_text in *. rewrite E in *.
  split; unfold read_text; cbn; rewrite ?string_app_nil_r; auto; done.
Qed.

Lemma eof_step_text acc s :
  TextInv s → reader s = RdReading acc → unread s = "" → TextInv (to_reader (RdGot acc) s).
Proof.
  intros [T0 T1 T2 T3 T4 T5 T6] E Hu. unfold read_text in *. rewrite E, Hu in *.
  rewrite !string_app_nil_r in *.
  split; unfold read_text; cbn; rewrite ?Hu, ?string_app_nil_r; auto.
Qed.

Lemma copy_step_text acc s :
  TextInv s → reader s = RdGot acc →
  TextInv (mkPipe (present s) (unread s) (writers s) RdCopied (script s) (main s)
    (pipeOpenedByScript s) (copy_into (callbackContextBuffer s) acc)).
Proof.
  intros [T0 T1 T2 T3 T4 T5 T6] E. unfold read_text, holds in *. rewrite E in *.
  split; unfold read_text, holds; cbn; auto; try done.
  intros _. exists acc. split; [by apply T3|]. by rewrite T5.
Qed.

Lemma script_write_text n c s :
  PipeInv s → TextInv s → script s = ScWriting n → chunks !! n = Some c →
  TextInv (put_unread (unread s +:+ c) (to_script (ScWriting (S n)) (writers s) s)).
Proof.
  intros [_ IW I2 _] [T0 T1 T2 T3 T4 T5 T6] E Hc. rewrite E in *. cbn in *.
  destruct (IW eq_refl) as [_ Hrd]. rewrite (I2 eq_refl) in *.
  pose proof (lookup_lt_Some _ _ _ Hc).
  assert (Hnc : copied (reader s) = false) by (by destruct (reader s)).
  assert (Hng : got (reader s) = false) by (by destruct (reader s)).
  assert (Ew : read_text s +:+ unread s +:+ c = written (ScWriting (S n))).
  { rewrite string_assoc, (T1 eq_refl Hnc). unfold written. cbn [pieces].
    by rewrite (take_S_r _ _ _ Hc), text_of_snoc. }
  split; cbn; rewrite ?(I2 eq_refl), ?Hnc, ?Hng; change (read_text _) with (read_text s);
    auto; try done.
  by left.
Qed.

Lemma default_step_text s :
  PipeInv s → TextInv s → main s = MnOpened false →
  TextInv (put_unread (unread s +:+ default_message) (to_main (MnWrote false) (writers s) s)).
Proof.
  intros [_ _ I2 _] [T0 T1 T2 T3 T4 T5 T6] E. rewrite E in *.
  split; cbn; change (read_text _) with (read_text s); auto; try done.
  intros Hc. right. by rewrite string_assoc, T1.
Qed.

Lemma final_step_text s :
  TextInv s → TextInv (to_main (MnFinal (Trim_nul (callbackContextBuffer s))) (writers s) s).
Proof.
  intros HT. pose proof (buffer_possible s HT) as (t & Ht & Eb).
  destruct HT as [T0 T1 T2 T3 T4 T5 T6].
  split; cbn; change (read_text _) with (read_text s); auto; [done|].
  intros c [= <-]. exists t. split; [exact Ht|].
  unfold callback_context, holds in *. rewrite Eb. reflexivity.
Qed.

Lemma text_step s s' :
  PipeInv s → TextInv s → pipe_step chunks s s' → TextInv s'.
Proof.
  intros HI Ht Hs. pose proof (wake_text s) as (Hwr & Hwc & Hwd). unfold read_text in Hwr.
  cbn in Hwr.
  destruct Hs as [s E|s E|s acc E Hu|s acc E Hu Hw|s acc E|s E|s E|s E|s E|s E Hr|s n c E Hc|s n E
    |s n E Es|s E Ef|s E Ef|s E Ep Hr|s E Ep|s E Hr|s b E Hr|s b E|s E]; try (frame E; congruence).
  - by apply read_step_text.
  - by apply eof_step_text.
  - by apply copy_step_text.
  - by apply script_write_text.
  - by apply default_step_text.
  - by apply final_step_text.
Qed.

Lemma text_init : TextInv pipe_init.
Proof. split; cbn; try done; [lia|by left]. Qed.

Lemma text_reachable s : rtc (pipe_step chunks) pipe_init s → PipeInv s ∧ TextInv s.
Proof.
  intros Hr. pose proof (conj pipe_init_inv text_init) as Hi. revert Hi.
  induction Hr as [|s1 s2 s3 Hs _ IH]; [done|]. intros [Hp Ht]. apply IH.
  split; [by eapply pipe_step_inv|by eapply text_step].
Qed.
End Contents.

Lemma work_bound chunks n s s' :
  nsteps (pipe_step chunks) n s s' → n + work chunks s' <= work chunks s.
Proof.
  induction 1 as [|n s1 s2 s3 Hs _ IH]; [lia|].
  pose proof (work_decreases _ _ _ Hs). lia.
Qed.

(** The callback pipe never deadlocks or loops: however [Read], the script
    and [ClosePipe] are interleaved, an execution makes a bounded number of
    steps, and as long as [Execute] has not used the buffer one of the three can
    go on, whether the script opens the pipe or not; so [Execute] always gets
    to its result. *)
Theorem callback_completes (chunks : list string) (n : nat) (s : pipe) :
  nsteps (pipe_step chunks) n pipe_init s →
  n + work chunks s <= 2 * length chunks + 25 ∧ (finished s ∨ ∃ s', pipe_step chunks s s').
Proof.
  intros Hn. split.
  { assert (Ew : work chunks pipe_init = 2 * length chunks + 25)
      by (unfold work; cbn [reader script main unread pipe_init]; case_decide; [cbn; lia|done]).
    rewrite <- Ew. by apply work_bound. }
  assert (Hi : PipeInv s).
  { eapply pipe_reachable_inv, rtc_nsteps. by exists n. }
  destruct (main s) as [| | |b|b| |c] eqn:Em; try (right; apply pipe_progress; [done|];
    intros [c' E]; congruence).
  left. by exists c.
Qed.

(** C32. The context an execution reports is what [Execute] makes - cut at the
    16384 bytes of the buffer, zero bytes at its ends trimmed - of nothing, of
    all that the script wrote before it exited, or of that with the default
    message behind it (the default message alone if the script wrote nothing);
    no interleaving mixes the texts or loses the end of a written one, and the
    context is made after the script has exited. *)
Theorem callback_context_possible (chunks : list string) (s : pipe) (c : string) :
  rtc (pipe_step chunks) pipe_init s → main s = MnFinal c →
  ∃ n t, n <= length chunks ∧ script s = ScExited n ∧ c = callback_context t ∧
    (t = "" ∨ t = text_of (take n chunks) ∨ t = text_of (take n chunks) +:+ default_message).
Proof.
  intros Hr Hm. apply text_reachable in Hr as [[_ _ I2 _] [T0 _ _ _ _ _ T6]].
  destruct (script s) as [| |n|n] eqn:E; cbn in *; try (by rewrite I2 in Hm).
  destruct (T6 c Hm) as (t & Ht & ->). by exists n, t.
Qed.

(** ** Runs *)

(** The moves of the three processes, as a schedule. *)
Inductive move : Type := MvReader | MvScript | MvScriptQuits | MvMain.

#[export] Instance move_eq_dec : EqDecision move.
Proof. solve_decision. Defined.

(** The step the schedule's process makes, [None] when it is blocked. *)
Definition move_step (chunks : list string) (mv : move) (s : pipe) : option pipe :=
  match mv with
  | MvReader =>
      match reader s with
      | RdStart => Some (to_reader RdOpening s)
      | RdOpening | RdClosed => None
      | RdOpened =>
          Some (mkPipe (present s) (unread s) (writers s) (RdReading "") (script s)
            (main s) true (callbackContextBuffer s))
      | RdReading acc =>
          if decide (unread s = "") then
            if decide (writers s = 0) then Some (to_reader (RdGot acc) s) else None
          else Some (put_unread "" (to_reader (RdReading (acc +:+ unread s)) s))
      | RdGot acc =>
          Some (mkPipe (present s) (unread s) (writers s) RdCopied (script s)
            (main s) (pipeOpenedByScript s) (copy_into (callbackContextBuffer s) acc))
      | RdCopied =>
          Some (mkPipe false (unread s) (writers s) RdRemoved (script s)
            (main s) (pipeOpenedByScript s) (callbackContextBuffer s))
      | RdRemoved => Some (to_reader RdClosed s)
      end
  | MvScriptQuits =>
      match script s with
      | ScStart => Some (to_script (ScExited 0) (writers s) s)
      | ScWriting n => Some (to_script (ScExited n) (pred (writers s)) s)
      | _ => None
      end
  | MvScript =>
      match script s with
      | ScStart => Some (to_script ScOpening (writers s) s)
      | ScOpening =>
          if decide (has_reader (reader s)) then
            Some (to_reader (wake (reader s)) (to_script (ScWriting 0) (S (writers s)) s))
          else None
      | ScWriting n =>
          match chunks !! n with
          | Some c => Some (put_unread (unread s +:+ c) (to_script (ScWriting (S n)) (writers s) s))
          | None => Some (to_script (ScExited n) (pred (writers s)) s)
          end
      | ScExited _ => None
      end
  | MvMain =>
      match main s with
      | MnRun => match script s with ScExited _ => Some (to_main MnCheck (writers s) s) | _ => None end
      | MnCheck =>
          if pipeOpenedByScript s then Some (to_main MnClosed (writers s) s)
          else Some (to_main MnOpening (writers s) s)
      | MnOpening =>
          if present s then
            if decide (has_reader (reader s)) then
              Some (to_reader (wake (reader s)) (to_main (MnOpened false) (S (writers s)) s))
            else None
          else Some (to_main (MnOpened true) (writers s) s)
      | MnOpened true => Some (to_main (MnWrote true) (writers s) s)
      | MnOpened false =>
          if decide (has_reader (reader s)) then
            Some (put_unread (unread s +:+ default_message) (to_main (MnWrote false) (writers s) s))
          else Some (to_main (MnWrote false) (writers s) s)
      | MnWrote b =>
          Some (to_main MnClosed (if b then writers s else pred (writers s)) s)
      | MnClosed =>
          Some (to_main (MnFinal (Trim_nul (callbackContextBuffer s))) (writers s) s)
      | MnFinal _ => None
      end
  end.

Fixpoint run_moves (chunks : list string) (mvs : list move) (s : pipe) : option pipe :=
  match mvs with
  | [] => Some s
  | mv :: mvs =>
      match move_step chunks mv s with
      | Some s' => run_moves chunks mvs s'
      | None => None
      end
  end.


Lemma move_step_sound chunks mv s s' :
  move_step chunks mv s = Some s' → pipe_step chunks s s'.
Proof.
  destruct mv; cbn; repeat case_match; intros [= <-]; subst; try (by econstructor).
  - eapply mn_write_fails; [done|by left].
  - eapply mn_write_fails; [done|by right].
  - by apply (mn_close _ _ true).
  - by apply (mn_close _ _ false).
Qed.

Lemma run_moves_sound chunks mvs : ∀ s s',
  run_moves chunks mvs s = Some s' → rtc (pipe_step chunks) s s'.
Proof.
  induction mvs as [|mv mvs IH]; intros s s'; cbn; [by intros [= <-]|].
  destruct (move_step chunks mv s) as [s1|] eqn:E; [|done].
  intros Hr. eapply rtc_l; [by apply (move_step_sound chunks mv)|by apply IH].
Qed.

(** An execution, with the given buffer, whose script writes its context
    ([writes]) or leaves the pipe alone can report [c]. *)
Definition outcome_with (buffer context : string) (writes : bool) (c : string) : Prop :=
  ∃ mvs s, run_moves [context] mvs (pipe_with buffer) = Some s ∧ main s = MnFinal c ∧
    bool_decide (MvScript ∈ mvs) = writes.

Definition outcome : string → bool → string → Prop := outcome_with (nuls buffer_size).

(** The script from its start to its exit, the reader waiting in its open. *)
Definition script_runs : list move := MvReader :: repeat MvScript 4.

(** [ClosePipe] writing the default message, [Read] waiting in its open when
    it gets there. *)
Definition default_written : list move := repeat MvMain 5.

(** The flag, the reads and the copy. *)
Definition read_all (context : string) : list move :=
  repeat MvReader (if decide (context = "") then 3 else 4).

(** The schedules, for any buffer, so that none is computed. *)
Lemma race_outcomes (buffer context : string) :
  let ctx t := Trim_nul (copy_into buffer t) in
  outcome_with buffer context true (ctx context) ∧
  outcome_with buffer context true (Trim_nul buffer) ∧
  outcome_with buffer context true (ctx (context +:+ default_message)) ∧
  outcome_with buffer context false (ctx default_message) ∧
  outcome_with buffer context false (Trim_nul buffer).
Proof.
  cbv zeta. split_and!.
  - exists (script_runs ++ read_all context ++ repeat MvMain 3).
    destruct context; eexists; (split; [vm_compute; reflexivity|split; vm_compute; reflexivity]).
  - exists (script_runs ++ [MvReader] ++ repeat MvMain 3).
    destruct context; eexists; (split; [vm_compute; reflexivity|split; vm_compute; reflexivity]).
  - exists (script_runs ++ default_written ++ repeat MvReader 4 ++ [MvMain]).
    destruct context; eexists; (split; [vm_compute; reflexivity|split; vm_compute; reflexivity]).
  - exists ([MvScriptQuits; MvReader] ++ default_written ++ repeat MvReader 4 ++ [MvMain]).
    eexists. split; [vm_compute; reflexivity|split; vm_compute; reflexivity].
  - exists ([MvScriptQuits; MvReader] ++ default_written ++ [MvMain]).
    eexists. split; [vm_compute; reflexivity|split; vm_compute; reflexivity].
Qed.

Lemma empty_context : Trim_nul (nuls buffer_size) = "".
Proof. vm_compute. reflexivity. Qed.

(** All of these happen, since [Execute] does not wait for [Read]: an
    execution whose script wrote its context may report it, or nothing
    ([Read] has not copied it yet), or the text with the default message
    behind it ([ClosePipe] ran between the two steps of [Read]'s open and
    flag); one whose script wrote nothing may report the default message, as
    the executor means it to, or nothing. *)
Theorem callback_context_races (context : string) :
  outcome context true (callback_context context) ∧ outcome context true "" ∧
  outcome context true (callback_context (context +:+ default_message)) ∧
  outcome context false (callback_context default_message) ∧ outcome context false "".
Proof. rewrite <- empty_context. exact (race_outcomes (nuls buffer_size) context). Qed.

(** A script killed between its two pieces: what it wrote is read. *)
Example killed_script_context :
  option_map main (run_moves ["con"; "text"] ([MvReader; MvScript; MvScript; MvScript; MvScriptQuits] ++
    repeat MvReader 4 ++ repeat MvMain 3) pipe_init) = Some (MnFinal "con").
Proof. vm_compute. reflexivity. Qed.

Lemma callback_completes_witness :
  (∃ s, nsteps (pipe_step ["ctx"]) 2 pipe_init s) ∧
  ∀ s, nsteps (pipe_step ["ctx"]) 2 pipe_init s →
    2 + work ["ctx"] s <= 27 ∧ (finished s ∨ ∃ s', pipe_step ["ctx"] s s').
Proof.
  split; [|intros s Hn; exact (callback_completes ["ctx"] 2 s Hn)].
  eexists. eapply nsteps_l; [by apply rd_open|]. eapply nsteps_l; [by apply sc_open|].
  apply nsteps_O.
Defined.

Lemma callback_context_possible_witness :
  ∃ s, main s = MnFinal "context" ∧ ∃ n t, n <= 2 ∧ script s = ScExited n ∧
    "context" = callback_context t ∧
    (t = "" ∨ t = text_of (take n ["con"; "text"]) ∨
     t = text_of (take n ["con"; "text"]) +:+ default_message).
Proof.
  destruct (run_moves ["con"; "text"] ([MvReader; MvScript; MvScript; MvScript; MvReader; MvReader] ++
    repeat MvScript 2 ++ repeat MvReader 3 ++ repeat MvMain 3) pipe_init)
    as [s|] eqn:E; [|vm_compute in E; discriminate].
  assert (Hm : option_map main (Some s) = Some (MnFinal "context")).
  { rewrite <- E. vm_compute. reflexivity. }
  injection Hm as Hm. exists s. split; [exact Hm|].
  exact (callback_context_possible ["con"; "text"] s "context" (run_moves_sound _ _ _ _ E) Hm).
Defined.
