(* ===== verification/WindowsCallback.v ===== *)
(** * runbook/callback_context_handler_windows.go: the callback pipe on Windows.

    [CreatePipe] listens on the pipe, [Read] accepts one client and reads once,
    the script may be the client, and [ClosePipe] becomes the client when the
    flag tells it that the script was not. The pipe itself is go-winio's
    (vendor/github.com/Microsoft/go-winio/pipe.go): a client gets a connection
    while an [Accept] is waiting; otherwise it finds the pipe busy, and
    [DialPipe] fails after two seconds, or it finds no pipe once the listener is
    closed. A read returns some of what has been written, or the end of the file
    when the client is gone. A write that go-winio makes wait for the reader is
    a write here whose writer is slow. *)

From stdpp Require Import base list numbers strings relations.
From Stdlib Require Import Lia.
From S2P Require Import Prelude GoStrings Runbook Callback.

#[local] Arguments nuls : simpl never.
#[local] Arguments buffer_size : simpl never.

(** [pipeListener]. *)
Inductive listener_state : Type :=
  | LnNil                        (* ListenPipe failed *)
  | LnOpen
  | LnClosed.

(** [Read]. *)
Inductive accept_pc : Type :=
  | AcStart                      (* before the deferred Close and Accept *)
  | AcWaiting                    (* in Accept *)
  | AcConnected                  (* before pipeOpenedByScript = true *)
  | AcReading                    (* in pipe.Read *)
  | AcGot                        (* before pipe.Close *)
  | AcPipeClosed                 (* before pipeListener.Close *)
  | AcDone.

(** The script: it may dial the pipe, write its context in pieces, and exit. *)
Inductive client_pc : Type :=
  | ClStart
  | ClDialing
  | ClWriting (chunks : list string)
  | ClExited.

(** [Execute] from [cmd.Run] on. *)
Inductive close_pc : Type :=
  | CpRun                        (* in cmd.Run *)
  | CpCheck                      (* in ClosePipe, before the test of the flag *)
  | CpDialing                    (* in DialPipe *)
  | CpDialed                     (* before Write *)
  | CpWrote                      (* before the deferred Close *)
  | CpClosed                     (* before the use of the buffer *)
  | CpFinal (context : string).

Record winpipe : Type := mkWinpipe {
  pipeListener : listener_state;
  connected : bool;              (* the client's end of the connection is open *)
  sent : string;                 (* written by the client and not read *)
  accepting : accept_pc;
  client : client_pc;
  closing : close_pc;
  opened : bool;                 (* pipeOpenedByScript *)
  buffer : string;               (* callbackContextBuffer *)
  crashed : bool                 (* a goroutine called a method of a nil interface *)
}.

(** After [NewCallbackContextHandler] and [CreatePipe]; [ok]: [ListenPipe]
    succeeded. *)
Definition CreatePipe (ok : bool) : winpipe :=
  mkWinpipe (if ok then LnOpen else LnNil) false "" AcStart ClStart CpRun false
    (nuls buffer_size) false.

(** The server's end of the connection is open. *)
Definition server_open (r : accept_pc) : bool :=
  match r with AcConnected | AcReading | AcGot => true | _ => false end.

Definition set_accepting (r : accept_pc) (s : winpipe) : winpipe :=
  mkWinpipe (pipeListener s) (connected s) (sent s) r (client s) (closing s)
    (opened s) (buffer s) (crashed s).

Definition set_client (c : client_pc) (s : winpipe) : winpipe :=
  mkWinpipe (pipeListener s) (connected s) (sent s) (accepting s) c (closing s)
    (opened s) (buffer s) (crashed s).

Definition set_closing (m : close_pc) (s : winpipe) : winpipe :=
  mkWinpipe (pipeListener s) (connected s) (sent s) (accepting s) (client s) m
    (opened s) (buffer s) (crashed s).

Definition set_connected (b : bool) (s : winpipe) : winpipe :=
  mkWinpipe (pipeListener s) b (sent s) (accepting s) (client s) (closing s)
    (opened s) (buffer s) (crashed s).

Definition put_sent (x : string) (s : winpipe) : winpipe :=
  mkWinpipe (pipeListener s) (connected s) x (accepting s) (client s) (closing s)
    (opened s) (buffer s) (crashed s).

Definition crash (s : winpipe) : winpipe :=
  mkWinpipe (pipeListener s) (connected s) (sent s) (accepting s) (client s) (closing s)
    (opened s) (buffer s) true.

(** A client's connection: the waiting [Accept] gets it. *)
Definition connect (s : winpipe) : winpipe :=
  set_accepting AcConnected (set_connected true s).

(** What a read into a full buffer leaves behind. *)
Fixpoint left_over (buffer data : string) : string :=
  match buffer, data with
  | String _ buffer, String _ data => left_over buffer data
  | _, data => data
  end.

(** [pipe.Read(callbackContextBuffer)]. *)
Definition read_once (s : winpipe) : winpipe :=
  mkWinpipe (pipeListener s) (connected s) (left_over (buffer s) (sent s)) AcGot (client s)
    (closing s) (opened s) (copy_into (buffer s) (sent s)) (crashed s).

(** [Read]; on a nil listener the deferred [Close] is a call of a nil
    interface's method. *)
Definition Read_step (s : winpipe) : option winpipe :=
  match accepting s with
  | AcStart =>
      match pipeListener s with
      | LnNil => Some (crash s)
      | _ => Some (set_accepting AcWaiting s)
      end
  | AcWaiting | AcDone => None
  | AcConnected =>
      Some (mkWinpipe (pipeListener s) (connected s) (sent s) AcReading (client s) (closing s)
        true (buffer s) (crashed s))
  | AcReading =>
      if decide (sent s = "") then
        if connected s then None else Some (set_accepting AcGot s)
      else Some (read_once s)
  | AcGot => Some (set_accepting AcPipeClosed s)
  | AcPipeClosed =>
      Some (mkWinpipe LnClosed (connected s) (sent s) AcDone (client s) (closing s)
        (opened s) (buffer s) (crashed s))
  end.

(** [Accept] returns an error. *)
Definition Accept_fails (s : winpipe) : option winpipe :=
  match accepting s with AcWaiting => Some (set_accepting AcPipeClosed s) | _ => None end.

(** The script goes on; [chunks] is what it writes once it is connected. *)
Definition script_step (chunks : list string) (s : winpipe) : option winpipe :=
  match client s with
  | ClStart => Some (set_client ClDialing s)
  | ClDialing =>
      match accepting s with
      | AcWaiting => Some (set_client (ClWriting chunks) (connect s))
      | _ => None
      end
  | ClWriting (c :: cs) =>
      if server_open (accepting s) then
        Some (put_sent (sent s +:+ c) (set_client (ClWriting cs) s))
      else Some (set_client (ClWriting []) s)
  | ClWriting [] | ClExited => None
  end.

(** The script exits, at any time; what it had open is closed. *)
Definition script_exit (s : winpipe) : option winpipe :=
  match client s with
  | ClExited => None
  | ClWriting _ => Some (set_client ClExited (set_connected false s))
  | _ => Some (set_client ClExited s)
  end.

(** [Execute] and [ClosePipe]; when [DialPipe] fails, the deferred [Close] is a
    call of a nil interface's method. *)
Definition ClosePipe_step (s : winpipe) : option winpipe :=
  match closing s with
  | CpRun => match client s with ClExited => Some (set_closing CpCheck s) | _ => None end
  | CpCheck => Some (set_closing (if opened s then CpClosed else CpDialing) s)
  | CpDialing =>
      match accepting s with
      | AcWaiting => Some (set_closing CpDialed (connect s))
      | _ => Some (crash s)
      end
  | CpDialed =>
      if server_open (accepting s) then
        Some (put_sent (sent s +:+ default_message) (set_closing CpWrote s))
      else Some (set_closing CpWrote s)
  | CpWrote => Some (set_closing CpClosed (set_connected false s))
  | CpClosed => Some (set_closing (CpFinal (Trim_nul (buffer s))) s)
  | CpFinal _ => None
  end.

Inductive win_label : Type := VRead | VAcceptFails | VScript | VScriptExits | VClosePipe.

#[export] Instance win_label_eq_dec : EqDecision win_label.
Proof. solve_decision. Defined.

Definition win_move (chunks : list string) (l : win_label) (s : winpipe) : option winpipe :=
  if crashed s then None
  else match l with
       | VRead => Read_step s
       | VAcceptFails => Accept_fails s
       | VScript => script_step chunks s
       | VScriptExits => script_exit s
       | VClosePipe => ClosePipe_step s
       end.

Definition win_step (chunks : list string) (s s' : winpipe) : Prop :=
  ∃ l, win_move chunks l s = Some s'.

Fixpoint win_run (chunks : list string) (ls : list win_label) (s : winpipe) : option winpipe :=
  match ls with
  | [] => Some s
  | l :: ls =>
      match win_move chunks l s with
      | Some s' => win_run chunks ls s'
      | None => None
      end
  end.

(** Case analysis of a move. *)
Ltac win_cases H :=
  match type of H with
  | win_move _ ?l ?s = Some _ =>
      unfold win_move in H; destruct (crashed s) eqn:?; [discriminate|];
      destruct l; unfold Read_step, Accept_fails, script_step, script_exit, ClosePipe_step in H;
      repeat case_match; simplify_eq
  end.

Section WindowsCallback.
Context (chunks : list string).

(** ** Termination *)

Definition accept_rank (r : accept_pc) : nat :=
  match r with
  | AcStart => 6 | AcWaiting => 5 | AcConnected => 4 | AcReading => 3 | AcGot => 2
  | AcPipeClosed => 1 | AcDone => 0
  end.

Definition client_rank (c : client_pc) : nat :=
  match c with
  | ClStart => length chunks + 3 | ClDialing => length chunks + 2
  | ClWriting cs => length cs + 1 | ClExited => 0
  end.

Definition close_rank (m : close_pc) : nat :=
  match m with
  | CpRun => 6 | CpCheck => 5 | CpDialing => 4 | CpDialed => 3 | CpWrote => 2
  | CpClosed => 1 | CpFinal _ => 0
  end.

Definition win_work (s : winpipe) : nat :=
  accept_rank (accepting s) + client_rank (client s) + close_rank (closing s) +
  (if crashed s then 0 else 1).

Lemma win_work_decreases s s' : win_step chunks s s' → win_work s' < win_work s.
Proof.
  intros [l Hm]. win_cases Hm; unfold win_work; cbn;
    repeat match goal with E : _ = _ |- _ => rewrite E; clear E end; cbn; lia.
Qed.

(** ** What the buffer can hold *)

(** What a client can have written. *)
Definition client_text (t : string) : Prop :=
  t = default_message ∨ ∃ n, n <= length chunks ∧ t = text_of (take n chunks).

(** The connection is there and nothing has been read. *)
Definition unread_yet (r : accept_pc) : bool :=
  match r with AcConnected | AcReading => true | _ => false end.

Definition unconnected (r : accept_pc) : bool :=
  match r with AcStart | AcWaiting => true | _ => false end.

Record WinInv (s : winpipe) : Prop := {
  wi_run : client s ≠ ClExited → closing s = CpRun;
  wi_early : unconnected (accepting s) = true → sent s = "" ∧ buffer s = nuls buffer_size;
  wi_unread : unread_yet (accepting s) = true →
    client_text (sent s) ∧ buffer s = nuls buffer_size;
  wi_script : ∀ cs, client s = ClWriting cs → unread_yet (accepting s) = true →
    ∃ n, n <= length chunks ∧ cs = drop n chunks ∧ sent s = text_of (take n chunks);
  wi_dialed : closing s = CpDialed → unread_yet (accepting s) = true → sent s = "";
  wi_buffer : ∃ t, client_text t ∧ buffer s = copy_into (nuls buffer_size) t;
  wi_final : ∀ c, closing s = CpFinal c → ∃ t, client_text t ∧ c = callback_context t
}.

Lemma client_text_empty : client_text "".
Proof. right. exists 0. split; [lia|done]. Qed.

Lemma copy_into_empty b : copy_into b "" = b.
Proof. by destruct b. Qed.

Lemma empty_buffer : ∃ t, client_text t ∧ nuls buffer_size = copy_into (nuls buffer_size) t.
Proof. exists "". split; [apply client_text_empty|]. by rewrite copy_into_empty. Qed.

Lemma CreatePipe_inv ok : WinInv (CreatePipe ok).
Proof. split; try done. exact empty_buffer. Qed.

(** Moves that write and read nothing. *)
Lemma inv_frame s s' :
  WinInv s → sent s' = sent s → buffer s' = buffer s →
  (unconnected (accepting s') = true → unconnected (accepting s) = true) →
  (unread_yet (accepting s') = true → unread_yet (accepting s) = true) →
  (∀ cs, client s' = ClWriting cs → unread_yet (accepting s') = true → client s = ClWriting cs) →
  (client s' ≠ ClExited → closing s' = CpRun) →
  (closing s' = CpDialed → closing s = CpDialed) →
  (∀ c, closing s' = CpFinal c → closing s = CpFinal c) → WinInv s'.
Proof.
  intros [I1 I2 I3 I4 I5 I6 I7] Es Eb Hu Hy Hc Hr Hd Hf.
  split; rewrite ?Es, ?Eb; auto.
Qed.

Ltac frame HI :=
  eapply inv_frame; [exact HI|..]; cbn;
  repeat match goal with
  | E : accepting _ = _ |- _ => rewrite ?E; clear E
  | E : client _ = _ |- _ => rewrite ?E; clear E
  | E : closing _ = _ |- _ => rewrite ?E; clear E
  end; cbn; try done; try congruence;
  try (intros; simplify_eq; fail); try (apply HI).

Lemma Read_step_inv s s' : WinInv s → Read_step s = Some s' → WinInv s'.
Proof.
  intros HI Hm. unfold Read_step in Hm. repeat case_match; simplify_eq; try (by frame HI).
  destruct HI as [I1 I2 I3 I4 I5 I6 I7]. destruct I3 as [Ht Eb]; [by rewrite H|].
  split; cbn; try done. exists (sent s). by rewrite Eb.
Qed.

Lemma Accept_fails_inv s s' : WinInv s → Accept_fails s = Some s' → WinInv s'.
Proof.
  intros HI Hm. unfold Accept_fails in Hm. repeat case_match; simplify_eq. by frame HI.
Qed.

Lemma script_step_inv s s' : WinInv s → script_step chunks s = Some s' → WinInv s'.
Proof.
  intros HI Hm. unfold script_step in Hm.
  assert (Hrun : client s ≠ ClExited → closing s = CpRun) by apply HI.
  destruct (client s) as [| |[|c cs]|] eqn:Ec; simplify_eq; specialize (Hrun ltac:(done)).
  - by frame HI.
  - destruct (accepting s) eqn:Ea; simplify_eq. destruct HI as [I1 I2 I3 I4 I5 I6 I7].
    rewrite Ea in I2. destruct (I2 eq_refl) as [Es Eb].
    split; cbn; rewrite ?Es, ?Eb; auto; try done.
    + intros _. split; [exact client_text_empty|done].
    + intros cs Hcs _. injection Hcs as <-. exists 0. split_and!; [lia|done..].
    + exact empty_buffer.
  - destruct (server_open (accepting s)) eqn:Eo; simplify_eq; [|frame HI; auto].
    2: { intros cs' _ Hy. by destruct (accepting s). }
    destruct HI as [I1 I2 I3 I4 I5 I6 I7].
    assert (Hnext : unread_yet (accepting s) = true → ∃ n, n <= length chunks ∧
      cs = drop n chunks ∧ sent s +:+ c = text_of (take n chunks)).
    { intros Hy. destruct (I4 _ Ec Hy) as (n & Hn & Ed & Es). exists (S n).
      assert (En : chunks !! n = Some c) by (by rewrite <- (Nat.add_0_r n), <- lookup_drop, <- Ed).
      pose proof (lookup_lt_Some _ _ _ En). rewrite (take_S_r _ _ _ En), text_of_snoc, <- Es.
      split_and!; [lia| |done]. rewrite (drop_S _ _ _ En) in Ed. by injection Ed. }
    split; cbn; rewrite ?Hrun; auto; try done.
    + intros Hu. exfalso. by destruct (accepting s).
    + intros Hy. destruct (Hnext Hy) as (n & Hn & _ & ->). split; [right; by exists n|].
      by apply I3.
    + intros cs' [= <-] Hy. by apply Hnext.
Qed.

Lemma script_exit_inv s s' : WinInv s → script_exit s = Some s' → WinInv s'.
Proof.
  intros HI Hm. unfold script_exit in Hm. repeat case_match; simplify_eq; by frame HI.
Qed.

Lemma ClosePipe_step_inv s s' : WinInv s → ClosePipe_step s = Some s' → WinInv s'.
Proof.
  intros HI Hm. unfold ClosePipe_step in Hm.
  assert (Hex : closing s ≠ CpRun → client s = ClExited).
  { intros Hne. destruct (client s) eqn:Ec; try done; by destruct Hne; apply HI; rewrite Ec. }
  destruct (closing s) eqn:Em; try specialize (Hex ltac:(done)).
  - case_match; simplify_eq. by frame HI.
  - injection Hm as <-. destruct (opened s); frame HI; congruence.
  - destruct (accepting s) eqn:Ea; simplify_eq; try (frame HI; congruence).
    destruct HI as [I1 I2 I3 I4 I5 I6 I7]. rewrite Ea in I2. destruct (I2 eq_refl) as [Es Eb].
    split; cbn; rewrite ?Es, ?Eb, ?Hex; try done.
    + intros _. split; [exact client_text_empty|done].
    + exact empty_buffer.
  - destruct (server_open _) eqn:Eo; simplify_eq; [|frame HI; congruence].
    destruct HI as [I1 I2 I3 I4 I5 I6 I7].
    split; cbn; rewrite ?Hex; try done; [by destruct (accepting s)|].
    intros Hy. rewrite (I5 Em Hy). split; [by left|by apply I3].
  - simplify_eq. frame HI; congruence.
  - simplify_eq. destruct HI as [I1 I2 I3 I4 I5 I6 I7].
    split; cbn; try done.
    intros c Hc. injection Hc as <-.
    destruct I6 as (t & Ht & Eb). exists t. split; [done|]. unfold callback_context. by rewrite Eb.
  - done.
Qed.

Lemma win_step_inv s s' : WinInv s → win_step chunks s s' → WinInv s'.
Proof.
  intros HI [l Hm]. unfold win_move in Hm. destruct (crashed s); [done|].
  destruct l; [by eapply Read_step_inv|by eapply Accept_fails_inv|by eapply script_step_inv
    |by eapply script_exit_inv|by eapply ClosePipe_step_inv].
Qed.

Lemma win_reachable_inv ok s : rtc (win_step chunks) (CreatePipe ok) s → WinInv s.
Proof.
  intros Hr. pose proof (CreatePipe_inv ok) as Hi. revert Hi.
  induction Hr as [|s1 s2 s3 Hs _ IH]; [done|]. intros Hi. by eapply IH, win_step_inv.
Qed.

(** ** No crash once the race is over *)

(** [ClosePipe] will find the flag set, or [Accept] waiting for it. *)
Definition past_race (s : winpipe) : Prop :=
  crashed s = false ∧ client s = ClExited ∧
  match closing s with
  | CpRun => False
  | CpCheck => opened s = true ∨ accepting s = AcWaiting
  | CpDialing => accepting s = AcWaiting
  | _ => True
  end.

Lemma past_race_step l s s' :
  past_race s → pipeListener s ≠ LnNil → l ≠ VAcceptFails → win_move chunks l s = Some s' →
  past_race s' ∧ pipeListener s' ≠ LnNil.
Proof.
  intros (Hc & Hex & Hp) Hl Ha Hm. unfold win_move in Hm. rewrite Hc in Hm.
  destruct l; try done; unfold Read_step, script_step, script_exit, ClosePipe_step in Hm;
    rewrite ?Hex in Hm; try done; destruct (closing s) eqn:Em; try done;
    repeat case_match; simplify_eq; unfold past_race; cbn; rewrite ?Hc, ?Hex, ?Em; intuition congruence.
Qed.

Lemma past_race_run ls : ∀ s s',
  past_race s → pipeListener s ≠ LnNil → VAcceptFails ∉ ls → win_run chunks ls s = Some s' →
  crashed s' = false.
Proof.
  induction ls as [|l ls IH]; intros s s' Hp Hl Ha; cbn.
  - intros [= <-]. apply Hp.
  - apply not_elem_of_cons in Ha as [Ha1 Ha2].
    destruct (win_move chunks l s) as [s1|] eqn:E; [|done].
    destruct (past_race_step l s s1 Hp Hl) as [Hp1 Hl1]; [congruence|done|]. by eapply IH.
Qed.

Lemma win_run_sound ls : ∀ s s', win_run chunks ls s = Some s' → rtc (win_step chunks) s s'.
Proof.
  induction ls as [|l ls IH]; intros s s'; cbn; [by intros [= <-]|].
  destruct (win_move chunks l s) as [s1|] eqn:E; [|done].
  intros Hr. eapply rtc_l; [by exists l|by apply IH].
Qed.

Lemma win_work_bound n s s' : nsteps (win_step chunks) n s s' → n + win_work s' <= win_work s.
Proof.
  induction 1 as [|n s1 s2 s3 Hs _ IH]; [lia|]. pose proof (win_work_decreases _ _ Hs). lia.
Qed.
End WindowsCallback.

(** The script connects, writes and exits between the two steps of [Read]'s
    accept; [ClosePipe] looks at the flag; [Read] gets to its end. *)
Definition race_schedule : list win_label :=
  [VRead] ++ replicate 3 VScript ++ [VScriptExits; VClosePipe; VClosePipe] ++
  replicate 4 VRead ++ [VClosePipe].

Lemma race_run context b :
  ∃ s, win_run [context] race_schedule
      (mkWinpipe LnOpen false "" AcStart ClStart CpRun false b false) = Some s ∧
    crashed s = true ∧ client s = ClExited ∧ opened s = true ∧ buffer s = copy_into b context.
Proof.
  destruct context as [|a context]; eexists; (split; [vm_compute; reflexivity|]);
    cbn; split_and!; try reflexivity.
  by destruct b.
Qed.

(** C33. On Windows the context an execution reports is the default message or
    the script's text up to the end of one of its writes (nothing, if none was
    read), cut at the size of the buffer: the only read may come before the
    script is done, and the two texts are never joined. *)
Theorem windows_context_possible chunks ok s c :
  rtc (win_step chunks) (CreatePipe ok) s → closing s = CpFinal c →
  client s = ClExited ∧
  (c = default_message ∨
   ∃ n, n <= length chunks ∧ c = callback_context (text_of (take n chunks))).
Proof.
  intros Hr Hm. apply win_reachable_inv in Hr as HI. destruct HI as [I1 _ _ _ _ _ I7]. split.
  - destruct (client s); try done; rewrite I1 in Hm; done.
  - destruct (I7 c Hm) as (t & [->|(n & Hn & ->)] & ->); [left; by vm_compute|]. right. by exists n.
Qed.

(** C34. On Windows [ClosePipe] needs [Read] to have got somewhere. If, when it
    looks at the flag, the flag is set or [Accept] is waiting, and [Accept] does
    not fail, nothing crashes any more. But [Read] sets the flag after [Accept]
    has returned: a script that connects, writes its context and exits in
    between makes [ClosePipe] dial a pipe that is gone, and the deferred [Close]
    of the nil connection crashes the program. *)
Theorem windows_close_pipe_race (context : string) :
  (∀ chunks ok s ls s',
    rtc (win_step chunks) (CreatePipe ok) s → crashed s = false → closing s = CpCheck →
    pipeListener s ≠ LnNil → (opened s = true ∨ accepting s = AcWaiting) →
    VAcceptFails ∉ ls → win_run chunks ls s = Some s' → crashed s' = false) ∧
  ∃ ls s, win_run [context] ls (CreatePipe true) = Some s ∧ (VAcceptFails ∉ ls) ∧
    crashed s = true ∧ client s = ClExited ∧ opened s = true ∧
    buffer s = copy_into (nuls buffer_size) context.
Proof.
  split.
  - intros chunks ok s ls s' Hr Hc Hm Hl Hp Ha Hrun.
    apply (past_race_run chunks ls s s'); try done. split; [done|]. rewrite Hm. split; [|done].
    apply win_reachable_inv in Hr as [I1 _ _ _ _ _ _].
    destruct (client s); try done; rewrite I1 in Hm; done.
  - exists race_schedule. destruct (race_run context (nuls buffer_size)) as (s & Hr & ? & ? & ? & ?).
    exists s. split; [exact Hr|]. split; [by apply (bool_decide_unpack _)|]. done.
Qed.

(** [ClosePipe] never waits for [Read] and nothing loops: an execution makes at
    most as many moves as [win_work] says, and until it has its result or has
    crashed, a move is possible. *)
Theorem windows_callback_completes chunks ok n s :
  nsteps (win_step chunks) n (CreatePipe ok) s →
  n <= length chunks + 16 ∧
  (crashed s = true ∨ (∃ c, closing s = CpFinal c) ∨ ∃ s', win_step chunks s s').
Proof.
  intros Hn. split.
  - pose proof (win_work_bound chunks n _ s Hn) as Hw. unfold win_work in Hw. cbn in Hw. lia.
  - destruct (crashed s) eqn:Ec; [by left|right].
    destruct (script_exit s) as [s'|] eqn:Es.
    { right. exists s', VScriptExits. unfold win_move. by rewrite Ec. }
    assert (E : client s = ClExited) by (unfold script_exit in Es; by repeat case_match).
    destruct (ClosePipe_step s) as [s'|] eqn:Ep.
    + right. exists s', VClosePipe. unfold win_move. by rewrite Ec.
    + left. unfold ClosePipe_step in Ep. rewrite E in Ep. repeat case_match; simplify_eq. by eexists.
Qed.

(** ** Runs *)

(** The context is read while the script runs; the script writes it in two
    pieces, of which the second comes too late. *)
Definition read_schedule : list win_label :=
  [VRead] ++ replicate 3 VScript ++ [VRead; VRead; VScript; VScriptExits] ++
  replicate 3 VClosePipe.

Definition win_at (chunks : list string) (ls : list win_label) : winpipe :=
  default (CreatePipe true) (win_run chunks ls (CreatePipe true)).

Example read_schedule_context :
  closing (win_at ["con"; "text"] read_schedule) = CpFinal "con".
Proof. vm_compute. reflexivity. Qed.

Example no_listener_crashes : ∃ s, win_run [] [VRead] (CreatePipe false) = Some s ∧ crashed s = true.
Proof. eexists. split; reflexivity. Qed.

Lemma windows_context_possible_witness :
  client (win_at ["con"; "text"] read_schedule) = ClExited ∧
  ("con" = default_message ∨ ∃ n, n <= 2 ∧
    "con" = callback_context (text_of (take n ["con"; "text"]))).
Proof.
  apply (windows_context_possible ["con"; "text"] true).
  - unfold win_at. destruct (win_run _ _ _) as [s|] eqn:E; [|reflexivity].
    apply (win_run_sound _ _ _ _ E).
  - vm_compute. reflexivity.
Defined.

Lemma windows_close_pipe_race_witness :
  ∃ ls s, win_run ["ctx"] ls (CreatePipe true) = Some s ∧ crashed s = true.
Proof.
  destruct (windows_close_pipe_race "ctx") as [_ (ls & s & Hr & _ & Hc & _)]. by exists ls, s.
Defined.

Lemma windows_callback_completes_witness :
  (∃ s, nsteps (win_step ["ctx"]) 1 (CreatePipe true) s) ∧ ∀ s,
    nsteps (win_step ["ctx"]) 1 (CreatePipe true) s → 1 <= length ["ctx"] + 16 ∧
    (crashed s = true ∨ (∃ c, closing s = CpFinal c) ∨ ∃ s', win_step ["ctx"] s s').
Proof.
  split; [|intros s Hn; exact (windows_callback_completes ["ctx"] true 1 s Hn)].
  eexists. eapply nsteps_l; [by exists VRead|apply nsteps_O].
Defined.
