(* ===== verification/LogFiles.v ===== *)
(** * The log files: newQueueMessageLogrus (queue/poller.go), CheckLogFile
    (util/util.go) and main's log (main/main.go).

    Every log has a lumberjack Logger, which writes to the file it has open, and
    a goroutine that looks every ten seconds whether there is a file at the
    log's path and rotates the Logger when there is none. A file is its inode:
    a renamed or removed file that is open can still be written. [rotate] and
    [Write] follow vendor/gopkg.in/natefinch/lumberjack.v2/lumberjack.go; one
    call of a Logger, which holds its mutex, is one step. *)

From stdpp Require Import base list numbers strings gmap relations pretty.
From Stdlib Require Import Lia.
From S2P Require Import Prelude GoStrings.

(** ** The paths *)

Section Paths.
Context (pid : Z).

Definition queue_log_path (region : string) : string :=
  Join ["/var"; "log"; "jec";
        "jecQueueMessages-" +:+ region +:+ "-" +:+ FormatInt pid +:+ ".log"].

Definition defaultLogFilepath : string :=
  Join ["/var"; "log"; "jec"; "jec" +:+ FormatInt pid +:+ ".log"].
End Paths.

(** ** Loggers and files *)

Record Logger : Type := mkLogger {
  Filename : string;
  file : option nat              (* the inode open for writing *)
}.

Record disk : Type := mkDisk {
  inode_at : gmap string nat;
  next_inode : nat
}.

(** How far a rotation gets: to the close of the old file, the directory, the
    renaming, the new file, or all the way. *)
Inductive rotation : Type := CloseFails | MkdirFails | RenameFails | OpenFails | Rotated.

(** Puts a new file at the logger's path. *)
Definition open_file (l : Logger) (d : disk) : Logger * disk :=
  (mkLogger (Filename l) (Some (next_inode d)),
   mkDisk (<[Filename l := next_inode d]> (inode_at d)) (S (next_inode d))).

(** [openNew]; a file that exists becomes the backup [bk]. The result tells
    whether it returned [nil]. *)
Definition openNew (bk : string) (o : rotation) (l : Logger) (d : disk) : bool * (Logger * disk) :=
  let closed := mkLogger (Filename l) None in
  match o with
  | CloseFails | MkdirFails => (false, (closed, d))
  | _ =>
      match inode_at d !! Filename l with
      | Some i =>
          let d' := mkDisk (<[bk := i]> (delete (Filename l) (inode_at d))) (next_inode d) in
          match o with
          | RenameFails => (false, (closed, d))
          | OpenFails => (false, (closed, d'))
          | _ => (true, open_file closed d')
          end
      | None =>
          match o with
          | OpenFails => (false, (closed, d))
          | _ => (true, open_file closed d)
          end
      end
  end.

(** [Rotate]: the open file is closed first. *)
Definition Rotate (bk : string) (o : rotation) (l : Logger) (d : disk) : bool * (Logger * disk) :=
  openNew bk o l d.

(** [Write] of a line; [full]: the file would become too large. The line goes
    to the file that is open in the end. *)
Definition Write (full : bool) (bk : string) (o : rotation) (l : Logger) (d : disk) :
    bool * (Logger * disk) :=
  if full then Rotate bk o l d
  else match file l with
       | Some _ => (true, (l, d))
       | None =>
           match inode_at d !! Filename l with
           | Some i => (true, (mkLogger (Filename l) (Some i), d))
           | None => openNew bk o l d
           end
       end.

(** ** The goroutines of [CheckLogFile] *)

(** In [time.After], before [os.Stat], before [Rotate]. The [break] leaves the
    [select], not the loop. *)
Inductive watcher : Type := WtSleep | WtStat | WtRotate.

Record logging : Type := mkLogging {
  the_disk : disk;
  loggers : list (Logger * watcher)
}.

Inductive log_label : Type :=
  | LgMain                                               (* main's logger *)
  | LgQueue (region : string) (bk : string) (o : rotation)  (* newQueueMessageLogrus *)
  | LgWrite (k : nat) (full : bool) (bk : string) (o : rotation)
  | LgFire (k : nat)                                     (* the interval is over *)
  | LgStat (k : nat)
  | LgRotate (k : nat) (bk : string) (o : rotation)
  | LgRemove (path : string).                            (* somebody removes a file *)

Section Logs.
Context (pid : Z).

Definition newQueueMessageLogrus (region bk : string) (o : rotation) (s : logging) : logging :=
  let '(_, (l, d)) := Rotate bk o (mkLogger (queue_log_path pid region) None) (the_disk s) in
  mkLogging d (loggers s ++ [(l, WtSleep)]).

(** The body of the loop of [CheckLogFile]. *)
Definition CheckLogFile (k : nat) (l : log_label) (s : logging) : option logging :=
  match loggers s !! k, l with
  | Some (lg, WtSleep), LgFire _ =>
      Some (mkLogging (the_disk s) (<[k := (lg, WtStat)]> (loggers s)))
  | Some (lg, WtStat), LgStat _ =>
      Some (mkLogging (the_disk s)
        (<[k := (lg, match inode_at (the_disk s) !! Filename lg with
                     | Some _ => WtSleep
                     | None => WtRotate
                     end)]> (loggers s)))
  | Some (lg, WtRotate), LgRotate _ bk o =>
      let '(_, (lg, d)) := Rotate bk o lg (the_disk s) in
      Some (mkLogging d (<[k := (lg, WtSleep)]> (loggers s)))
  | _, _ => None
  end.

Definition log_move (l : log_label) (s : logging) : option logging :=
  match l with
  | LgMain =>
      Some (mkLogging (the_disk s)
        (loggers s ++ [(mkLogger (defaultLogFilepath pid) None, WtSleep)]))
  | LgQueue region bk o => Some (newQueueMessageLogrus region bk o s)
  | LgWrite k full bk o =>
      match loggers s !! k with
      | Some (lg, w) =>
          let '(_, (lg, d)) := Write full bk o lg (the_disk s) in
          Some (mkLogging d (<[k := (lg, w)]> (loggers s)))
      | None => None
      end
  | LgFire k | LgStat k | LgRotate k _ _ => CheckLogFile k l s
  | LgRemove path =>
      Some (mkLogging (mkDisk (delete path (inode_at (the_disk s))) (next_inode (the_disk s)))
        (loggers s))
  end.

Fixpoint log_run (ls : list log_label) (s : logging) : option logging :=
  match ls with
  | [] => Some s
  | l :: ls => match log_move l s with Some s' => log_run ls s' | None => None end
  end.
End Logs.

(** ** Each log has its own path *)

Lemma clean_step_name rooted st w :
  w ≠ "" → w ≠ "." → w ≠ ".." → clean_step rooted st w = w :: st.
Proof.
  intros N1 N2 N3. unfold clean_step. rewrite decide_False by (by intros [?|?]).
  by rewrite decide_False.
Qed.

Lemma log_dir_path w :
  no_slash w → w ≠ "" → w ≠ "." → w ≠ ".." → Join ["/var"; "log"; "jec"; w] = "/var/log/jec/" +:+ w.
Proof.
  intros Hs H1 H2 H3. unfold Join. rewrite decide_False by done.
  change (join_slash ["/var"; "log"; "jec"; w]) with (join_slash [""; "var"; "log"; "jec"; w]).
  unfold Clean. rewrite split_join; [|done|by repeat constructor].
  change (IsAbs _) with true. cbv beta iota zeta. unfold clean_components.
  change (foldl _ _ _) with (clean_step true ["jec"; "log"; "var"] w).
  rewrite clean_step_name by done. by unfold reverse.
Qed.

Lemma no_slash_app x y : no_slash (x +:+ y) ↔ no_slash x ∧ no_slash y.
Proof.
  induction x as [|c x IH]; [by rewrite string_app_nil_l; cbn; tauto|].
  rewrite string_app_cons. cbn. rewrite IH. tauto.
Qed.

Lemma string_app_inj_l x y z : x +:+ y = x +:+ z → y = z.
Proof. induction x as [|c x IH]; [done|]. rewrite !string_app_cons. by intros [= ?%IH]. Qed.

Lemma string_app_inj_r x y z : x +:+ z = y +:+ z → x = y.
Proof.
  revert y. induction x as [|c x IH]; intros [|d y]; rewrite ?string_app_nil_l, ?string_app_cons;
    intros E; [done| | |].
  - exfalso. apply (f_equal String.length) in E. cbn in E. rewrite length_string_app in E. lia.
  - exfalso. apply (f_equal String.length) in E. cbn in E. rewrite length_string_app in E. lia.
  - injection E as -> E. f_equal. by apply IH.
Qed.

Lemma pretty_go_no_slash n : ∀ s, no_slash s → no_slash (pretty_N_go n s).
Proof.
  induction (N.lt_wf_0 n) as [n _ IH]. intros s Hs.
  destruct (decide (0 < n)%N) as [Hn|Hn].
  - rewrite pretty_N_go_step by done. apply IH; [by apply N.div_lt|].
    split; [|done]. unfold pretty_N_char. by repeat case_match.
  - replace n with 0%N by lia. by rewrite pretty_N_go_0.
Qed.

Lemma FormatInt_no_slash z : no_slash (FormatInt z).
Proof.
  assert (Hp : ∀ n : N, no_slash (pretty n)).
  { intros n. unfold pretty, pretty_N. case_decide; [done|]. by apply pretty_go_no_slash. }
  unfold FormatInt. destruct z as [|z|z]; [done|apply (Hp (N.pos z))|].
  change (no_slash ("-" +:+ pretty (N.pos z))). by rewrite no_slash_app.
Qed.

Lemma queue_log_path_eq pid region :
  no_slash region →
  queue_log_path pid region =
    "/var/log/jec/jecQueueMessages-" +:+ region +:+ "-" +:+ FormatInt pid +:+ ".log".
Proof.
  intros Hr. unfold queue_log_path. rewrite log_dir_path; [by rewrite !string_assoc| |done..].
  rewrite !no_slash_app. pose proof (FormatInt_no_slash pid). done.
Qed.

Lemma queue_log_path_inj pid r1 r2 :
  no_slash r1 → no_slash r2 → queue_log_path pid r1 = queue_log_path pid r2 → r1 = r2.
Proof.
  intros H1 H2. rewrite !queue_log_path_eq by done. intros E%string_app_inj_l.
  by eapply string_app_inj_r.
Qed.

(** ** A logger writes to the file at its path *)

Definition filenames (s : logging) : list string := Filename ∘ fst <$> loggers s.

(** The file a logger has open is the one at its path, or there is none. *)
Definition in_place (s : logging) : Prop :=
  ∀ k lg w i, loggers s !! k = Some (lg, w) → file lg = Some i →
    inode_at (the_disk s) !! Filename lg = Some i ∨
    inode_at (the_disk s) !! Filename lg = None.

(** The names given to backups. *)
Definition backups (l : log_label) : list string :=
  match l with
  | LgQueue _ bk _ | LgWrite _ _ bk _ | LgRotate _ bk _ => [bk]
  | _ => []
  end.

(** What a call of a logger changes: its own path, and a backup's. *)
Definition own_change (bks : list string) (lg : Logger) (d : disk) (lg' : Logger) (d' : disk) : Prop :=
  Filename lg' = Filename lg ∧
  (∀ i, file lg' = Some i → file lg = Some i ∧ d' = d ∨ inode_at d' !! Filename lg = Some i) ∧
  ∀ path, path ≠ Filename lg → path ∉ bks → inode_at d' !! path = inode_at d !! path.

Lemma openNew_change bk o lg d ok lg' d' :
  openNew bk o lg d = (ok, (lg', d')) → own_change [bk] lg d lg' d'.
Proof.
  unfold openNew, open_file. intros E. repeat case_match; simplify_eq/=; split_and!; try done.
  all: try (intros i [= <-]; right; apply lookup_insert_eq); try (by intros i [=]).
  all: intros path N1 N2%not_elem_of_cons; destruct N2 as [N2 _]; cbn; rewrite ?lookup_insert_ne, ?lookup_delete_ne by congruence; try done.
Qed.

Lemma Write_change full bk o lg d ok lg' d' :
  Write full bk o lg d = (ok, (lg', d')) → own_change [bk] lg d lg' d'.
Proof.
  unfold Write. destruct full; [apply openNew_change|].
  destruct (file lg) as [i|] eqn:Ef; [intros [= <- <- <-]; split_and!; [done| |done]; by left|].
  destruct (inode_at d !! Filename lg) as [i|] eqn:Ei; [|apply openNew_change].
  intros [= <- <- <-]. split_and!; [done| |done]. intros j [= <-]. by right.
Qed.

Lemma in_place_change k bks lg w lg' w' d' s :
  in_place s → NoDup (filenames s) → (∀ bk, bk ∈ bks → bk ∉ filenames s) → loggers s !! k = Some (lg, w) →
  own_change bks lg (the_disk s) lg' d' →
  in_place (mkLogging d' (<[k := (lg', w')]> (loggers s))).
Proof.
  intros Hin Hnd Hbk Hk (Hn & Hf & Ho) j lg2 w2 i Hj Hi. cbn in *.
  apply list_lookup_insert_Some in Hj as [(<- & [= <- <-] & _)|[Hne Hj]].
  - rewrite Hn. destruct (Hf i Hi) as [[Hi' ->]|Hi']; [by eapply Hin|by left].
  - rewrite Ho; [by eapply Hin| |].
    + intros E. apply Hne. eapply (NoDup_lookup (filenames s)); [done| |];
        unfold filenames; rewrite list_lookup_fmap; [by rewrite Hk|by rewrite Hj; cbn; rewrite E].
    + intros Hin'. apply (Hbk _ Hin'). apply list_elem_of_lookup. exists j. unfold filenames.
      by rewrite list_lookup_fmap, Hj.
Qed.

Lemma filenames_insert k lg w lg' w' ls d d' :
  ls !! k = Some (lg, w) → Filename lg' = Filename lg →
  filenames (mkLogging d' (<[k := (lg', w')]> ls)) = filenames (mkLogging d ls).
Proof.
  intros Hk E. unfold filenames. cbn. rewrite list_fmap_insert. apply list_insert_id.
  by rewrite list_lookup_fmap, Hk; cbn; rewrite E.
Qed.

Lemma own_change_refl bks lg d : own_change bks lg d lg d.
Proof. split_and!; try done. by left. Qed.

(** Any move but a creation and a removal changes one logger. *)
Definition updates (bks : list string) (s s' : logging) : Prop :=
  ∃ k lg w lg' w', loggers s !! k = Some (lg, w) ∧
    own_change bks lg (the_disk s) lg' (the_disk s') ∧
    loggers s' = <[k := (lg', w')]> (loggers s).

Lemma updates_names bks s s' : updates bks s s' → filenames s' = filenames s.
Proof.
  intros (k & lg & w & lg' & w' & Hk & (Hn & _) & E).
  destruct s as [d ls], s' as [d' ls']. cbn in *. subst.
  by apply (filenames_insert k lg w lg' w' ls d d').
Qed.

Lemma updates_in_place bks s s' :
  in_place s → NoDup (filenames s) → (∀ bk, bk ∈ bks → bk ∉ filenames s) →
  updates bks s s' → in_place s'.
Proof.
  intros Hin Hnd Hbk (k & lg & w & lg' & w' & Hk & Hc & E). destruct s' as [d' ls']. cbn in *.
  subst. by eapply in_place_change.
Qed.

(** A logger that has no file open yet. *)
Definition added (name : string) (s : logging) : logging :=
  mkLogging (the_disk s) (loggers s ++ [(mkLogger name None, WtSleep)]).

Lemma added_in_place name s : in_place s → in_place (added name s).
Proof.
  intros Hin k lg w i Hk Hi. cbn in *.
  apply lookup_snoc_Some in Hk as [[_ Hk]|[_ [= <- <-]]]; [by eapply Hin|done].
Qed.

Lemma added_names name s : filenames (added name s) = filenames s ++ [name].
Proof. unfold filenames. cbn. by rewrite fmap_app. Qed.

Section LogProps.
Context (pid : Z).

Lemma log_move_shape l s s' :
  log_move pid l s = Some s' →
  (∃ name, s' = added name s) ∨
  (∃ name, updates (backups l) (added name s) s') ∨
  (∃ path, l = LgRemove path ∧
     s' = mkLogging (mkDisk (delete path (inode_at (the_disk s))) (next_inode (the_disk s)))
            (loggers s)) ∨
  updates (backups l) s s'.
Proof.
  intros Hm. destruct l as [|region bk o|k full bk o|k|k|k bk o|path]; cbn in Hm.
  - injection Hm as <-. left. by eexists.
  - injection Hm as <-. right. left. exists (queue_log_path pid region).
    unfold newQueueMessageLogrus.
    destruct (Rotate _ _ _ _) as [ok [lg' d']] eqn:E. apply openNew_change in E.
    exists (length (loggers s)), (mkLogger (queue_log_path pid region) None), WtSleep, lg', WtSleep.
    split; [|split; [done|]]; cbn.
    + by rewrite lookup_app_r, Nat.sub_diag.
    + rewrite <- (Nat.add_0_r (length _)), insert_app_r. done.
  - do 3 right. destruct (loggers s !! k) as [[lg w]|] eqn:Ek; [|done].
    destruct (Write _ _ _ _ _) as [ok [lg' d']] eqn:E. apply Write_change in E.
    injection Hm as <-. by exists k, lg, w, lg', w.
  - do 3 right. unfold CheckLogFile in Hm.
    repeat case_match; simplify_eq. do 5 eexists. split_and!; [done|apply own_change_refl|done].
  - do 3 right. unfold CheckLogFile in Hm.
    destruct (loggers s !! k) as [[lg []]|] eqn:Ek; simplify_eq.
    do 5 eexists. split_and!; [done|apply own_change_refl|done].
  - do 3 right. unfold CheckLogFile in Hm. destruct (loggers s !! k) as [[lg []]|] eqn:Ek; simplify_eq.
    destruct (Rotate _ _ _ _) as [ok [lg' d']] eqn:E. apply openNew_change in E.
    injection Hm as <-. by exists k, lg, WtRotate, lg', WtSleep.
  - injection Hm as <-. right. right. left. by exists path.
Qed.

Lemma log_move_names l s s' :
  log_move pid l s = Some s' → ∃ new, filenames s' = filenames s ++ new.
Proof.
  intros [(n & ->)|[(n & Hu)|[(path & _ & ->)|Hu]]]%log_move_shape.
  - exists [n]. apply added_names.
  - exists [n]. by rewrite (updates_names _ _ _ Hu), added_names.
  - exists []. by rewrite app_nil_r.
  - exists []. by rewrite (updates_names _ _ _ Hu), app_nil_r.
Qed.

Lemma log_move_in_place l s s' :
  in_place s → log_move pid l s = Some s' → NoDup (filenames s') →
  (∀ bk, bk ∈ backups l → bk ∉ filenames s') → in_place s'.
Proof.
  intros Hin [(n & ->)|[(n & Hu)|[(path & _ & ->)|Hu]]]%log_move_shape Hnd Hbk.
  - by apply added_in_place.
  - rewrite (updates_names _ _ _ Hu) in *.
    by apply (updates_in_place _ _ _ (added_in_place n s Hin) Hnd Hbk).
  - intros k lg w i Hk Hi. cbn in *. destruct (decide (path = Filename lg)) as [->|Hne].
    + right. apply lookup_delete_eq.
    + rewrite lookup_delete_ne by done. by eapply Hin.
  - rewrite (updates_names _ _ _ Hu) in *. by apply (updates_in_place _ _ _ Hin Hnd Hbk).
Qed.

Lemma log_run_names ls : ∀ s s',
  log_run pid ls s = Some s' → ∃ new, filenames s' = filenames s ++ new.
Proof.
  induction ls as [|l ls IH]; intros s s'; cbn.
  - intros [= <-]. exists []. by rewrite app_nil_r.
  - destruct (log_move pid l s) as [s1|] eqn:E; [|done]. intros Hr.
    destruct (log_move_names _ _ _ E) as [n1 E1], (IH _ _ Hr) as [n2 E2].
    exists (n1 ++ n2). by rewrite E2, E1, (assoc_L (++)).
Qed.

Lemma log_run_in_place ls : ∀ s s',
  in_place s → log_run pid ls s = Some s' → NoDup (filenames s') →
  (∀ bk, bk ∈ ls ≫= backups → bk ∉ filenames s') → in_place s'.
Proof.
  induction ls as [|l ls IH]; intros s s' Hin; cbn.
  - by intros [= <-].
  - destruct (log_move pid l s) as [s1|] eqn:E; [|done]. intros Hr Hnd Hbk.
    destruct (log_run_names ls s1 s' Hr) as [new En].
    apply (IH s1 s'); [|done..|intros bk Hb; apply Hbk, elem_of_app; by right].
    eapply log_move_in_place; [done..| |].
    + rewrite En in Hnd. by apply NoDup_app in Hnd as [? _].
    + intros bk Hb Hb'. apply (Hbk bk); [apply elem_of_app; by left|].
      rewrite En. apply elem_of_app. by left.
Qed.

(** Moves of the watchers and of the writers below the size limit. *)
Definition routine (l : log_label) : bool :=
  match l with
  | LgFire _ | LgStat _ | LgRotate _ _ _ | LgWrite _ false _ _ => true
  | _ => false
  end.

(** Every logger has a file open, there is a file at every path, and no watcher
    has seen one missing. *)
Definition undisturbed (s : logging) : Prop :=
  ∀ k lg w, loggers s !! k = Some (lg, w) →
    is_Some (file lg) ∧ is_Some (inode_at (the_disk s) !! Filename lg) ∧ w ≠ WtRotate.

Lemma undisturbed_move l s s' :
  undisturbed s → routine l = true → log_move pid l s = Some s' →
  undisturbed s' ∧ the_disk s' = the_disk s ∧ (loggers s').*1 = (loggers s).*1.
Proof.
  intros Hu Hl Hm.
  enough (∃ k lg w w', loggers s !! k = Some (lg, w) ∧ w' ≠ WtRotate ∧
    s' = mkLogging (the_disk s) (<[k := (lg, w')]> (loggers s)))
    as (k & lg & w & w' & Hk & Hw & ->).
  { split; [|split; [done|]].
    - intros j lg2 w2 Hj. cbn in *.
      apply list_lookup_insert_Some in Hj as [(<- & [= <- <-] & _)|[_ Hj]]; [|by eapply Hu].
      destruct (Hu k lg w Hk) as (? & ? & _). done.
    - cbn. rewrite list_fmap_insert. apply list_insert_id. by rewrite list_lookup_fmap, Hk. }
  destruct l as [| |k [] bk o|k|k|k bk o|]; try done; cbn in Hm; unfold CheckLogFile in Hm;
    destruct (loggers s !! k) as [[lg w]|] eqn:Ek; try done;
    destruct (Hu k lg w Ek) as ([i Hi] & [i' Hi'] & Hw).
  - unfold Write in Hm. rewrite Hi in Hm. injection Hm as <-. by exists k, lg, w, w.
  - destruct w; simplify_eq. by exists k, lg, WtSleep, WtStat.
  - destruct w; try done. rewrite Hi' in Hm. injection Hm as <-. by exists k, lg, WtStat, WtSleep.
  - by destruct w.
Qed.

Lemma undisturbed_run ls : ∀ s s',
  undisturbed s → Forall (λ l, routine l = true) ls → log_run pid ls s = Some s' →
  the_disk s' = the_disk s ∧ (loggers s').*1 = (loggers s).*1.
Proof.
  induction ls as [|l ls IH]; intros s s' Hu Hl; cbn; [by intros [= <-]|].
  apply Forall_cons in Hl as [Hl Hls].
  destruct (log_move pid l s) as [s1|] eqn:E; [|done]. intros Hr.
  destruct (undisturbed_move l s s1 Hu Hl E) as (Hu1 & <- & <-). by apply IH.
Qed.

(** The loggers a run creates. *)
Definition creates (l : log_label) : nat :=
  match l with LgMain | LgQueue _ _ _ => 1 | _ => 0 end.

Lemma log_move_count l s s' :
  log_move pid l s = Some s' → length (loggers s') = length (loggers s) + creates l.
Proof.
  intros Hm. destruct l as [|region bk o|k full bk o|k|k|k bk o|path]; cbn in Hm;
    unfold CheckLogFile, newQueueMessageLogrus in Hm; repeat case_match; simplify_eq; cbn;
    rewrite ?length_app, ?length_insert; cbn; lia.
Qed.
End LogProps.

(** ** The claims *)

(** C35. When the loggers have different paths and no backup is given the path
    of a log, then however creations, writes, rotations, checks and removals of
    files are interleaved, every logger that has a file open writes to the file
    at its path, unless that was removed; and a check that finds the file
    missing, and whose rotation succeeds, puts the logger back to a file at its
    path. Distinct regions give distinct paths ([queue_log_path_inj]). *)
Theorem log_files_recover pid d ls s :
  log_run pid ls (mkLogging d []) = Some s → NoDup (filenames s) →
  (∀ bk, bk ∈ ls ≫= backups → bk ∉ filenames s) →
  in_place s ∧
  ∀ k lg bk, loggers s !! k = Some (lg, WtStat) →
    inode_at (the_disk s) !! Filename lg = None →
    ∃ s' lg' i, log_run pid [LgStat k; LgRotate k bk Rotated] s = Some s' ∧
      loggers s' !! k = Some (lg', WtSleep) ∧ Filename lg' = Filename lg ∧
      file lg' = Some i ∧ inode_at (the_disk s') !! Filename lg = Some i.
Proof.
  intros Hr Hnd Hbk. split.
  { eapply log_run_in_place; [|done..]. intros k lg w i Hk. by destruct k. }
  intros k lg bk Hk Hnone. pose proof (lookup_lt_Some _ _ _ Hk) as Hlt.
  cbn. unfold CheckLogFile. rewrite Hk. cbn. rewrite Hnone, list_lookup_insert_eq by done.
  unfold Rotate, openNew. rewrite Hnone. do 3 eexists. split; [done|]. cbn.
  rewrite list_insert_insert_eq, list_lookup_insert_eq by done. split_and!; try done.
  apply lookup_insert_eq.
Qed.

Lemma queue_logger_created pid region bk s :
  let n := next_inode (the_disk s) in
  ∃ d, newQueueMessageLogrus pid region bk Rotated s =
      mkLogging d (loggers s ++ [(mkLogger (queue_log_path pid region) (Some n), WtSleep)]) ∧
    inode_at d !! queue_log_path pid region = Some n ∧ next_inode d = S n.
Proof.
  unfold newQueueMessageLogrus, Rotate, openNew. cbn [Filename].
  destruct (inode_at (the_disk s) !! queue_log_path pid region); cbn -[queue_log_path];
    eexists; (split; [done|split; [apply lookup_insert_eq|done]]).
Qed.

(** Two pollers of one region have one log path, and the second's creation
    renames the file the first has open: from then on the first writes to a
    backup, and no number of checks, which look at the path only, notices. *)
Theorem same_region_loggers_diverge pid region d bk1 bk2 s ls s' :
  log_run pid [LgQueue region bk1 Rotated; LgQueue region bk2 Rotated] (mkLogging d []) = Some s →
  Forall (λ l, routine l = true) ls → log_run pid ls s = Some s' →
  ∃ i j, file ∘ fst <$> loggers s' = [Some i; Some j] ∧ i ≠ j ∧
    filenames s' = [queue_log_path pid region; queue_log_path pid region] ∧
    inode_at (the_disk s') !! queue_log_path pid region = Some j.
Proof.
  set (path := queue_log_path pid region). intros Hs Hls Hr.
  assert (∃ i j, (loggers s) = [(mkLogger path (Some i), WtSleep); (mkLogger path (Some j), WtSleep)]
    ∧ i ≠ j ∧ inode_at (the_disk s) !! path = Some j) as (i & j & El & Hij & Hj).
  { cbn in Hs. injection Hs as <-.
    set (s1 := newQueueMessageLogrus pid region bk1 _ _).
    destruct (queue_logger_created pid region bk1 (mkLogging d [])) as (d1 & E1 & _ & Hn).
    destruct (queue_logger_created pid region bk2 s1) as (d2 & -> & Hj & _).
    subst s1. rewrite E1 in *. cbn [the_disk loggers app] in *.
    do 2 eexists. split; [done|split; [|exact Hj]]. rewrite Hn. cbn. lia. }
  destruct (undisturbed_run pid ls s s') as [Ed El']; [|done..|].
  - intros k lg w Hk. rewrite El in Hk.
    destruct k as [|[|k]]; cbn in Hk; simplify_eq; (split; [by eexists|split; [by exists j|done]]).
  - exists i, j. rewrite Ed. unfold filenames. rewrite !list_fmap_compose, El', El. done.
Qed.

(** [CheckLogFile] never returns: the goroutines are as many as the
    loggers ever created, one for every poller that was, stopped and removed or
    not, and each of them can always go on. *)
Theorem watchers_accumulate pid ls s s' :
  log_run pid ls s = Some s' →
  length (loggers s') = length (loggers s) + sum_list (creates <$> ls) ∧
  ∀ k, k < length (loggers s') → ∃ l s'', CheckLogFile k l s' = Some s''.
Proof.
  intros Hr. split.
  - revert s Hr. induction ls as [|l ls IH]; intros s; cbn; [intros [= <-]; lia|].
    destruct (log_move pid l s) as [s1|] eqn:E; [|done]. intros Hr.
    rewrite (IH s1 Hr), (log_move_count pid l s s1 E). lia.
  - intros k [[lg w] Hk]%lookup_lt_is_Some. unfold CheckLogFile. rewrite Hk. destruct w.
    + by exists (LgFire k); eexists.
    + by exists (LgStat k); eexists.
    + exists (LgRotate k "" Rotated). destruct (Rotate _ _ _ _) as [? [? ?]]. by eexists.
Qed.

(** ** Runs *)

(** A file is removed, and the next check puts it back. *)
Definition removal : list log_label :=
  [LgMain; LgQueue "eu" "bk" Rotated; LgQueue "us" "bk" Rotated; LgWrite 0 false "bk" Rotated;
   LgFire 1; LgRemove (queue_log_path 7 "eu")].

Definition log_at (ls : list log_label) : logging :=
  default (mkLogging (mkDisk ∅ 0) []) (log_run 7 ls (mkLogging (mkDisk ∅ 0) [])).

Example removal_repaired :
  file ∘ fst <$> loggers (log_at (removal ++ [LgStat 1; LgRotate 1 "bk" Rotated])) =
    [Some 2; Some 3; Some 1].
Proof. vm_compute. reflexivity. Qed.

Lemma log_files_recover_witness :
  in_place (log_at removal) ∧
  ∃ s' lg' i, log_run 7 [LgStat 1; LgRotate 1 "bk" Rotated] (log_at removal) = Some s' ∧
    loggers s' !! 1 = Some (lg', WtSleep) ∧
    Filename lg' = queue_log_path 7 "eu" ∧ file lg' = Some i ∧
    inode_at (the_disk s') !! queue_log_path 7 "eu" = Some i.
Proof.
  destruct (log_files_recover 7 (mkDisk ∅ 0) removal (log_at removal)) as [Hin Hre].
  - vm_compute. reflexivity.
  - apply (bool_decide_unpack _). vm_compute. exact I.
  - intros bk Hbk. assert (Hall : Forall (λ bk, bk ∉ filenames (log_at removal)) (removal ≫= backups)).
    { apply (bool_decide_unpack _). vm_compute. exact I. }
    by eapply (proj1 (Forall_forall _ _) Hall).
  - split; [exact Hin|].
    apply (Hre 1 (mkLogger (queue_log_path 7 "eu") (Some 0)) "bk"); vm_compute; reflexivity.
Defined.

Lemma same_region_loggers_diverge_witness :
  ∃ i j, file ∘ fst <$> loggers
      (log_at [LgQueue "eu" "bk1" Rotated; LgQueue "eu" "bk2" Rotated; LgFire 0; LgStat 0;
               LgWrite 0 false "bk" Rotated]) = [Some i; Some j] ∧ i ≠ j.
Proof.
  destruct (same_region_loggers_diverge 7 "eu" (mkDisk ∅ 0) "bk1" "bk2"
    (log_at [LgQueue "eu" "bk1" Rotated; LgQueue "eu" "bk2" Rotated])
    [LgFire 0; LgStat 0; LgWrite 0 false "bk" Rotated]
    (log_at [LgQueue "eu" "bk1" Rotated; LgQueue "eu" "bk2" Rotated; LgFire 0; LgStat 0;
             LgWrite 0 false "bk" Rotated])) as (i & j & E & Hij & _).
  - vm_compute. reflexivity.
  - repeat constructor.
  - vm_compute. reflexivity.
  - exists i, j. split; [exact E|exact Hij].
Defined.

Lemma watchers_accumulate_witness :
  length (loggers (log_at removal)) = 3 ∧
  length (loggers (log_at removal)) = 0 + sum_list (creates <$> removal).
Proof.
  split; [vm_compute; reflexivity|].
  apply (watchers_accumulate 7 removal (mkLogging (mkDisk ∅ 0) []) (log_at removal)).
  vm_compute. reflexivity.
Defined.
