(* ===== verification/RepositoryLocks.v ===== *)
(** * git/repository.go, queue/message.go: the lock of a repository.

    [execute] holds the read side of the repository's [rw] from the lookup of
    the repository to the end of the script; [Pull] and [Remove] hold the write
    side while they change the working tree. As in sync.RWMutex, a writer
    announces itself, which keeps later readers out, and then waits for the
    readers that are in. The contents of the working tree are of any type; a
    maintenance operation goes through any list of contents. *)

From stdpp Require Import base list numbers relations.
From Stdlib Require Import Lia.
From S2P Require Import Prelude.

Section RepositoryLock.
Context {T : Type}.

(** Where a goroutine is in [execute], for an action of a git source. *)
Inductive exec_pc : Type :=
  | ExStart                      (* before RLock *)
  | ExLocked                     (* before the script *)
  | ExRunning (t : T)            (* the script, and the tree it started on *)
  | ExReturned                   (* before the deferred RUnlock *)
  | ExDone.

(** Where the repository puller is in [Pull], or the processor in [Remove],
    with the contents the tree still goes through. *)
Inductive maint_pc : Type :=
  | MtStart (ts : list T)        (* before Lock *)
  | MtPending (ts : list T)      (* in Lock, announced *)
  | MtLocked (ts : list T)       (* Lock held *)
  | MtDone.

Record shared_repository : Type := mkShared {
  tree : T;
  executions : list exec_pc;
  maintainers : list maint_pc
}.

(** The read side of the lock. *)
Definition holds_read (e : exec_pc) : Prop :=
  match e with ExLocked | ExRunning _ | ExReturned => True | _ => False end.

(** The writers' own mutex. *)
Definition announced (m : maint_pc) : Prop :=
  match m with MtPending _ | MtLocked _ => True | _ => False end.

Definition at_exec (i : nat) (e : exec_pc) (s : shared_repository) : shared_repository :=
  mkShared (tree s) (<[i:=e]> (executions s)) (maintainers s).

Definition at_maint (j : nat) (m : maint_pc) (s : shared_repository) : shared_repository :=
  mkShared (tree s) (executions s) (<[j:=m]> (maintainers s)).

Inductive repo_step : shared_repository → shared_repository → Prop :=
  | ex_rlock s i :
      executions s !! i = Some ExStart → Forall (λ m, ¬ announced m) (maintainers s) →
      repo_step s (at_exec i ExLocked s)
  | ex_run s i :
      executions s !! i = Some ExLocked → repo_step s (at_exec i (ExRunning (tree s)) s)
  | ex_return s i t :
      executions s !! i = Some (ExRunning t) → repo_step s (at_exec i ExReturned s)
  | ex_runlock s i :
      executions s !! i = Some ExReturned → repo_step s (at_exec i ExDone s)
  | mt_announce s j ts :
      maintainers s !! j = Some (MtStart ts) → Forall (λ m, ¬ announced m) (maintainers s) →
      repo_step s (at_maint j (MtPending ts) s)
  | mt_lock s j ts :
      maintainers s !! j = Some (MtPending ts) → Forall (λ e, ¬ holds_read e) (executions s) →
      repo_step s (at_maint j (MtLocked ts) s)
  | mt_write s j t ts :
      maintainers s !! j = Some (MtLocked (t :: ts)) →
      repo_step s (mkShared t (executions s) (<[j:=MtLocked ts]> (maintainers s)))
  | mt_unlock s j :
      maintainers s !! j = Some (MtLocked []) → repo_step s (at_maint j MtDone s).

(** [m] executions and the given maintenance operations about to begin. *)
Definition repo_init (t : T) (m : nat) (tss : list (list T)) : shared_repository :=
  mkShared t (replicate m ExStart) (MtStart <$> tss).

#[export] Instance holds_read_dec e : Decision (holds_read e).
Proof. unfold Decision. destruct e; cbn; first [left; exact I|right; intros []]. Defined.

#[export] Instance announced_dec m : Decision (announced m).
Proof. unfold Decision. destruct m; cbn; first [left; exact I|right; intros []]. Defined.

(** ** The invariant *)

Record RepoInv (s : shared_repository) : Prop := {
  ri_exclusive : ∀ j ts, maintainers s !! j = Some (MtLocked ts) →
    Forall (λ e, ¬ holds_read e) (executions s);
  ri_single : ∀ j j' m m', maintainers s !! j = Some m → maintainers s !! j' = Some m' →
    announced m → announced m' → j = j';
  ri_tree : ∀ i t, executions s !! i = Some (ExRunning t) → tree s = t
}.

Lemma insert_lookup {A} (l : list A) i j x y :
  <[i:=x]> l !! j = Some y → i = j ∧ x = y ∨ i ≠ j ∧ l !! j = Some y.
Proof. intros E. apply list_lookup_insert_Some in E. tauto. Qed.

Lemma locked_reader s i e j ts :
  RepoInv s → executions s !! i = Some e → holds_read e →
  maintainers s !! j = Some (MtLocked ts) → False.
Proof.
  intros [R1 _ _] Hi He Hj. pose proof (R1 j ts Hj) as Hf.
  rewrite Forall_lookup in Hf. by eapply Hf.
Qed.

(** A move of an execution. *)
Lemma at_exec_inv s i e e' :
  RepoInv s → executions s !! i = Some e →
  (holds_read e' → holds_read e ∨ Forall (λ m, ¬ announced m) (maintainers s)) →
  (∀ t, e' = ExRunning t → tree s = t) → RepoInv (at_exec i e' s).
Proof.
  intros Hs Hi Hh Ht. pose proof Hs as [R1 R2 R3]. split; cbn.
  - intros j ts Hj. apply Forall_insert; [by eapply R1|]. intros He. destruct (Hh He) as [He'|Hf].
    + by eapply (locked_reader s i e j).
    + rewrite Forall_lookup in Hf. by apply (Hf j (MtLocked ts)).
  - exact R2.
  - intros k t Hk. apply insert_lookup in Hk as [[-> E]|[_ Hk]]; [by apply Ht|by eapply R3].
Qed.

(** A move of a maintainer, to a stage at which it is announced only if it was
    or no other is. *)
Lemma at_maint_inv s j m m' :
  RepoInv s → maintainers s !! j = Some m →
  (announced m' → announced m ∨ Forall (λ m, ¬ announced m) (maintainers s)) →
  (∀ ts, m' = MtLocked ts → Forall (λ e, ¬ holds_read e) (executions s)) →
  RepoInv (at_maint j m' s).
Proof.
  intros [R1 R2 R3] Hj Ha Hl. split; cbn; [| |exact R3].
  - intros k ts Hk. apply insert_lookup in Hk as [[-> E]|[_ Hk]]; [by eapply Hl|by eapply R1].
  - intros k k' n n' Hk Hk' Hn Hn'.
    assert (Hnew : ∀ l x, j ≠ l → maintainers s !! l = Some x → announced x → announced m' → False).
    { intros l x Hne Hx Hax Hm'. destruct (Ha Hm') as [Hm|Hf].
      - by apply Hne, (R2 j l m x).
      - rewrite Forall_lookup in Hf. by eapply Hf. }
    apply insert_lookup in Hk as [[-> <-]|[Hne Hk]];
      apply insert_lookup in Hk' as [[-> <-]|[Hne' Hk']]; try done.
    + by destruct (Hnew k' n').
    + by destruct (Hnew k n).
    + by eapply R2.
Qed.

Lemma repo_step_inv s s' : RepoInv s → repo_step s s' → RepoInv s'.
Proof.
  intros Hs Hstep. pose proof Hs as [R1 R2 R3].
  destruct Hstep as [s i Hi Hf|s i Hi|s i t Hi|s i Hi|s j ts Hj Hf|s j ts Hj Hf|s j t ts Hj|s j Hj].
  - eapply at_exec_inv; [done..|by right|done].
  - eapply at_exec_inv; [done..|by left|by intros ? [= ->]].
  - eapply at_exec_inv; [done..|by left|done].
  - eapply at_exec_inv; [done..|by left|done].
  - eapply at_maint_inv; [done..|by right|done].
  - eapply at_maint_inv; [done..|by left|done].
  - destruct (at_maint_inv s j (MtLocked (t :: ts)) (MtLocked ts)) as [Q1 Q2 _];
      [done..|by left|intros; by eapply R1|].
    split; cbn; [exact Q1|exact Q2|]. intros i t' Hi.
    by destruct (locked_reader s i (ExRunning t') j (t :: ts)).
  - eapply at_maint_inv; [done..|by left|done].
Qed.

Lemma repo_init_inv t m tss : RepoInv (repo_init t m tss).
Proof.
  split; cbn.
  - intros j ts Hj. rewrite list_lookup_fmap in Hj. by destruct (tss !! j).
  - intros j j' x x' Hx _ Ha. rewrite list_lookup_fmap in Hx.
    destruct (tss !! j); [|done]. by injection Hx as <-.
  - intros i t' Hi. by apply lookup_replicate in Hi as [? _].
Qed.

Lemma repo_reachable_inv t m tss s :
  rtc repo_step (repo_init t m tss) s → RepoInv s.
Proof.
  intros Hr. pose proof (repo_init_inv t m tss) as Hi. revert Hi.
  induction Hr as [|s1 s2 s3 Hs _ IH]; [done|]. intros Hi. by eapply IH, repo_step_inv.
Qed.

(** C30. While a script of a git repository runs, the working tree it started
    on stays: in every interleaving of any number of executions, pulls and
    removals no [Pull] or [Remove] has the write lock, and the tree is the
    one of the script's start. *)
Theorem scripts_keep_their_tree (t0 : T) (m : nat) (tss : list (list T))
    (s : shared_repository) (i : nat) (t : T) :
  rtc repo_step (repo_init t0 m tss) s → executions s !! i = Some (ExRunning t) →
  tree s = t ∧ ∀ j ts, maintainers s !! j ≠ Some (MtLocked ts).
Proof.
  intros Hr Hi. apply repo_reachable_inv in Hr as Hs. split; [by apply (ri_tree s Hs i)|].
  intros j ts Hj. by eapply (locked_reader s i (ExRunning t) j ts).
Qed.

(** ** Progress *)

Definition exec_rank (e : exec_pc) : nat :=
  match e with ExStart => 4 | ExLocked => 3 | ExRunning _ => 2 | ExReturned => 1 | ExDone => 0 end.

Definition maint_rank (m : maint_pc) : nat :=
  match m with
  | MtStart ts => 3 + length ts | MtPending ts => 2 + length ts
  | MtLocked ts => 1 + length ts | MtDone => 0
  end.

Definition lock_work (s : shared_repository) : nat :=
  sum_list_with exec_rank (executions s) + sum_list_with maint_rank (maintainers s).

Definition all_done (s : shared_repository) : Prop :=
  Forall (λ e, e = ExDone) (executions s) ∧ Forall (λ m, m = MtDone) (maintainers s).

Lemma sum_insert {A} (f : A → nat) l i x y :
  l !! i = Some x → sum_list_with f (<[i:=y]> l) + f x = sum_list_with f l + f y.
Proof.
  revert i. induction l as [|z l IH]; intros [|i] E; cbn in *; try discriminate.
  - injection E as <-. lia.
  - rewrite <- !Nat.add_assoc. f_equal. exact (IH i E).
Qed.

Lemma repo_work_decreases s s' : repo_step s s' → S (lock_work s') = lock_work s.
Proof.
  unfold lock_work.
  intros [? i Hi _|? i Hi|? i t Hi|? i Hi|? j ts Hj _|? j ts Hj _|? j t ts Hj|? j Hj]; cbn;
    first [pose proof (λ e, sum_insert exec_rank _ _ _ e Hi) as Hs
          |pose proof (λ m, sum_insert maint_rank _ _ _ m Hj) as Hs].
  - specialize (Hs ExLocked). cbn in Hs. lia.
  - specialize (Hs (ExRunning (tree s0))). cbn in Hs. lia.
  - specialize (Hs ExReturned). cbn in Hs. lia.
  - specialize (Hs ExDone). cbn in Hs. lia.
  - specialize (Hs (MtPending ts)). cbn in Hs. lia.
  - specialize (Hs (MtLocked ts)). cbn in Hs. lia.
  - specialize (Hs (MtLocked ts)). cbn in Hs. lia.
  - specialize (Hs MtDone). cbn in Hs. lia.
Qed.

Lemma not_all {A} (P : A → Prop) `{∀ x, Decision (P x)} l :
  ¬ Forall (λ x, ¬ P x) l → ∃ i x, l !! i = Some x ∧ P x.
Proof.
  intros Hn. destruct (decide (Exists P l)) as [He|He].
  - apply Exists_exists in He as (x & Hx & Hp). apply list_elem_of_lookup in Hx as [i Hi]. eauto.
  - destruct Hn. by apply not_Exists_Forall in He; [|apply _].
Qed.

Lemma repo_progress s : all_done s ∨ ∃ s', repo_step s s'.
Proof.
  destruct (decide (Forall (λ e, ¬ holds_read e) (executions s))) as [Hf|Hn].
  2: { apply not_all in Hn as (i & e & Hi & He); [|apply _]. right.
       destruct e as [| |t| |]; try by destruct He.
       - eexists. by apply (ex_run s i).
       - eexists. by apply (ex_return s i t).
       - eexists. by apply (ex_runlock s i). }
  destruct (decide (Forall (λ m, ¬ announced m) (maintainers s))) as [Ha|Hn].
  2: { apply not_all in Hn as (j & m & Hj & Hm); [|apply _]. right.
       destruct m as [ts|ts|[|t ts]|]; try by destruct Hm.
       - eexists. by apply (mt_lock s j ts).
       - eexists. by apply (mt_unlock s j).
       - eexists. by apply (mt_write s j t ts). }
  destruct (decide (Forall (λ e, exec_rank e = 0) (executions s))) as [He|Hn].
  2: { right. apply not_Forall_Exists in Hn; [|apply _].
       apply Exists_exists in Hn as (e & Hin & Hne). apply list_elem_of_lookup in Hin as [i Hi].
       rewrite Forall_lookup in Hf. specialize (Hf i e Hi).
       destruct e as [| |t| |]; try (by destruct Hf); [|by destruct Hne].
       eexists. by apply (ex_rlock s i). }
  destruct (decide (Forall (λ m, maint_rank m = 0) (maintainers s))) as [Hm|Hn].
  2: { right. apply not_Forall_Exists in Hn; [|apply _].
       apply Exists_exists in Hn as (m & Hin & Hne). apply list_elem_of_lookup in Hin as [j Hj].
       pose proof Ha as Ha'. rewrite Forall_lookup in Ha'. specialize (Ha' j m Hj).
       destruct m as [ts|ts|ts|]; try (by destruct Ha'); [|by destruct Hne].
       eexists. by apply (mt_announce s j ts). }
  left. split; eapply Forall_impl; [exact He|by intros []|exact Hm|by intros []].
Qed.

(** The lock of a repository neither deadlocks nor starves anyone: any
    number of executions and of maintenance operations, however they are
    interleaved, make a bounded number of steps, and as long as one of them is
    not through one can go on; so every script gets to run and every pull and
    removal gets its turn. *)
Theorem repository_lock_progress (t0 : T) (m n : nat) (tss : list (list T))
    (s : shared_repository) :
  nsteps repo_step n (repo_init t0 m tss) s →
  n + lock_work s = 4 * m + sum_list_with (λ ts, 3 + length ts) tss ∧
  (all_done s ∨ ∃ s', repo_step s s').
Proof.
  intros Hn. split; [|apply repo_progress].
  assert (Hw : n + lock_work s = lock_work (repo_init t0 m tss)).
  { clear -Hn. revert Hn. generalize (repo_init t0 m tss). intros s0 Hn.
    induction Hn as [|n s1 s2 s3 Hs _ IH]; [done|]. apply repo_work_decreases in Hs. lia. }
  rewrite Hw. unfold lock_work, repo_init. cbn. f_equal.
  - clear. induction m as [|m IH]; cbn; [done|]. rewrite IH. lia.
  - clear. induction tss as [|ts tss IH]; cbn; [done|]. by rewrite IH.
Qed.
End RepositoryLock.

Lemma scripts_keep_their_tree_witness :
  ∃ s, rtc repo_step (repo_init 7 1 [[8; 9]]) s ∧ executions s !! 0 = Some (ExRunning 7) ∧
    tree s = 7 ∧ ∀ j ts, maintainers s !! j ≠ Some (MtLocked ts).
Proof.
  exists (mkShared 7 [ExRunning 7] [MtPending [8; 9]]).
  assert (Hr : rtc repo_step (repo_init 7 1 [[8; 9]])
    (mkShared 7 [ExRunning 7] [MtPending [8; 9]])).
  { eapply rtc_l; [by apply (ex_rlock _ 0); [|apply Forall_singleton; intros []]|].
    eapply rtc_l; [by apply (mt_announce _ 0 [8; 9]); [|apply Forall_singleton; intros []]|].
    eapply rtc_l; [by apply (ex_run _ 0)|]. apply rtc_refl. }
  split; [exact Hr|]. split; [reflexivity|].
  exact (scripts_keep_their_tree 7 1 [[8; 9]] _ 0 7 Hr eq_refl).
Defined.

Lemma repository_lock_progress_witness :
  ∃ s, nsteps repo_step 1 (repo_init 7 1 [[8; 9]]) s ∧
    1 + lock_work s = 9 ∧ (all_done s ∨ ∃ s', repo_step s s').
Proof.
  exists (mkShared 7 [ExLocked] [MtStart [8; 9]]).
  assert (Hn : nsteps repo_step 1 (repo_init 7 1 [[8; 9]])
    (mkShared 7 [ExLocked] [MtStart [8; 9]])).
  { apply nsteps_once. apply (ex_rlock (repo_init 7 1 [[8; 9]]) 0); [done|].
    apply Forall_singleton. by intros []. }
  split; [exact Hn|]. exact (repository_lock_progress 7 1 1 [[8; 9]] _ Hn).
Defined.
