(* ===== verification/MessageHandler.v ===== *)
(** * queue/message.go: from a queue message to the execution of its action.

    JSON decoding and [errors.Errorf] on a format without operands are the
    libraries' ([MessageEnv]). The read lock that [execute] holds on a git
    repository during the execution is the subject of RepositoryLocks. *)

From stdpp Require Import base list numbers strings gmap.
From Stdlib Require Import Lia.
From S2P Require Import Prelude GoError Interfaces GoStrings Git Actions Reader Runbook.

(** [messageHandler]; the loggers are the files they write to, and the
    repositories may be nil. *)
Record messageHandler : Type := mkHandler {
  repositories : option Repositories;
  actionSpecs : ActionSpecifications;
  actionLoggers : gset string
}.

Definition NewMessageHandler (repositories : option Repositories)
    (actionSpecs : ActionSpecifications) (actionLoggers : gset string) : messageHandler :=
  mkHandler repositories actionSpecs actionLoggers.

Class MessageEnv := {
  decode_payload : string → result payload;
  decode_response : string → result HttpResponse;
  Errorf : string → error
}.

Section Handler.
Context `{MessageEnv, ExecEnv St, GoRuntime St}.
Context (mh : messageHandler).

Definition resolveMappedAction (action actionType : string) : result MappedAction :=
  match Mappings (actionSpecs mh) !! action with
  | None =>
      inr (Errorf ("No mapped action is configured for requested action[" +:+ action +:+
        "]. " +:+ "The request will be ignored."))
  | Some mappedAction =>
      if decide (act_Type mappedAction ≠ actionType) then
        inr (Errorf ("The type[" +:+ act_Type mappedAction +:+ "] of the mapped action[" +:+
          action +:+ "] is not compatible with requested type[" +:+ actionType +:+ "]. " +:+
          "The request will be ignored."))
      else inl mappedAction
  end.

(** [mh.actionLoggers[name]]: a nil writer when there is none. *)
Definition logger (name : string) : option (list sink) :=
  if decide (name ∈ actionLoggers mh) then Some [LogSink name] else None.

(** The case [conf.LocalSourceType]; the result is the buffered standard
    output, the callback context and the error. The slice [env] has the elements
    of a concatenation when [append] has made it; the handlers share the array of
    [GlobalEnv], and what another delivery's [append] can do to it until the
    process is started is in Slices and System. *)
Definition execute_local (mappedAction : MappedAction) (message : Message) :
    go St (string * (string * option error)) :=
  (globalFlags <- Args (GlobalFlags (actionSpecs mh)) ;
   flags <- Args (act_Flags mappedAction) ;
   body <- deref (Body message) ;
   let args := globalFlags ++ flags in
   let args := args ++ ["-payload"; body] in
   let args := args ++ GlobalArgs (actionSpecs mh) in
   let args := args ++ act_Args mappedAction in
   let env := GlobalEnv (actionSpecs mh) ++ act_Env mappedAction in
   let stdout := logger (Stdout mappedAction) in
   let stdout :=
     if decide (act_Type mappedAction = HttpActionType) then
       match stdout with
       | Some w => Some (BufferSink :: w)
       | None => Some [BufferSink]
       end
     else stdout in
   let stderr := logger (Stderr mappedAction) in
   id <- deref (MessageId message) ;
   Execute id (Filepath mappedAction) args env stdout stderr)%go.

Definition execute (mappedAction : MappedAction) (message : Message) :
    go St (string * (string * option error)) :=
  let sourceType := SourceType mappedAction in
  if decide (sourceType = GitSourceType) then
    match repositories mh with
    | None => go_ret ("", ("", Some (PlainError "Repositories should be provided.")))
    | Some repositories =>
        match Get repositories (opt_Url (GitOptions mappedAction)) with
        | inr err => go_ret ("", ("", Some err))
        | inl _ => execute_local mappedAction message
        end
    end
  else if decide (sourceType = LocalSourceType) then execute_local mappedAction message
  else go_ret ("", ("", Some (PlainError ("Unknown action sourceType[" +:+ sourceType +:+ "].")))).

(** The name of the requested action. *)
Definition requested_action (p : payload) : string :=
  if decide (action_Name (payload_MappedAction p) = "") then payload_Action p
  else action_Name (payload_MappedAction p).

(** The result under construction. *)
Definition new_result (p : payload) (action : string) (successful : bool)
    (failure context : string) (http : option HttpResponse) : ActionResultPayload :=
  mkActionResultPayload (payload_RequestId p) successful (entity_Id (Entity p))
    (entity_Type (Entity p)) action (payload_ActionType p) failure context http.

Definition Handle (message : Message) :
    go St (option ActionResultPayload * option error) :=
  (body <- deref (Body message) ;
   match decode_payload body with
   | inr err => go_ret (None, Some err)
   | inl p =>
       let action := requested_action p in
       if decide (action = "") then
         go_ret (None, Some (PlainError "SQS message does not contain action property."))
       else
         match resolveMappedAction action (payload_ActionType p) with
         | inr err =>
             go_ret (Some (new_result p action false (Error err) "" None), Some err)
         | inl mappedAction =>
             r <- execute mappedAction message ;
             let '(executionResult, (callbackContext, err)) := r in
             match err with
             | Some (ExecError stderr e) =>
                 _ <- deref (MessageId message) ;
                 go_ret (Some (new_result p action false
                   ("Err: " +:+ e +:+ ", Stderr: " +:+ stderr) callbackContext None), None)
             | None =>
                 _ <- deref (MessageId message) ;
                 if negb (DiscardScriptResponse p) &&
                    bool_decide (payload_ActionType p = HttpActionType) then
                   match decode_response executionResult with
                   | inr _ =>
                       go_ret (Some (new_result p action false
                         ("Could not parse http response fields: " +:+ executionResult)
                         callbackContext None), None)
                   | inl httpResult =>
                       go_ret (Some (new_result p action true "" callbackContext
                         (Some httpResult)), None)
                   end
                 else
                   go_ret (Some (new_result p action true "" callbackContext None), None)
             | Some err => go_ret (None, Some err)
             end
         end
   end)%go.
End Handler.

(** ** What a handler promises *)

Section HandlerSpec.
Context `{MessageEnv}.

(** The action's script can be reached. *)
Definition source_ready (mh : messageHandler) (a : MappedAction) : bool :=
  if decide (SourceType a = GitSourceType) then
    match repositories mh with
    | Some rs => bool_decide (is_Some (rs !! opt_Url (GitOptions a)))
    | None => false
    end
  else bool_decide (SourceType a = LocalSourceType).

(** The response of the script is wanted. *)
Definition wants_response (p : payload) : bool :=
  negb (DiscardScriptResponse p) && bool_decide (payload_ActionType p = HttpActionType).

(** The result reported for a script that ran. *)
Definition reported (p : payload) (output context : string) (r : run_result) :
    ActionResultPayload :=
  match run_err r with
  | Some e => new_result p (requested_action p) false
      ("Err: " +:+ Error e +:+ ", Stderr: " +:+ run_stderr r) "" None
  | None =>
      if wants_response p then
        match decode_response output with
        | inr _ => new_result p (requested_action p) false
            ("Could not parse http response fields: " +:+ output) context None
        | inl h => new_result p (requested_action p) true "" context (Some h)
        end
      else new_result p (requested_action p) true "" context None
  end.

(** The script's command line and environment, for the flags in some order. *)
Definition action_command `{ExecEnv St} (mh : messageHandler) (a : MappedAction)
    (id body : string) (cmd : exec_Cmd) : Prop :=
  ∃ gf af, gf ≡ₚ map_to_list (GlobalFlags (actionSpecs mh)) ∧
    af ≡ₚ map_to_list (act_Flags a) ∧
    cmd = build_command (Filepath a)
      (flag_args gf ++ flag_args af ++ ["-payload"; body] ++
       GlobalArgs (actionSpecs mh) ++ act_Args a ++ ["--jecNamedPipe"; pipePath id])
      (Environ ++ GlobalEnv (actionSpecs mh) ++ act_Env a)
      ((if decide (act_Type a = HttpActionType) then [BufferSink] else []) ++
       default [] (logger mh (Stdout a)))
      (default [] (logger mh (Stderr a)) ++ [BufferSink]).

(** The standard output the handler gets to see. *)
Definition captured (a : MappedAction) (r : run_result) : string :=
  if decide (act_Type a = HttpActionType) then run_stdout r else "".
(** The mapped action a request designates. *)
Definition designated (mh : messageHandler) (p : payload) : option MappedAction :=
  a ← Mappings (actionSpecs mh) !! requested_action p;
  if decide (act_Type a = payload_ActionType p) then Some a else None.

(** What handling the message [id] with the text [body] gives: the result, the
    error and the calls made. *)
Definition handled_as `{ExecEnv St} (mh : messageHandler) (id body : string)
    (res : option ActionResultPayload) (err : option error) (es : list event) : Prop :=
  match decode_payload body with
  | inr e => res = None ∧ err = Some e ∧ es = []
  | inl p =>
      if decide (requested_action p = "") then res = None ∧ is_Some err ∧ es = []
      else match designated mh p with
      | None => ∃ fmt, fmt ≠ "" ∧ err = Some (Errorf fmt) ∧ es = [] ∧
          res = Some (new_result p (requested_action p) false (Error (Errorf fmt)) "" None)
      | Some a =>
          if source_ready mh a then
            ∃ cmd r data, es = [EvRun cmd r] ∧ action_command mh a id body cmd ∧
              err = None ∧ res = Some (reported p (captured a r) (callback_context data) r)
          else res = None ∧ is_Some err ∧ es = []
      end
  end.

End HandlerSpec.

Section HandlerFacts.
Context `{MessageEnv, Logged St, ExecEnv St, GoRuntime St}.
Context `{!ExecEnvSpec St, !GoRuntimeSpec St}.
Context (mh : messageHandler).
Implicit Types (s : St) (a : MappedAction).

Lemma Args_run (f : Flags) s :
  ok s → ∃ l s', Args f s = (Done (flag_args l), s') ∧ extends [] s s' ∧ l ≡ₚ map_to_list f.
Proof.
  intros Hok. destruct (map_range_spec f s Hok) as (l & s' & E & Hx & Hl).
  exists l, s'. unfold Args. by rewrite (go_bind_done _ _ _ _ _ E).
Qed.

(** Only HTTP actions have a buffer on their standard output. *)
Lemma stdout_sinks a :
  default [] (if decide (act_Type a = HttpActionType) then
     match logger mh (Stdout a) with
     | Some w => Some (BufferSink :: w)
     | None => Some [BufferSink]
     end
   else logger mh (Stdout a)) =
  (if decide (act_Type a = HttpActionType) then [BufferSink] else []) ++
  default [] (logger mh (Stdout a)).
Proof. case_decide; [|done]. by destruct (logger mh (Stdout a)). Qed.

Lemma captured_buffer a r :
  (if bool_decide (BufferSink ∈
      (if decide (act_Type a = HttpActionType) then [BufferSink] else []) ++
      default [] (logger mh (Stdout a))) then run_stdout r else "") = captured a r.
Proof.
  unfold captured, logger. case_decide; [by rewrite bool_decide_eq_true_2 by by left|].
  rewrite bool_decide_eq_false_2; [done|]. case_decide; cbn.
  - by intros ?%list_elem_of_singleton.
  - by intros ?%elem_of_nil.
Qed.

Lemma execute_local_run a m id body s :
  MessageId m = Some id → Body m = Some body → ok s →
  ∃ cmd r data s', extends [EvRun cmd r] s s' ∧ action_command mh a id body cmd ∧
    execute_local mh a m s = (Done (captured a r,
      match run_err r with
      | Some err => ("", Some (ExecError (run_stderr r) (Error err)))
      | None => (callback_context data, None)
      end), s').
Proof.
  intros Hid Hb Hok. unfold execute_local.
  destruct (Args_run (GlobalFlags (actionSpecs mh)) s Hok) as (gf & s1 & E1 & Hx1 & Hgf).
  rewrite (go_bind_done _ _ _ _ _ E1).
  destruct (Args_run (act_Flags a) s1) as (af & s2 & E2 & Hx2 & Haf); [by eapply extends_ok|].
  rewrite (go_bind_done _ _ _ _ _ E2), Hb, Hid, !go_bind_deref. cbv zeta.
  edestruct (Execute_run id (Filepath a)) as (cmd & r & data & s3 & Hx3 & Hcmd & E3);
    [by eapply extends_ok|].
  exists cmd, r, data, s3.
  split; [exact (extends_trans _ _ _ _ _ (extends_trans _ _ _ _ _ Hx1 Hx2) Hx3)|].
  rewrite E3, stdout_sinks, captured_buffer. split; [|done].
  exists gf, af. split; [done|]. split; [done|]. rewrite Hcmd, stdout_sinks.
  by rewrite <- !(assoc_L (++)).
Qed.

Lemma execute_run a m id body s :
  MessageId m = Some id → Body m = Some body → ok s →
  if source_ready mh a then
    ∃ cmd r data s', extends [EvRun cmd r] s s' ∧ action_command mh a id body cmd ∧
      execute mh a m s = (Done (captured a r,
        match run_err r with
        | Some err => ("", Some (ExecError (run_stderr r) (Error err)))
        | None => (callback_context data, None)
        end), s')
  else ∃ msg, execute mh a m s = (Done ("", ("", Some (PlainError msg))), s).
Proof.
  intros Hid Hb Hok. unfold source_ready, execute.
  pose proof (execute_local_run a m id body s Hid Hb Hok) as Hrun.
  destruct (decide (SourceType a = GitSourceType)).
  - destruct (repositories mh) as [rs|]; [|by eexists]. unfold Get.
    destruct (rs !! opt_Url (GitOptions a)) as [r|]; [|by eexists].
    by rewrite bool_decide_eq_true_2 by by eexists.
  - case_decide.
    + by rewrite bool_decide_eq_true_2.
    + rewrite bool_decide_eq_false_2 by done. by eexists.
Qed.

Lemma resolve_run p :
  match designated mh p with
  | Some a => resolveMappedAction mh (requested_action p) (payload_ActionType p) = inl a
  | None => ∃ fmt, fmt ≠ "" ∧
      resolveMappedAction mh (requested_action p) (payload_ActionType p) = inr (Errorf fmt)
  end.
Proof.
  unfold designated, resolveMappedAction.
  destruct (Mappings (actionSpecs mh) !! requested_action p) as [a|]; cbn;
    [|by eexists; split; [|done]].
  destruct (decide (act_Type a = payload_ActionType p)) as [E|E].
  - by rewrite decide_False by tauto.
  - rewrite decide_True by done. by eexists; split; [|done].
Qed.
End HandlerFacts.

(** ** The properties of the handler *)

Section HandlerClaims.
Context `{MessageEnv, Logged St, ExecEnv St, GoRuntime St}.
Context `{!ExecEnvSpec St, !GoRuntimeSpec St}.
Context (mh : messageHandler).
Implicit Types (s : St).

Lemma handle_outcome m id body s :
  MessageId m = Some id → Body m = Some body → ok s →
  ∃ res err s' es, Handle mh m s = (Done (res, err), s') ∧ extends es s s' ∧
    handled_as mh id body res err es.
Proof.
  intros Hid Hb Hok. unfold handled_as, Handle. rewrite Hb, go_bind_deref.
  pose proof (extends_nil s Hok) as Hnil.
  destruct (decode_payload body) as [p|e]; [|by exists None, (Some e), s, []].
  destruct (decide (requested_action p = "")); [by eexists None, (Some _), s, []|].
  pose proof (resolve_run mh p) as Hres. destruct (designated mh p) as [a|].
  2: { destruct Hres as (fmt & Hne & ->). eexists (Some _), (Some _), s, []. by split_and!; [..|exists fmt]. }
  rewrite Hres. pose proof (execute_run mh a m id body s Hid Hb Hok) as Hrun.
  destruct (source_ready mh a).
  2: { destruct Hrun as [msg E]. rewrite (go_bind_done _ _ _ _ _ E).
       by eexists None, (Some _), s, []. }
  destruct Hrun as (cmd & r & data & s' & Hx & Hcmd & E).
  rewrite (go_bind_done _ _ _ _ _ E), Hid. cbv iota beta.
  exists (Some (reported p (captured a r) (callback_context data) r)), None, s', [EvRun cmd r].
  split; [|split; [done|by exists cmd, r, data]].
  unfold reported, wants_response. destruct (run_err r) as [e|]; [done|].
  rewrite go_bind_deref. destruct (_ && _); [|done]. by destruct (decode_response _).
Qed.

(** C22. Handling a message runs at most one process: the command of the action
    the message designates, with the configured flags and arguments around the
    message's body, when the payload decodes, the action is mapped with the
    requested type and its source can be reached. What the process did becomes
    the result; a message whose action is not mapped gets a failed result and
    an error, and the other failures an error only. Nothing panics. *)
Theorem handle_runs_designated_action m id body s :
  MessageId m = Some id → Body m = Some body → ok s →
  ∃ res err s' es, Handle mh m s = (Done (res, err), s') ∧ extends es s s' ∧
    match decode_payload body with
    | inr e => res = None ∧ err = Some e ∧ es = []
    | inl p =>
        if decide (requested_action p = "") then res = None ∧ is_Some err ∧ es = []
        else match designated mh p with
        | None => ∃ fmt, fmt ≠ "" ∧ err = Some (Errorf fmt) ∧ es = [] ∧
            res = Some (new_result p (requested_action p) false (Error (Errorf fmt)) "" None)
        | Some a =>
            if source_ready mh a then
              ∃ cmd r data, es = [EvRun cmd r] ∧ action_command mh a id body cmd ∧
                err = None ∧ res = Some (reported p (captured a r) (callback_context data) r)
            else res = None ∧ is_Some err ∧ es = []
        end
    end.
Proof. apply handle_outcome. Qed.

(** C31. The results are consistent: successful exactly when there is no failure
    message, with an HTTP response only when the action succeeded, is an HTTP
    action and the response is not discarded, never successful together with an
    error, and about the request they answer. The one fact used of
    [errors.Errorf] is that a non-empty format gives a non-empty text. *)
Theorem handle_result_consistent m id body s s' res err :
  MessageId m = Some id → Body m = Some body → ok s →
  (∀ fmt, fmt ≠ "" → Error (Errorf fmt) ≠ "") →
  Handle mh m s = (Done (Some res, err), s') →
  ∃ p, decode_payload body = inl p ∧
    (IsSuccessful res = true ↔ FailureMessage res = "") ∧
    (is_Some (result_HttpResponse res) →
      IsSuccessful res = true ∧ wants_response p = true) ∧
    (is_Some err → IsSuccessful res = false) ∧
    RequestId res = payload_RequestId p ∧ EntityId res = entity_Id (Entity p) ∧
    Action res = requested_action p ∧ ActionType res = payload_ActionType p.
Proof.
  intros Hid Hb Hok Hfmt E.
  destruct (handle_outcome m id body s Hid Hb Hok)
    as (res' & err' & s'' & es & E' & _ & Hcase). unfold handled_as in Hcase.
  rewrite E in E'. injection E' as <- <- <-.
  destruct (decode_payload body) as [p|e]; [|by destruct Hcase].
  exists p. split; [done|]. case_decide; [by destruct Hcase|].
  destruct (designated mh p) as [a|].
  - destruct (source_ready mh a); [|by destruct Hcase].
    destruct Hcase as (cmd & r & data & _ & _ & -> & [= ->]).
    unfold reported. destruct (run_err r); cbn.
    { by split_and!. }
    destruct (wants_response p) eqn:Hw; [destruct (decode_response _)|]; cbn;
      by split_and!.
  - destruct Hcase as (fmt & Hne & -> & _ & [= ->]). cbn.
    split_and!; try done. split; [done|]. intros Hf. by destruct (Hfmt fmt Hne).
Qed.
End HandlerClaims.

(** ** A message for a local HTTP action, in the recording environment *)

Section HandlerExample.

Definition example_payload : payload :=
  mkPayload "request" (mkEntity "entity" "alert") "" (mkMappedAction "Http" "") "http" false.

#[local] Instance example_message_env : MessageEnv := {
  decode_payload b := if decide (b = "{}") then inl example_payload
                      else inr (PlainError "unexpected end of JSON input");
  decode_response t := inl (mkHttpResponse None t 200);
  Errorf := PlainError
}.

Definition example_handler : messageHandler :=
  NewMessageHandler None
    (mkSpecs {[ "Http" := example_action ]} {[ "global" := "flag" ]} ["-apiKey"; "key"] ["g=1"])
    ∅.

Definition http_message : Message := mkMessage (Some "1") (Some "{}") (Some "handle") None.

Example handle_example :
  Handle example_handler http_message [] =
  (Done (Some (new_result example_payload "Http" true "" "context"
     (Some (mkHttpResponse None "out" 200))), None),
   [EvRun (mkCmd "/path/to/http-executor"
      ["-global"; "flag"; "-own"; "flag"; "-payload"; "{}"; "-apiKey"; "key";
       "--jecNamedPipe"; "/var/tmp/jec/jecCallbackPipe-1"]
      ["PATH=/bin"; "g=1"] [BufferSink] [BufferSink]) (mkRun "out" "err" None)]).
Proof. vm_compute. reflexivity. Qed.

Lemma handle_runs_designated_action_witness :
  ∃ res err s' es, Handle example_handler http_message ([] : rec_state) =
      (Done (res, err), s') ∧ extends es ([] : rec_state) s' ∧
    ∃ cmd r data, es = [EvRun cmd r] ∧
      action_command example_handler example_action "1" "{}" cmd ∧ err = None ∧
      res = Some (reported example_payload (captured example_action r)
        (callback_context data) r).
Proof.
  exact (handle_runs_designated_action (St := rec_state) example_handler http_message
    "1" "{}" [] eq_refl eq_refl I).
Defined.

Lemma handle_result_consistent_witness :
  ∃ res s', Handle example_handler http_message ([] : rec_state) =
      (Done (Some res, None), s') ∧
    ∃ p, decode_payload "{}" = inl p ∧ (IsSuccessful res = true ↔ FailureMessage res = "").
Proof.
  eexists _, _. split; [vm_compute; reflexivity|].
  edestruct (handle_result_consistent (St := rec_state) example_handler http_message
    "1" "{}" []) as (p & Ep & Hs & _).
  - reflexivity.
  - reflexivity.
  - exact I.
  - intros fmt Hne. exact Hne.
  - vm_compute. reflexivity.
  - exists p. split; [exact Ep|exact Hs].
Defined.
End HandlerExample.
