(* ===== verification/Delivery.v ===== *)
(** * From a queue message to the reported result.

    The job of queue/job.go with the provider of queue/sqs_provider.go, the
    handler of queue/message.go and the sender of runbook/sender.go behind its
    interfaces. Job's theorems are about interfaces whose calls are recorded as
    single events; here each of these calls is one or more calls of the
    environment: the AWS client, the started process, the HTTP client. The
    composition is run twice, with and without a ghost log of the interface
    calls, and the ghost log's events are shown to expand to what happened. *)

From stdpp Require Import base list numbers strings gmap.
From Stdlib Require Import Lia.
From S2P Require Import Prelude GoError Interfaces GoStrings SqsProvider Job Retryer.
From S2P Require Import Git Actions Reader Runbook MessageHandler.

(** ** The parts put together *)

Section Connected.
Context {C D W : Type}.
Context `{MessageEnv, SQSClient C W, HttpClient D W, ExecEnv W, GoRuntime W}.
Context (mh : messageHandler).

(** [NewMessageHandler]'s handler and [SendResultToJsmFunc]'s default, beside a
    provider. *)
#[export] Instance connected_handler : Interfaces.MessageHandler (sqsProvider C * W) := {
  handler_Handle m := on_env (Handle mh m);
  SendResultToJsmFunc p apiKey baseUrl := on_env (SendResultToJsm p apiKey baseUrl)
}.

(** The same with a ghost log of the interface's calls. *)
Definition traced_state : Type := (sqsProvider C * W) * list event.

Definition traced {A} (m : go (sqsProvider C * W) A) (e : A → list event) :
    go traced_state A :=
  λ s, match m s.1 with
       | (Done a, s') => (Done a, (s', s.2 ++ e a))
       | (Panicked why, s') => (Panicked why, (s', s.2))
       end.

Context (url : string).

#[export] Instance traced_provider : SQSProvider traced_state := {
  ChangeMessageVisibility m t := traced (ChangeMessageVisibility m t)
    (λ r, [EvVisibility url (ReceiptHandle m) t r]);
  DeleteMessage m := traced (DeleteMessage m) (λ r, [EvDelete url (ReceiptHandle m) r]);
  ReceiveMessage n v := traced (ReceiveMessage n v) (λ r, [EvReceive url n v r]);
  IsTokenExpired := traced IsTokenExpired (λ _, []);
  provider_Properties := traced provider_Properties (λ _, [])
}.

#[export] Instance traced_handler : Interfaces.MessageHandler traced_state := {
  handler_Handle m := traced (handler_Handle m) (λ r, [EvHandle m r]);
  SendResultToJsmFunc p apiKey baseUrl :=
    traced (SendResultToJsmFunc p apiKey baseUrl) (λ r, [EvSend p apiKey baseUrl r])
}.

(** The environment calls [es] an interface call consists of. *)
Definition expands (e : event) (es : list event) : Prop :=
  match e with
  | EvHandle m (res, err) => ∃ id body, MessageId m = Some id ∧ Body m = Some body ∧
      handled_as mh id body res err es
  | EvSend p apiKey baseUrl err => sent_as p apiKey baseUrl err es
  | e => es = [e]
  end.
End Connected.

(** ** Forgetting the ghost log *)

Section Erasure.
Context {C W : Type}.

Definition erases {A} (mt : go (job * traced_state (C := C) (W := W)) A)
    (mp : go (job * (sqsProvider C * W)) A) : Prop :=
  ∀ j s g, ∃ g', mt (j, (s, g)) =
    let '(r, (j', s')) := mp (j, s) in (r, (j', (s', g'))).

Lemma erases_ret {A} (a : A) : erases (go_ret a) (go_ret a).
Proof. intros j s g. by exists g. Qed.

Lemma erases_deref {A} (p : option A) : erases (deref p) (deref p).
Proof. intros j s g. exists g. by destruct p. Qed.

Lemma erases_bind {A B} mt mp (kt : A → go _ B) kp :
  erases mt mp → (∀ a, erases (kt a) (kp a)) → erases (go_bind mt kt) (go_bind mp kp).
Proof.
  intros Hm Hk j s g. destruct (Hm j s g) as [g1 E]. unfold go_bind. rewrite E.
  destruct (mp (j, s)) as [[a|why] [j' s']]; [apply Hk|by exists g1].
Qed.

Lemma erases_get {B} (kt : job * traced_state → go _ B) (kp : job * _ → go _ B) :
  (∀ j s g, erases (kt (j, (s, g))) (kp (j, s))) →
  erases (go_bind go_get kt) (go_bind go_get kp).
Proof. intros Hk j s g. apply Hk. Qed.

Lemma erases_put z : erases (put_state z) (put_state z).
Proof. intros j s g. by exists g. Qed.

Lemma erases_traced {A} (m : go (sqsProvider C * W) A) e :
  erases (on_env (traced m e)) (on_env m).
Proof.
  intros j s g. unfold on_env, traced. cbn. destruct (m s) as [[a|why] s']; by eexists.
Qed.
End Erasure.

Create HintDb erasure.
#[export] Hint Resolve erases_ret erases_deref erases_put erases_traced : erasure.

Ltac erasure :=
  repeat first
    [ progress auto with erasure
    | apply erases_bind; [|intros ?]
    | case_match ].

Section Composition.
Context {C D W : Type}.
Context `{MessageEnv, Logged W, SQSClient C W, HttpClient D W, ExecEnv W, GoRuntime W}.
Context (mh : messageHandler) (url : string).

Lemma attr_value_erases attrs name :
  erases (C := C) (W := W) (attr_value attrs name) (attr_value attrs name).
Proof. unfold attr_value. erasure. Qed.

Lemma is_invalid_erases j : erases (C := C) (W := W) (is_invalid j) (is_invalid j).
Proof.
  unfold is_invalid. pose proof attr_value_erases. erasure.
Qed.

(** The two handlers. *)
Abbreviation ghost_handler := (traced_handler (C := C) (D := D) (W := W) mh).
Abbreviation real_handler := (connected_handler (C := C) (D := D) (W := W) mh).
Abbreviation ghost_provider := (traced_provider (C := C) (W := W) url).
Abbreviation real_provider := (sqs_provider (C := C) (W := W)).

Lemma send_result_erases result j err :
  erases (@send_result _ ghost_handler result j err)
         (@send_result _ real_handler result j err).
Proof. unfold send_result. destruct result; apply erases_traced || apply erases_ret. Qed.

Lemma process_erases race j id :
  erases (@process _ ghost_handler race j id)
         (@process _ real_handler race j id).
Proof.
  unfold process. pose proof send_result_erases as Hsend.
  apply erases_bind; [apply erases_traced|intros [result err]]. erasure.
Qed.

Lemma Execute_erases race :
  erases (@Job.Execute _ ghost_provider ghost_handler race)
         (@Job.Execute _ real_provider real_handler race).
Proof.
  unfold Job.Execute. pose proof process_erases. pose proof is_invalid_erases.
  apply erases_get. intros j s g. cbn [fst]. erasure. all: apply erases_traced.
Qed.

(** ** The composition meets the contracts of the interfaces *)

Context `{!SQSClientSpec (C := C) (W := W), !HttpClientSpec D W, !ExecEnvSpec W, !GoRuntimeSpec W}.
Context (l0 : list event).

(** The ghost log expands to what was done since [l0]. *)
#[local] Instance traced_logged : Logged (traced_state (C := C) (W := W)) := {
  log s := s.2;
  ok s := (ok s.1.2 ∧ ready url s.1.1) ∧
    ∃ ess, Forall2 (expands mh) s.2 ess ∧ log s.1.2 = l0 ++ concat ess
}.

Lemma traced_calls {A} (m : go (sqsProvider C * W) A) (e : A → event) s :
  ok s →
  (∃ r p' w' es, m s.1 = (Done r, (p', w')) ∧ extends es s.1.2 w' ∧ ready url p' ∧
    expands mh (e r) es) →
  calls (traced m (λ r, [e r])) s e.
Proof.
  intros [_ (ess & Hes & Hl)] (r & p' & w' & es & E & [Hok Hx] & Hr & He).
  exists r, ((p', w'), s.2 ++ [e r]). unfold traced. rewrite E. split; [done|].
  split; [|done]. split; [done|]. exists (ess ++ [es]). cbn. split.
  - by apply Forall2_app, Forall2_cons.
  - by rewrite Hx, Hl, concat_app, <- (assoc_L (++)); cbn; rewrite app_nil_r.
Qed.

#[local] Instance traced_provider_spec : @SQSProviderSpec _ traced_logged ghost_provider url.
Proof.
  split.
  - intros m t s Hs. apply traced_calls; [done|]. destruct s as [[p w] g], Hs as [[Hok Hr] _].
    destruct (visibility_run url m t p w) as (r & w' & E & Hx); [done..|].
    by eexists r, _, w', _.
  - intros m s Hs. apply traced_calls; [done|]. destruct s as [[p w] g], Hs as [[Hok Hr] _].
    destruct (delete_run url m p w) as (r & w' & E & Hx); [done..|].
    by eexists r, _, w', _.
  - intros n v s Hs. apply traced_calls; [done|]. destruct s as [[p w] g], Hs as [[Hok Hr] _].
    destruct (receive_run url n v p w) as (r & w' & E & Hx); [done..|].
    by eexists r, _, w', _.
  - intros [[p w] g] _. eexists. unfold IsTokenExpired, traced_provider, traced. cbn.
    by rewrite app_nil_r.
  - intros [[p w] g] [[_ [Hu _]] _]. exists (queueProperties p). split; [|done].
    unfold provider_Properties, traced_provider, traced. cbn. by rewrite app_nil_r.
Qed.

#[local] Instance traced_handler_spec : @MessageHandlerSpec _ traced_logged ghost_handler.
Proof.
  split.
  - intros m s [[id Hid] [body Hb]] Hs. apply traced_calls; [done|].
    destruct s as [[p w] g], Hs as [[Hok Hr] _].
    destruct (handle_outcome mh m id body w Hid Hb Hok) as (res & err & w' & es & E & Hx & Hh).
    exists (res, err), p, w', es. split; [by apply on_env_run|]. split; [done|].
    split; [done|]. by exists id, body.
  - intros r k u s Hs. apply traced_calls; [done|].
    destruct s as [[p w] g], Hs as [[Hok Hr] _].
    destruct (send_result_sent r k u w Hok) as (err & w' & es & E & Hx & Hh).
    exists err, p, w', es. split; [by apply on_env_run|done].
Qed.
End Composition.

Section DeliveryClaims.
Context {C D W : Type}.
Context `{MessageEnv, Logged W, SQSClient C W, HttpClient D W, ExecEnv W, GoRuntime W}.
Context `{!SQSClientSpec (C := C) (W := W), !HttpClientSpec D W, !ExecEnvSpec W, !GoRuntimeSpec W}.
Context (mh : messageHandler) (url : string).
Implicit Types (j : job) (p : sqsProvider C) (w : W).

(** [Execute] of the connected job. *)
Definition execute_delivery (race : race_point) : go (job * (sqsProvider C * W)) (option error) :=
  @Job.Execute _ sqs_provider (connected_handler (D := D) mh) race.

Definition executes_delivery (races : list race_point) :
    go (job * (sqsProvider C * W)) (list (option error)) :=
  @executes _ sqs_provider (connected_handler (D := D) mh) races.

Lemma execute_delivery_run race j p w :
  state j = jobInitial → complete (message j) → ok w → ready url p →
  ∃ del handled sent err p' w' ess,
    execute_delivery race (j, (p, w)) =
      (Done err, (set_state (if job_succeeds race j del handled sent
                             then jobFinished else jobError) j, (p', w'))) ∧
    extends (concat ess) w w' ∧
    Forall2 (expands mh) (job_events url j del handled sent) ess ∧
    (err = None ↔ job_succeeds race j del handled sent = true) ∧
    ∃ p1 w1, DeleteMessage (message j) (p, w) = (Done del, (p1, w1)).
Proof.
  intros Hst Hc Hok Hr. unfold execute_delivery.
  pose proof (traced_provider_spec (D := D) mh url (log w)) as Hps.
  pose proof (traced_handler_spec (C := C) (D := D) mh url (log w)) as Hhs.
  destruct (@job_Execute_run _ (traced_logged mh url (log w)) _ _ url Hps Hhs
    race j ((p, w), []) Hst Hc) as (del & handled & sent & err & s' & E & Hx & Herr & s1 & Ed).
  { split; [done|]. exists []. by rewrite app_nil_r. }
  destruct (Execute_erases (D := D) mh url race j (p, w) []) as [g' Eg].
  pose proof (eq_trans (eq_sym E) Eg) as Eq. clear E Eg.
  destruct (@Job.Execute _ sqs_provider (connected_handler mh) race (j, (p, w)))
    as [r [j' [p' w']]].
  injection Eq as <- <- ->. destruct Hx as [[[Hok' _] (ess & Hes & Hl)] Hg]. cbn in *. subst g'.
  exists del, handled, sent, err, p', w', ess. split_and!; [done..|].
  clear -Ed. unfold traced_provider, traced in Ed. cbn [DeleteMessage fst snd] in Ed.
  destruct (sqs_DeleteMessage (message j) (p, w)) as [[r|why] [p1 w1]] eqn:E; [|done].
  injection Ed as -> _. exists p1, w1. exact E.
Qed.

(** C9. The job, its provider, handler and sender together implement the job's
    protocol: for every behaviour of the queue, the script and the server, an
    execution makes the calls of the protocol in its order, the deletion of the
    message first, each consisting of the calls its implementation makes to the
    outside (one process with the action's command for the handling, the posted
    result with its retries for the sending), and nothing else; and it ends as
    the protocol says. *)
Theorem delivery_refines_protocol race j p w :
  state j = jobInitial → complete (message j) → ok w → ready url p →
  ∃ del handled sent err p' w' ess,
    execute_delivery race (j, (p, w)) =
      (Done err, (set_state (if job_succeeds race j del handled sent
                             then jobFinished else jobError) j, (p', w'))) ∧
    extends (concat ess) w w' ∧
    Forall2 (expands mh) (job_events url j del handled sent) ess ∧
    (err = None ↔ job_succeeds race j del handled sent = true).
Proof.
  intros Hst Hc Hok Hr. destruct (execute_delivery_run race j p w Hst Hc Hok Hr)
    as (del & handled & sent & err & p' & w' & ess & E & Hx & Hes & Herr & _).
  by exists del, handled, sent, err, p', w', ess.
Qed.

(** The processes started and the bodies posted, in a log. *)
Definition runs (es : list event) : list (exec_Cmd * run_result) :=
  es ≫= λ e, match e with EvRun c r => [(c, r)] | _ => [] end.

Definition posts (es : list event) : list string :=
  es ≫= λ e, match e with EvDo _ sent _ => [sent] | _ => [] end.

Lemma attempts_runs q k rs : runs (attempts q k rs) = [].
Proof.
  revert k. induction rs as [|r rs IH]; intros k; [done|]. cbn [attempts].
  assert (Hd : ∀ l, runs (discards r ++ l) = runs l).
  { intros l. destruct r as [[]  []]; try done. cbn. by destruct (shouldRetry _). }
  cbn. unfold runs in *. rewrite Hd. destruct rs; [done|]. apply IH.
Qed.

Lemma attempts_posts q k rs :
  Forall (λ x, x = default "" (body q)) (posts (attempts q k rs)).
Proof.
  revert k. induction rs as [|r rs IH]; intros k; [constructor|]. cbn [attempts].
  assert (Hd : ∀ l, posts (discards r ++ l) = posts l).
  { intros l. destruct r as [[]  []]; try done. cbn. by destruct (shouldRetry _). }
  cbn. constructor; [done|]. unfold posts in *. rewrite Hd. destruct rs; [constructor|].
  apply IH.
Qed.

Lemma sent_runs r k u err es : sent_as r k u err es → runs es = [].
Proof.
  unfold sent_as. destruct (http_NewRequest _ _ _) as [q|e]; [|by intros [_ ->]].
  intros (failed & last & -> & _). apply attempts_runs.
Qed.

Lemma sent_posts r k u err es :
  sent_as r k u err es → Forall (λ x, x = marshal_result r) (posts es).
Proof.
  unfold sent_as. destruct (http_NewRequest _ _ _) as [q|e]; [|by intros [_ ->]; constructor].
  intros (failed & last & -> & _). apply (attempts_posts (result_request r k q)).
Qed.

Lemma runs_app es1 es2 : runs (es1 ++ es2) = runs es1 ++ runs es2.
Proof. apply bind_app. Qed.

Lemma posts_app es1 es2 : posts (es1 ++ es2) = posts es1 ++ posts es2.
Proof. apply bind_app. Qed.

(** What one delivery does to the outside: nothing but the deletion, or the
    deletion, at most one process and the posts of its report. *)
Definition one_process (j : job) (es : list event) : Prop :=
  runs es = [] ∨
  ∃ id body q a cmd r data rest,
    es = EvDelete url (ReceiptHandle (message j)) None :: EvRun cmd r :: rest ∧
    addressed (job_ownerId j) (message j) = true ∧
    MessageId (message j) = Some id ∧ Body (message j) = Some body ∧
    decode_payload body = inl q ∧ designated mh q = Some a ∧
    action_command mh a id body cmd ∧ runs rest = [] ∧
    Forall (λ x, x = marshal_result
      (reported q (captured a r) (callback_context data) r)) (posts rest).

Lemma handled_runs id body res err es :
  handled_as mh id body res err es →
  es = [] ∨ ∃ q a cmd r data, es = [EvRun cmd r] ∧ decode_payload body = inl q ∧
    designated mh q = Some a ∧ action_command mh a id body cmd ∧
    res = Some (reported q (captured a r) (callback_context data) r).
Proof.
  unfold handled_as. destruct (decode_payload body) as [q|e]; [|intros (_ & _ & ->); by left].
  case_decide; [intros (_ & _ & ->); by left|].
  destruct (designated mh q) as [a|] eqn:Ea; [|intros (? & _ & _ & -> & _); by left].
  destruct (source_ready mh a); [|intros (_ & _ & ->); by left].
  intros (cmd & r & data & -> & Hc & _ & ->). right. by exists q, a, cmd, r, data.
Qed.

Lemma events_one_process j del handled sent ess :
  Forall2 (expands mh) (job_events url j del handled sent) ess →
  one_process j (concat ess).
Proof.
  unfold job_events. intros Hf. apply Forall2_cons_inv_l in Hf as (x & l & -> & Hf & ->).
  destruct del as [e|]; [apply Forall2_nil_inv_l in Hf as ->; by left|].
  destruct (addressed (job_ownerId j) (message j)) eqn:Ha.
  2: { apply Forall2_nil_inv_l in Hf as ->. by left. }
  apply Forall2_cons_inv_l in Hf as (hs & l' & Hh & Hf & ->).
  destruct handled as [res err]. destruct Hh as (id & body & Hid & Hb & Hh). cbn in Hf.
  assert (Hrest : runs (concat l') = [] ∧ Forall (λ x, ∀ r, res = Some r → x = marshal_result r)
    (posts (concat l'))).
  { destruct res as [r|]; [|by apply Forall2_nil_inv_l in Hf as ->].
    apply Forall2_cons_inv_l in Hf as (ss & l'' & Hs & Hf & ->).
    apply Forall2_nil_inv_l in Hf as ->. cbn. rewrite app_nil_r.
    split; [by eapply sent_runs|]. eapply Forall_impl; [by eapply sent_posts|].
    by intros x -> r' [= <-]. }
  destruct Hrest as [Hr Hp].
  destruct (handled_runs _ _ _ _ _ Hh) as [-> | (q & a & cmd & r & data & -> & Hq & Hd & Hc & ->)].
  { left. cbn. exact Hr. }
  right. exists id, body, q, a, cmd, r, data, (concat l'). split_and!; try done.
  eapply Forall_impl; [exact Hp|]. cbn. intros x Hx. by apply Hx.
Qed.

(** C10. However often its job is executed, a message leads to at most one
    process: the command of the action the message designates, started after
    the message was deleted and only when it is addressed to the owner; and
    every report posted, retries included, is the report of that process. *)
Theorem delivery_runs_one_process race races j p w :
  state j = jobInitial → complete (message j) → ok w → ready url p →
  ∃ err errs j' p' w' es,
    executes_delivery (race :: races) (j, (p, w)) = (Done (err :: errs), (j', (p', w'))) ∧
    Forall is_Some errs ∧ length errs = length races ∧
    extends es w w' ∧ one_process j es.
Proof.
  intros Hst Hc Hok Hr.
  destruct (execute_delivery_run race j p w Hst Hc Hok Hr)
    as (del & handled & sent & err & p' & w' & ess & E & Hx & Hes & _).
  set (j' := set_state _ j) in E.
  assert (Hst' : state j' ≠ jobInitial) by (subst j'; cbn; by case_match).
  destruct (@executes_again _ sqs_provider (connected_handler (D := D) mh) races j' (p', w'))
    as (errs & E' & Hall & Hlen); [apply Hc|done|].
  exists err, errs, j', p', w', (concat ess). unfold executes_delivery. cbn [executes].
  unfold execute_delivery in E.
  rewrite (go_bind_done _ _ _ _ _ E), (go_bind_done _ _ _ _ _ E').
  split_and!; [done..|]. by eapply events_one_process.
Qed.
End DeliveryClaims.

(** ** A delivery: the script answers, the server is unavailable twice *)

Section DeliveryExample.

#[local] Instance delivery_client : HttpClient unit rec_state := scripted_client example_script.
#[local] Existing Instance example_message_env.

Definition delivered_message : Message := mkMessage (Some "1") (Some "{}") (Some "handle")
  (Some {[ ownerId := mkAttr (Some "me"); channelId := mkAttr (Some "other") ]}).

Definition delivered_job : job := newJob delivered_message "key" "https://api" "me".

(** The events by kind: deletion, process, post, wait, discard. *)
Definition kind (e : event) : string :=
  match e with
  | EvDelete _ _ _ => "delete" | EvRun c _ => "run " +:+ cmd_Name c
  | EvDo _ _ _ => "post" | EvSleep _ => "wait" | EvDiscard _ => "discard" | _ => "other"
  end.

Example delivery_example :
  let '(r, (j, (_, es))) := executes_delivery (D := unit) example_handler [AfterUse; AfterUse]
    (delivered_job, (example_provider, [])) in
  (r, state j, kind <$> es) =
  (Done [None; Some (PlainError "Job[1] is already executing or finished.")], jobFinished,
   ["delete"; "run /path/to/http-executor"; "post"; "wait"; "post"; "discard"; "wait"; "post"]).
Proof. vm_compute. reflexivity. Qed.

Lemma delivered_complete : complete delivered_message.
Proof. split; [split; by eexists|]. right. split; by eexists. Qed.

Lemma delivery_refines_protocol_witness :
  ∃ del handled sent err p' w' ess,
    execute_delivery (D := unit) example_handler AfterUse
      (delivered_job, (example_provider, [] : rec_state)) =
      (Done err, (set_state (if job_succeeds AfterUse delivered_job del handled sent
                             then jobFinished else jobError) delivered_job, (p', w'))) ∧
    extends (concat ess) ([] : rec_state) w' ∧
    Forall2 (expands example_handler) (job_events "queue" delivered_job del handled sent) ess ∧
    (err = None ↔ job_succeeds AfterUse delivered_job del handled sent = true).
Proof.
  pose proof (scripted_client_spec example_script ltac:(by repeat constructor)) as Hspec.
  apply (delivery_refines_protocol (D := unit) example_handler "queue" AfterUse delivered_job
    example_provider ([] : rec_state));
    [reflexivity|exact delivered_complete|exact I|split; [reflexivity|by eexists]].
Defined.

Lemma delivery_runs_one_process_witness :
  ∃ err errs j' p' w' es,
    executes_delivery (D := unit) example_handler [AfterUse; AfterUse]
      (delivered_job, (example_provider, [] : rec_state)) =
      (Done (err :: errs), (j', (p', w'))) ∧
    Forall is_Some errs ∧ length errs = 1 ∧ extends es ([] : rec_state) w' ∧
    one_process example_handler "queue" delivered_job es.
Proof.
  pose proof (scripted_client_spec example_script ltac:(by repeat constructor)) as Hspec.
  apply (delivery_runs_one_process (D := unit) example_handler "queue" AfterUse [AfterUse]
    delivered_job example_provider ([] : rec_state));
    [reflexivity|exact delivered_complete|exact I|split; [reflexivity|by eexists]].
Defined.
End DeliveryExample.
