(* ===== verification/Slices.v ===== *)
(** * Slices and the environment of concurrent actions (queue/message.go).

    [execute] builds the environment of an action with
    [append(mh.actionSpecs.GlobalEnv, mappedAction.Env...)]. A Go slice is a
    view of a shared array, and [append] writes into that array when it has
    room; the handlers of all the queues share one [GlobalEnv]. *)

From stdpp Require Import base list numbers strings.
From Stdlib Require Import Lia.
From S2P Require Import Prelude.

(** ** Slices over a store of arrays *)

(** A slice that starts at its array's first element. *)
Record slice : Type := mkSlice {
  array : nat;
  slice_len : nat
}.

(** The array's elements, up to its capacity. *)
Definition backing (st : list (list string)) (s : slice) : list string :=
  default [] (st !! array s).

Definition capacity (st : list (list string)) (s : slice) : nat := length (backing st s).

Definition contents (st : list (list string)) (s : slice) : list string :=
  take (slice_len s) (backing st s).

(** [append(s, xs...)]: in place when the array has room, in a new array (with
    [spare] more elements, as the runtime chooses) otherwise. *)
Definition append (spare : list string) (s : slice) (xs : list string) (st : list (list string)) :
    slice * list (list string) :=
  if decide (slice_len s + length xs <= capacity st s) then
    (mkSlice (array s) (slice_len s + length xs),
     <[array s := contents st s ++ xs ++ drop (slice_len s + length xs) (backing st s)]> st)
  else
    (mkSlice (length st) (slice_len s + length xs), st ++ [contents st s ++ xs ++ spare]).

(** The environment of an action. *)
Definition action_env (spare : list string) (GlobalEnv : slice) (Env : list string)
    (st : list (list string)) : slice * list (list string) :=
  append spare GlobalEnv Env st.

(** Two jobs build their environments, then start their scripts: what each
    script gets. *)
Definition two_jobs (spare : list string) (GlobalEnv : slice) (env1 env2 : list string)
    (st : list (list string)) : list string * list string :=
  let '(e1, st) := action_env spare GlobalEnv env1 st in
  let '(e2, st) := action_env spare GlobalEnv env2 st in
  (contents st e1, contents st e2).

(** ** Lemmas *)

Section SliceFacts.
Implicit Types (st : list (list string)) (s : slice) (xs : list string).

(** A slice of the store. *)
Definition valid_slice st s : Prop :=
  array s < length st ∧ slice_len s <= capacity st s.

Lemma contents_length st s : valid_slice st s → length (contents st s) = slice_len s.
Proof. intros [_ Hl]. unfold contents, capacity in *. rewrite length_take. lia. Qed.

Lemma take_app_two (xs ys zs : list string) n m :
  length xs = n → length ys = m → take (n + m) (xs ++ ys ++ zs) = xs ++ ys.
Proof.
  intros <- <-. rewrite (assoc_L (++)). apply take_app_length'. by rewrite length_app.
Qed.

Lemma append_contents spare s xs st :
  valid_slice st s →
  let '(s', st') := append spare s xs st in contents st' s' = contents st s ++ xs.
Proof.
  intros Hs. pose proof (contents_length st s Hs) as Hl. destruct Hs as [Ha Hc].
  unfold append. case_decide as Hroom; unfold contents at 1, backing; cbn [array slice_len].
  - rewrite list_lookup_insert_eq by done. cbn. by apply take_app_two.
  - rewrite lookup_app_r, Nat.sub_diag by lia. cbn. by apply take_app_two.
Qed.

(** [append] leaves the elements of the slice it was given in place. *)
Lemma append_keeps spare s xs st s0 :
  valid_slice st s → valid_slice st s0 →
  array s0 ≠ array s ∨ slice_len s0 <= slice_len s →
  contents (append spare s xs st).2 s0 = contents st s0.
Proof.
  intros Hs [Ha0 Hc0] Hor. pose proof (contents_length st s Hs) as Hl. destruct Hs as [Ha Hc].
  unfold append. case_decide as Hroom; cbn [snd]; unfold contents at 1, backing.
  - destruct (decide (array s0 = array s)) as [E|Hne].
    + rewrite E, list_lookup_insert_eq by done. cbn.
      destruct Hor as [?|Hle]; [done|]. rewrite take_app_le by lia.
      unfold contents, backing. rewrite take_take, E. f_equal. lia.
    + by rewrite list_lookup_insert_ne by done.
  - by rewrite lookup_app_l by done.
Qed.

Lemma append_new_array spare s xs st :
  capacity st s < slice_len s + length xs →
  append spare s xs st =
  (mkSlice (length st) (slice_len s + length xs), st ++ [contents st s ++ xs ++ spare]).
Proof. intros Hc. unfold append. by rewrite decide_False by lia. Qed.

(** [append] to the slice [G] of an array that goes on with [tail]: in place,
    over the first elements of [tail], or in a new array. *)
Lemma append_first G tail spare xs st :
  st !! 0 = Some (G ++ tail) →
  append spare (mkSlice 0 (length G)) xs st =
  if decide (length xs <= length tail) then
    (mkSlice 0 (length G + length xs), <[0 := G ++ xs ++ drop (length xs) tail]> st)
  else (mkSlice (length st) (length G + length xs), st ++ [G ++ xs ++ spare]).
Proof.
  intros E. assert (Hb : backing st (mkSlice 0 (length G)) = G ++ tail).
  { unfold backing. cbn. by rewrite E. }
  unfold append, capacity, contents. rewrite Hb. cbn [array slice_len].
  rewrite take_app_length, drop_app_add, length_app. destruct (decide (length xs <= length tail)).
  - by rewrite decide_True by lia.
  - by rewrite decide_False by lia.
Qed.
End SliceFacts.

Lemma take_overwrite (xs ys zs : list string) :
  take (length xs) (ys ++ drop (length ys) (xs ++ zs)) =
  take (length xs) (ys ++ drop (length ys) xs).
Proof.
  destruct (decide (length ys <= length xs)).
  - rewrite drop_app_le by done. rewrite (assoc_L (++)).
    assert (E : length (ys ++ drop (length ys) xs) = length xs).
    { rewrite length_app, length_drop. lia. }
    rewrite take_app_length' by done. symmetry. apply take_ge. lia.
  - by rewrite !take_app_le by lia.
Qed.

(** ** The environments of concurrent actions *)

(** Each action gets the global environment followed by its own, however
    the two builds are ordered with the starts, when the array of the global
    environment has no room for the first action's variables. *)
Theorem action_environments_isolated spare1 spare2 g env1 env2 st :
  valid_slice st g → capacity st g < slice_len g + length env1 →
  let '(e1, st1) := action_env spare1 g env1 st in
  let '(e2, st2) := action_env spare2 g env2 st1 in
  contents st2 e1 = contents st g ++ env1 ∧ contents st2 e2 = contents st g ++ env2.
Proof.
  intros Hg Hcap. pose proof (append_contents spare1 g env1 st Hg) as H1.
  pose proof (append_keeps spare1 g env1 st g Hg Hg (or_intror (le_n _))) as Hk.
  unfold action_env in *. rewrite (append_new_array spare1 g env1 st Hcap) in *. cbn [snd] in Hk.
  set (st1 := st ++ [contents st g ++ env1 ++ spare1]) in *.
  set (e1 := mkSlice (length st) (slice_len g + length env1)) in *.
  assert (Hb : backing st1 g = backing st g).
  { unfold backing, st1. destruct Hg. by rewrite lookup_app_l by done. }
  assert (Hg1 : valid_slice st1 g).
  { destruct Hg. split; [unfold st1; rewrite length_app; cbn; lia|]. unfold capacity in *.
    by rewrite Hb. }
  assert (He1 : valid_slice st1 e1).
  { pose proof (contents_length st g Hg). split; [unfold st1, e1; rewrite length_app; cbn; lia|].
    unfold capacity, backing, st1, e1. cbn [array slice_len].
    rewrite lookup_app_r, Nat.sub_diag by lia. cbn. rewrite !length_app. lia. }
  pose proof (append_contents spare2 g env2 st1 Hg1) as H2.
  pose proof (append_keeps spare2 g env2 st1 e1 Hg1 He1) as H3.
  destruct (append spare2 g env2 st1) as [e2 st2]. cbn [snd] in H3.
  rewrite H3, H1, H2, Hk; [done|]. left. unfold e1. cbn. destruct Hg. lia.
Qed.

(** When the array has room for both, the second action's variables replace
    the first one's before its script starts: the first script runs with the
    second action's environment. *)
Theorem action_environments_shared spare g env1 env2 st :
  valid_slice st g → slice_len g + length env1 <= capacity st g →
  slice_len g + length env2 <= capacity st g →
  two_jobs spare g env1 env2 st =
  (contents st g ++ take (length env1) (env2 ++ drop (length env2) env1),
   contents st g ++ env2).
Proof.
  intros Hg Hr1 Hr2. pose proof (contents_length st g Hg) as Hl. destruct Hg as [Ha Hc].
  unfold two_jobs, action_env, append. rewrite (decide_True _ _ Hr1).
  set (st1 := <[array g := _]> st).
  assert (Hb : backing st1 g =
    contents st g ++ env1 ++ drop (slice_len g + length env1) (backing st g)).
  { unfold backing at 1, st1. by rewrite list_lookup_insert_eq. }
  assert (Hc1 : contents st1 g = contents st g).
  { unfold contents at 1. rewrite Hb. by apply take_app_length'. }
  assert (Hcap : capacity st1 g = capacity st g).
  { unfold capacity at 1. rewrite Hb, !length_app, length_drop, Hl.
    unfold capacity in *. lia. }
  rewrite decide_True by (by rewrite Hcap). set (st2 := <[array g := _]> st1).
  assert (H2 : ∀ n, contents st2 (mkSlice (array g) n) =
    take n (contents st1 g ++ env2 ++ drop (slice_len g + length env2) (backing st1 g))).
  { intros n. unfold contents at 1, backing at 1, st2. cbn [array slice_len].
    by rewrite list_lookup_insert_eq by (unfold st1; by rewrite length_insert). }
  rewrite !H2, Hc1. f_equal; [|by apply take_app_two].
  rewrite Hb, <- Hl, take_app_add, drop_app_add. f_equal. apply take_overwrite.
Qed.

(** ** Three global variables in an array of four, as decoding a configuration
    leaves them *)

Section SliceExample.

Definition global_env : slice := mkSlice 0 3.

Definition example_store : list (list string) := [["a=1"; "b=2"; "c=3"; ""]].

Example env_mixed :
  two_jobs [] global_env ["who=first"] ["who=second"] example_store =
  (["a=1"; "b=2"; "c=3"; "who=second"], ["a=1"; "b=2"; "c=3"; "who=second"]).
Proof. reflexivity. Qed.

Lemma action_environments_shared_witness :
  two_jobs [] global_env ["who=first"] ["who=second"] example_store =
  (contents example_store global_env ++ take 1 (["who=second"] ++ drop 1 ["who=first"]),
   contents example_store global_env ++ ["who=second"]).
Proof.
  apply (action_environments_shared [] global_env ["who=first"] ["who=second"] example_store);
    [split|..]; vm_compute; lia.
Defined.

Lemma action_environments_isolated_witness :
  let '(e1, st1) := action_env [] global_env ["x=1"; "y=2"] example_store in
  let '(e2, st2) := action_env [] global_env ["x=3"] st1 in
  contents st2 e1 = contents example_store global_env ++ ["x=1"; "y=2"] ∧
  contents st2 e2 = contents example_store global_env ++ ["x=3"].
Proof.
  apply (action_environments_isolated [] [] global_env ["x=1"; "y=2"] ["x=3"] example_store);
    [split|]; vm_compute; lia.
Defined.
End SliceExample.
