(* ===== verification/DeliveryEnv.v ===== *)
(** * A delivery whose action gets another environment.

    [execute] passes [append(mh.actionSpecs.GlobalEnv, mappedAction.Env...)] on
    as a slice, and the process gets what its array holds when [Execute] of the
    runbook copies it (Slices). The delivery in which the process gets the
    variables [env] after the global ones is that of the handler all of whose
    actions have the variables [env]: only the action a message designates is
    looked at, and of it only the started process sees the variables. *)

From stdpp Require Import base list numbers strings gmap.
From Stdlib Require Import Lia.
From S2P Require Import Prelude GoError Interfaces GoStrings SqsProvider Job Retryer.
From S2P Require Import Git Actions Reader Runbook MessageHandler Delivery.

Definition with_Env (env : list string) (a : MappedAction) : MappedAction :=
  mkMapped (act_Type a) (SourceType a) (GitOptions a) (Filepath a) (act_Flags a) (act_Args a)
    env (Stdout a) (Stderr a).

Definition reading_env (env : list string) (mh : messageHandler) : messageHandler :=
  mkHandler (repositories mh)
    (mkSpecs (with_Env env <$> Mappings (actionSpecs mh)) (GlobalFlags (actionSpecs mh))
      (GlobalArgs (actionSpecs mh)) (GlobalEnv (actionSpecs mh)))
    (actionLoggers mh).

(** The variables [mappedAction.Env] of the action a message designates. *)
Definition requested_env `{MessageEnv} (mh : messageHandler) (m : Message) : list string :=
  default [] (b ← Body m;
    match decode_payload b with inl q => act_Env <$> designated mh q | inr _ => None end).

(** ** The handler with the variables *)

Section ReadingEnv.
Context `{MessageEnv, ExecEnv St}.
Context (mh : messageHandler).
Implicit Types (env : list string) (a : MappedAction) (q : payload) (m : Message).

Lemma designated_reading env q :
  designated (reading_env env mh) q = with_Env env <$> designated mh q.
Proof.
  unfold designated, reading_env. cbn [actionSpecs Mappings].
  set (o := Mappings (actionSpecs mh) !! requested_action q).
  transitivity ((with_Env env <$> o) ≫= λ a, if decide (act_Type a = payload_ActionType q)
    then Some a else None).
  { f_equal. apply lookup_fmap. }
  destruct o as [a|]; [|done]. cbn. by case_decide.
Qed.

Lemma source_ready_reading env a :
  source_ready (reading_env env mh) (with_Env env a) = source_ready mh a.
Proof. reflexivity. Qed.

Lemma with_own_Env a : with_Env (act_Env a) a = a.
Proof. by destruct a. Qed.

Lemma requested_env_designated m b q a :
  Body m = Some b → decode_payload b = inl q → designated mh q = Some a →
  requested_env mh m = act_Env a.
Proof. intros Eb Eq Ea. unfold requested_env. rewrite Eb. cbn. by rewrite Eq, Ea. Qed.

Lemma action_command_reading a id body cmd :
  action_command (reading_env (act_Env a) mh) (with_Env (act_Env a) a) id body cmd ↔
  action_command mh a id body cmd.
Proof. by rewrite with_own_Env. Qed.

Lemma handled_reading_own m id body res err es :
  Body m = Some body →
  handled_as (reading_env (requested_env mh m) mh) id body res err es →
  handled_as mh id body res err es.
Proof.
  intros Hb. unfold handled_as. destruct (decode_payload body) as [q|e] eqn:Eq; [|done].
  case_decide; [done|]. rewrite designated_reading.
  destruct (designated mh q) as [a|] eqn:Ea; [|done]. cbn [fmap option_fmap option_map].
  rewrite source_ready_reading, (requested_env_designated _ _ _ _ Hb Eq Ea).
  destruct (source_ready mh a); [|done]. intros (cmd & r & data & -> & Hc & He & Hr).
  exists cmd, r, data. by rewrite <- action_command_reading.
Qed.
End ReadingEnv.

(** ** The calls by their kind *)

(** The calls of the goroutine that [Execute] starts for the result and does not
    wait for. *)
Definition of_sender (e : event) : bool :=
  match e with EvDo _ _ _ | EvSleep _ | EvDiscard _ => true | _ => false end.

(** The start of a process. *)
Definition is_run (e : event) : bool := match e with EvRun _ _ => true | _ => false end.

(** The messages deleted, by their receipt handles. *)
Definition deletions (es : list event) : list (option string) :=
  es ≫= λ e, match e with EvDelete _ h _ => [h] | _ => [] end.

Lemma attempts_sender q k rs : Forall (λ e, of_sender e = true) (attempts q k rs).
Proof.
  revert k. induction rs as [|r rs IH]; intros k; [constructor|]. cbn [attempts].
  assert (Hd : Forall (λ e, of_sender e = true) (discards r)).
  { destruct r as [[] []]; cbn; try constructor. case_match; by repeat constructor. }
  constructor; [done|]. apply Forall_app. split; [done|].
  destruct rs; [constructor|]. constructor; [done|]. apply IH.
Qed.

Lemma sent_sender `{HttpClient D W} r k u err es : sent_as r k u err es → Forall (λ e, of_sender e = true) es.
Proof.
  unfold sent_as. destruct (http_NewRequest _ _ _) as [q|e]; [|by intros [_ ->]; constructor].
  intros (failed & last & -> & _). apply attempts_sender.
Qed.

Lemma sender_deletions es : Forall (λ e, of_sender e = true) es → deletions es = [].
Proof. induction 1 as [|e es He _ IH]; [done|]. by destruct e. Qed.

Lemma senders_deletions es : forallb of_sender es = true → deletions es = [].
Proof. induction es as [|e es IH]; [done|]. by destruct e; cbn. Qed.

Lemma deletions_app es1 es2 : deletions (es1 ++ es2) = deletions es1 ++ deletions es2.
Proof. apply bind_app. Qed.

(** ** The delivery with the variables *)

Section DeliveryEnv.
Context {C D W : Type}.
Context `{MessageEnv, Logged W, SQSClient C W, HttpClient D W, ExecEnv W, GoRuntime W}.
Context `{!SQSClientSpec (C := C) (W := W), !HttpClientSpec D W, !ExecEnvSpec W, !GoRuntimeSpec W}.
Context (mh : messageHandler) (url : string).
Implicit Types (env : list string) (j : job) (es : list event).

(** With the designated action's own variables it is the delivery itself. *)
Lemma events_reading_own j del handled sent ess :
  Forall2 (expands (D := D) (W := W) (reading_env (requested_env mh (message j)) mh))
    (job_events url j del handled sent) ess →
  Forall2 (expands (D := D) (W := W) mh) (job_events url j del handled sent) ess.
Proof.
  unfold job_events. intros Hf.
  apply Forall2_cons_inv_l in Hf as (x & l & Hx & Hf & ->). constructor; [exact Hx|].
  destruct del as [e|]; [by inversion Hf|]. destruct (addressed _ _); [|by inversion Hf].
  apply Forall2_cons_inv_l in Hf as (hs & l' & Hh & Hf & ->). constructor.
  - destruct handled as [res err]. destruct Hh as (id & body & Hid & Hb & Hh).
    exists id, body. split; [done|]. split; [done|]. by eapply handled_reading_own.
  - destruct handled.1 as [r|]; [|by inversion Hf].
    apply Forall2_cons_inv_l in Hf as (ss & l'' & Hs & Hf & ->). constructor; [exact Hs|].
    by inversion Hf.
Qed.

Lemma one_process_prefix mh' j es es' :
  one_process mh' url j (es ++ es') → one_process mh' url j es.
Proof.
  intros [Hn|(id & body & q & a & cmd & r & data & rest & E & P1 & P2 & P3 & P4 & P5 & P6 & Hr & Hp)].
  { left. rewrite runs_app in Hn. by apply app_eq_nil in Hn as [? _]. }
  destruct es as [|e1 [|e2 es]]; [by left|left; by injection E as ->|].
  injection E as -> -> <-. right. exists id, body, q, a, cmd, r, data, es.
  rewrite runs_app in Hr. apply app_eq_nil in Hr as [Hr _].
  rewrite posts_app in Hp. apply Forall_app in Hp as [Hp _]. by split_and!.
Qed.

(** A delivery deletes its own message, once. *)
Lemma events_deletions mh' j del handled sent ess :
  Forall2 (expands (D := D) (W := W) mh') (job_events url j del handled sent) ess →
  deletions (concat ess) = [ReceiptHandle (message j)].
Proof.
  unfold job_events. intros Hf. apply Forall2_cons_inv_l in Hf as (x & l & -> & Hf & ->).
  assert (Hl : deletions (concat l) = []).
  { destruct del as [e|]; [by apply Forall2_nil_inv_l in Hf as ->|].
    destruct (addressed _ _); [|by apply Forall2_nil_inv_l in Hf as ->].
    apply Forall2_cons_inv_l in Hf as (hs & l' & Hh & Hf & ->). cbn. rewrite deletions_app.
    destruct handled as [res err]. destruct Hh as (id & body & _ & _ & Hh). cbn in Hf.
    assert (Hs : deletions (concat l') = []).
    { destruct res as [rs|]; [|by apply Forall2_nil_inv_l in Hf as ->].
      apply Forall2_cons_inv_l in Hf as (ss & l'' & Hs & Hf & ->).
      apply Forall2_nil_inv_l in Hf as ->. cbn. rewrite app_nil_r.
      by eapply sender_deletions, sent_sender. }
    rewrite Hs, app_nil_r.
    by destruct (handled_runs _ _ _ _ _ _ Hh) as [-> | (? & ? & ? & ? & ? & -> & _)]. }
  change (ReceiptHandle (message j) :: deletions (concat l) = [ReceiptHandle (message j)]).
  by rewrite Hl.
Qed.

(** Where the process is among the calls. *)
Lemma one_process_past mh' j past cmd r es :
  one_process mh' url j (past ++ EvRun cmd r :: es) →
  past = [EvDelete url (ReceiptHandle (message j)) None] ∧ runs es = [].
Proof.
  intros [Hn|(id & body & q & a & cmd' & r' & data & rest & E & P)].
  { rewrite runs_app in Hn. by apply app_eq_nil in Hn as [_ Hn]. }
  assert (Hr : runs rest = []) by tauto.
  destruct past as [|e1 [|e2 past]]; [done| |].
  - injection E as -> -> -> ->. done.
  - injection E as -> -> <-. rewrite runs_app in Hr. by apply app_eq_nil in Hr as [_ Hr].
Qed.

Lemma one_process_ran mh' j past es :
  one_process mh' url j (past ++ es) → runs past ≠ [] → runs es = [].
Proof.
  intros [Hn|(id & body & q & a & cmd & r & data & rest & E & P)] Hp.
  { rewrite runs_app in Hn. by apply app_eq_nil in Hn as [? _]. }
  assert (Hr : runs rest = []) by tauto.
  destruct past as [|e1 [|e2 past]]; [done|by injection E as -> _|].
  injection E as -> -> <-. rewrite runs_app in Hr. by apply app_eq_nil in Hr as [_ Hr].
Qed.

(** The calls of a run of [Execute] that returns, the process getting the
    variables [env]. *)
Definition run_log (env : list string) (j : job) (es : list event) : Prop :=
  ∃ race p w err j' p' w', ok w ∧ ready url p ∧
    execute_delivery (C := C) (D := D) (reading_env env mh) race (j, (p, w)) =
      (Done err, (j', (p', w'))) ∧
    log w' = log w ++ es.

Lemma run_log_protocol env j es :
  state j = jobInitial → complete (message j) → run_log env j es → ∃ del handled sent ess,
    Forall2 (expands (D := D) (W := W) (reading_env env mh)) (job_events url j del handled sent) ess ∧
    es = concat ess.
Proof.
  intros Hst Hc (race & p & w & err & j' & p' & w' & Hok & Hr & E & Hl).
  destruct (execute_delivery_run (D := D) (reading_env env mh) url race j p w)
    as (del & handled & sent & err2 & p2 & w2 & ess & E2 & [_ Hx] & Hes & _); [done..|].
  rewrite E in E2. injection E2 as _ _ _ Ew. exists del, handled, sent, ess.
  split; [done|]. rewrite Ew, Hx in Hl. by apply app_inv_head in Hl.
Qed.

(** With its own variables the process is the one the handler's
    configuration says. *)
Lemma run_log_own j es :
  state j = jobInitial → complete (message j) →
  run_log (requested_env mh (message j)) j es → ∃ del handled sent ess,
    Forall2 (expands (D := D) (W := W) mh) (job_events url j del handled sent) ess ∧
    es = concat ess.
Proof.
  intros Hst Hc Hl. destruct (run_log_protocol _ j es Hst Hc Hl)
    as (del & handled & sent & ess & Hes & ->).
  exists del, handled, sent, ess. split; [by apply events_reading_own|done].
Qed.

Lemma run_log_one_process env j es :
  state j = jobInitial → complete (message j) → run_log env j es →
  one_process (reading_env env mh) url j es.
Proof.
  intros Hst Hc Hl. destruct (run_log_protocol env j es Hst Hc Hl)
    as (del & handled & sent & ess & Hes & ->). by eapply events_one_process.
Qed.

(** A job of a complete message returns, whatever variables its process gets. *)
Lemma run_log_exists env j (p : sqsProvider C) (w : W) :
  state j = jobInitial → complete (message j) → ok w → ready url p → ∃ es, run_log env j es.
Proof.
  intros Hst Hc Hok Hr.
  destruct (execute_delivery_run (D := D) (reading_env env mh) url AfterUse j p w)
    as (del & handled & sent & err & p' & w' & ess & E & [_ Hx] & _); [done..|].
  exists (concat ess), AfterUse, p, w. do 4 eexists. by split_and!.
Qed.

Lemma events_with_process mh' j del handled sent ess past cmd r es :
  Forall2 (expands (D := D) (W := W) mh') (job_events url j del handled sent) ess →
  concat ess = past ++ EvRun cmd r :: es →
  del = None ∧ addressed (job_ownerId j) (message j) = true ∧
  ∃ id body q a, MessageId (message j) = Some id ∧ Body (message j) = Some body ∧
    decode_payload body = inl q ∧ requested_action q ≠ "" ∧ designated mh' q = Some a ∧
    source_ready mh' a = true.
Proof.
  unfold job_events. intros Hf E.
  assert (Hr : runs (concat ess) ≠ []).
  { rewrite E, runs_app. intros Hn. by apply app_eq_nil in Hn as [_ Hn]. }
  clear E. apply Forall2_cons_inv_l in Hf as (x & l & -> & Hf & ->).
  destruct del as [e|]; [by apply Forall2_nil_inv_l in Hf as ->|]. split; [done|].
  destruct (addressed _ _); [|by apply Forall2_nil_inv_l in Hf as ->]. split; [done|].
  apply Forall2_cons_inv_l in Hf as (hs & l' & Hh & Hf & ->).
  destruct handled as [res err]. destruct Hh as (id & body & Hid & Hb & Hh). cbn in Hf.
  assert (Hl : runs (concat l') = []).
  { destruct res as [rs|]; [|by apply Forall2_nil_inv_l in Hf as ->].
    apply Forall2_cons_inv_l in Hf as (ss & l'' & Hs & Hf & ->).
    apply Forall2_nil_inv_l in Hf as ->. cbn. rewrite app_nil_r. by eapply sent_runs. }
  change (runs (hs ++ concat l') ≠ []) in Hr.
  rewrite runs_app, Hl, app_nil_r in Hr.
  exists id, body. unfold handled_as in Hh.
  destruct (decode_payload body) as [q|e]; [|by destruct Hh as (_ & _ & ->)].
  case_decide as Hq; [by destruct Hh as (_ & _ & ->)|].
  destruct (designated mh' q) as [a|] eqn:Ea; [|by destruct Hh as (? & _ & _ & -> & _)].
  destruct (source_ready mh' a) eqn:Es; [|by destruct Hh as (_ & _ & ->)].
  by exists q, a.
Qed.

(** The calls up to the process do not depend on the variables it gets. *)
Lemma run_log_rerun env env' j past cmd r es :
  state j = jobInitial → complete (message j) → run_log env j (past ++ EvRun cmd r :: es) →
  ∃ cmd' r' es', run_log env' j (past ++ EvRun cmd' r' :: es') ∧ runs es' = [].
Proof.
  intros Hst Hc Hlog.
  destruct (one_process_past _ _ _ _ _ _ (run_log_one_process env j _ Hst Hc Hlog)) as [-> _].
  destruct Hlog as (race & p & w & err & j' & p' & w' & Hok & Hr & E & Hl).
  destruct (execute_delivery_run (D := D) (reading_env env mh) url race j p w)
    as (del & handled & sent & err2 & p2 & w2 & ess & E2 & [_ Hx] & Hes & _ & p3 & w3 & Ed);
    [done..|].
  rewrite E in E2. injection E2 as _ _ _ Ew. rewrite Ew, Hx in Hl. apply app_inv_head in Hl.
  destruct (events_with_process _ _ _ _ _ _ _ _ _ _ Hes Hl)
    as (-> & Ha & id & body & q & a & Hid & Hb & Hq & Hne & Hd & Hs).
  rewrite designated_reading in Hd. apply fmap_Some in Hd as (a0 & Hd & ->).
  rewrite source_ready_reading in Hs.
  destruct (execute_delivery_run (D := D) (reading_env env' mh) url race j p w)
    as (del & handled' & sent' & err' & p'' & w'' & ess' & E' & [_ Hx'] & Hes' & _ & p4 & w4 & Ed');
    [done..|].
  rewrite Ed in Ed'. injection Ed' as <- _ _.
  pose proof Hes' as Hes1. unfold job_events in Hes1. rewrite Ha in Hes1.
  apply Forall2_cons_inv_l in Hes1 as (x & l & -> & Hes1 & ->).
  apply Forall2_cons_inv_l in Hes1 as (hs & l' & Hh & _ & ->).
  destruct handled' as [res' rerr]. destruct Hh as (id' & body' & Hid' & Hb' & Hh).
  rewrite Hb in Hb'. injection Hb' as <-. unfold handled_as in Hh.
  rewrite Hq, decide_False in Hh by done. rewrite designated_reading, Hd in Hh.
  cbn [fmap option_fmap option_map] in Hh. rewrite source_ready_reading, Hs in Hh.
  destruct Hh as (cmd' & r' & data & -> & _).
  assert (Hrun : run_log env' j ([EvDelete url (ReceiptHandle (message j)) None] ++
    EvRun cmd' r' :: concat l')).
  { exists race, p, w. do 4 eexists. split_and!; [done|done|exact E'|exact Hx']. }
  exists cmd', r', (concat l'). split; [exact Hrun|].
  by destruct (one_process_past _ _ _ _ _ _ (run_log_one_process env' j _ Hst Hc Hrun)).
Qed.
End DeliveryEnv.
