(* ===== verification/System.v ===== *)
(** * Pollers, worker pool and deliveries together: the way of a message.

    Intake's transition system of the polling cycles and the worker pool, in
    which a worker that is inside [job.Execute] makes the calls of a delivery
    (Delivery) one at a time. Deliveries of different workers interleave in any
    order, and each gets any answers from the outside.

    The deliveries share one thing besides the outside: the array of the
    configuration's [GlobalEnv], onto which [execute] appends the variables of
    its action (Slices). The append, the copy of its result into the command and
    the start of the process are three steps, so another delivery can write its
    own variables in between. Each of the two accesses to the array is one step:
    they are not synchronised in the program, and a race of two accesses inside
    one variable is not modelled. *)

From stdpp Require Import base list numbers strings gmap relations.
From Stdlib Require Import Lia ZifyBool ZifyNat.
From S2P Require Import Prelude Configuration WorkerPool WorkerPoolInv WorkerPoolProps.
From S2P Require Import WorkerPoolClaims GoError Interfaces GoStrings SqsProvider Job Retryer.
From S2P Require Import Git Actions Reader Runbook MessageHandler Intake Delivery.
From S2P Require Import Slices DeliveryEnv.
Local Open Scope Z_scope.

(** A call to the outside by a polling cycle, [ReceiveMessage] with the messages
    it gave and [ChangeMessageVisibility] for a message, or by a delivery. *)
Inductive outside_call (J : Type) : Type :=
  | PollReceived (xs : list J)
  | PollVisible (x : J)
  | DeliveryCall (d : nat) (e : event).
Arguments PollReceived {J}.
Arguments PollVisible {J}.
Arguments DeliveryCall {J}.

(** How far [execute] is with the environment of its action. *)
Inductive env_pc : Type :=
  | EnvNone
  | EnvSlice (e : slice)             (* [env := append(mh.actionSpecs.GlobalEnv, ...)] *)
  | EnvBuilt (env : list string)     (* [cmd.Env = append(os.Environ(), env...)] *)
  | EnvRan (env : list string).      (* started, with [env] after the global variables *)

(** The delivery of an item by a worker, with the calls that are still to come. *)
Record delivery (J : Type) : Type := mkDelivery {
  dl_item : J;
  dl_worker : nat;
  dl_rest : list event;
  dl_open : bool;                (* [Execute] has not returned *)
  dl_env : env_pc
}.
Arguments mkDelivery {J}.
Arguments dl_item {J}.
Arguments dl_worker {J}.
Arguments dl_rest {J}.
Arguments dl_open {J}.
Arguments dl_env {J}.

Record system (J : Type) : Type := mkSystem {
  sys_intake : intake J;
  deliveries : list (delivery J);
  arrays : list (list string);   (* the slices' arrays, the one of [GlobalEnv] first *)
  trace : list (outside_call J)  (* the calls to the outside so far *)
}.
Arguments mkSystem {J}.
Arguments sys_intake {J}.
Arguments deliveries {J}.
Arguments arrays {J}.
Arguments trace {J}.

(** ** What a trace tells *)

Section Traces.
Context {J : Type}.
Implicit Types (tr : list (outside_call J)).

(** The calls of one delivery, in their order. *)
Definition calls_of (d : nat) tr : list event :=
  tr ≫= λ c, match c with
             | DeliveryCall d' e => if decide (d' = d) then [e] else []
             | _ => []
             end.

(** The messages received and those made visible again. *)
Definition received_in tr : list J :=
  tr ≫= λ c, match c with PollReceived xs => xs | _ => [] end.

Definition visible_in tr : list J :=
  tr ≫= λ c, match c with PollVisible x => [x] | _ => [] end.

(** The messages deleted, by their receipt handles. *)
Definition deleted_in tr : list (option string) :=
  tr ≫= λ c, match c with DeliveryCall _ e => deletions [e] | _ => [] end.

Lemma calls_of_app d tr1 tr2 : calls_of d (tr1 ++ tr2) = calls_of d tr1 ++ calls_of d tr2.
Proof. apply bind_app. Qed.

Lemma calls_of_one d d' e : calls_of d [DeliveryCall d' e] = if decide (d' = d) then [e] else [].
Proof. unfold calls_of. cbn. by case_decide. Qed.

Lemma received_in_app tr1 tr2 : received_in (tr1 ++ tr2) = received_in tr1 ++ received_in tr2.
Proof. apply bind_app. Qed.

Lemma visible_in_app tr1 tr2 : visible_in (tr1 ++ tr2) = visible_in tr1 ++ visible_in tr2.
Proof. apply bind_app. Qed.

Lemma calls_of_elem d e tr : DeliveryCall d e ∈ tr → calls_of d tr ≠ [].
Proof.
  intros He Hn. assert (e ∈ calls_of d tr) as Hin; [|by rewrite Hn in Hin; apply elem_of_nil in Hin].
  apply list_elem_of_bind. exists (DeliveryCall d e). rewrite decide_True by done.
  split; [by apply list_elem_of_singleton|done].
Qed.
End Traces.

#[global] Arguments calls_of : simpl never.
#[global] Arguments received_in : simpl never.
#[global] Arguments visible_in : simpl never.

Section System.
Context {J C D W : Type}.
Context `{MessageEnv, Logged W, SQSClient C W, HttpClient D W, ExecEnv W, GoRuntime W}.
(** The handler, and what [newJob] makes of a message and the poller's data. *)
Context (mh : messageHandler) (url_of : J → string) (job_of : J → job).

(** The configuration's [GlobalEnv] when the program starts: the first elements
    of an array that goes on with [room]. *)
Definition shared_env : slice := mkSlice 0 (length (GlobalEnv (actionSpecs mh))).

Definition system_init (c : PoolConf) (room : list string) : system J :=
  mkSystem (intake_init c) [] [GlobalEnv (actionSpecs mh) ++ room] [].

Definition sys_pool (s : system J) : pool J := jobs (sys_intake s).

(** The variables of the action an item's message designates. *)
Definition item_env (x : J) : list string := requested_env mh (message (job_of x)).

(** The calls [es] to the outside that [Execute] can make for an item when the
    process gets the variables [env] after the global ones: those of some run of
    it that returns, the outside and the provider being in whatever state the
    other deliveries left them. *)
Definition job_log (env : list string) (x : J) (es : list event) : Prop :=
  run_log (C := C) (D := D) (W := W) mh (url_of x) env (job_of x) es.

(** The moves into and out of [job.Execute]. *)
Definition at_execute (l : intake_label J) (p : pool J) : bool :=
  match l with
  | LPool (Worker i WRun) =>
      match workers p !! i with Some (WDoJob _ | WExecuting _) => true | _ => false end
  | _ => false
  end.

(** The calls to the outside of a move of pollers and pool. *)
Definition poller_calls (l : intake_label J) (n : intake J) : list (outside_call J) :=
  match l with
  | LReceive xs => [PollReceived xs]
  | LCycle k =>
      match cycles n !! k with
      | Some (CyReturning (x :: _) _) => [PollVisible x]
      | _ => []
      end
  | LPool _ => []
  end.

Inductive sys_step : system J → system J → Prop :=
  | sy_intake s l n :
      at_execute l (sys_pool s) = false → intake_move l (sys_intake s) = Some n →
      sys_step s (mkSystem n (deliveries s) (arrays s)
        (trace s ++ poller_calls l (sys_intake s)))
  | sy_begin s i x es n :
      workers (sys_pool s) !! i = Some (WDoJob x) → job_log (item_env x) x es →
      intake_move (LPool (Worker i WRun)) (sys_intake s) = Some n →
      sys_step s (mkSystem n (deliveries s ++ [mkDelivery x i es true EnvNone]) (arrays s) (trace s))
  | sy_call s d x i e es b v :
      deliveries s !! d = Some (mkDelivery x i (e :: es) b v) → is_run e = false →
      sys_step s (mkSystem (sys_intake s) (<[d := mkDelivery x i es b v]> (deliveries s))
        (arrays s) (trace s ++ [DeliveryCall d e]))
  | sy_append s d x i cmd r es spare e ars :
      deliveries s !! d = Some (mkDelivery x i (EvRun cmd r :: es) true EnvNone) →
      Slices.append spare shared_env (item_env x) (arrays s) = (e, ars) →
      sys_step s (mkSystem (sys_intake s)
        (<[d := mkDelivery x i (EvRun cmd r :: es) true (EnvSlice e)]> (deliveries s))
        ars (trace s))
  | sy_build s d x i cmd r es e :
      deliveries s !! d = Some (mkDelivery x i (EvRun cmd r :: es) true (EnvSlice e)) →
      sys_step s (mkSystem (sys_intake s)
        (<[d := mkDelivery x i (EvRun cmd r :: es) true (EnvBuilt (contents (arrays s) e))]>
          (deliveries s))
        (arrays s) (trace s))
  | sy_run s d x i cmd r es env cmd' r' es' :
      deliveries s !! d = Some (mkDelivery x i (EvRun cmd r :: es) true
        (EnvBuilt (GlobalEnv (actionSpecs mh) ++ env))) →
      job_log env x (calls_of d (trace s) ++ EvRun cmd' r' :: es') →
      sys_step s (mkSystem (sys_intake s) (<[d := mkDelivery x i es' true (EnvRan env)]> (deliveries s))
        (arrays s) (trace s ++ [DeliveryCall d (EvRun cmd' r')]))
  | sy_end s d x i es v n :
      deliveries s !! d = Some (mkDelivery x i es true v) → forallb of_sender es = true →
      workers (sys_pool s) !! i = Some (WExecuting x) →
      intake_move (LPool (Worker i WRun)) (sys_intake s) = Some n →
      sys_step s (mkSystem n (<[d := mkDelivery x i es false v]> (deliveries s)) (arrays s) (trace s)).

(** ** The workers inside [Execute] *)

Definition executing (w : worker_pc J) : list J :=
  match w with WExecuting x => [x] | _ => [] end.

Definition exec_at (p : pool J) (i : nat) : list J := default [] (executing <$> workers p !! i).

Definition exec_jobs (p : pool J) : list J := workers p ≫= executing.

(** A move that neither enters nor leaves [Execute]. *)
Record frame (p p' : pool J) : Prop := {
  fr_executed : executed p' = executed p;
  fr_at : ∀ i, exec_at p' i = exec_at p i;
  fr_jobs : exec_jobs p' = exec_jobs p
}.

Lemma frame_same p p' : executed p' = executed p → workers p' = workers p → frame p p'.
Proof. intros E1 E2. split; unfold exec_at, exec_jobs; by rewrite ?E1, ?E2. Qed.

Lemma bind_insert {A B} (f : A → list B) l i x y :
  l !! i = Some x → f y = f x → (<[i := y]> l) ≫= f = l ≫= f.
Proof.
  revert i. induction l as [|z l IH]; intros [|i] E Hf; simplify_eq/=; [by rewrite Hf|].
  f_equal. by apply IH.
Qed.

Lemma frame_insert i w w' p p' :
  workers p !! i = Some w → workers p' = <[i := w']> (workers p) → executed p' = executed p →
  executing w = [] → executing w' = [] → frame p p'.
Proof.
  intros E E2 E1 Hw Hw'. split; [done| |].
  - intros k. unfold exec_at. rewrite E2. destruct (decide (k = i)) as [->|Hne].
    + rewrite list_lookup_insert_eq by (by eapply lookup_lt_Some). rewrite E. cbn. congruence.
    + by rewrite list_lookup_insert_ne.
  - unfold exec_jobs. rewrite E2. eapply bind_insert; [done|congruence].
Qed.

Lemma frame_app w p p' :
  workers p' = workers p ++ [w] → executed p' = executed p → executing w = [] → frame p p'.
Proof.
  intros E2 E1 Hw. split; [done| |].
  - intros k. unfold exec_at. rewrite E2. destruct (decide (k < length (workers p))%nat).
    + by rewrite lookup_app_l.
    + rewrite lookup_app_r, (lookup_ge_None_2 (workers p)) by lia. cbn.
      destruct (k - length (workers p))%nat; [by cbn; rewrite Hw|done].
  - unfold exec_jobs. rewrite E2, bind_app. cbn. by rewrite Hw, !app_nil_r.
Qed.

Lemma frame_wg_add n p p' : frame p p' → frame p (wg_add n p').
Proof.
  intros [F1 F2 F3]. unfold wg_add. destruct (_ <? 0); by split.
Qed.

Lemma frame_to_select i w p p' :
  workers p !! i = Some w → executing w = [] → executed p' = executed p →
  workers p' = workers p → frame p (to_select i p').
Proof.
  intros E Hw E1 E2. unfold to_select. destruct (_ && _); [by apply frame_same|].
  apply (frame_insert i w WSelect); try done. cbn. by rewrite E2.
Qed.

Lemma worker_step_frame i c p p' :
  worker_step i c p = Some p' →
  (c = WRun → ∀ x, workers p !! i ≠ Some (WDoJob x) ∧ workers p !! i ≠ Some (WExecuting x)) →
  frame p p'.
Proof.
  intros Hs Hne. unfold worker_step in Hs.
  destruct (workers p !! i) as [w|] eqn:E; [|done].
  destruct w as [[j|]|j|j| | | | | | |], c; simplify_eq/=;
    try (by destruct (Hne eq_refl j));
    unfold CompareAndDecrementCurrentWorker in *; repeat case_match; simplify_eq/=;
    first
      [ by apply frame_same
      | by eapply frame_to_select
      | eapply frame_insert; [eassumption|reflexivity..]
      | apply (frame_insert i WReturning WExited);
          [done|by unfold wg_add; destruct (_ <? 0)|by unfold wg_add; destruct (_ <? 0)|done..] ].
Qed.

Lemma submit_select_frame i k x p p' : submit_select i k x p = Some p' → frame p p'.
Proof.
  unfold submit_select, submit_default. intros Hs.
  repeat case_match; simplify_eq/=; first [by apply frame_same|eapply frame_insert; [eassumption|reflexivity..]].
Qed.

Lemma caller_step_frame i k p p' : caller_step i k p = Some p' → frame p p'.
Proof.
  intros Hs. unfold caller_step in Hs. destruct (callers p !! i) as [c|] eqn:E; [|done].
  destruct c; simplify_eq/=; unfold CompareAndIncrementCurrentWorker in *;
    try (case_match; simplify_eq; by eapply submit_select_frame);
    repeat case_match; simplify_eq/=;
    first
      [ by apply frame_same
      | eapply frame_app; reflexivity
      | unfold wg_add; destruct (_ <? 0); by apply frame_same ].
Qed.

Lemma step_frame l p p' :
  step l p = Some p' → at_execute (LPool l) p = false → frame p p'.
Proof.
  unfold step. intros Hs Hne. destruct (panicked p); [done|].
  destruct l as [c|i k|i c|i|i]; simplify_eq/=.
  - by apply frame_same.
  - by eapply caller_step_frame.
  - eapply worker_step_frame; [done|]. intros -> x.
    split; intros E; cbn in Hne; by rewrite E in Hne.
  - unfold runner_step in Hs. repeat case_match; simplify_eq/=; by apply frame_same.
  - unfold monitor_step in Hs. repeat case_match; simplify_eq/=; by apply frame_same.
Qed.

Lemma intake_move_frame l s n :
  intake_move l s = Some n → at_execute l (jobs s) = false → frame (jobs s) (jobs n).
Proof.
  destruct l as [l|js|k]; cbn; intros Hs Hne.
  - destruct (outside l); [|done]. destruct (step l (jobs s)) eqn:Es; [|done].
    injection Hs as <-. by eapply step_frame.
  - injection Hs as <-. by apply frame_same.
  - unfold cycle_step in Hs. repeat case_match; simplify_eq/=; try (by apply frame_same).
    by eapply (step_frame (Invoke (DoSubmit _))).
Qed.

Lemma bind_insert_new {A B} (f : A → list B) l i x y :
  l !! i = Some x → f x = [] → (<[i := y]> l) ≫= f ≡ₚ f y ++ (l ≫= f).
Proof.
  revert i. induction l as [|z l IH]; intros [|i] E Hf; simplify_eq/=; [by rewrite Hf|].
  rewrite (IH i E Hf), !(assoc_L (++)). f_equiv. apply Permutation_app_comm.
Qed.

Lemma bind_insert_gone {A B} (f : A → list B) l i x y :
  l !! i = Some x → f y = [] → l ≫= f ≡ₚ f x ++ (<[i := y]> l ≫= f).
Proof.
  intros E Hf. set (l' := <[i := y]> l).
  assert (El : l' !! i = Some y) by (apply list_lookup_insert_eq; by eapply lookup_lt_Some).
  rewrite <- (bind_insert_new f l' i y x El Hf). subst l'.
  by rewrite list_insert_insert_eq, list_insert_id.
Qed.

Lemma bind_nil {A B} (f : A → list B) l : (∀ k x, l !! k = Some x → f x = []) → l ≫= f = [].
Proof.
  induction l as [|x l IH]; intros Hl; [done|]. cbn. rewrite (Hl 0%nat x eq_refl).
  apply IH. intros k. apply (Hl (S k)).
Qed.

(** [Execute] is entered, resp. left. *)
Lemma begin_pool i x s n :
  workers (jobs s) !! i = Some (WDoJob x) → intake_move (LPool (Worker i WRun)) s = Some n →
  executed (jobs n) = executed (jobs s) ∧ exec_jobs (jobs n) ≡ₚ x :: exec_jobs (jobs s) ∧
  exec_at (jobs n) i = [x] ∧ ∀ k, k ≠ i → exec_at (jobs n) k = exec_at (jobs s) k.
Proof.
  intros E Hs. cbn in Hs. unfold step, worker_step in Hs. rewrite E in Hs.
  destruct (panicked (jobs s)); [done|]. injection Hs as <-. cbn. split; [done|].
  split; [by eapply (bind_insert_new executing)|]. unfold exec_at. cbn. split.
  - rewrite list_lookup_insert_eq; [done|by eapply lookup_lt_Some].
  - intros k Hk. by rewrite list_lookup_insert_ne.
Qed.

Lemma end_pool i x s n :
  workers (jobs s) !! i = Some (WExecuting x) → intake_move (LPool (Worker i WRun)) s = Some n →
  executed (jobs n) = executed (jobs s) ++ [x] ∧ exec_jobs (jobs s) ≡ₚ x :: exec_jobs (jobs n) ∧
  exec_at (jobs n) i = [] ∧ ∀ k, k ≠ i → exec_at (jobs n) k = exec_at (jobs s) k.
Proof.
  intros E Hs. cbn in Hs. unfold step, worker_step in Hs. rewrite E in Hs.
  destruct (panicked (jobs s)); [done|]. injection Hs as <-. cbn. split; [done|]. split.
  - by apply (bind_insert_gone executing _ _ _ WJobDone E).
  - unfold exec_at. cbn. split; [rewrite list_lookup_insert_eq; [done|by eapply lookup_lt_Some]|].
    intros k Hk. by rewrite list_lookup_insert_ne.
Qed.
End System.

(** ** Schedules *)

Section SystemSchedules.
Context {J C D W : Type} `{EqDecision J}.
Context `{MessageEnv, Logged W, SQSClient C W, HttpClient D W, ExecEnv W, GoRuntime W}.
Context (mh : messageHandler) (url_of : J → string) (job_of : J → job).
(** A run of [Execute] for each item and each environment of its process. *)
Context (chosen : J → list string → list event).
Implicit Types s : system J.

Inductive sys_label : Type :=
  | SIntake (l : intake_label J)
  | SBegin (i : nat)
  | SCall (d : nat)
  | SAppend (d : nat) (spare : list string)
  | SBuild (d : nat)
  | SRun (d : nat)
  | SEnd (d : nat).

Abbreviation G := (GlobalEnv (actionSpecs mh)).

(** Delivery [d] goes on as [y], with the arrays [ars] and the calls [es]. *)
Definition go_on (d : nat) (y : delivery J) (ars : list (list string))
    (es : list (outside_call J)) s : system J :=
  mkSystem (sys_intake s) (<[d := y]> (deliveries s)) ars (trace s ++ es).

Definition delivery_move (l : sys_label) s : option (system J) :=
  match l with
  | SCall d =>
      match deliveries s !! d with
      | Some (mkDelivery x i (e :: es) b v) =>
          if is_run e then None
          else Some (go_on d (mkDelivery x i es b v) (arrays s) [DeliveryCall d e] s)
      | _ => None
      end
  | SAppend d spare =>
      match deliveries s !! d with
      | Some (mkDelivery x i (EvRun cmd r :: es) true EnvNone) =>
          let '(e, ars) := Slices.append spare (shared_env mh) (item_env mh job_of x) (arrays s) in
          Some (go_on d (mkDelivery x i (EvRun cmd r :: es) true (EnvSlice e)) ars [] s)
      | _ => None
      end
  | SBuild d =>
      match deliveries s !! d with
      | Some (mkDelivery x i (EvRun cmd r :: es) true (EnvSlice e)) =>
          Some (go_on d (mkDelivery x i (EvRun cmd r :: es) true (EnvBuilt (contents (arrays s) e)))
            (arrays s) [] s)
      | _ => None
      end
  | SRun d =>
      match deliveries s !! d with
      | Some (mkDelivery x i (EvRun _ _ :: _) true (EnvBuilt l)) =>
          let env := drop (length G) l in
          let past := calls_of d (trace s) in
          match drop (length past) (chosen x env) with
          | EvRun cmd r :: es =>
              if decide (l = G ++ env ∧ chosen x env = past ++ EvRun cmd r :: es) then
                Some (go_on d (mkDelivery x i es true (EnvRan env)) (arrays s)
                  [DeliveryCall d (EvRun cmd r)] s)
              else None
          | _ => None
          end
      | _ => None
      end
  | _ => None
  end.

Definition sys_move (l : sys_label) s : option (system J) :=
  match l with
  | SIntake l =>
      if at_execute l (sys_pool s) then None
      else n ← intake_move l (sys_intake s);
        Some (mkSystem n (deliveries s) (arrays s) (trace s ++ poller_calls l (sys_intake s)))
  | SBegin i =>
      match workers (sys_pool s) !! i with
      | Some (WDoJob x) =>
          n ← intake_move (LPool (Worker i WRun)) (sys_intake s);
          Some (mkSystem n
            (deliveries s ++ [mkDelivery x i (chosen x (item_env mh job_of x)) true EnvNone])
            (arrays s) (trace s))
      | _ => None
      end
  | SEnd d =>
      match deliveries s !! d with
      | Some (mkDelivery x i es true v) =>
          match workers (sys_pool s) !! i with
          | Some (WExecuting x') =>
              if decide (x' = x) then
                if forallb of_sender es then
                  n ← intake_move (LPool (Worker i WRun)) (sys_intake s);
                  Some (mkSystem n (<[d := mkDelivery x i es false v]> (deliveries s)) (arrays s)
                    (trace s))
                else None
              else None
          | _ => None
          end
      | _ => None
      end
  | l => delivery_move l s
  end.

Fixpoint sys_run (ls : list sys_label) s : option (system J) :=
  match ls with
  | [] => Some s
  | l :: ls => match sys_move l s with Some s' => sys_run ls s' | None => None end
  end.

Hypothesis chosen_ok : ∀ x env,
  job_log (C := C) (D := D) (W := W) mh url_of job_of env x (chosen x env).

Abbreviation sys_step := (sys_step (C := C) (D := D) (W := W) mh url_of job_of).

Lemma go_on_quiet d y ars s :
  go_on d y ars [] s = mkSystem (sys_intake s) (<[d := y]> (deliveries s)) ars (trace s).
Proof. unfold go_on. by rewrite app_nil_r. Qed.

Lemma delivery_move_sound l s s' : delivery_move l s = Some s' → sys_step s s'.
Proof.
  destruct l as [l|i|d|d spare|d|d|d]; cbn; [done|done|..|done];
    (destruct (deliveries s !! d) as [[x i es b v]|] eqn:Ed; [|done]).
  - destruct es as [|e es]; [done|]. destruct (is_run e) eqn:Er; [done|].
    intros [= <-]. by apply sy_call.
  - destruct es as [|[] es]; try done. destruct b, v; try done.
    destruct (Slices.append _ _ _ _) as [e ars] eqn:Ea. intros [= <-].
    rewrite go_on_quiet. by eapply sy_append.
  - destruct es as [|[] es]; try done. destruct b, v; try done. intros [= <-].
    rewrite go_on_quiet. by eapply sy_build.
  - destruct es as [|[] es]; try done. destruct b, v as [| |l|]; try done.
    destruct (drop _ (chosen _ _)) as [|[] es'] eqn:Ec; try done.
    destruct (decide _) as [[El Elog]|]; [|done]. intros [= <-].
    rewrite El in Ed. eapply sy_run; [exact Ed|]. rewrite <- Elog. apply chosen_ok.
Qed.

Lemma sys_move_sound l s s' : sys_move l s = Some s' → sys_step s s'.
Proof.
  destruct l as [l|i|d|d spare|d|d|d]; try apply delivery_move_sound;
    cbn -[intake_move at_execute]; intros Hm.
  - destruct (at_execute l _) eqn:Ha; [done|].
    apply bind_Some in Hm as (n & Hn & [= <-]). by apply (sy_intake _ _ _ _ l).
  - destruct (workers _ !! i) as [[]|] eqn:E; try done.
    apply bind_Some in Hm as (n & Hn & [= <-]). by apply sy_begin.
  - repeat case_match; simplify_eq. apply bind_Some in Hm as (n & Hn & [= <-]).
    by apply sy_end.
Qed.

Lemma sys_run_sound ls : ∀ s s', sys_run ls s = Some s' → rtc sys_step s s'.
Proof.
  induction ls as [|l ls IH]; intros s s'; cbn; [by intros [= <-]|].
  destruct (sys_move l s) as [s1|] eqn:E; [|done].
  intros Hr. eapply rtc_l; [by eapply sys_move_sound|by apply IH].
Qed.
End SystemSchedules.

Arguments sys_label : clear implicits.
