(* ===== verification/SystemInv.v ===== *)
(** * The invariant of pollers, pool and deliveries together: where each delivery
    stands, what calls it has made, and what its action's environment can hold. *)

From stdpp Require Import base list numbers strings gmap relations.
From Stdlib Require Import Lia ZifyBool ZifyNat.
From S2P Require Import Prelude Configuration WorkerPool WorkerPoolInv WorkerPoolProps.
From S2P Require Import WorkerPoolClaims GoError Interfaces GoStrings SqsProvider Job Retryer.
From S2P Require Import Git Actions Reader Runbook MessageHandler Intake Delivery.
From S2P Require Import Slices DeliveryEnv System.
Local Open Scope Z_scope.

(** ** The environments *)

Section Environments.
Context {J : Type} `{MessageEnv}.
Context (mh : messageHandler) (job_of : J → job) (room : list string).
Implicit Types (x : J) (xs : list J) (env : list string) (ars : list (list string)).

Abbreviation G := (GlobalEnv (actionSpecs mh)).
Abbreviation item_env := (item_env mh job_of).

(** The [k]-th variable of the action of one of the items. *)
Definition offered xs (k : nat) (z : string) : Prop :=
  ∃ x, x ∈ xs ∧ item_env x !! k = Some z.

(** What the process of an item can get after the global variables: as many
    variables as its action has, each of them at the same position in the action
    of one of the items; its own when the array of [GlobalEnv] has no room for
    them. *)
Record mixed xs x env : Prop := {
  mx_length : length env = length (item_env x);
  mx_offered : ∀ k z, env !! k = Some z → offered xs k z;
  mx_own : (length room < length (item_env x))%nat → env = item_env x
}.

Definition env_ok xs ars x (v : env_pc) : Prop :=
  match v with
  | EnvNone => True
  | EnvSlice e => slice_len e = (length G + length (item_env x))%nat ∧
      (array e < length ars)%nat ∧
      (array e = 0 → length (item_env x) <= length room)%nat ∧
      ∃ env, contents ars e = G ++ env ∧ mixed xs x env
  | EnvBuilt l => ∃ env, l = G ++ env ∧ mixed xs x env
  | EnvRan env => mixed xs x env
  end.

(** No append touches the global variables or the array's length. *)
Definition shared_ok ars : Prop :=
  ∃ tail, ars !! 0%nat = Some (G ++ tail) ∧ length tail = length room.

Lemma mixed_own xs x : x ∈ xs → mixed xs x (item_env x).
Proof. intros Hx. split; [done| |done]. intros k z Hk. by exists x. Qed.

Lemma mixed_mono xs xs' x env : xs ⊆ xs' → mixed xs x env → mixed xs' x env.
Proof.
  intros Hxs [M1 M2 M3]. split; [done| |done].
  intros k z (x' & Hx & Hz)%M2. exists x'. split; [by apply Hxs|done].
Qed.

Lemma env_ok_mono xs xs' ars x v : xs ⊆ xs' → env_ok xs ars x v → env_ok xs' ars x v.
Proof.
  intros Hxs. destruct v as [|e|l|env]; cbn; [done| | |by apply mixed_mono].
  - intros (E1 & E2 & E3 & env & Ec & Hm). do 3 (split; [done|]).
    exists env. split; [done|by eapply mixed_mono].
  - intros (env & El & Hm). exists env. split; [done|by eapply mixed_mono].
Qed.

(** Where another action's variables were written over the shared array. *)
Lemma overwritten_mixed xs x x' tail :
  x' ∈ xs → (length (item_env x') <= length tail)%nat → length tail = length room →
  (length (item_env x) <= length room)%nat →
  mixed xs x (take (length (item_env x)) tail) →
  mixed xs x (take (length (item_env x))
    (item_env x' ++ drop (length (item_env x')) tail)).
Proof.
  intros Hx' Hfit Ht Hn [_ M2 _]. split; [|intros k z|lia].
  - rewrite length_take, length_app, length_drop. lia.
  - intros [Hk Hlt]%lookup_take_Some.
    apply lookup_app_Some in Hk as [Hk|[Hge Hk]]; [by exists x'|].
    apply M2, lookup_take_Some. split; [|done].
    rewrite lookup_drop in Hk. by rewrite Nat.add_comm, Nat.sub_add in Hk by done.
Qed.

Lemma append_ok xs x spare ars e ars' :
  shared_ok ars → x ∈ xs → Slices.append spare (shared_env mh) (item_env x) ars = (e, ars') →
  shared_ok ars' ∧ env_ok xs ars' x (EnvSlice e) ∧
  ∀ x' v, env_ok xs ars x' v → env_ok xs ars' x' v.
Proof.
  intros (tail & E0 & Ht) Hx E. pose proof (lookup_lt_Some _ _ _ E0) as Hlt.
  unfold shared_env in E. rewrite (append_first _ _ _ _ _ E0) in E.
  destruct (decide (length (item_env x) <= length tail)%nat) as [Hfit|Hfit];
    injection E as <- <-.
  - split; [|split].
    + eexists. split; [by apply list_lookup_insert_eq|]. rewrite length_app, length_drop. lia.
    + cbn [env_ok array slice_len]. split; [done|]. rewrite length_insert. split; [done|].
      split; [lia|]. exists (item_env x). split; [|by apply mixed_own].
      unfold contents, backing. cbn [array slice_len].
      rewrite list_lookup_insert_eq by done. by apply take_app_two.
    + intros x' [|e'|l|env]; cbn [env_ok]; try done. rewrite length_insert.
      intros (E1 & E2 & E3 & env & Ec & Hm). do 3 (split; [done|]).
      unfold contents, backing in *. rewrite E1 in *.
      destruct (decide (array e' = 0%nat)) as [Ez|Hne].
      * rewrite Ez in *. rewrite list_lookup_insert_eq by done. rewrite E0 in Ec. cbn in *.
        rewrite take_app_add in *. apply app_inv_head in Ec as <-.
        eexists. split; [done|]. apply overwritten_mixed; auto with lia.
      * exists env. by rewrite list_lookup_insert_ne by done.
  - split; [|split].
    + exists tail. by rewrite lookup_app_l by done.
    + cbn [env_ok array slice_len]. split; [done|]. rewrite length_app. cbn. split; [lia|].
      split; [lia|]. exists (item_env x). split; [|by apply mixed_own].
      unfold contents, backing. cbn [array slice_len].
      rewrite lookup_app_r, Nat.sub_diag by lia. cbn. by apply take_app_two.
    + intros x' [|e'|l|env]; cbn [env_ok]; try done. rewrite length_app.
      intros (E1 & E2 & E3 & env & Ec & Hm). split; [done|]. split; [lia|]. split; [done|].
      exists env. unfold contents, backing in *. by rewrite lookup_app_l by done.
Qed.
End Environments.

(** ** The invariant *)

Section Invariant.
Context {J C D W : Type}.
Context `{MessageEnv, Logged W, SQSClient C W, HttpClient D W, ExecEnv W, GoRuntime W}.
Context (mh : messageHandler) (url_of : J → string) (job_of : J → job) (room : list string).
Implicit Types (s : system J) (y : delivery J).

Abbreviation item_env := (item_env mh job_of).
Abbreviation job_log := (job_log (C := C) (D := D) (W := W) mh url_of job_of).
Abbreviation sys_step := (sys_step (C := C) (D := D) (W := W) mh url_of job_of).

(** The item of a delivery by whether [Execute] has returned. *)
Definition running y : list J := if dl_open y then [dl_item y] else [].
Definition finished y : list J := if dl_open y then [] else [dl_item y].

Lemma deliveries_split (l : list (delivery J)) :
  (l ≫= finished) ++ (l ≫= running) ≡ₚ dl_item <$> l.
Proof.
  induction l as [|[x i es b v] l IH]; [done|]. destruct b; cbn; rewrite <- IH; [|done].
  by rewrite <- Permutation_middle.
Qed.

(** The deliveries are what the workers are doing. *)
Record PoolInv s : Prop := {
  pi_closed : ∀ d y, deliveries s !! d = Some y → dl_open y = false →
    forallb of_sender (dl_rest y) = true;
  pi_open : ∀ d y, deliveries s !! d = Some y → dl_open y = true →
    exec_at (sys_pool s) (dl_worker y) = [dl_item y];
  pi_unique : ∀ d d' y y', deliveries s !! d = Some y → deliveries s !! d' = Some y' →
    dl_open y = true → dl_open y' = true → dl_worker y = dl_worker y' → d = d';
  pi_served : ∀ i x, exec_at (sys_pool s) i = [x] → ∃ d y, deliveries s !! d = Some y ∧
    dl_open y = true ∧ dl_worker y = i ∧ dl_item y = x;
  pi_running : deliveries s ≫= running ≡ₚ exec_jobs (sys_pool s);
  pi_finished : deliveries s ≫= finished ≡ₚ executed (sys_pool s)
}.

(** The variables the process of a delivery got, or has coming. *)
Definition env_read y : list string :=
  match dl_env y with EnvRan env => env | _ => item_env (dl_item y) end.

(** The calls are those of runs of [Execute], and those of the cycles. *)
Record LogInv s : Prop := {
  li_log : ∀ d y, deliveries s !! d = Some y →
    job_log (env_read y) (dl_item y) (calls_of d (trace s) ++ dl_rest y);
  li_fresh : ∀ d, (length (deliveries s) <= d)%nat → calls_of d (trace s) = [];
  li_ran : ∀ d y env, deliveries s !! d = Some y → dl_env y = EnvRan env →
    runs (calls_of d (trace s)) ≠ [];
  li_received : received_in (trace s) = received (sys_intake s);
  li_visible : visible_in (trace s) = returned (sys_intake s)
}.

Record EnvInv s : Prop := {
  ei_shared : shared_ok mh room (arrays s);
  ei_env : ∀ d y, deliveries s !! d = Some y →
    env_ok mh job_of room (dl_item <$> deliveries s) (arrays s) (dl_item y) (dl_env y)
}.

Record SysInv s : Prop := {
  si_pool : PoolInv s;
  si_log : LogInv s;
  si_env : EnvInv s
}.

Lemma system_init_inv c : SysInv (system_init mh c room).
Proof. split; [by split|by split|]. split; [by exists room|done]. Qed.

(** *** The pool *)

Lemma pool_inv_begin s i x es n ars tr :
  PoolInv s → workers (sys_pool s) !! i = Some (WDoJob x) →
  intake_move (LPool (Worker i WRun)) (sys_intake s) = Some n →
  PoolInv (mkSystem n (deliveries s ++ [mkDelivery x i es true EnvNone]) ars tr).
Proof.
  intros [I3 I4 I5 IS I6 I7] E Hs. destruct (begin_pool i x _ n E Hs) as (P1 & P2 & P3 & P4).
  assert (Hno : ∀ d y, deliveries s !! d = Some y → dl_open y = true → dl_worker y ≠ i).
  { intros d y Hd Ho Hi. pose proof (I4 d y Hd Ho) as Hx. unfold exec_at in Hx.
    by rewrite Hi, E in Hx. }
  split; unfold sys_pool in *; cbn.
  - intros d y [[_ Hd]|[_ <-]]%lookup_snoc_Some; [by eapply I3|done].
  - intros d y [[_ Hd]|[_ <-]]%lookup_snoc_Some Ho; [|done].
    rewrite P4; [by eapply I4|by eapply Hno].
  - intros d d' y y' [[Hl Hd]|[-> <-]]%lookup_snoc_Some [[Hl' Hd']|[-> <-]]%lookup_snoc_Some
      Ho Ho' Hw; cbn in *; try done; [by eapply I5|exfalso; by eapply Hno..].
  - intros k z. destruct (decide (k = i)) as [->|Hne].
    + rewrite P3. intros [= <-]. exists (length (deliveries s)). eexists.
      rewrite lookup_app_r, Nat.sub_diag by lia. by split_and!.
    + rewrite P4 by done. intros (d & y & Hd & Hy)%IS. exists d, y. split; [|done].
      by apply lookup_app_l_Some.
  - rewrite P2, bind_app, I6. cbn. by rewrite <- Permutation_cons_append.
  - by rewrite P1, bind_app, I7, app_nil_r.
Qed.

Lemma pool_inv_end s d x i es v n ars tr :
  PoolInv s → deliveries s !! d = Some (mkDelivery x i es true v) →
  forallb of_sender es = true → workers (sys_pool s) !! i = Some (WExecuting x) →
  intake_move (LPool (Worker i WRun)) (sys_intake s) = Some n →
  PoolInv (mkSystem n (<[d := mkDelivery x i es false v]> (deliveries s)) ars tr).
Proof.
  intros [I3 I4 I5 IS I6 I7] E Hf Ew Hs. destruct (end_pool i x _ n Ew Hs) as (P1 & P2 & P0 & P3).
  split; unfold sys_pool in *; cbn.
  - intros k y [(<- & <- & _)|[Hne Hk]]%list_lookup_insert_Some Ho; [done|by eapply I3].
  - intros k y [(<- & <- & _)|[Hne Hk]]%list_lookup_insert_Some Ho; [done|].
    rewrite P3; [by eapply I4|]. intros Hi. by destruct Hne; apply (I5 d k _ _ E Hk).
  - intros k k' y y' [(<- & <- & _)|[Hne Hk]]%list_lookup_insert_Some
      [(<- & <- & _)|[Hne' Hk']]%list_lookup_insert_Some Ho Ho' Hw; try done. by eapply I5.
  - intros k z. destruct (decide (k = i)) as [->|Hne]; [by rewrite P0|].
    rewrite P3 by done. intros (d' & y & Hd & Ho & Hw & Hy)%IS. exists d', y.
    rewrite list_lookup_insert_ne; [by split_and!|]. intros <-. rewrite E in Hd.
    injection Hd as <-. by cbn in Hw.
  - apply (Permutation_cons_inv (a := x)). rewrite <- P2, <- I6. symmetry.
    by apply (bind_insert_gone running _ _ _ _ E).
  - rewrite P1, <- I7, (bind_insert_new finished _ _ _ _ E) by done.
    by rewrite <- Permutation_cons_append.
Qed.

(** A move inside a delivery. *)
Lemma pool_inv_inside s d y y' ars tr :
  PoolInv s → deliveries s !! d = Some y →
  dl_item y' = dl_item y → dl_worker y' = dl_worker y → dl_open y' = dl_open y →
  (forallb of_sender (dl_rest y) = true → dl_open y = true ∨ forallb of_sender (dl_rest y') = true) →
  PoolInv (mkSystem (sys_intake s) (<[d := y']> (deliveries s)) ars tr).
Proof.
  intros [I3 I4 I5 IS I6 I7] E Ex Ei Eb Hr. pose proof (lookup_lt_Some _ _ _ E) as Hlt.
  unfold sys_pool in *. split; unfold sys_pool; cbn.
  - intros k z [(<- & <- & _)|[Hne Hk]]%list_lookup_insert_Some Ho; [|by eapply I3].
    rewrite Eb in Ho. destruct (Hr (I3 d y E Ho)); congruence.
  - intros k z [(<- & <- & _)|[Hne Hk]]%list_lookup_insert_Some Ho; [|by eapply I4].
    rewrite Ei, Ex. rewrite Eb in Ho. by eapply I4.
  - assert (Hold : ∀ k z, <[d := y']> (deliveries s) !! k = Some z → dl_open z = true →
      ∃ z', deliveries s !! k = Some z' ∧ dl_open z' = true ∧ dl_worker z' = dl_worker z).
    { intros k z [(<- & <- & _)|[Hne Hk]]%list_lookup_insert_Some Ho; [|by exists z].
      exists y. by rewrite <- Eb, <- Ei. }
    intros k k' z z' Hk Hk' Ho Ho' Hw.
    destruct (Hold k z Hk Ho) as (a & Ha & Hao & Haw), (Hold k' z' Hk' Ho') as (b & Hb & Hbo & Hbw).
    apply (I5 k k' a b Ha Hb Hao Hbo). congruence.
  - intros k z (d' & y0 & Hd & Ho & Hw & Hy)%IS. destruct (decide (d' = d)) as [->|Hne].
    + rewrite E in Hd. injection Hd as <-. exists d, y'. rewrite list_lookup_insert_eq by done.
      by rewrite Eb, Ei, Ex.
    + exists d', y0. by rewrite list_lookup_insert_ne.
  - rewrite (bind_insert running _ _ _ y' E); [done|]. unfold running. by rewrite Eb, Ex.
  - rewrite (bind_insert finished _ _ _ y' E); [done|]. unfold finished. by rewrite Eb, Ex.
Qed.

(** *** The calls *)

Lemma intake_move_calls l (n n' : intake J) :
  intake_move l n = Some n' →
  received n' = received n ++ received_in (poller_calls l n) ∧
  returned n' = returned n ++ visible_in (poller_calls l n) ∧
  ∀ d, calls_of d (poller_calls l n) = [].
Proof.
  unfold received_in, visible_in, calls_of. destruct l as [l|xs|k]; cbn.
  - repeat case_match; intros [= <-]; cbn; by rewrite !app_nil_r.
  - intros [= <-]. cbn. by rewrite !app_nil_r.
  - unfold cycle_step. destruct (cycles n !! k) as [[[|j js]|j js i|[|j js] rest|]|]; [..|done];
      repeat case_match; intros [= <-]; cbn; by rewrite ?app_nil_r.
Qed.

Lemma calls_of_other d d' es :
  calls_of (J := J) d (DeliveryCall d' <$> es) = if decide (d' = d) then es else [].
Proof.
  unfold calls_of. induction es as [|e es IH]; cbn in *; [by case_decide|].
  case_decide; cbn in *; by rewrite IH.
Qed.

Lemma delivery_calls_of d es :
  received_in (J := J) (DeliveryCall d <$> es) = [] ∧ visible_in (J := J) (DeliveryCall d <$> es) = [].
Proof. unfold received_in, visible_in. by induction es. Qed.

Lemma log_inv_intake s l n ars :
  LogInv s → intake_move l (sys_intake s) = Some n →
  LogInv (mkSystem n (deliveries s) ars (trace s ++ poller_calls l (sys_intake s))).
Proof.
  intros [I1 I2 I3 I4 I5] Hm. destruct (intake_move_calls _ _ _ Hm) as (E1 & E2 & E3).
  split; cbn.
  - intros d y Hd. rewrite calls_of_app, E3, app_nil_r. by apply I1.
  - intros d Hd. rewrite calls_of_app, E3, app_nil_r. by apply I2.
  - intros d y env Hd Hv. rewrite calls_of_app, E3, app_nil_r. by eapply I3.
  - by rewrite received_in_app, I4, E1.
  - by rewrite visible_in_app, I5, E2.
Qed.

Lemma pool_move_calls i c (n n' : intake J) :
  intake_move (LPool (Worker i c)) n = Some n' →
  received n' = received n ∧ returned n' = returned n.
Proof. intros (E1 & E2 & _)%intake_move_calls. cbn in *. by rewrite E1, E2, !app_nil_r. Qed.

Lemma log_inv_begin s i x es n :
  LogInv s → job_log (item_env x) x es →
  intake_move (LPool (Worker i WRun)) (sys_intake s) = Some n →
  LogInv (mkSystem n (deliveries s ++ [mkDelivery x i es true EnvNone]) (arrays s) (trace s)).
Proof.
  intros [I1 I2 I3 I4 I5] Hl Hm. destruct (pool_move_calls _ _ _ _ Hm) as [E1 E2].
  split; cbn; try congruence.
  - intros d y [[_ Hd]|[-> <-]]%lookup_snoc_Some; [by apply I1|].
    by rewrite (I2 (length (deliveries s))).
  - intros d Hd. apply I2. rewrite length_app in Hd. lia.
  - intros d y env [[_ Hd]|[-> <-]]%lookup_snoc_Some Hv; [by eapply I3|done].
Qed.

(** A delivery goes on with the calls [es]. *)
Lemma log_inv_inside s d y y' es n ars :
  LogInv s → deliveries s !! d = Some y →
  job_log (env_read y') (dl_item y') ((calls_of d (trace s) ++ es) ++ dl_rest y') →
  (∀ env, dl_env y' = EnvRan env → runs (calls_of d (trace s) ++ es) ≠ []) →
  received n = received (sys_intake s) → returned n = returned (sys_intake s) →
  LogInv (mkSystem n (<[d := y']> (deliveries s)) ars (trace s ++ (DeliveryCall d <$> es))).
Proof.
  intros [I1 I2 I3 I4 I5] E Hl Hv E1 E2. pose proof (lookup_lt_Some _ _ _ E) as Hlt.
  destruct (delivery_calls_of d es) as [R1 R2]. split; cbn.
  - intros k z [(<- & <- & _)|[Hne Hk]]%list_lookup_insert_Some;
      rewrite calls_of_app, calls_of_other.
    + by rewrite decide_True by done.
    + rewrite decide_False, app_nil_r by done. by apply I1.
  - intros k Hk. rewrite length_insert in Hk.
    rewrite calls_of_app, calls_of_other, decide_False, app_nil_r by lia. by apply I2.
  - intros k z env [(<- & <- & _)|[Hne Hk]]%list_lookup_insert_Some Hz;
      rewrite calls_of_app, calls_of_other.
    + rewrite decide_True by done. by eapply Hv.
    + rewrite decide_False, app_nil_r by done. by eapply I3.
  - by rewrite received_in_app, R1, app_nil_r, E1.
  - by rewrite visible_in_app, R2, app_nil_r, E2.
Qed.

(** *** The environments *)

Lemma items_inside s d y y' :
  deliveries s !! d = Some y → dl_item y' = dl_item y →
  dl_item <$> <[d := y']> (deliveries s) = dl_item <$> deliveries s.
Proof.
  intros E Ex. rewrite list_fmap_insert, Ex. apply list_insert_id.
  by rewrite list_lookup_fmap, E.
Qed.

Lemma env_inv_inside s d y y' n ars tr :
  EnvInv s → deliveries s !! d = Some y → dl_item y' = dl_item y →
  shared_ok mh room ars →
  env_ok mh job_of room (dl_item <$> deliveries s) ars (dl_item y') (dl_env y') →
  (∀ x v, env_ok mh job_of room (dl_item <$> deliveries s) (arrays s) x v →
     env_ok mh job_of room (dl_item <$> deliveries s) ars x v) →
  EnvInv (mkSystem n (<[d := y']> (deliveries s)) ars tr).
Proof.
  intros [I1 I2] E Ex Hs Hy Hars. split; cbn; [done|]. rewrite (items_inside s d y y' E Ex).
  intros k z [(<- & <- & _)|[Hne Hk]]%list_lookup_insert_Some; [done|]. by eapply Hars, I2.
Qed.

Lemma env_inv_begin s x i es n tr :
  EnvInv s →
  EnvInv (mkSystem n (deliveries s ++ [mkDelivery x i es true EnvNone]) (arrays s) tr).
Proof.
  intros [I1 I2]. split; cbn; [done|]. intros d y [[_ Hd]|[-> <-]]%lookup_snoc_Some; [|done].
  rewrite fmap_app. eapply env_ok_mono; [|by eapply I2].
  by apply list_subseteq_app_l.
Qed.

Lemma env_ok_run xs ars x v env :
  env_ok mh job_of room xs ars x v → v = EnvBuilt (GlobalEnv (actionSpecs mh) ++ env) →
  mixed mh job_of room xs x env.
Proof. intros Hv ->. destruct Hv as (env' & E & Hm). by apply app_inv_head in E as ->. Qed.

Lemma item_in_items s d y : deliveries s !! d = Some y → dl_item y ∈ dl_item <$> deliveries s.
Proof. intros Hd. by eapply list_elem_of_fmap_2, list_elem_of_lookup_2. Qed.

(** *** All together *)

(** A move inside [Execute]: the calls [es] and another state of the environment. *)
Lemma sys_inv_inside s d x i rest v rest' v' b es ars :
  SysInv s → deliveries s !! d = Some (mkDelivery x i rest b v) →
  (forallb of_sender rest = true → b = true ∨ forallb of_sender rest' = true) →
  job_log (env_read (mkDelivery x i rest' b v')) x ((calls_of d (trace s) ++ es) ++ rest') →
  (∀ env, v' = EnvRan env → runs (calls_of d (trace s) ++ es) ≠ []) →
  shared_ok mh room ars →
  env_ok mh job_of room (dl_item <$> deliveries s) ars x v' →
  (∀ x v, env_ok mh job_of room (dl_item <$> deliveries s) (arrays s) x v →
     env_ok mh job_of room (dl_item <$> deliveries s) ars x v) →
  SysInv (mkSystem (sys_intake s) (<[d := mkDelivery x i rest' b v']> (deliveries s)) ars
    (trace s ++ (DeliveryCall d <$> es))).
Proof.
  intros [HP HL HE] Hd Hr Hl Hv Hs Hx Ho. split.
  - by eapply pool_inv_inside.
  - by eapply log_inv_inside.
  - by eapply env_inv_inside.
Qed.

(** The same without a call. *)
Lemma sys_inv_quiet s d x i rest v v' ars :
  SysInv s → deliveries s !! d = Some (mkDelivery x i rest true v) →
  (∀ env, v ≠ EnvRan env) → (∀ env, v' ≠ EnvRan env) → shared_ok mh room ars →
  env_ok mh job_of room (dl_item <$> deliveries s) ars x v' →
  (∀ x v, env_ok mh job_of room (dl_item <$> deliveries s) (arrays s) x v →
     env_ok mh job_of room (dl_item <$> deliveries s) ars x v) →
  SysInv (mkSystem (sys_intake s) (<[d := mkDelivery x i rest true v']> (deliveries s)) ars
    (trace s)).
Proof.
  intros HI Hd Hv Hv' Hs Hx Ho. rewrite <- (app_nil_r (trace s)).
  apply (sys_inv_inside s d x i rest v rest v' true []); try done; [by left| |by intros env ?%Hv'].
  rewrite app_nil_r. replace (env_read _) with (env_read (mkDelivery x i rest true v)).
  - by apply (li_log _ (si_log _ HI) d _ Hd).
  - destruct v as [| | |env], v' as [| | |env']; try reflexivity;
      exfalso; first [by apply (Hv env)|by apply (Hv' env')].
Qed.

Lemma sys_inv_intake s l n :
  SysInv s → at_execute l (sys_pool s) = false → intake_move l (sys_intake s) = Some n →
  SysInv (mkSystem n (deliveries s) (arrays s) (trace s ++ poller_calls l (sys_intake s))).
Proof.
  intros [HP HL HE] Ha Hm. split; [|by apply log_inv_intake|by destruct HE].
  destruct HP as [I3 I4 I5 IS I6 I7]. destruct (intake_move_frame l _ _ Hm Ha) as [F1 F2 F3].
  split; unfold sys_pool in *; cbn; try done.
  - intros d y Hd Ho. rewrite F2. by eapply I4.
  - intros i x. rewrite F2. apply IS.
  - by rewrite F3.
  - by rewrite F1.
Qed.

Lemma sys_inv_end s d x i es v n :
  SysInv s → deliveries s !! d = Some (mkDelivery x i es true v) →
  forallb of_sender es = true → workers (sys_pool s) !! i = Some (WExecuting x) →
  intake_move (LPool (Worker i WRun)) (sys_intake s) = Some n →
  SysInv (mkSystem n (<[d := mkDelivery x i es false v]> (deliveries s)) (arrays s) (trace s)).
Proof.
  intros [HP HL HE] Hd Hf Ew Hm. split; [by eapply pool_inv_end| |].
  - destruct (pool_move_calls _ _ _ _ Hm) as [E1 E2]. rewrite <- (app_nil_r (trace s)).
    apply (log_inv_inside s d _ _ [] _ _ HL Hd); [|intros env Hv|done..]; rewrite app_nil_r.
    + by apply (li_log _ HL d _ Hd).
    + by apply (li_ran _ HL d _ env Hd Hv).
  - eapply env_inv_inside; [done|exact Hd|done|by destruct HE| |done].
    by apply (ei_env _ HE d _ Hd).
Qed.

Lemma sys_step_inv s s' : SysInv s → sys_step s s' → SysInv s'.
Proof.
  intros HI Hs. pose proof HI as [HP HL HE].
  destruct Hs as [s l n Ha Hm|s i x es n Ew Hl Hm|s d x i e es b v Hd He
    |s d x i cmd r es spare e ars Hd Ea|s d x i cmd r es e Hd|s d x i cmd r es env cmd' r' es' Hd Hl
    |s d x i es v n Hd Hf Ew Hm].
  - by apply sys_inv_intake.
  - split; [by apply pool_inv_begin|by apply (log_inv_begin s i)|by apply env_inv_begin].
  - apply (sys_inv_inside s d x i (e :: es) v es v b [e]); try done.
    + intros [_ Hr]%andb_prop. by right.
    + rewrite <- (assoc_L (++)). by apply (li_log _ HL d _ Hd).
    + intros env Hv. rewrite runs_app. intros [Hn _]%app_eq_nil.
      by apply (li_ran _ HL d _ env Hd Hv).
    + by destruct HE.
    + by apply (ei_env _ HE d _ Hd).
  - destruct (append_ok mh job_of room _ x spare _ e ars (ei_shared _ HE)
      (item_in_items s d _ Hd) Ea) as (Hsh & Hx & Hot).
    by eapply sys_inv_quiet.
  - eapply sys_inv_quiet; try done; [by destruct HE|].
    destruct (ei_env _ HE d _ Hd) as (_ & _ & _ & env & Ec & Hm). by exists env.
  - eapply (sys_inv_inside s d x i _ _ es' (EnvRan env) true [EvRun cmd' r'] (arrays s)); try done.
    + by rewrite <- (assoc_L (++)).
    + intros env' _. rewrite runs_app. by intros [_ Hn]%app_eq_nil.
    + by destruct HE.
    + by eapply env_ok_run, (eq_refl (EnvBuilt _)); apply (ei_env _ HE d _ Hd).
  - by eapply sys_inv_end.
Qed.

Lemma sys_steps_inv s s' : SysInv s → rtc sys_step s s' → SysInv s'.
Proof. intros HI Hr. induction Hr as [|s1 s2 s3 Hs _ IH]; [done|]. by eapply IH, sys_step_inv. Qed.

Lemma sys_step_intake s s' :
  sys_step s s' → rtc intake_step (sys_intake s) (sys_intake s').
Proof. intros []; cbn; try done; eapply rtc_once, intake_move_sound; done. Qed.

Lemma sys_reachable c s :
  rtc sys_step (system_init mh c room) s →
  SysInv s ∧ rtc intake_step (intake_init c) (sys_intake s).
Proof.
  intros Hr. split; [by eapply sys_steps_inv, Hr; apply system_init_inv|].
  change (intake_init c) with (sys_intake (system_init (J := J) mh c room)).
  induction Hr as [|s1 s2 s3 Hs _ IH]; [done|]. etrans; [by eapply sys_step_intake|exact IH].
Qed.
End Invariant.

(** ** Deliveries do not block the pool *)

Lemma runs_split es :
  runs es = [] ∨ ∃ pre cmd r suf, es = pre ++ EvRun cmd r :: suf ∧ runs pre = [].
Proof.
  induction es as [|e es IH]; [by left|]. destruct (is_run e) eqn:He.
  - right. destruct e; try done. by eexists [], _, _, es.
  - destruct IH as [IH|(pre & cmd & r & suf & -> & Hp)].
    + left. by destruct e.
    + right. exists (e :: pre), cmd, r, suf. split; [done|]. by destruct e.
Qed.

Section Progress.
Context {J C D W : Type}.
Context `{MessageEnv, Logged W, SQSClient C W, HttpClient D W, ExecEnv W, GoRuntime W}.
Context `{!SQSClientSpec (C := C) (W := W), !HttpClientSpec D W, !ExecEnvSpec W, !GoRuntimeSpec W}.
Context (mh : messageHandler) (url_of : J → string) (job_of : J → job) (room : list string).
Context (new : ∀ x, state (job_of x) = jobInitial).
Implicit Types (s : system J) (y : delivery J).

Abbreviation item_env := (item_env mh job_of).
Abbreviation job_log := (job_log (C := C) (D := D) (W := W) mh url_of job_of).
Abbreviation steps := (rtc (sys_step (C := C) (D := D) (W := W) mh url_of job_of)).
Abbreviation SysInv := (SysInv (C := C) (D := D) (W := W) mh url_of job_of room).

Lemma calls_made s d x i es rest b v :
  deliveries s !! d = Some (mkDelivery x i (es ++ rest) b v) → runs es = [] →
  ∃ s', steps s s' ∧ sys_intake s' = sys_intake s ∧
    deliveries s' !! d = Some (mkDelivery x i rest b v).
Proof.
  revert s. induction es as [|e es IH]; intros s Hd He; [by exists s|].
  pose proof (lookup_lt_Some _ _ _ Hd) as Hlt.
  assert (He' : is_run e = false ∧ runs es = []) by (by destruct e).
  destruct He' as [He1 He2].
  destruct (IH (mkSystem (sys_intake s) (<[d := mkDelivery x i (es ++ rest) b v]> (deliveries s))
    (arrays s) (trace s ++ [DeliveryCall d e]))) as (s' & Hr & En & Hd');
    [by apply list_lookup_insert_eq|done|].
  exists s'. split; [|by split]. eapply rtc_l; [by apply sy_call|done].
Qed.

(** The process is started, with the variables its command has got by then. *)
Lemma run_made s d x i cmd r es v :
  complete (message (job_of x)) → SysInv s →
  deliveries s !! d = Some (mkDelivery x i (EvRun cmd r :: es) true v) →
  (∀ env, v ≠ EnvRan env) →
  ∃ s' es' v', steps s s' ∧ sys_intake s' = sys_intake s ∧
    deliveries s' !! d = Some (mkDelivery x i es' true v') ∧ runs es' = [].
Proof.
  intros Hc. set (P s := ∃ s' es' v', steps s s' ∧ sys_intake s' = sys_intake s ∧
    deliveries s' !! d = Some (mkDelivery x i es' true v') ∧ runs es' = []).
  assert (Hstep : ∀ s1 s2, sys_step mh url_of job_of s1 s2 → sys_intake s2 = sys_intake s1 →
    P s2 → P s1).
  { intros s1 s2 Hs E (s' & es' & v' & Hr & Ei & Hd & Hes). exists s', es', v'.
    split; [by eapply rtc_l|]. by rewrite Ei. }
  assert (Hb : ∀ s l, SysInv s →
    deliveries s !! d = Some (mkDelivery x i (EvRun cmd r :: es) true (EnvBuilt l)) → P s).
  { intros s1 l HI Hd. destruct (ei_env _ _ _ _ (si_env _ _ _ _ _ HI) d _ Hd) as (env & -> & _).
    pose proof (li_log _ _ _ _ (si_log _ _ _ _ _ HI) d _ Hd) as Hl. cbn in Hl.
    destruct (run_log_rerun _ _ _ env _ _ _ _ _ (new x) Hc Hl) as (cmd' & r' & es' & Hl' & Hes).
    eexists _, es', (EnvRan env). split; [by eapply rtc_once, sy_run|]. split; [done|].
    split; [|done]. apply list_lookup_insert_eq. by eapply lookup_lt_Some. }
  assert (Hsl : ∀ s e, SysInv s →
    deliveries s !! d = Some (mkDelivery x i (EvRun cmd r :: es) true (EnvSlice e)) → P s).
  { intros s1 e HI Hd. pose proof (lookup_lt_Some _ _ _ Hd) as Hlt.
    pose proof (sy_build (C := C) (D := D) (W := W) mh url_of job_of s1 d x i cmd r es e Hd) as Hs.
    eapply Hstep; [exact Hs|done|]. eapply Hb; [by eapply sys_step_inv|].
    by apply list_lookup_insert_eq. }
  intros HI Hd Hv. destruct v as [|e|l|env]; [|by eapply Hsl|by eapply Hb|by destruct (Hv env)].
  pose proof (lookup_lt_Some _ _ _ Hd) as Hlt.
  destruct (Slices.append [] (shared_env mh) (item_env x) (arrays s)) as [e ars] eqn:Ea.
  pose proof (sy_append (C := C) (D := D) (W := W) mh url_of job_of s d x i cmd r es [] e ars Hd Ea)
    as Hs.
  eapply Hstep; [exact Hs|done|]. eapply Hsl; [by eapply sys_step_inv|].
  by apply list_lookup_insert_eq.
Qed.

Lemma delivery_finishes s d x i rest v :
  complete (message (job_of x)) → SysInv s →
  deliveries s !! d = Some (mkDelivery x i rest true v) →
  ∃ s' v', steps s s' ∧ sys_intake s' = sys_intake s ∧
    deliveries s' !! d = Some (mkDelivery x i [] true v').
Proof.
  intros Hc HI Hd.
  assert (Hfree : ∀ s rest v, deliveries s !! d = Some (mkDelivery x i rest true v) →
    runs rest = [] → ∃ s' v', steps s s' ∧ sys_intake s' = sys_intake s ∧
      deliveries s' !! d = Some (mkDelivery x i [] true v')).
  { intros s1 rest1 v1 Hd1 Hr. rewrite <- (app_nil_r rest1) in Hd1.
    destruct (calls_made _ _ _ _ _ _ _ _ Hd1 Hr) as (s' & Hs & Ei & Hd'). by exists s', v1. }
  destruct (runs_split rest) as [Hr|(pre & cmd & r & suf & -> & Hp)]; [by eapply Hfree|].
  destruct (calls_made _ _ _ _ _ _ _ _ Hd Hp) as (s1 & Hs1 & Ei1 & Hd1).
  pose proof (sys_steps_inv _ _ _ _ _ _ HI Hs1) as HI1.
  destruct (run_made s1 d x i cmd r suf v Hc HI1 Hd1) as (s2 & es' & v' & Hs2 & Ei2 & Hd2 & Hes).
  { intros env ->.
    pose proof (li_log _ _ _ _ (si_log _ _ _ _ _ HI1) d _ Hd1) as Hl.
    pose proof (li_ran _ _ _ _ (si_log _ _ _ _ _ HI1) d _ env Hd1 eq_refl) as Hn.
    by pose proof (one_process_ran _ _ _ _ _
      (run_log_one_process _ _ _ _ _ (new x) Hc Hl) Hn). }
  destruct (Hfree s2 es' v' Hd2 Hes) as (s3 & v3 & Hs3 & Ei3 & Hd3).
  exists s3, v3. split; [by etrans; [|etrans]|]. split; [congruence|done].
Qed.

Lemma lift_move l s n :
  SysInv s → (∀ x, complete (message (job_of x))) → (∀ x, ∃ es, job_log (item_env x) x es) →
  intake_move l (sys_intake s) = Some n → ∃ s', steps s s' ∧ sys_intake s' = n.
Proof.
  intros HI Hc Hlog Hm. destruct (at_execute l (sys_pool s)) eqn:Ha.
  2: { eexists. split; [by eapply rtc_once, sy_intake|done]. }
  destruct l as [[c|i k|i []|i|i]| |]; try done. cbn in Ha.
  destruct (workers (sys_pool s) !! i) as [[]|] eqn:E; try done.
  - destruct (Hlog j) as [es Hes]. eexists. split; [by eapply rtc_once, sy_begin|done].
  - destruct (pi_served s (si_pool _ _ _ _ _ HI) i j) as (d & [x i' es b v] & Hd & Ho & Hi & Hx).
    { unfold exec_at. by rewrite E. }
    cbn in *. subst.
    destruct (delivery_finishes _ _ _ _ _ _ (Hc j) HI Hd) as (s1 & v1 & Hr1 & E1 & Hd1).
    eexists. split; [eapply rtc_r; [exact Hr1|]|].
    + apply (sy_end mh url_of job_of s1 d j i [] v1 n); [done|done| |].
      * unfold sys_pool. by rewrite E1.
      * by rewrite E1.
    + done.
Qed.

Lemma lift_run s n :
  SysInv s → (∀ x, complete (message (job_of x))) → (∀ x, ∃ es, job_log (item_env x) x es) →
  rtc intake_step (sys_intake s) n → ∃ s', steps s s' ∧ sys_intake s' = n.
Proof.
  intros HI Hc Hlog Hr. remember (sys_intake s) as n0 eqn:E0. revert s HI E0.
  induction Hr as [n0|n0 n1 n2 Hs _ IH]; intros s HI E0; [by exists s|]. subst.
  apply intake_step_move in Hs as [l Hm].
  destruct (lift_move l s n1 HI Hc Hlog Hm) as (s1 & Hr1 & E1).
  destruct (IH s1) as (s2 & Hr2 & E2); [by eapply sys_steps_inv|done|].
  exists s2. split; [by etrans|done].
Qed.
End Progress.
