(* ===== verification/SystemClaims.v ===== *)
(** * The properties of pollers, pool and deliveries together, with a run of
    the model that meets their hypotheses. *)

From stdpp Require Import base list numbers strings gmap relations.
From Stdlib Require Import Lia ZifyBool ZifyNat.
From S2P Require Import Prelude Configuration WorkerPool WorkerPoolInv WorkerPoolProps.
From S2P Require Import WorkerPoolClaims GoError Interfaces GoStrings SqsProvider Job Retryer.
From S2P Require Import Git Actions Reader Runbook MessageHandler Intake Delivery.
From S2P Require Import Slices DeliveryEnv System SystemInv.
Local Open Scope Z_scope.

(** ** Counting the calls of all deliveries *)

Section Counting.
Local Open Scope nat_scope.
Context {J : Type}.

Lemma bind_app_perm {A B} (f g : A → list B) l :
  (l ≫= λ x, f x ++ g x) ≡ₚ (l ≫= f) ++ (l ≫= g).
Proof.
  induction l as [|x l IH]; [done|]. cbn. rewrite IH. rewrite <- !(assoc_L (++)). f_equiv.
  rewrite !(assoc_L (++)). f_equiv. apply Permutation_app_comm.
Qed.

Lemma bind_seq_one {B} (xs : list B) d k n :
  k <= d < k + n → (seq k n ≫= λ d', if decide (d = d') then xs else []) = xs.
Proof.
  revert k. induction n as [|n IH]; intros k Hd; [lia|]. cbn. case_decide as E.
  - subst. rewrite (bind_nil _ (seq (S k) n)); [by rewrite app_nil_r|].
    intros i z (-> & Hi)%lookup_seq. by rewrite decide_False by lia.
  - apply IH. lia.
Qed.

(** The deletions in a trace are those of its deliveries. *)
Lemma deleted_in_split n (tr : list (outside_call J)) :
  (∀ d e, DeliveryCall d e ∈ tr → d < n) →
  deleted_in tr ≡ₚ seq 0 n ≫= λ d, deletions (calls_of d tr).
Proof.
  induction tr as [|c tr IH]; intros Hd.
  { by rewrite (bind_nil _ (seq 0 n)) by done. }
  assert (IH' : deleted_in tr ≡ₚ seq 0 n ≫= λ d, deletions (calls_of d tr)).
  { apply IH. intros d e He. apply (Hd d e). by right. }
  destruct c as [xs|x|d e]; [exact IH'..|].
  pose proof (Hd d e ltac:(by left)) as Hlt.
  change (deletions [e] ++ deleted_in tr ≡ₚ
    seq 0 n ≫= λ d', deletions ((if decide (d = d') then [e] else []) ++ calls_of d' tr)).
  rewrite IH'. rewrite <- (bind_seq_one (deletions [e]) d 0 n) at 1 by lia.
  rewrite <- bind_app_perm.
  rewrite (list_bind_ext _ (λ d', deletions ((if decide (d = d') then [e] else []) ++ calls_of d' tr))
    _ (seq 0 n)); [done| |done].
  intros d'. rewrite deletions_app. by case_decide.
Qed.

Lemma bind_lookup_submseteq {A B} (f : nat → list B) (g : A → B) l k :
  (∀ d y, l !! d = Some y → f (k + d) ⊆+ [g y]) → seq k (length l) ≫= f ⊆+ g <$> l.
Proof.
  revert k. induction l as [|y l IH]; intros k Hf; [done|]. cbn.
  apply (submseteq_app (f k) [g y]).
  - rewrite <- (Nat.add_0_r k). by apply Hf.
  - apply IH. intros d z Hz. rewrite Nat.add_succ_comm. by apply Hf.
Qed.

Lemma bind_lookup_eq {A B} (f : nat → list B) (g : A → B) l k :
  (∀ d y, l !! d = Some y → f (k + d) = [g y]) → seq k (length l) ≫= f = g <$> l.
Proof.
  revert k. induction l as [|y l IH]; intros k Hf; [done|]. cbn.
  rewrite <- (Nat.add_0_r k) at 1. rewrite (Hf 0 y eq_refl). cbn. f_equal.
  apply IH. intros d z Hz. rewrite Nat.add_succ_comm. by apply Hf.
Qed.
End Counting.

(** ** What a reachable state is like *)

Section SystemClaims.
Context {J C D W : Type} `{EqDecision J}.
Context `{MessageEnv, Logged W, SQSClient C W, HttpClient D W, ExecEnv W, GoRuntime W}.
Context `{!SQSClientSpec (C := C) (W := W), !HttpClientSpec D W, !ExecEnvSpec W, !GoRuntimeSpec W}.
Context (mh : messageHandler) (url_of : J → string) (job_of : J → job).
Context (new : ∀ x, state (job_of x) = jobInitial).
Implicit Types s : system J.

Abbreviation steps := (rtc (sys_step (C := C) (D := D) (W := W) mh url_of job_of)).
Abbreviation log_of := (job_log (C := C) (D := D) (W := W) mh url_of job_of).
Abbreviation SysInv := (SysInv (C := C) (D := D) (W := W) mh url_of job_of).
Abbreviation item_env := (item_env mh job_of).

(** The receipt handle an item's message is deleted or made visible by. *)
Definition handle (x : J) : option string := ReceiptHandle (message (job_of x)).

Lemma exec_jobs_pending p : exec_jobs p ⊆+ pending (J := J) p.
Proof.
  unfold exec_jobs, pending. transitivity (workers p ≫= worker_jobs).
  - induction (workers p) as [|w l IH]; [done|]. cbn. apply submseteq_app; [|done].
    destruct w; cbn; auto using submseteq_nil_l.
  - apply submseteq_inserts_l, submseteq_inserts_r. done.
Qed.

Lemma exec_within_max c p :
  conf_ok (validate_conf c) → reachable (J := J) c p → nstarts p <= 1 → panicked p = None →
  Z.of_nat (length (exec_jobs p)) <= MaxNumberOfWorker (poolConf p).
Proof.
  intros Hc Hr Hn Hp. destruct (reachable_inv c p Hc Hr Hn) as [?|HI]; [congruence|].
  assert (Hle : Z.of_nat (length (exec_jobs p)) <= sumZ w_counted (workers p)).
  { unfold exec_jobs. induction (workers p) as [|w l IH]; [done|]. cbn.
    rewrite length_app. destruct w; cbn in *; lia. }
  pose proof (caller_facts (MinNumberOfWorker (poolConf p)) (callers p)
    ltac:(pose proof (inv_conf p HI); unfold conf_ok in *; lia)).
  destruct HI. lia.
Qed.

(** The variables of a delivery's process are those a mix allows. *)
Lemma env_read_mixed room s d y :
  SysInv room s → deliveries s !! d = Some y →
  mixed mh job_of room (dl_item <$> deliveries s) (dl_item y) (env_read mh job_of y).
Proof.
  intros HI Hd. pose proof (ei_env _ _ _ _ (si_env _ _ _ _ _ HI) d y Hd) as He.
  unfold env_read. destruct (dl_env y) as [| | |env]; [..|exact He];
    by eapply mixed_own, item_in_items.
Qed.

(** The calls of a delivery begin its job's protocol. *)
Lemma delivery_protocol room s d y :
  SysInv room s → deliveries s !! d = Some y → complete (message (job_of (dl_item y))) →
  ∃ env del handled sent ess,
    mixed mh job_of room (dl_item <$> deliveries s) (dl_item y) env ∧
    Forall2 (expands (D := D) (W := W) (reading_env env mh))
      (job_events (url_of (dl_item y)) (job_of (dl_item y)) del handled sent) ess ∧
    calls_of d (trace s) ++ dl_rest y = concat ess ∧
    ((length room < length (item_env (dl_item y)))%nat →
      Forall2 (expands (D := D) (W := W) mh)
        (job_events (url_of (dl_item y)) (job_of (dl_item y)) del handled sent) ess).
Proof.
  intros HI Hd Hc. pose proof (env_read_mixed room s d y HI Hd) as Hm.
  pose proof (li_log _ _ _ _ (si_log _ _ _ _ _ HI) d y Hd) as Hl.
  destruct (run_log_protocol _ _ _ _ _ (new _) Hc Hl) as (del & handled & sent & ess & Hes & E).
  exists (env_read mh job_of y), del, handled, sent, ess. split_and!; [done..|].
  intros Hroom. rewrite (mx_own _ _ _ _ _ _ Hm Hroom) in Hes. by apply events_reading_own.
Qed.

Lemma delivery_deletions room s d y :
  SysInv room s → deliveries s !! d = Some y → complete (message (job_of (dl_item y))) →
  deletions (calls_of d (trace s)) ++ deletions (dl_rest y) = [handle (dl_item y)].
Proof.
  intros HI Hd Hc. destruct (delivery_protocol room s d y HI Hd Hc)
    as (env & del & handled & sent & ess & _ & Hes & E & _).
  rewrite <- deletions_app, E. by eapply events_deletions.
Qed.

(** The calls of deliveries are calls of deliveries begun. *)
Lemma trace_deliveries room s d e :
  SysInv room s → DeliveryCall d e ∈ trace s → (d < length (deliveries s))%nat.
Proof.
  intros HI He. apply dec_stable. intros Hd. apply (calls_of_elem d e _ He).
  apply (li_fresh _ _ _ _ (si_log _ _ _ _ _ HI)). lia.
Qed.

Lemma deleted_in_items room s :
  SysInv room s →
  (∀ d y, deliveries s !! d = Some y → complete (message (job_of (dl_item y)))) →
  deleted_in (trace s) ⊆+ handle <$> (dl_item <$> deliveries s) ∧
  ((∀ d y, deliveries s !! d = Some y → dl_open y = false) →
    deleted_in (trace s) ≡ₚ handle <$> (dl_item <$> deliveries s)).
Proof.
  intros HI Hc. rewrite <- list_fmap_compose.
  rewrite (deleted_in_split (length (deliveries s)))
    by (intros d e; by apply (trace_deliveries room)).
  split.
  - apply (bind_lookup_submseteq _ (handle ∘ dl_item)). intros d y Hd. cbn.
    rewrite <- (delivery_deletions room s d y HI Hd (Hc d y Hd)). by apply submseteq_inserts_r.
  - intros Hshut. rewrite (bind_lookup_eq _ (handle ∘ dl_item) (deliveries s) 0%nat); [done|].
    intros d y Hd. pose proof (delivery_deletions room s d y HI Hd (Hc d y Hd)) as E.
    rewrite (senders_deletions (dl_rest y)), app_nil_r in E; [done|].
    by apply (pi_closed _ (si_pool _ _ _ _ _ HI) d), (Hshut d).
Qed.

(** C5. Pollers, pool, handlers and senders together: at every moment of every
    interleaving, the messages the polling cycles have made visible again and
    those of the deliveries begun are among the messages the cycles received,
    counted with their multiplicities; so the messages made visible again and
    those deleted are different ones, and none is deleted twice. Whatever the
    others did in between, a delivery of a complete message has started no
    process, or deleted its message and then started the one command of the
    action designated, and posted only the report of that process. The one thing
    that can leak from another delivery is the environment: the variables after
    the global ones are as many as the action has, each at its place in the
    action of some delivery; they are the action's own when the array of
    [GlobalEnv] has no room for them. *)
Theorem deliveries_stay_apart c room s :
  steps (system_init mh c room) s →
  visible_in (trace s) ++ (dl_item <$> deliveries s) ⊆+ received_in (trace s) ∧
  ((∀ d y, deliveries s !! d = Some y → complete (message (job_of (dl_item y)))) →
    (handle <$> visible_in (trace s)) ++ deleted_in (trace s) ⊆+
      handle <$> received_in (trace s)) ∧
  (∀ d e, DeliveryCall d e ∈ trace s → is_Some (deliveries s !! d)) ∧
  ∀ d y, deliveries s !! d = Some y → complete (message (job_of (dl_item y))) →
    ∃ env, mixed mh job_of room (dl_item <$> deliveries s) (dl_item y) env ∧
      one_process (reading_env env mh) (url_of (dl_item y)) (job_of (dl_item y))
        (calls_of d (trace s)) ∧
      ((length room < length (item_env (dl_item y)))%nat →
        one_process mh (url_of (dl_item y)) (job_of (dl_item y)) (calls_of d (trace s))).
Proof.
  intros [HI Hn%intake_accounted]%(sys_reachable _ _ _ room).
  assert (Hrec : visible_in (trace s) ++ (dl_item <$> deliveries s) ⊆+ received_in (trace s)).
  { rewrite (li_received _ _ _ _ (si_log _ _ _ _ _ HI)), (li_visible _ _ _ _ (si_log _ _ _ _ _ HI)).
    rewrite Hn. apply submseteq_app; [done|]. pose proof (si_pool _ _ _ _ _ HI) as HP.
    rewrite <- deliveries_split, (pi_finished _ HP), (pi_running _ HP).
    apply submseteq_app; [done|]. apply submseteq_inserts_r, exec_jobs_pending. }
  split_and!; [done| | |].
  - intros Hc. destruct (deleted_in_items room s HI Hc) as [Hdel _].
    etrans; [by apply submseteq_app; [reflexivity|exact Hdel]|].
    rewrite <- fmap_app. by apply fmap_submseteq.
  - intros d e He. by apply lookup_lt_is_Some, (trace_deliveries room s d e).
  - intros d y Hd Hc. destruct (delivery_protocol room s d y HI Hd Hc)
      as (env & del & handled & sent & ess & Hm & Hes & E & Hown).
    exists env. split; [done|]. split.
    + apply (one_process_prefix _ _ _ _ (dl_rest y)). rewrite E. by eapply events_one_process.
    + intros Hroom. apply (one_process_prefix _ _ _ _ (dl_rest y)). rewrite E.
      by eapply events_one_process, Hown.
Qed.

(** C6. No more scripts run at a time than [MaxNumberOfWorker]: at every moment
    of every interleaving, the deliveries whose [Execute] has not returned are at
    most that many, and those whose [Execute] has returned have at most calls of
    the sender left to make. *)
Theorem scripts_within_pool c room s :
  conf_ok (validate_conf c) → steps (system_init mh c room) s →
  nstarts (sys_pool s) <= 1 → panicked (sys_pool s) = None →
  Z.of_nat (length (filter (λ y, dl_open y = true) (deliveries s))) <=
    MaxNumberOfWorker (poolConf (sys_pool s)) ∧
  ∀ d y, deliveries s !! d = Some y → dl_open y = false →
    forallb of_sender (dl_rest y) = true.
Proof.
  intros Hc [HI (_ & _ & Hr)%intake_reachable]%(sys_reachable _ _ _ room) Hn Hp.
  pose proof (si_pool _ _ _ _ _ HI) as HP. split; [|by apply (pi_closed _ HP)].
  etrans; [|by apply (exec_within_max c)]. rewrite <- (pi_running _ HP).
  apply inj_le. induction (deliveries s) as [|y l IH]; [done|].
  cbn [mbind list_bind]. rewrite filter_cons, length_app. unfold running at 1.
  case_decide as Ho; [rewrite Ho|destruct (dl_open y)]; cbn in *; by try lia.
Qed.

(** C4. When the pool's [Stop] has returned [nil] and the polling cycles are
    over, the messages received are exactly those made visible again and those
    delivered; if their messages are complete, each message received was made
    visible again or deleted, once, and not both. Every [Execute] has returned;
    and for every complete message delivered, the calls made are the whole
    protocol of its job, up to calls of the goroutine that sends the result,
    which nothing waits for. The process has got the global variables and
    others that a mix of the actions allows, its own when the array of
    [GlobalEnv] has no room for them. *)
Theorem settled_system c room s i :
  conf_ok (validate_conf c) →
  1 <= MinNumberOfWorker (poolConf (sys_pool s)) ∨ QueueSize (poolConf (sys_pool s)) = 0 →
  steps (system_init mh c room) s →
  nstarts (sys_pool s) <= 1 → panicked (sys_pool s) = None →
  callers (sys_pool s) !! i = Some (CStopped None) →
  (∀ k y, cycles (sys_intake s) !! k = Some y → y = CyDone) →
  received_in (trace s) ≡ₚ visible_in (trace s) ++ (dl_item <$> deliveries s) ∧
  ((∀ d y, deliveries s !! d = Some y → complete (message (job_of (dl_item y)))) →
    handle <$> received_in (trace s) ≡ₚ
      (handle <$> visible_in (trace s)) ++ deleted_in (trace s)) ∧
  ∀ d y, deliveries s !! d = Some y →
    dl_open y = false ∧
    (complete (message (job_of (dl_item y))) → ∃ env sends del handled sent ess,
      mixed mh job_of room (dl_item <$> deliveries s) (dl_item y) env ∧
      forallb of_sender sends = true ∧
      Forall2 (expands (D := D) (W := W) (reading_env env mh))
        (job_events (url_of (dl_item y)) (job_of (dl_item y)) del handled sent) ess ∧
      calls_of d (trace s) ++ sends = concat ess ∧
      ((length room < length (item_env (dl_item y)))%nat →
        Forall2 (expands (D := D) (W := W) mh)
          (job_events (url_of (dl_item y)) (job_of (dl_item y)) del handled sent) ess)).
Proof.
  intros Hc Hmin Hs Hn Hp Hi Hdone. destruct (sys_reachable _ _ _ room _ _ Hs) as [HI Hn'].
  pose proof (si_pool _ _ _ _ _ HI) as HP.
  destruct (settled_nothing_left c _ i Hc Hmin Hn' Hn Hp Hi Hdone) as [Hrec Hex].
  assert (Hshut : ∀ d y, deliveries s !! d = Some y → dl_open y = false).
  { intros d y Hd. destruct (dl_open y) eqn:Ho; [|done].
    pose proof (pi_open _ HP d y Hd Ho) as Hx. unfold exec_at, sys_pool in Hx.
    destruct (workers _ !! dl_worker y) as [w|] eqn:E; [|done]. by rewrite (Hex _ w E) in Hx. }
  assert (Hall : received_in (trace s) ≡ₚ visible_in (trace s) ++ (dl_item <$> deliveries s)).
  { rewrite (li_received _ _ _ _ (si_log _ _ _ _ _ HI)), (li_visible _ _ _ _ (si_log _ _ _ _ _ HI)).
    rewrite Hrec. f_equiv. change (jobs (sys_intake s)) with (sys_pool s).
    rewrite <- (pi_finished _ HP), <- deliveries_split.
    rewrite (bind_nil running); [by rewrite app_nil_r|].
    intros d y Hd. unfold running. by rewrite (Hshut d y Hd). }
  split_and!; [done| |].
  - intros Hcm. rewrite Hall, fmap_app. f_equiv. symmetry. by apply (deleted_in_items room s HI Hcm).
  - intros d y Hd. split; [by eapply Hshut|]. intros Hcm.
    destruct (delivery_protocol room s d y HI Hd Hcm)
      as (env & del & handled & sent & ess & Hm & Hes & E & Hown).
    exists env, (dl_rest y), del, handled, sent, ess. split_and!; try done.
    by apply (pi_closed _ HP d), (Hshut d).
Qed.

(** Some outside and some provider that work, for every item. *)
Definition can_deliver : Prop :=
  ∃ w : W, ok w ∧ ∀ x, complete (message (job_of x)) ∧ ∃ p : sqsProvider C, ready (url_of x) p.

Lemma can_deliver_logs :
  can_deliver →
  (∀ x, complete (message (job_of x))) ∧ ∀ x, ∃ es, log_of (item_env x) x es.
Proof.
  intros (w & Hok & Hx). split; intros x; destruct (Hx x) as (Hc & p & Hp); [done|].
  by eapply run_log_exists.
Qed.

(** C7. The workers' deliveries implement the abstract execution of jobs in
    Intake: what pollers and pool do with deliveries running is a run of Intake,
    and, when the messages are complete, every run of Intake is one of the
    pollers and the pool with deliveries running: no delivery holds up the
    others, the pollers or the pool. *)
Theorem system_implements_intake c room n :
  can_deliver →
  (rtc intake_step (intake_init c) n ↔ ∃ s, steps (system_init mh c room) s ∧ sys_intake s = n).
Proof.
  intros Hcan. destruct (can_deliver_logs Hcan) as [Hcm Hlog]. split.
  - intros Hr. by eapply (lift_run mh url_of job_of room new (system_init mh c room) n);
      [apply system_init_inv|..].
  - by intros (s & [_ Hr]%(sys_reachable _ _ _ room) & <-).
Qed.

(** C8. [Stop] terminates while deliveries are under way: from every state in
    which it waits for the workers, the goroutines already there can go on, with
    no further call and no further message, until it has returned [nil]. *)
Theorem system_stop_terminates c room s i :
  can_deliver → conf_ok (validate_conf c) → steps (system_init mh c room) s →
  nstarts (sys_pool s) <= 1 → panicked (sys_pool s) = None →
  callers (sys_pool s) !! i = Some CStopWait →
  ∃ s', steps s s' ∧ callers (sys_pool s') !! i = Some (CStopped None) ∧
    length (callers (sys_pool s')) = length (callers (sys_pool s)) ∧
    received (sys_intake s') = received (sys_intake s).
Proof.
  intros Hcan Hc [HI Hn]%(sys_reachable _ _ _ room) Hns Hp Hi. destruct (can_deliver_logs Hcan) as [Hcm Hlog].
  pose proof (intake_reachable _ _ Hn) as (_ & _ & Hr).
  destruct (reachable_inv c _ Hc Hr Hns) as [?|HP]; [by unfold sys_pool in Hp; congruence|].
  destruct (stop_completes i _ HP Hi) as (ls & p & E & Hst & Hls).
  destruct (lift_run mh url_of job_of room new s _ HI Hcm Hlog (intake_pool_run ls _ p Hls E)) as (s' & Hs' & E').
  exists s'. unfold sys_pool. rewrite E'. split_and!; [done|done| |done].
  by eapply exec_no_call.
Qed.
End SystemClaims.


(** ** Two workers deliver at the same time

    The schedule of Intake with the deliveries of messages 7 and 8, which
    designate two actions with a variable of their own each; the array of
    [GlobalEnv] has room for one. The calls of the two alternate, the second
    action's variable is appended before the first one's environment is copied,
    and message 8's sender has not posted its report yet when [Stop] returns. *)

Section SystemExample.
#[local] Instance system_client : HttpClient unit rec_state := scripted_client example_script.

Definition system_payload (action : string) : payload :=
  mkPayload "request" (mkEntity "entity" "alert") "" (mkMappedAction action "") "http" false.

#[local] Instance system_message_env : MessageEnv := {
  decode_payload b :=
    if decide (b = "first" ∨ b = "second") then inl (system_payload b)
    else inr (PlainError "unexpected end of JSON input");
  decode_response t := inl (mkHttpResponse None t 200);
  Errorf := PlainError
}.

Definition system_handler : messageHandler :=
  NewMessageHandler None
    (mkSpecs
      (<["first" := with_Env ["who=first"] example_action]>
        {[ "second" := with_Env ["who=second"] example_action ]})
      {[ "global" := "flag" ]} ["-apiKey"; "key"] ["g=1"])
    ∅.

Definition system_job (x : nat) : job :=
  let n := if decide (x = 7)%nat then "7" else "8" in
  newJob (mkMessage (Some n) (Some (if decide (x = 7)%nat then "first" else "second"))
    (Some ("handle-" +:+ n))
    (Some {[ ownerId := mkAttr (Some "me"); channelId := mkAttr (Some "other") ]}))
    "key" "https://api" "me".

Definition system_log (x : nat) (env : list string) : list event :=
  (execute_delivery (D := unit) (reading_env env system_handler) AfterUse
    (system_job x, (example_provider, []))).2.2.2.

Lemma system_job_complete x : complete (message (system_job x)).
Proof. split; [split; by eexists|]. right. split; by eexists. Qed.

Lemma example_ready : ready "queue" example_provider.
Proof. split; [reflexivity|by eexists]. Qed.

Lemma system_log_ok x env :
  job_log (D := unit) (W := rec_state) system_handler (λ _, "queue") system_job env x
    (system_log x env).
Proof.
  pose proof (scripted_client_spec example_script ltac:(by repeat constructor)) as Hspec.
  destruct (execute_delivery_run (D := unit) (reading_env env system_handler) "queue" AfterUse
    (system_job x) example_provider ([] : rec_state)) as (del & handled & sent & err & p' & w' & ess & E & _);
    [done|apply system_job_complete|done|exact example_ready|].
  exists AfterUse, example_provider, []. do 4 eexists.
  split_and!; [done|exact example_ready|exact E|].
  exact (eq_sym (f_equal (λ r, r.2.2.2) E)).
Qed.

Definition system_schedule : list (sys_label nat) :=
  (SIntake <$> take 38 settled_schedule) ++
  [SBegin 0; SCall 0; SIntake (LPool (Worker 1 WRun)); SBegin 1; SCall 1;
   SAppend 0 []; SAppend 1 []; SBuild 0; SRun 0; SBuild 1; SRun 1] ++
  [SIntake (LPool (Invoke DoStop))] ++ replicate 4 (SIntake (LPool (Caller 4 0))) ++
  [SEnd 0; SCall 0; SIntake (LPool (Worker 0 WRun)); SEnd 1] ++ replicate 5 (SCall 0) ++
  (SIntake ∘ LPool <$> [Worker 1 WRun; Runner 0; Runner 0; Worker 0 WRecv; Worker 0 WRun;
     Worker 0 WRun; Worker 1 WRecv; Worker 1 WRun; Worker 1 WRun; Caller 4 0; Caller 4 0]).

Definition system_start : system nat := system_init system_handler small_conf [""].

Definition system_at (n : nat) : system nat :=
  default system_start
    (sys_run system_handler system_job system_log (take n system_schedule) system_start).

Abbreviation example_steps :=
  (rtc (sys_step (D := unit) (W := rec_state) system_handler (λ _, "queue") system_job)).

Lemma system_at_reachable n :
  is_Some (sys_run system_handler system_job system_log (take n system_schedule) system_start) →
  example_steps system_start (system_at n).
Proof.
  unfold system_at. intros [s E]. rewrite E.
  by apply (sys_run_sound _ _ _ _ system_log_ok _ _ _ E).
Qed.

Definition call_kind {J} (c : outside_call J) : option nat * string :=
  match c with
  | PollReceived _ => (None, "receive")
  | PollVisible _ => (None, "visible")
  | DeliveryCall d e => (Some d, kind e)
  end.

Example system_example :
  call_kind <$> trace (system_at 74) =
    [(None, "receive"); (None, "visible"); (Some 0, "delete"); (Some 1, "delete");
     (Some 0, "run /path/to/http-executor"); (Some 1, "run /path/to/http-executor");
     (Some 0, "post"); (Some 0, "wait"); (Some 0, "post"); (Some 0, "discard");
     (Some 0, "wait"); (Some 0, "post")]%nat ∧
  (λ y, (dl_item y, dl_open y, kind <$> dl_rest y)) <$> deliveries (system_at 74) =
    [(7, false, []); (8, false, ["post"; "wait"; "post"; "discard"; "wait"; "post"])]%nat.
Proof. split; vm_compute; reflexivity. Qed.

(** The first action's process gets the variable of the second. *)
Example environments_mix :
  (λ c, (cmd_Env c.1, last (cmd_Args c.1))) <$>
    runs (calls_of 0 (trace (system_at 74)) ++ calls_of 1 (trace (system_at 74))) =
    [(["PATH=/bin"; "g=1"; "who=second"], Some "/var/tmp/jec/jecCallbackPipe-7");
     (["PATH=/bin"; "g=1"; "who=second"], Some "/var/tmp/jec/jecCallbackPipe-8")].
Proof. vm_compute. reflexivity. Qed.

Lemma deliveries_stay_apart_witness :
  length (trace (system_at 51)) = 6%nat ∧
  (handle system_job <$> visible_in (trace (system_at 51))) ++ deleted_in (trace (system_at 51)) ⊆+
    handle system_job <$> received_in (trace (system_at 51)) ∧
  ∃ env, one_process (reading_env env system_handler) "queue" (system_job 8)
    (calls_of 1 (trace (system_at 51))).
Proof.
  pose proof (scripted_client_spec example_script ltac:(by repeat constructor)) as Hspec.
  split; [vm_compute; reflexivity|].
  destruct (deliveries_stay_apart (J := nat) (D := unit) (W := rec_state) system_handler
    (λ _, "queue") system_job ltac:(reflexivity) small_conf [""] (system_at 51)) as (_ & Hd & _ & H).
  - apply system_at_reachable. vm_compute. by eexists.
  - split; [apply Hd; intros d y _; apply system_job_complete|].
    assert (Hy : dl_item <$> deliveries (system_at 51) !! 1%nat = Some 8%nat)
      by (vm_compute; reflexivity).
    apply fmap_Some in Hy as (y & E & Ey).
    destruct (H 1%nat y E (system_job_complete _)) as (env & _ & Ho & _).
    exists env. by rewrite <- Ey in Ho.
Defined.

Lemma scripts_within_pool_witness :
  length (filter (λ y, dl_open y = true) (deliveries (system_at 51))) = 2%nat ∧
  Z.of_nat (length (filter (λ y, dl_open y = true) (deliveries (system_at 51)))) <=
    MaxNumberOfWorker (poolConf (sys_pool (system_at 51))).
Proof.
  split; [vm_compute; reflexivity|].
  apply (scripts_within_pool (J := nat) (D := unit) (W := rec_state) system_handler (λ _, "queue")
    system_job small_conf [""]).
  - exact small_conf_ok.
  - apply system_at_reachable. vm_compute. by eexists.
  - vm_compute. discriminate.
  - vm_compute. reflexivity.
Defined.

Lemma settled_system_witness :
  dl_item <$> deliveries (system_at 74) = [7; 8]%nat ∧
  received_in (trace (system_at 74)) ≡ₚ
    visible_in (trace (system_at 74)) ++ (dl_item <$> deliveries (system_at 74)) ∧
  (handle system_job <$> received_in (trace (system_at 74)) ≡ₚ
    (handle system_job <$> visible_in (trace (system_at 74))) ++
      deleted_in (trace (system_at 74))).
Proof.
  pose proof (scripted_client_spec example_script ltac:(by repeat constructor)) as Hspec.
  split; [vm_compute; reflexivity|].
  destruct (settled_system (J := nat) (D := unit) (W := rec_state) system_handler (λ _, "queue")
    system_job ltac:(reflexivity) small_conf [""] (system_at 74) 4) as (H1 & H2 & _).
  - exact small_conf_ok.
  - left. vm_compute. discriminate.
  - apply system_at_reachable. vm_compute. by eexists.
  - vm_compute. discriminate.
  - vm_compute. reflexivity.
  - vm_compute. reflexivity.
  - intros k y. assert (Hc : cycles (sys_intake (system_at 74)) = [CyDone])
      by (vm_compute; reflexivity).
    rewrite Hc. intros [_ ->]%list_lookup_singleton_Some. reflexivity.
  - split; [exact H1|]. apply H2. intros d y _. apply system_job_complete.
Defined.

Lemma example_can_deliver :
  can_deliver (C := aws_Config) (W := rec_state) (λ _ : nat, "queue") system_job.
Proof.
  exists ([] : rec_state). split; [exact I|]. intros x. split; [apply system_job_complete|].
  exists example_provider. exact example_ready.
Qed.

Lemma system_implements_intake_witness :
  ∃ s, example_steps system_start s ∧ sys_intake s = intake_at 45.
Proof.
  pose proof (scripted_client_spec example_script ltac:(by repeat constructor)) as Hspec.
  apply (system_implements_intake (J := nat) (D := unit) (W := rec_state) system_handler
    (λ _, "queue") system_job ltac:(reflexivity) small_conf [""] (intake_at 45)
    example_can_deliver).
  apply intake_at_reachable. vm_compute. by eexists.
Defined.

Lemma system_stop_terminates_witness :
  length (filter (λ y, dl_open y = true) (deliveries (system_at 54))) = 2%nat ∧
  ∃ s', example_steps (system_at 54) s' ∧ callers (sys_pool s') !! 4%nat = Some (CStopped None) ∧
    length (callers (sys_pool s')) = length (callers (sys_pool (system_at 54))) ∧
    received (sys_intake s') = received (sys_intake (system_at 54)).
Proof.
  pose proof (scripted_client_spec example_script ltac:(by repeat constructor)) as Hspec.
  split; [vm_compute; reflexivity|].
  apply (system_stop_terminates (J := nat) (D := unit) (W := rec_state) system_handler
    (λ _, "queue") system_job ltac:(reflexivity) small_conf [""] (system_at 54) 4
    example_can_deliver).
  - exact small_conf_ok.
  - apply system_at_reachable. vm_compute. by eexists.
  - vm_compute. discriminate.
  - vm_compute. reflexivity.
  - vm_compute. reflexivity.
Defined.
End SystemExample.
