(* ===== verification/Processor.v ===== *)
(** * queue/processor.go: the queue processor.

    The processor keeps the map of pollers, here the provider of each (its
    poller's life cycle is PollerLoop's). Starting and stopping a poller and
    the worker pool are calls of the environment ([Workers]); providers, git
    repositories and HTTP requests are the definitions of SqsProvider, Git and
    Retryer. The goroutine [run] is the sequence of its ticks and of its quit
    branch; [Stop] waits for the latter. *)

From Stdlib Require Import Ascii.
From Stdlib Require String.
From stdpp Require Import base list numbers strings gmap sorting.
From Stdlib Require Import Lia ZifyBool.
From S2P Require Import Prelude Configuration WorkerPool PollerLoop GoError Interfaces.
From S2P Require Import GoStrings SqsProvider Retryer Git Actions Reader.
Local Open Scope Z_scope.

Definition pollingWaitIntervalInMillis : Z := 100.

Definition visibilityTimeoutInSec : Z := 30.

Definition maxNumberOfMessages : Z := 10.

Definition default_successRefreshPeriod : Z := 60 * Second.

Definition default_errorRefreshPeriod : Z := 60 * Second.

Definition tokenPath : string := "/jsm/ops/jec/v1/credentials".

(** The poller's and the worker pool's [Start] and [Stop]; a poller is named by
    its queue's url. *)
Class Workers (W : Type) := {
  poller_Start : string → go W (option error);
  poller_Stop : string → go W (option error);
  workerPool_Start : go W (option error);
  workerPool_Stop : go W (option error);
  decode_token : string → result (option token);
  UserAgentHeader : string
}.

Record processor (C : Type) : Type := mkProcessor {
  pollers : gmap string (sqsProvider C);
  configuration : Configuration;
  proc_repositories : Repositories;
  proc_actionLoggers : gset string;
  successRefreshPeriod : Z;
  proc_errorRefreshPeriod : Z;
  proc_isRunning : bool;
  quit_closed : bool
}.

Arguments mkProcessor {C}.
Arguments pollers {C}.
Arguments configuration {C}.
Arguments proc_repositories {C}.
Arguments proc_actionLoggers {C}.
Arguments successRefreshPeriod {C}.
Arguments proc_errorRefreshPeriod {C}.
Arguments proc_isRunning {C}.
Arguments quit_closed {C}.

Section Setters.
Context {C : Type}.
Implicit Types p : processor C.

Definition set_pollers (m : gmap string (sqsProvider C)) p : processor C :=
  mkProcessor m (configuration p) (proc_repositories p) (proc_actionLoggers p)
    (successRefreshPeriod p) (proc_errorRefreshPeriod p) (proc_isRunning p) (quit_closed p).

Definition set_periods (success error : Z) p : processor C :=
  mkProcessor (pollers p) (configuration p) (proc_repositories p) (proc_actionLoggers p)
    success error (proc_isRunning p) (quit_closed p).

Definition set_repositories (r : Repositories) p : processor C :=
  mkProcessor (pollers p) (configuration p) r (proc_actionLoggers p)
    (successRefreshPeriod p) (proc_errorRefreshPeriod p) (proc_isRunning p) (quit_closed p).

Definition set_mappings (m : ActionMappings) p : processor C :=
  mkProcessor (pollers p) (with_Mappings m (configuration p)) (proc_repositories p)
    (proc_actionLoggers p) (successRefreshPeriod p) (proc_errorRefreshPeriod p)
    (proc_isRunning p) (quit_closed p).

Definition set_running (b : bool) p : processor C :=
  mkProcessor (pollers p) (configuration p) (proc_repositories p) (proc_actionLoggers p)
    (successRefreshPeriod p) (proc_errorRefreshPeriod p) b (quit_closed p).

Definition set_quit p : processor C :=
  mkProcessor (pollers p) (configuration p) (proc_repositories p) (proc_actionLoggers p)
    (successRefreshPeriod p) (proc_errorRefreshPeriod p) (proc_isRunning p) true.
End Setters.

(** ** Query strings: [url.Values] *)

Definition upper_hex (n : nat) : ascii :=
  ascii_of_nat (if (n <? 10)%nat then 48 + n else 55 + n).

(** [url.QueryEscape]. *)
Definition escape_char (c : ascii) : string :=
  let n := nat_of_ascii c in
  if in_range 48 57 c || in_range 65 90 c || in_range 97 122 c ||
     existsb (Ascii.eqb c) ["-"; "_"; "."; "~"]%char
  then String c ""
  else if Ascii.eqb c " "%char then "+"
  else String "%" (String (upper_hex (n / 16)) (String (upper_hex (n mod 16)) "")).

Fixpoint QueryEscape (s : string) : string :=
  match s with "" => "" | String c s => escape_char c +:+ QueryEscape s end.

(** A stable sort by key. *)
Fixpoint insert_value (x : string * string) (l : list (string * string)) :
    list (string * string) :=
  match l with
  | [] => [x]
  | y :: l' => if String.leb x.1 y.1 then x :: l else y :: insert_value x l'
  end.

(** [Encode]: sorted by key, the values of one key in the order they were added. *)
Definition Encode (query : list (string * string)) : string :=
  String.concat "&" ((λ kv, QueryEscape kv.1 +:+ "=" +:+ QueryEscape kv.2) <$>
    foldr insert_value [] query).

(** [request.URL.RawQuery = query.Encode()], for a url without a query. *)
Definition set_query (query : string) (q : Request) : Request :=
  mkRetryRequest (body q)
    (mkRequest (Method (request q))
       (if decide (query = "") then URL (request q) else URL (request q) +:+ "?" +:+ query)
       (Header (request q)) (req_Body (request q))).

Definition request_add (name value : string) (q : Request) : Request :=
  mkRetryRequest (body q) (add_header name value (request q)).

(** [time.NewTicker]. *)
Definition NewTicker {S : Type} (d : Z) : go S unit :=
  if d <=? 0 then go_panic "non-positive interval for NewTicker" else go_ret ().

Section Processor.
Context {C H R K W : Type}.
Context `{SQSClient C W, HttpClient H W, GitEnv R K W, GoRuntime W, Workers W}.

Definition processor_state : Type := processor C * W.

(** *** NewProcessor *)

(** The defaults of the poller's configuration. *)
Definition default_poller_conf (c : PollerConf) : PollerConf :=
  mkPollerConf
    (if PollingWaitIntervalInMillis c <=? 0 then pollingWaitIntervalInMillis
     else PollingWaitIntervalInMillis c)
    (if VisibilityTimeoutInSeconds c <? 15 then visibilityTimeoutInSec
     else VisibilityTimeoutInSeconds c)
    (if MaxNumberOfMessages c <=? 0 then maxNumberOfMessages else MaxNumberOfMessages c).

Fixpoint action_loggers (l : list (string * MappedAction)) (loggers : gset string) : gset string :=
  match l with
  | [] => loggers
  | (_, action) :: l =>
      let loggers :=
        if decide (Stdout action = "") then loggers
        else if decide (Stdout action ∈ loggers) then loggers
        else {[ Stdout action ]} ∪ loggers in
      let loggers :=
        if decide (Stderr action = "") then loggers
        else if decide (Stderr action ∈ loggers) then loggers
        else {[ Stderr action ]} ∪ loggers in
      action_loggers l loggers
  end.

Definition newActionLoggers (mappings : ActionMappings) : go W (gset string) :=
  (l <- map_range mappings ; go_ret (action_loggers l ∅))%go.

Definition NewProcessor (conf : Configuration) : go W (processor C) :=
  (let conf := mkConfiguration (Specs conf) (AppName conf) (ApiKey conf) (BaseUrl conf)
     (default_poller_conf (conf_PollerConf conf)) (validate_conf (conf_PoolConf conf))
     (LogLevel conf) (LogrusLevel conf) in
   loggers <- newActionLoggers (conf_Mappings conf) ;
   go_ret (mkProcessor ∅ conf NewRepositories loggers
     default_successRefreshPeriod default_errorRefreshPeriod false false))%go.

(** *** receiveToken *)

(** [strconv.FormatInt(queueProperties.ExpireTimeMillis(), 10)] for each poller. *)
Fixpoint token_query (l : list (string * sqsProvider C)) : list (string * string) :=
  match l with
  | [] => []
  | (_, p) :: l =>
      (Region (queueProperties p), FormatInt (ExpireTimeMillis (queueProperties p)))
      :: token_query l
  end.

Definition token_error (resp : http_Response) : error :=
  PlainError ("Token could not be received from Jira Service Management, status: " +:+
    resp_Status resp +:+ ", message: " +:+
    match resp_Body resp with inl body => body | inr _ => "" end).

(** The body has been read by the client at this point; a nil token is [None]. *)
Definition receiveToken : go processor_state (result (option token)) :=
  (s <- go_get ;
   let conf := configuration s.1 in
   match NewRequest "GET" (BaseUrl conf +:+ tokenPath) NilReader with
   | inr err => go_ret (inr err)
   | inl q =>
       let q := request_add "Authorization" ("GenieKey " +:+ ApiKey conf) q in
       let q := request_add "X-JEC-Client-Info" UserAgentHeader q in
       l <- on_env (map_range (pollers s.1)) ;
       let q := set_query (Encode (token_query l)) q in
       r <- on_env (λ w, let '(r, (_, w')) := Do (mkRetryer None None) q (0%nat, w) in (r, w')) ;
       match r.2 with
       | Some err => go_ret (inr err)
       | None =>
           resp <- deref r.1 ;
           if decide (resp_StatusCode resp = 200) then go_ret (decode_token (resp_Token resp))
           else go_ret (inr (token_error resp))
       end
   end)%go.

(** *** The pollers *)

Definition addPoller (queueProperties : Properties) (ownerId : string) :
    go processor_state (option error) :=
  (r <- on_env (NewSqsProvider queueProperties) ;
   match r with
   | inr err => go_ret (Some err)
   | inl provider =>
       _ <- go_modify (λ s, (set_pollers
         (<[Url (SqsProvider.queueProperties provider) := provider]> (pollers s.1)) s.1, s.2)) ;
       go_ret None
   end)%go.

(** A missing poller is a nil interface, whose methods panic. *)
Definition removePoller (queueUrl : string) : go processor_state (option (sqsProvider C)) :=
  (s <- go_get ;
   _ <- go_put (set_pollers (delete queueUrl (pollers s.1)) s.1, s.2) ;
   go_ret (pollers s.1 !! queueUrl))%go.

(** [poller.RefreshClient]: the provider's. *)
Definition poller_RefreshClient (queueUrl : string) (provider : sqsProvider C)
    (r : AssumeRoleResult) : go processor_state (option error) :=
  λ s, let '(res, (provider', w')) := RefreshClient r (provider, s.2) in
       (res, (set_pollers (<[queueUrl := provider']> (pollers s.1)) s.1, w')).

(** The loop of [refreshPollers] over the token's queues; the result is what is
    left of [pollerKeys]. *)
Fixpoint refresh_each (ownerId : string) (l : list Properties) (pollerKeys : gmap string unit) :
    go processor_state (gmap string unit) :=
  match l with
  | [] => go_ret pollerKeys
  | queueProperties :: l =>
      let queueUrl := Url queueProperties in
      (s <- go_get ;
       match pollers s.1 !! queueUrl with
       | Some provider =>
           _ <- (if decide (props_AssumeRoleResult queueProperties ≠ zero_AssumeRoleResult)
                 then poller_RefreshClient queueUrl provider
                        (props_AssumeRoleResult queueProperties)
                 else go_ret None) ;
           refresh_each ownerId l (delete queueUrl pollerKeys)
       | None =>
           err <- addPoller queueProperties ownerId ;
           match err with
           | Some _ => refresh_each ownerId l pollerKeys
           | None =>
               _ <- on_env (poller_Start queueUrl) ;
               refresh_each ownerId l pollerKeys
           end
       end)%go
  end.

(** The loop that removes the pollers left over. *)
Fixpoint remove_pollers (l : list (string * unit)) : go processor_state unit :=
  match l with
  | [] => go_ret ()
  | (queueUrl, _) :: l =>
      (p <- removePoller queueUrl ;
       _ <- deref p ;
       _ <- on_env (poller_Stop queueUrl) ;
       remove_pollers l)%go
  end.

Definition seconds (n : Z) : Z := i64 (Second * n).

Definition refreshPollers (token : option token) : go processor_state unit :=
  (s <- go_get ;
   let pollerKeys := (λ _, ()) <$> pollers s.1 in
   token <- deref token ;
   pollerKeys <- refresh_each (token_OwnerId token) (QueuePropertiesList token) pollerKeys ;
   l <- on_env (map_range pollerKeys) ;
   _ <- remove_pollers l ;
   match QueuePropertiesList token with
   | [] => go_ret ()
   | first :: _ =>
       go_modify (λ s, (set_periods
         (seconds (SuccessRefreshPeriodInSeconds (props_Configuration first)))
         (seconds (ErrorRefreshPeriodInSeconds (props_Configuration first))) s.1, s.2))
   end)%go.

(** *** run *)

(** The statements before the loop. *)
Definition run_begin : go processor_state unit :=
  (s <- go_get ; NewTicker (successRefreshPeriod s.1))%go.

(** The case [<-ticker.C]. *)
Definition run_tick : go processor_state unit :=
  (r <- receiveToken ;
   match r with
   | inr _ => s <- go_get ; NewTicker (proc_errorRefreshPeriod s.1)
   | inl token =>
       _ <- refreshPollers token ;
       s <- go_get ; NewTicker (successRefreshPeriod s.1)
   end)%go.

Fixpoint stop_pollers (l : list (string * sqsProvider C)) : go processor_state unit :=
  match l with
  | [] => go_ret ()
  | (queueUrl, _) :: l => (_ <- on_env (poller_Stop queueUrl) ; stop_pollers l)%go
  end.

(** The case [<-qp.quit]. *)
Definition run_quit : go processor_state unit :=
  (s <- go_get ; l <- on_env (map_range (pollers s.1)) ; stop_pollers l)%go.

Fixpoint run_ticks (n : nat) : go processor_state unit :=
  match n with
  | O => go_ret ()
  | S n => (_ <- run_tick ; run_ticks n)%go
  end.

(** *** Start and Stop *)

(** Runs an operation of the repositories. *)
Definition on_repositories {A : Type} (m : go (Repositories * W) A) : go processor_state A :=
  λ s, let '(r, (rs, w)) := m (proc_repositories s.1, s.2) in
       (r, (set_repositories rs s.1, w)).

(** [Start], up to its [go] statements, which are [run_begin] and the ticks. *)
Definition Start : go processor_state (option error) :=
  (s <- go_get ;
   if proc_isRunning s.1 then
     go_ret (Some (PlainError "Queue processor is already running."))
   else
     token <- receiveToken ;
     match token with
     | inr err => go_ret (Some err)
     | inl token =>
         opts <- on_env (GitActions (conf_Mappings (configuration s.1))) ;
         err <- on_repositories (DownloadAll opts) ;
         match err with
         | Some err => go_ret (Some err)
         | None =>
             s <- go_get ;
             _ <- (if NotEmpty (proc_repositories s.1) then
                     mappings <- on_env (AddRepositoryPathToGitActionFilepaths
                       (conf_Mappings (configuration s.1)) (proc_repositories s.1)) ;
                     go_modify (λ s, (set_mappings mappings s.1, s.2))
                   else go_ret ()) ;
             _ <- on_env workerPool_Start ;
             _ <- refreshPollers token ;
             _ <- go_modify (λ s, (set_running true s.1, s.2)) ;
             go_ret None
         end
     end)%go.

(** [Stop], with the quit branch of [run] it waits for. *)
Definition Stop : go processor_state (option error) :=
  (s <- go_get ;
   if negb (proc_isRunning s.1) then
     go_ret (Some (PlainError "Queue processor is not running."))
   else if quit_closed s.1 then go_panic "close of closed channel"
   else
     _ <- go_put (set_quit s.1, s.2) ;
     _ <- run_quit ;
     _ <- on_env workerPool_Stop ;
     _ <- on_repositories RemoveAll ;
     _ <- go_modify (λ s, (set_running false s.1, s.2)) ;
     go_ret None)%go.
End Processor.

(** ** The contract of the pollers and of the worker pool *)

Class WorkersSpec (W : Type) `{Logged W, Workers W} := {
  poller_Start_spec u w : ok w → calls (poller_Start u) w (EvPollerStart u);
  poller_Stop_spec u w : ok w → calls (poller_Stop u) w (EvPollerStop u);
  workerPool_Start_spec w : ok w → calls workerPool_Start w EvPoolStart;
  workerPool_Stop_spec w : ok w → calls workerPool_Stop w EvPoolStop
}.

(** The urls of the pollers started and stopped. *)
Definition started1 (e : event) : list string :=
  match e with EvPollerStart u _ => [u] | _ => [] end.

Definition stopped1 (e : event) : list string :=
  match e with EvPollerStop u _ => [u] | _ => [] end.

Definition started (es : list event) : list string := es ≫= started1.

Definition stopped (es : list event) : list string := es ≫= stopped1.

Lemma started_app es1 es2 : started (es1 ++ es2) = started es1 ++ started es2.
Proof. apply bind_app. Qed.

Lemma stopped_app es1 es2 : stopped (es1 ++ es2) = stopped es1 ++ stopped es2.
Proof. apply bind_app. Qed.

(** Every poller has a ready provider for the url it is filed under. *)
Definition filed {C} (p : processor C) : Prop :=
  ∀ u pr, pollers p !! u = Some pr → ready u pr.

(** [p'] is [p] with other pollers. *)
Definition only_pollers {C} (p p' : processor C) : Prop := p' = set_pollers (pollers p') p.

Lemma only_pollers_refl {C} (p : processor C) : only_pollers p p.
Proof. by destruct p. Qed.

Lemma only_pollers_trans {C} (p1 p2 p3 : processor C) :
  only_pollers p1 p2 → only_pollers p2 p3 → only_pollers p1 p3.
Proof. unfold only_pollers. intros E1 E2. by rewrite E2, E1. Qed.

Lemma set_pollers_only {C} m (p : processor C) : only_pollers p (set_pollers m p).
Proof. done. Qed.

Section PollerFacts.
Context {C W : Type} `{Logged W, SQSClient C W, GoRuntime W, Workers W}.
Context `{!SQSClientSpec (C := C) (W := W), !GoRuntimeSpec W, !WorkersSpec W}.
Implicit Types (p : processor C) (w : W) (keys : gmap string unit).

Lemma new_provider_run props w :
  ok w → ∃ r w', NewSqsProvider props w = (Done r, w') ∧ extends [] w w' ∧
    match r with inl pr => ready (Url props) pr ∧ queueProperties pr = props | inr _ => True end.
Proof.
  intros Hok. unfold NewSqsProvider.
  destruct (refresh_run (props_AssumeRoleResult props) (mkProvider props None false) w Hok)
    as (err & w' & Hx & E & Hc).
  rewrite E. destruct err as [err|]; [by exists (inr err), w'|].
  destruct Hc as [c Hc]; [done|]. rewrite Hc.
  eexists (inl _), w'. split; [done|]. split; [done|].
  split; [split; [done|by eexists]|by destruct props].
Qed.

Lemma filed_insert p u pr : filed p → ready u pr → filed (set_pollers (<[u := pr]> (pollers p)) p).
Proof.
  intros Hf Hr v pv. cbn. intros [[<- <-]|[_ Hv]]%lookup_insert_Some; [done|by apply Hf].
Qed.

Lemma poller_refresh_run u pr role p w :
  ready u pr → ok w → filed p → ∃ err pr' w',
    poller_RefreshClient u pr role (p, w) =
      (Done err, (set_pollers (<[u := pr']> (pollers p)) p, w')) ∧
    extends [] w w' ∧ ready u pr' ∧ RefreshClient role (pr, w) = (Done err, (pr', w')).
Proof.
  intros Hr Hok Hf.
  destruct (refresh_ready u role pr w Hr Hok) as (err & pr' & w' & E & Hx & Hr' & _).
  exists err, pr', w'. unfold poller_RefreshClient. cbn [fst snd]. by rewrite E.
Qed.

(** The provider of some queue of the list could not be created. *)
Definition creation_failed (l : list Properties) (u : string) : Prop :=
  ∃ props w err w', props ∈ l ∧ Url props = u ∧ NewSqsProvider (C := C) (W := W) props w = (Done (inr err), w').

Lemma creation_failed_mono l l' u : l ⊆ l' → creation_failed l u → creation_failed l' u.
Proof. intros Hl (props & w & err & w' & Hin & ?). exists props, w, err, w'. split; [by apply Hl|done]. Qed.

(** What the entries of the queue [u] do, one after the other, to its poller's
    provider: an existing poller gets a new client for the entry's role, unless
    the entry has none; without a poller the entry creates one, or fails to. *)
Inductive served (u : string) :
    list Properties → option (sqsProvider C) → option (sqsProvider C) → Prop :=
  | served_nil o : served u [] o o
  | served_other props l o o' :
      Url props ≠ u → served u l o o' → served u (props :: l) o o'
  | served_idle props l pr o' :
      Url props = u → props_AssumeRoleResult props = zero_AssumeRoleResult →
      served u l (Some pr) o' → served u (props :: l) (Some pr) o'
  | served_refreshed props l pr err pr1 w w1 o' :
      Url props = u → props_AssumeRoleResult props ≠ zero_AssumeRoleResult → ok w →
      RefreshClient (props_AssumeRoleResult props) (pr, w) = (Done err, (pr1, w1)) →
      served u l (Some pr1) o' → served u (props :: l) (Some pr) o'
  | served_created props l pr w w1 o' :
      Url props = u → ok w → NewSqsProvider props w = (Done (inl pr), w1) →
      served u l (Some pr) o' → served u (props :: l) None o'
  | served_not_created props l err w w1 o' :
      Url props = u → ok w → NewSqsProvider (C := C) props w = (Done (inr err), w1) →
      served u l None o' → served u (props :: l) None o'.

(** What the first loop did. *)
Record refreshed (l : list Properties) keys keys' p p' (es : list event) : Prop := {
  rf_only : only_pollers p p';
  rf_filed : filed p';
  rf_stopped : stopped es = [];
  rf_nodup : NoDup (started es);
  rf_fresh : ∀ u, u ∈ started es → u ∈ Url <$> l ∧ pollers p !! u = None;
  rf_dom : ∀ u, is_Some (pollers p' !! u) ↔ is_Some (pollers p !! u) ∨ u ∈ started es;
  rf_missing : ∀ u, u ∈ Url <$> l → pollers p' !! u = None → creation_failed l u;
  rf_keys : ∀ u, keys' !! u = Some () ↔ keys !! u = Some () ∧ u ∉ Url <$> l;
  rf_served : ∀ u, served u l (pollers p !! u) (pollers p' !! u)
}.

(** The same urls have pollers. *)
Definition same_urls p p' : Prop := ∀ u, is_Some (pollers p' !! u) ↔ is_Some (pollers p !! u).

Lemma refresh_existing_run u pr props p w :
  pollers p !! u = Some pr → ok w → filed p → ∃ err p1 w1,
    (if decide (props_AssumeRoleResult props ≠ zero_AssumeRoleResult)
     then poller_RefreshClient u pr (props_AssumeRoleResult props)
     else go_ret None) (p, w) = (Done err, (p1, w1)) ∧
    extends [] w w1 ∧ only_pollers p p1 ∧ filed p1 ∧ same_urls p p1 ∧
    ∀ v l o', served v l (pollers p1 !! v) o' →
      Url props = u → served v (props :: l) (pollers p !! v) o'.
Proof.
  intros Hu Hok Hf. case_decide as Hrole.
  - destruct (poller_refresh_run u pr (props_AssumeRoleResult props) p w (Hf _ _ Hu) Hok Hf)
      as (err & pr' & w1 & E & Hx & Hr & Er).
    exists err, (set_pollers (<[u := pr']> (pollers p)) p), w1.
    split; [done|]. split; [done|]. split; [done|]. split; [by apply filed_insert|].
    split.
    + intros v. cbn. destruct (decide (u = v)) as [<-|Hne].
      * rewrite lookup_insert_eq, Hu. by split; eexists.
      * by rewrite lookup_insert_ne.
    + intros v l o'. cbn. destruct (decide (u = v)) as [<-|Hne].
      * rewrite lookup_insert_eq, Hu. intros Hs Eu. by eapply served_refreshed.
      * rewrite lookup_insert_ne by done. intros Hs Eu. apply served_other; congruence.
  - exists None, p, w. split; [done|]. split; [by apply extends_nil|].
    split; [apply only_pollers_refl|]. split; [done|]. split; [done|].
    intros v l o' Hs Eu. destruct (decide (u = v)) as [<-|Hne].
    + rewrite Hu in *. by apply served_idle.
    + apply served_other; congruence.
Qed.

Lemma addPoller_run props owner p w :
  ok w → filed p → ∃ err p1 w1, addPoller props owner (p, w) = (Done err, (p1, w1)) ∧
    extends [] w w1 ∧
    match err with
    | Some e => p1 = p ∧ NewSqsProvider (C := C) props w = (Done (inr e), w1)
    | None => only_pollers p p1 ∧ filed p1 ∧
        (∀ u, is_Some (pollers p1 !! u) ↔ is_Some (pollers p !! u) ∨ u = Url props) ∧
        ∃ pr, NewSqsProvider props w = (Done (inl pr), w1) ∧
          pollers p1 = <[Url props := pr]> (pollers p)
    end.
Proof.
  intros Hok Hf. destruct (new_provider_run props w Hok) as (r & w1 & E & Hx & Hr).
  unfold addPoller. rewrite (go_bind_done _ _ _ _ _ (on_env_run _ p _ _ _ E)).
  destruct r as [pr|e]; [|by exists (Some e), p, w1].
  destruct Hr as [Hr Eq]. rewrite Eq. eexists None, _, w1. split; [reflexivity|].
  split; [done|]. split; [done|]. split; [by apply filed_insert|].
  split; [|by exists pr]. intros u. cbn. destruct (decide (Url props = u)) as [<-|Hne].
  - rewrite lookup_insert_eq. split; [by right|by eexists].
  - rewrite lookup_insert_ne by done. split; [by left|]. by intros [?|?].
Qed.

(** The loop by its branches: nothing left, a poller that exists, a creation
    that failed, a new poller. *)
Lemma refreshed_nil keys p : filed p → refreshed [] keys keys p p [].
Proof.
  intros Hf. split; try done;
    [apply only_pollers_refl|constructor|by intros u ?%elem_of_nil|..].
  - intros u. split; [by left|]. by intros [?|?%elem_of_nil].
  - by intros u ?%elem_of_nil.
  - intros u. split; [|tauto]. intros ?. split; [done|]. by intros ?%elem_of_nil.
  - intros u. constructor.
Qed.

Lemma refreshed_kept props l keys keys' p p1 p' es :
  is_Some (pollers p !! Url props) → only_pollers p p1 → same_urls p p1 →
  (∀ u o', served u l (pollers p1 !! u) o' → served u (props :: l) (pollers p !! u) o') →
  refreshed l (delete (Url props) keys) keys' p1 p' es →
  refreshed (props :: l) keys keys' p p' es.
Proof.
  intros Hu Ho Hs Hsv [Q1 Q2 Q3 Q4 Q5 Q6 Q7 Q8 Q9]. split; try done.
  - by eapply only_pollers_trans.
  - intros u Hin. destruct (Q5 u Hin) as [? Hn]. split; [by right|].
    apply eq_None_not_Some. by rewrite <- (Hs u), <- eq_None_not_Some.
  - intros u. by rewrite Q6, (Hs u).
  - intros u [->|Hin]%elem_of_cons Hn.
    + exfalso. apply eq_None_not_Some in Hn. apply Hn. rewrite Q6. left. by apply Hs.
    + eapply creation_failed_mono; [|by apply Q7]. intros ? ?. by right.
  - intros u. rewrite Q8, lookup_delete_Some, fmap_cons, not_elem_of_cons.
    split; [intros [[? ?] ?]; done|intros [? [? ?]]; done].
  - intros u. apply Hsv, Q9.
Qed.

(** The key of a queue without a poller is not among those left. *)
Lemma left_keys_cons props l keys keys' :
  keys !! Url props ≠ Some () →
  (∀ u, keys' !! u = Some () ↔ keys !! u = Some () ∧ u ∉ Url <$> l) →
  ∀ u, keys' !! u = Some () ↔ keys !! u = Some () ∧ u ∉ Url <$> props :: l.
Proof.
  intros Hnk Hk u. rewrite Hk, fmap_cons, not_elem_of_cons.
  split; [|intros [? [? ?]]; done]. intros [Hku ?]. split; [done|]. split; [|done]. by intros ->.
Qed.

Lemma refreshed_failed props l keys keys' p p' es w e w1 :
  keys !! Url props ≠ Some () → pollers p !! Url props = None → ok w →
  NewSqsProvider (C := C) props w = (Done (inr e), w1) →
  refreshed l keys keys' p p' es → refreshed (props :: l) keys keys' p p' es.
Proof.
  intros Hnk Hu Hok Hfail [Q1 Q2 Q3 Q4 Q5 Q6 Q7 Q8 Q9]. split; try done.
  - intros u Hin. destruct (Q5 u Hin). by split; [right|].
  - intros u [->|Hin]%elem_of_cons Hn.
    + exists props, w, e, w1. split_and!; [by left|done|done].
    + eapply creation_failed_mono; [|by apply Q7]. intros ? ?. by right.
  - by apply left_keys_cons.
  - intros u. destruct (decide (Url props = u)) as [<-|Hne]; [|by apply served_other].
    specialize (Q9 (Url props)). rewrite Hu in *. by eapply served_not_created.
Qed.

Lemma refreshed_added props l keys keys' p p1 p' es r pr w w1 :
  keys !! Url props ≠ Some () → pollers p !! Url props = None → only_pollers p p1 →
  (∀ u, is_Some (pollers p1 !! u) ↔ is_Some (pollers p !! u) ∨ u = Url props) →
  ok w → NewSqsProvider props w = (Done (inl pr), w1) →
  pollers p1 = <[Url props := pr]> (pollers p) →
  refreshed l keys keys' p1 p' es →
  refreshed (props :: l) keys keys' p p' (EvPollerStart (Url props) r :: es).
Proof.
  intros Hnk Hu Ho Hdom Hok Hnew' Hins [Q1 Q2 Q3 Q4 Q5 Q6 Q7 Q8 Q9].
  assert (Hst : started (EvPollerStart (Url props) r :: es) = Url props :: started es) by done.
  assert (Hnew : ∀ u, pollers p1 !! u = None → ¬ (is_Some (pollers p !! u) ∨ u = Url props)).
  { intros u Hn Hs. apply eq_None_not_Some in Hn. by apply Hn, Hdom. }
  split; rewrite ?Hst; try done.
  - by eapply only_pollers_trans.
  - constructor; [|done]. intros Hin. destruct (Q5 _ Hin) as [_ Hn]. apply (Hnew _ Hn). by right.
  - intros u [->|Hin]%elem_of_cons; [split; [by left|done]|].
    destruct (Q5 u Hin) as [? Hn]. split; [by right|].
    apply eq_None_not_Some. intros Hs. apply (Hnew _ Hn). by left.
  - intros u. rewrite Q6, Hdom, elem_of_cons. tauto.
  - intros u [->|Hin]%elem_of_cons Hn.
    + exfalso. apply eq_None_not_Some in Hn. apply Hn, Q6. left. apply Hdom. by right.
    + eapply creation_failed_mono; [|by apply Q7]. intros ? ?. by right.
  - by apply left_keys_cons.
  - intros u. specialize (Q9 u). rewrite Hins in Q9.
    destruct (decide (Url props = u)) as [<-|Hne].
    + rewrite lookup_insert_eq in Q9. rewrite Hu. by eapply served_created.
    + rewrite lookup_insert_ne in Q9 by done. by apply served_other.
Qed.

Lemma refresh_each_run owner l keys p w :
  ok w → filed p → (∀ u, keys !! u = Some () → is_Some (pollers p !! u)) →
  ∃ keys' p' w' es, refresh_each owner l keys (p, w) = (Done keys', (p', w')) ∧
    extends es w w' ∧ refreshed l keys keys' p p' es.
Proof.
  revert keys p w. induction l as [|props l IH]; intros keys p w Hok Hf Hk.
  { exists keys, p, w, []. split; [done|]. split; [by apply extends_nil|by apply refreshed_nil]. }
  cbn [refresh_each]. unfold go_bind at 1, go_get. cbn [fst].
  destruct (pollers p !! Url props) as [pr|] eqn:Hu.
  - destruct (refresh_existing_run _ pr props p w Hu Hok Hf)
      as (err & p1 & w1 & E & Hx & Ho & Hf1 & Hs & Hsv).
    rewrite (go_bind_done _ _ _ _ _ E).
    destruct (IH (delete (Url props) keys) p1 w1) as (keys' & p' & w' & es & E' & Hx' & Hr);
      [by eapply extends_ok|done| |].
    { intros u [_ ?]%lookup_delete_Some. by apply Hs, Hk. }
    exists keys', p', w', es. split; [done|]. split; [by apply (extends_trans _ _ _ _ _ Hx Hx')|].
    eapply refreshed_kept; [by eexists|done..| |done]. intros u o' ?. by apply Hsv.
  - destruct (addPoller_run props owner p w Hok Hf) as (err & p1 & w1 & E & Hx & Hc).
    rewrite (go_bind_done _ _ _ _ _ E). pose proof (extends_ok _ _ _ Hx) as Hok1.
    assert (Hnk : keys !! Url props ≠ Some ()).
    { intros Hkey. destruct (Hk _ Hkey) as [? Hs]. by rewrite Hu in Hs. }
    destruct err as [e|].
    + destruct Hc as [-> Hfail].
      destruct (IH keys p w1 Hok1 Hf Hk) as (keys' & p' & w' & es & E' & Hx' & Hr).
      exists keys', p', w', es. split; [done|].
      split; [by apply (extends_trans _ _ _ _ _ Hx Hx')|].
      by apply (refreshed_failed props l keys keys' p p' es w e w1).
    + destruct Hc as (Ho & Hf1 & Hdom & pr & Enew & Eins).
      destruct (poller_Start_spec (Url props) w1 Hok1) as (r & w2 & E2 & Hx2).
      rewrite (go_bind_done _ _ _ _ _ (on_env_run _ p1 _ _ _ E2)).
      destruct (IH keys p1 w2) as (keys' & p' & w' & es & E' & Hx' & Hr);
        [by eapply extends_ok|done|intros u ?; apply Hdom; left; by apply Hk|].
      exists keys', p', w', (EvPollerStart (Url props) r :: es). split; [done|].
      split; [exact (extends_trans _ _ _ _ _ Hx (extends_cons _ _ _ _ _ Hx2 Hx'))|].
      by apply (refreshed_added props l keys keys' p p1 p' es r pr w w1).
Qed.
End PollerFacts.

Section RefreshFacts.
Context {C W : Type} `{Logged W, SQSClient C W, GoRuntime W, Workers W}.
Context `{!SQSClientSpec (C := C) (W := W), !GoRuntimeSpec W, !WorkersSpec W}.
Implicit Types (p : processor C) (w : W).

Lemma remove_pollers_run (l : list (string * unit)) p w :
  ok w → filed p → NoDup l.*1 → Forall (λ u, is_Some (pollers p !! u)) l.*1 →
  ∃ p' w' es, remove_pollers l (p, w) = (Done (), (p', w')) ∧ extends es w w' ∧
    started es = [] ∧ stopped es = l.*1 ∧ only_pollers p p' ∧ filed p' ∧
    (∀ u, is_Some (pollers p' !! u) ↔ is_Some (pollers p !! u) ∧ u ∉ l.*1) ∧
    ∀ u, u ∉ l.*1 → pollers p' !! u = pollers p !! u.
Proof.
  revert p w. induction l as [|[u []] l IH]; intros p w Hok Hf Hnd Hall; cbn [remove_pollers].
  { exists p, w, []. split; [done|]. split; [by apply extends_nil|].
    split_and!; [done|done|apply only_pollers_refl|done| |done].
    intros u. split; [|tauto]. intros ?. split; [done|]. by intros ?%elem_of_nil. }
  rewrite fmap_cons in Hnd, Hall. cbn [fst] in *.
  apply NoDup_cons in Hnd as [Hu Hnd]. apply Forall_cons in Hall as [[pr Hpr] Hall].
  unfold go_bind at 1, removePoller, go_bind at 1, go_get, go_bind at 1, go_put. cbn [fst snd].
  unfold go_ret at 1. rewrite Hpr, go_bind_deref.
  destruct (poller_Stop_spec u w Hok) as (r & w1 & E & Hx).
  rewrite (go_bind_done _ _ _ _ _ (on_env_run _ _ _ _ _ E)).
  destruct (IH (set_pollers (delete u (pollers p)) p) w1)
    as (p' & w' & es & E' & Hx' & Hst & Hsp & Ho & Hf' & Hdom & Hkept).
  - by eapply extends_ok.
  - intros v pv. cbn. intros [_ Hv]%lookup_delete_Some. by apply Hf.
  - done.
  - rewrite Forall_forall in *. intros v Hv. destruct (Hall v Hv) as [pv Hpv].
    exists pv. apply lookup_delete_Some. split; [|done]. by intros ->.
  - exists p', w', (EvPollerStop u r :: es). split; [done|]. split; [by eapply extends_cons|].
    split_and!; [done| |exact (only_pollers_trans _ _ _ (set_pollers_only _ p) Ho)|done| |].
    + change (stopped (EvPollerStop u r :: es)) with (u :: stopped es). by rewrite Hsp.
    + intros v. rewrite Hdom, fmap_cons, not_elem_of_cons. cbn [fst pollers set_pollers].
      destruct (decide (u = v)) as [<-|Hne].
      * rewrite lookup_delete_eq. split; [by intros [[] _]|tauto].
      * rewrite lookup_delete_ne by done. intuition congruence.
    + intros v. rewrite fmap_cons, not_elem_of_cons. cbn [fst]. intros [Hne Hv].
      rewrite (Hkept v Hv). cbn. by rewrite lookup_delete_ne.
Qed.

(** The periods after a refresh. *)
Definition periods_of (tok : token) p : Z * Z :=
  match QueuePropertiesList tok with
  | [] => (successRefreshPeriod p, proc_errorRefreshPeriod p)
  | first :: _ =>
      (seconds (SuccessRefreshPeriodInSeconds (props_Configuration first)),
       seconds (ErrorRefreshPeriodInSeconds (props_Configuration first)))
  end.

(** The urls a token lists. *)
Definition urls (tok : token) : list string := Url <$> QueuePropertiesList tok.

(** The pollers [p] became [p'] for the token, with the calls [es]. *)
Record reconciled (tok : token) p p' (es : list event) : Prop := {
  rc_rest : p' = set_periods (periods_of tok p).1 (periods_of tok p).2
                   (set_pollers (pollers p') p);
  rc_filed : filed p';
  rc_listed : ∀ u, is_Some (pollers p' !! u) → u ∈ urls tok;
  rc_kept : ∀ u, is_Some (pollers p !! u) → u ∈ urls tok → is_Some (pollers p' !! u);
  rc_missing : ∀ u, u ∈ urls tok → pollers p' !! u = None →
    creation_failed (C := C) (W := W) (QueuePropertiesList tok) u;
  rc_started : NoDup (started es) ∧
    ∀ u, u ∈ started es ↔ pollers p !! u = None ∧ is_Some (pollers p' !! u);
  rc_stopped : NoDup (stopped es) ∧
    ∀ u, u ∈ stopped es ↔ is_Some (pollers p !! u) ∧ u ∉ urls tok;
  rc_served : ∀ u, u ∈ urls tok →
    served (W := W) u (QueuePropertiesList tok) (pollers p !! u) (pollers p' !! u)
}.

(** The keys are the urls that have pollers; what is left of them is not listed. *)
Lemma all_keys p u :
  ((λ _, ()) <$> pollers p : gmap string unit) !! u = Some () ↔ is_Some (pollers p !! u).
Proof.
  rewrite lookup_fmap. destruct (pollers p !! u); cbn; split; [by eexists|done|done|by intros []].
Qed.

Lemma left_over_keys tok p (keys' : gmap string unit) (l : list (string * unit)) :
  (∀ u, keys' !! u = Some () ↔
    ((λ _, ()) <$> pollers p : gmap string unit) !! u = Some () ∧
    u ∉ Url <$> QueuePropertiesList tok) →
  l ≡ₚ map_to_list keys' → ∀ u, u ∈ l.*1 ↔ is_Some (pollers p !! u) ∧ u ∉ urls tok.
Proof.
  intros Q Hl u. rewrite <- all_keys. unfold urls. rewrite <- Q, Hl. split.
  - intros ([v []] & -> & Hv)%list_elem_of_fmap. by apply elem_of_map_to_list.
  - intros Hu. apply list_elem_of_fmap. exists (u, ()). split; [done|].
    by apply elem_of_map_to_list.
Qed.

(** The two loops together: what is left of the keys is removed. *)
Lemma refreshed_reconciled tok p p1 p2 keys' es1 es2 l :
  refreshed (C := C) (W := W) (QueuePropertiesList tok) ((λ _, ()) <$> pollers p) keys' p p1 es1 →
  l ≡ₚ map_to_list keys' →
  started es2 = [] → stopped es2 = l.*1 → only_pollers p1 p2 → filed p2 →
  (∀ u, is_Some (pollers p2 !! u) ↔ is_Some (pollers p1 !! u) ∧ u ∉ l.*1) →
  (∀ u, u ∉ l.*1 → pollers p2 !! u = pollers p1 !! u) →
  reconciled tok p (set_periods (periods_of tok p).1 (periods_of tok p).2 p2) (es1 ++ es2).
Proof.
  intros [Q1 Q2 Q3 Q4 Q5 Q6 Q7 Q8 Q9] Hl Hst Hsp Ho Hf2 Hdom Hkept.
  pose proof (left_over_keys tok p keys' l Q8 Hl) as Hin.
  pose proof (only_pollers_trans _ _ _ Q1 Ho) as Hop. unfold only_pollers in Hop.
  assert (Hd : ∀ u, is_Some (pollers p2 !! u) ↔
    (is_Some (pollers p !! u) ∧ u ∈ urls tok) ∨ u ∈ started es1).
  { intros u. rewrite Hdom, Q6, Hin. destruct (decide (u ∈ urls tok)); [tauto|].
    split; [tauto|]. intros [[? ?]|Hs]; [tauto|]. by destruct (Q5 u Hs). }
  assert (Hse : started (es1 ++ es2) = started es1) by (by rewrite started_app, Hst, app_nil_r).
  assert (Hsse : stopped (es1 ++ es2) = l.*1) by (by rewrite stopped_app, Q3, Hsp).
  split; rewrite ?Hse, ?Hsse; cbn [pollers set_periods]; try done.
  - f_equal. exact Hop.
  - intros u Hu. apply Hd in Hu as [[_ ?]|Hs]; [done|]. by destruct (Q5 u Hs).
  - intros u ? ?. apply Hd. by left.
  - intros u Hu Hn. apply Q7; [done|]. apply eq_None_not_Some. intros [Hs|Hs]%Q6;
      apply eq_None_not_Some in Hn; apply Hn, Hd; [by left|by right].
  - split; [done|]. intros u. rewrite Hd. split.
    + intros Hs. destruct (Q5 u Hs). by split; [|right].
    + intros [Hn [[[? Hs] _]|Hs]]; [by rewrite Hn in Hs|done].
  - split; [|done]. rewrite Hl. apply NoDup_fst_map_to_list.
  - intros u Hu. rewrite Hkept; [apply Q9|]. rewrite Hin. tauto.
Qed.

Lemma refreshPollers_run tok p w :
  ok w → filed p → ∃ p' w' es,
    refreshPollers (Some tok) (p, w) = (Done (), (p', w')) ∧ extends es w w' ∧
    reconciled tok p p' es.
Proof.
  intros Hok Hf. unfold refreshPollers. unfold go_bind at 1, go_get. cbn [fst].
  rewrite go_bind_deref.
  destruct (refresh_each_run (token_OwnerId tok) (QueuePropertiesList tok)
    ((λ _, ()) <$> pollers p) p w Hok Hf (λ u, proj1 (all_keys p u)))
    as (keys' & p1 & w1 & es1 & E1 & Hx1 & Hr1).
  rewrite (go_bind_done _ _ _ _ _ E1).
  destruct (map_range_spec keys' w1 (extends_ok _ _ _ Hx1)) as (l & w2 & E2 & Hx2 & Hl).
  rewrite (go_bind_done _ _ _ _ _ (on_env_run _ p1 _ _ _ E2)).
  pose proof (left_over_keys tok p keys' l (rf_keys _ _ _ _ _ _ Hr1) Hl) as Hin.
  destruct (remove_pollers_run l p1 w2)
    as (p2 & w3 & es2 & E3 & Hx3 & Hst & Hsp & Ho & Hf2 & Hdom & Hkept).
  { by eapply extends_ok. }
  { apply Hr1. }
  { rewrite Hl. apply NoDup_fst_map_to_list. }
  { apply Forall_forall. intros u Hu. apply (rf_dom _ _ _ _ _ _ Hr1). left. by apply Hin. }
  rewrite (go_bind_done _ _ _ _ _ E3).
  pose proof (only_pollers_trans _ _ _ (rf_only _ _ _ _ _ _ Hr1) Ho) as Hop. unfold only_pollers in Hop.
  exists (set_periods (periods_of tok p).1 (periods_of tok p).2 p2), w3, (es1 ++ es2).
  split; [|split].
  - unfold periods_of. destruct (QueuePropertiesList tok); [|done].
    unfold go_ret. do 2 f_equal. rewrite Hop. by destruct p.
  - exact (extends_trans _ _ _ _ _ Hx1 (extends_trans _ _ _ _ _ Hx2 Hx3)).
  - by apply (refreshed_reconciled tok p p1 p2 keys' es1 es2 l).
Qed.
End RefreshFacts.
