(* ===== verification/ProcessorProps.v ===== *)
(** * The life of the queue processor: Start, the ticks of run, Stop. *)

From stdpp Require Import base list numbers strings gmap.
From Stdlib Require Import Lia ZifyBool.
From S2P Require Import Prelude Configuration WorkerPool GoError Interfaces GoStrings.
From S2P Require Import SqsProvider Retryer Git Actions Reader Processor.
Local Open Scope Z_scope.

(** ** Balance: what is started and not stopped has a poller *)

Section Balance.
Context {C : Type}.
Implicit Types p : processor C.

(** A url's pollers in the map: 0 or 1. *)
Definition filed_at p (u : string) : Z :=
  match pollers p !! u with Some _ => 1 | None => 0 end.

Definition balanced p p' (es : list event) : Prop :=
  ∀ u, filed_at p u + occ u (started es) = filed_at p' u + occ u (stopped es).

(** The calls start and stop no poller. *)
Definition quiet (es : list event) : Prop := started es = [] ∧ stopped es = [].

Lemma quiet_app es1 es2 : quiet es1 → quiet es2 → quiet (es1 ++ es2).
Proof. intros [A1 A2] [B1 B2]. split; rewrite ?started_app, ?stopped_app; by rewrite ?A1, ?A2. Qed.

(** The call is an HTTP request or about a git repository. *)
Definition outside (e : event) : Prop :=
  match e with
  | EvDo _ _ _ | EvDiscard _ | EvSleep _ | EvClone _ _ _ _ | EvChmod _ _ _ | EvRemoveAll _ _ => True
  | _ => False
  end.

Lemma outside_quiet es : Forall outside es → quiet es.
Proof. induction 1 as [|[] es He _ IH]; try done; by apply (quiet_app [_]). Qed.

Lemma outside_git es : Forall git_event es → Forall outside es.
Proof. intros Hg. eapply Forall_impl; [exact Hg|]. by intros []. Qed.

Lemma outside_attempts q k rs : Forall outside (attempts q k rs).
Proof.
  revert k. induction rs as [|r rs IH]; intros k; [constructor|]. cbn [attempts].
  constructor; [done|]. apply Forall_app. split.
  - destruct r as [[?|] [?|]]; try constructor. cbn. case_match; by repeat constructor.
  - destruct rs; [constructor|]. by constructor.
Qed.

Lemma quiet_balanced p p' es : quiet es → pollers p' = pollers p → balanced p p' es.
Proof. intros [E1 E2] E u. unfold filed_at. by rewrite E1, E2, E, !occ_nil. Qed.

Lemma balanced_trans p1 p2 p3 es1 es2 :
  balanced p1 p2 es1 → balanced p2 p3 es2 → balanced p1 p3 (es1 ++ es2).
Proof.
  intros B1 B2 u. specialize (B1 u). specialize (B2 u).
  rewrite started_app, stopped_app, !occ_app. lia.
Qed.

Lemma occ_NoDup (u : string) l : NoDup l → occ u l = if decide (u ∈ l) then 1 else 0.
Proof.
  induction 1 as [|x l Hx Hnd IH]; [done|]. rewrite occ_cons, IH.
  pose proof (elem_of_cons l u x) as Hc.
  repeat case_decide; subst; try done; exfalso; intuition congruence.
Qed.

(** A processor that has not been started. *)
Definition fresh p : Prop :=
  pollers p = ∅ ∧ proc_isRunning p = false ∧ quit_closed p = false ∧
  0 < successRefreshPeriod p ∧ 0 < proc_errorRefreshPeriod p.

Lemma occ_pollers p u : occ u (map_to_list (pollers p)).*1 = filed_at p u.
Proof.
  rewrite occ_NoDup by apply NoDup_fst_map_to_list.
  unfold filed_at. destruct (pollers p !! u) as [pr|] eqn:Hu.
  - rewrite decide_True; [done|]. apply list_elem_of_fmap. exists (u, pr).
    split; [done|]. by apply elem_of_map_to_list.
  - rewrite decide_False; [done|].
    intros ([v pv] & -> & Hv%elem_of_map_to_list)%list_elem_of_fmap. cbn in Hu. congruence.
Qed.
End Balance.

Section Life.
Context {C N R K W : Type}.
Context `{Logged W, SQSClient C W, HttpClient N W, GitEnv R K W, GoRuntime W, Workers W}.
Context `{!SQSClientSpec (C := C) (W := W), !HttpClientSpec N W, !GitEnvSpec R K W,
  !GoRuntimeSpec W, !WorkersSpec W}.
Implicit Types (p : processor C) (w : W).

Lemma reconciled_balanced tok p p' es :
  reconciled (W := W) tok p p' es → balanced p p' es.
Proof.
  intros [_ _ Hl Hk _ [Hnd1 Hs1] [Hnd2 Hs2] _] u. unfold filed_at.
  rewrite (occ_NoDup u _ Hnd1), (occ_NoDup u _ Hnd2).
  specialize (Hl u). specialize (Hk u). specialize (Hs1 u). specialize (Hs2 u).
  assert (Hu : u ∈ urls tok ∨ u ∉ urls tok) by (destruct (decide (u ∈ urls tok)); tauto).
  destruct (pollers p !! u) as [a|], (pollers p' !! u) as [b|];
    rewrite <- ?not_eq_None_Some in *; repeat case_decide; try lia; exfalso; intuition congruence.
Qed.

(** The request for a token, for the pollers in the order [l]. *)
Definition token_request p (l : list (string * sqsProvider C)) (q : http_Request) : Request :=
  set_query (Encode (token_query l))
    (request_add "X-JEC-Client-Info" UserAgentHeader
      (request_add "Authorization" ("GenieKey " +:+ ApiKey (configuration p))
        (mkRetryRequest None q))).

(** What an answer means. *)
Definition token_of_answer (r : http_answer) : result (option token) :=
  match retry_result r with
  | (_, Some err) => inr err
  | (Some resp, None) =>
      if decide (resp_StatusCode resp = 200) then decode_token (resp_Token resp)
      else inr (token_error resp)
  | (None, None) => inr (PlainError "")
  end.

Lemma receiveToken_run p w :
  ok w → ∃ r w' es, receiveToken (H := N) (p, w) = (Done r, (p, w')) ∧ extends es w w' ∧
    match http_NewRequest (C := N) "GET" (BaseUrl (configuration p) +:+ tokenPath) None with
    | inr err => r = inr err ∧ es = []
    | inl q => ∃ l failed last, l ≡ₚ map_to_list (pollers p) ∧
        es = attempts (token_request p l q) 0 (failed ++ [last]) ∧
        r = token_of_answer last
    end.
Proof.
  intros Hok. unfold receiveToken. unfold go_bind at 1, go_get. cbn [fst]. unfold NewRequest.
  destruct (http_NewRequest _ _ _) as [q|err].
  2: { exists (inr err), w, []. split; [done|]. split; [by apply extends_nil|done]. }
  cbv zeta.
  destruct (map_range_spec (pollers p) w Hok) as (l & w1 & E1 & Hx1 & Hl).
  rewrite (go_bind_done _ _ _ _ _ (on_env_run _ p _ _ _ E1)).
  destruct (backoff_run 5 0 DefaultClient (token_request p l q) 0 w1)
    as (failed & last & n' & w2 & E2 & Hx2 & Hd & _); [done|lia|by eapply extends_ok|].
  assert (Ed : (λ w, let '(r, (_, w')) := Do (mkRetryer None None) (token_request p l q) (0%nat, w)
                     in (r, w')) w1 = (Done (retry_result last), w2)).
  { unfold Do, DoWithExponentialBackoff. cbn [DoFunc client].
    change (Z.to_nat maxRetryCount) with 5%nat. change 0 with (Z.of_nat 0). by rewrite E2. }
  change (set_query (Encode (token_query l)) _) with (token_request p l q).
  rewrite (go_bind_done _ _ _ _ _ (on_env_run _ p _ _ _ Ed)).
  pose proof (extends_trans _ _ _ _ _ Hx1 Hx2) as Hx.
  exists (token_of_answer last), w2, (attempts (token_request p l q) 0 (failed ++ [last])).
  split; [|split; [done|by exists l, failed, last]].
  unfold token_of_answer, retry_result. destruct (retryable last); [done|].
  destruct last as [[resp|] [e|]]; try done. cbn [fst snd]. rewrite go_bind_deref.
  by case_decide.
Qed.

(** A decoded token that is not null and whose first queue has positive refresh
    periods. *)
Definition sound_token (tok : option token) : Prop :=
  match tok with
  | None => False
  | Some tok =>
      match QueuePropertiesList tok with
      | [] => True
      | first :: _ =>
          0 < seconds (SuccessRefreshPeriodInSeconds (props_Configuration first)) ∧
          0 < seconds (ErrorRefreshPeriodInSeconds (props_Configuration first))
      end
  end.

#[export] Instance sound_token_dec tok : Decision (sound_token tok).
Proof. unfold sound_token. repeat case_match; apply _. Defined.

(** The calls [es] got a token from the server: a 200 whose header decodes. *)
Definition received (es : list event) (tok : option token) : Prop :=
  ∃ q sent resp, EvDo q sent (Some resp, None) ∈ es ∧ resp_StatusCode resp = 200 ∧
    decode_token (resp_Token resp) = inl tok.

(** Every token received is sound. *)
Definition sound_tokens (es : list event) : Prop := ∀ tok, received es tok → sound_token tok.

Lemma received_mono es es' tok : es ⊆ es' → received es tok → received es' tok.
Proof. intros Hs (q & sent & resp & Hin & ?). exists q, sent, resp. auto. Qed.

Lemma sound_tokens_app es1 es2 :
  sound_tokens (es1 ++ es2) → sound_tokens es1 ∧ sound_tokens es2.
Proof.
  intros Hs. split; intros tok Hr; apply Hs; (eapply received_mono; [|exact Hr]);
    intros e He; apply elem_of_app; auto.
Qed.

(** The tokens among the calls, to find the one that is not sound. *)
Definition received1 (e : event) : list (option token) :=
  match e with
  | EvDo _ _ (Some resp, None) =>
      if decide (resp_StatusCode resp = 200) then
        match decode_token (resp_Token resp) with inl tok => [tok] | inr _ => [] end
      else []
  | _ => []
  end.

Lemma received_spec es tok : received es tok ↔ tok ∈ (es ≫= received1).
Proof.
  rewrite list_elem_of_bind. split.
  - intros (q & sent & resp & Hin & Hst & Hd). exists (EvDo q sent (Some resp, None)).
    split; [|done]. cbn. rewrite decide_True, Hd by done. by left.
  - intros (e & Hin & He). destruct e as [| | | | | | |q sent [[resp|] [?|]]| | | | | | | | | | | | | |];
      cbn in Hin; try by apply elem_of_nil in Hin.
    case_decide; [|by apply elem_of_nil in Hin].
    destruct (decode_token _) eqn:Hd; [|by apply elem_of_nil in Hin].
    apply list_elem_of_singleton in Hin as ->. by exists q, sent, resp.
Qed.

Lemma unsound_received es :
  ¬ sound_tokens es → ∃ tok, received es tok ∧ ¬ sound_token tok.
Proof.
  intros Hn. destruct (decide (Forall sound_token (es ≫= received1))) as [Hall|Hex].
  - destruct Hn. intros tok Hr. rewrite Forall_forall in Hall. by apply Hall, received_spec.
  - apply not_Forall_Exists in Hex; [|apply _]. apply Exists_exists in Hex as (tok & Hin & Hu).
    exists tok. by rewrite received_spec.
Qed.

Definition periods_ok p : Prop := 0 < successRefreshPeriod p ∧ 0 < proc_errorRefreshPeriod p.

(** When the tokens received are sound and the periods positive, nothing
    panics and the periods stay so. *)
Definition no_panic {A} p p' (es : list event) (out : outcome A) : Prop :=
  sound_tokens es → periods_ok p → periods_ok p' ∧ ∃ a, out = Done a.

Lemma attempts_last q k rs last :
  EvDo (request q) (default "" (body q)) last ∈ attempts q k (rs ++ [last]).
Proof.
  revert k. induction rs as [|r rs IH]; intros k; cbn [attempts app]; [by left|].
  right. apply elem_of_app. right. specialize (IH (S k)).
  destruct (rs ++ [last]) eqn:E; [by destruct rs|]. by right.
Qed.

Lemma token_of_answer_received q k rs last tok :
  token_of_answer last = inl tok → received (attempts q k (rs ++ [last])) tok.
Proof.
  unfold token_of_answer, retry_result. intros Ht.
  pose proof (attempts_last q k rs last) as Hin. destruct (retryable last); [done|].
  destruct last as [[resp|] [e|]]; try done. case_decide; [|done].
  by exists (request q), (default "" (body q)), resp.
Qed.

Lemma receiveToken_outside p w :
  ok w → ∃ r w' es, receiveToken (H := N) (p, w) = (Done r, (p, w')) ∧ extends es w w' ∧
    Forall outside es ∧ ∀ tok, r = inl tok → sound_tokens es → sound_token tok.
Proof.
  intros Hok. destruct (receiveToken_run p w Hok) as (r & w' & es & E & Hx & Hr).
  exists r, w', es. split; [done|]. split; [done|].
  destruct (http_NewRequest _ _ _); [|by destruct Hr as [-> ->]].
  destruct Hr as (l & failed & last & _ & -> & ->). split; [apply outside_attempts|].
  intros tok Ht Hsound. by apply Hsound, token_of_answer_received.
Qed.

(** The flags of the processor that a refresh leaves alone. *)
Definition same_flags p p' : Prop :=
  proc_isRunning p' = proc_isRunning p ∧ quit_closed p' = quit_closed p ∧
  proc_repositories p' = proc_repositories p.

Lemma reconciled_flags tok p p' es : reconciled (W := W) tok p p' es → same_flags p p'.
Proof. intros Hr. rewrite (rc_rest _ _ _ _ Hr). by split_and!. Qed.

Lemma reconciled_periods tok p p' es :
  reconciled (W := W) tok p p' es → sound_token (Some tok) → periods_ok p → periods_ok p'.
Proof.
  intros Hr Hs [Hp1 Hp2]. rewrite (rc_rest _ _ _ _ Hr). unfold periods_ok, periods_of. cbn in *.
  by destruct (QueuePropertiesList tok).
Qed.

Lemma NewTicker_run {S} d (s : S) : ∃ out, NewTicker d s = (out, s) ∧ (0 < d → out = Done ()).
Proof.
  unfold NewTicker. destruct (d <=? 0) eqn:E; eexists; (split; [reflexivity|]); [lia|done].
Qed.

Lemma run_tick_run p w :
  ok w → filed p → ∃ out p' w' es, run_tick (H := N) (p, w) = (out, (p', w')) ∧
    extends es w w' ∧ filed p' ∧ balanced p p' es ∧ same_flags p p' ∧ no_panic p p' es out.
Proof.
  intros Hok Hf. unfold run_tick.
  destruct (receiveToken_outside p w Hok) as (r & w1 & es1 & E1 & Hx1 & Ho & Hsnd).
  pose proof (outside_quiet _ Ho) as Hq.
  rewrite (go_bind_done _ _ _ _ _ E1).
  assert (Hstay : ∀ out, no_panic p p es1 out → ∃ out' p' w' es, (out, (p, w1)) = (out' : outcome unit, (p', w')) ∧
    extends es w w' ∧ filed p' ∧ balanced p p' es ∧ same_flags p p' ∧ no_panic p p' es out').
  { intros out Hn. exists out, p, w1, es1. split_and!; try done. by apply quiet_balanced. }
  destruct r as [[tok|]|err].
  - destruct (refreshPollers_run tok p w1) as (p2 & w2 & es2 & E2 & Hx2 & Hr);
      [by eapply extends_ok|done|].
    rewrite (go_bind_done _ _ _ _ _ E2). unfold go_bind at 1, go_get. cbn [fst].
    destruct (NewTicker_run (successRefreshPeriod p2) (p2, w2)) as (out & Et & Hpos).
    rewrite Et. exists out, p2, w2, (es1 ++ es2). split; [done|].
    split; [by eapply extends_trans|]. split; [by eapply rc_filed|].
    split; [|split; [by eapply reconciled_flags|]].
    + eapply balanced_trans; [by apply quiet_balanced|]. by eapply reconciled_balanced.
    + intros [Hst _]%sound_tokens_app Hp.
      pose proof (reconciled_periods _ _ _ _ Hr (Hsnd _ eq_refl Hst) Hp) as Hp2.
      split; [done|]. eexists. apply Hpos, Hp2.
  - apply Hstay. intros Hst. by destruct (Hsnd None eq_refl Hst).
  - unfold go_bind at 1, go_get. cbn [fst].
    destruct (NewTicker_run (proc_errorRefreshPeriod p) (p, w1)) as (out & Et & Hpos).
    rewrite Et. apply Hstay. intros _ Hp. split; [done|]. eexists. apply Hpos, Hp.
Qed.

Lemma run_ticks_run n p w :
  ok w → filed p → ∃ out p' w' es, run_ticks (H := N) n (p, w) = (out, (p', w')) ∧
    extends es w w' ∧ filed p' ∧ balanced p p' es ∧ same_flags p p' ∧ no_panic p p' es out.
Proof.
  revert p w. induction n as [|n IH]; intros p w Hok Hf; cbn [run_ticks].
  { exists (Done ()), p, w, []. split; [done|]. split; [by apply extends_nil|].
    split; [done|]. split; [by apply quiet_balanced|]. split; [done|].
    intros _ Hp. split; [done|by eexists]. }
  destruct (run_tick_run p w Hok Hf) as (out & p1 & w1 & es1 & E1 & Hx1 & Hf1 & Hb1 & Hs1 & Hn1).
  unfold go_bind. rewrite E1. destruct out as [[]|why]; [|by exists (Panicked why), p1, w1, es1].
  destruct (IH p1 w1) as (out & p2 & w2 & es2 & E2 & Hx2 & Hf2 & Hb2 & Hs2 & Hn2);
    [by eapply extends_ok|done|].
  exists out, p2, w2, (es1 ++ es2). split; [done|]. split; [by eapply extends_trans|].
  split; [done|]. split; [by eapply balanced_trans|].
  split.
  - destruct Hs1 as (? & ? & ?), Hs2 as (? & ? & ?). split_and!; congruence.
  - intros [Hst1 Hst2]%sound_tokens_app Hp. destruct (Hn1 Hst1 Hp) as [Hp1 _]. by apply Hn2.
Qed.

Lemma on_repositories_run {A} (m : go (Repositories * W) A) p w r rs w' :
  m (proc_repositories p, w) = (r, (rs, w')) →
  on_repositories m (p, w) = (r, (set_repositories rs p, w')).
Proof. unfold on_repositories. cbn [fst snd]. by intros ->. Qed.

Lemma GitActions_run m w :
  ok w → ∃ opts w', GitActions m w = (Done opts, w') ∧ extends [] w w'.
Proof.
  intros Hok. destruct (map_range_spec m w Hok) as (l & w' & E & Hx & _).
  exists (git_options l), w'. unfold GitActions. by rewrite (go_bind_done _ _ _ _ _ E).
Qed.

(** The part of [Start] that prepares the git actions' paths. *)
Lemma prepare_paths_run p w :
  ok w → ∃ p' w', (if NotEmpty (proc_repositories p) then
      mappings <- on_env (AddRepositoryPathToGitActionFilepaths
        (conf_Mappings (configuration p)) (proc_repositories p)) ;
      go_modify (λ s, (set_mappings mappings s.1, s.2))
    else go_ret ())%go (p, w) = (Done (), (p', w')) ∧ extends [] w w' ∧
    pollers p' = pollers p ∧ proc_isRunning p' = proc_isRunning p ∧
    quit_closed p' = quit_closed p ∧ (periods_ok p → periods_ok p').
Proof.
  intros Hok. destruct (NotEmpty (proc_repositories p)).
  - destruct (repository_run (conf_Mappings (configuration p)) (proc_repositories p) w Hok)
      as (w' & E & Hx).
    rewrite (go_bind_done _ _ _ _ _ (on_env_run _ p _ _ _ E)).
    eexists _, w'. split; [reflexivity|]. by split_and!.
  - exists p, w. split; [done|]. split; [by apply extends_nil|]. by split_and!.
Qed.

(** What [Start] leaves, by its outcome. *)
Definition start_outcome p p' (out : outcome (option error)) (es : list event) : Prop :=
  filed p' ∧ balanced p p' es ∧ quit_closed p' = quit_closed p ∧ no_panic p p' es out ∧
  match out with
  | Done None => proc_isRunning p' = true
  | Done (Some _) => proc_isRunning p' = false ∧ Forall outside es ∧ pollers p' = pollers p
  | Panicked _ => proc_isRunning p' = false
  end.

Lemma start_failed p p' e es :
  filed p → proc_isRunning p' = false → quit_closed p' = quit_closed p →
  pollers p' = pollers p → (periods_ok p → periods_ok p') → Forall outside es →
  start_outcome p p' (Done (Some e)) es.
Proof.
  intros Hf Hr Hq Hp Hper Ho. split; [unfold filed; by rewrite Hp|].
  split; [by apply quiet_balanced, Hp; apply outside_quiet|]. split; [done|].
  split; [|done]. intros _ Hpo. split; [by apply Hper|by eexists].
Qed.

Lemma Start_run p w :
  ok w → filed p → proc_isRunning p = false →
  ∃ out p' w' es, Start (H := N) (R := R) (K := K) (p, w) = (out, (p', w')) ∧ extends es w w' ∧
    start_outcome p p' out es.
Proof.
  intros Hok Hf Hrun. unfold Start. unfold go_bind at 1, go_get. cbn [fst]. rewrite Hrun.
  destruct (receiveToken_outside p w Hok) as (r & w1 & es1 & E1 & Hx1 & Ho1 & Hsnd).
  rewrite (go_bind_done _ _ _ _ _ E1). destruct r as [tok|err].
  2: { exists (Done (Some err)), p, w1, es1. split_and!; [done..|]. by apply start_failed. }
  destruct (GitActions_run (conf_Mappings (configuration p)) w1) as (opts & w2 & E2 & Hx2);
    [by eapply extends_ok|].
  rewrite (go_bind_done _ _ _ _ _ (on_env_run _ p _ _ _ E2)).
  destruct (DownloadAll_run opts (proc_repositories p) w2)
    as (err & rs & w3 & es3 & E3 & Hx3 & Hg & _); [by eapply extends_ok|].
  rewrite (go_bind_done _ _ _ _ _ (on_repositories_run _ _ _ _ _ _ E3)).
  pose proof (extends_trans _ _ _ _ _ Hx1 (extends_trans _ _ _ _ _ Hx2 Hx3)) as Hx13.
  assert (Ho : Forall outside (es1 ++ es3)) by (apply Forall_app; split; [done|by apply outside_git]).
  destruct err as [err|].
  { eexists (Done (Some err)), _, w3, (es1 ++ es3). split; [done|]. split; [exact Hx13|].
    by apply start_failed. }
  set (p1 := set_repositories rs p). unfold go_bind at 1, go_get. cbn [fst].
  destruct (prepare_paths_run p1 w3) as (p2 & w4 & E4 & Hx4 & Hp2 & Hr2 & Hq2 & Hper2);
    [by eapply extends_ok|].
  rewrite (go_bind_done _ _ _ _ _ E4).
  destruct (workerPool_Start_spec w4) as (r & w5 & E5 & Hx5); [by eapply extends_ok|].
  rewrite (go_bind_done _ _ _ _ _ (on_env_run _ p2 _ _ _ E5)).
  pose proof (extends_trans _ _ _ _ _ Hx13 (extends_trans _ _ _ _ _ Hx4 Hx5)) as Hx15.
  cbn [app] in Hx15.
  assert (Hf2 : filed p2) by (unfold filed; by rewrite Hp2).
  assert (Hb2 : balanced p p2 ((es1 ++ es3) ++ [EvPoolStart r])).
  { apply quiet_balanced; [|done]. apply quiet_app; [by apply outside_quiet|done]. }
  destruct tok as [tok|].
  - destruct (refreshPollers_run tok p2 w5) as (p3 & w6 & es6 & E6 & Hx6 & Hrc);
      [by eapply extends_ok|done|].
    rewrite (go_bind_done _ _ _ _ _ E6).
    eexists (Done None), _, w6, _. split; [reflexivity|].
    split; [exact (extends_trans _ _ _ _ _ Hx15 Hx6)|].
    pose proof (reconciled_flags _ _ _ _ Hrc) as (F1 & F2 & F3).
    split_and!; [exact (rc_filed _ _ _ _ Hrc)| |cbn; by rewrite F2, Hq2| |done].
    + apply (balanced_trans p p2 _ _ _ Hb2), (reconciled_balanced _ _ _ _ Hrc).
    + intros Hst Hp. split; [|by eexists].
      do 3 apply sound_tokens_app in Hst as [Hst _].
      exact (reconciled_periods _ _ _ _ Hrc (Hsnd _ eq_refl Hst) (Hper2 Hp)).
  - eexists (Panicked _), p2, w5, _. split; [reflexivity|]. split; [exact Hx15|].
    split_and!; [done|done|by rewrite Hq2| |by rewrite Hr2].
    intros Hst. do 2 apply sound_tokens_app in Hst as [Hst _].
    by destruct (Hsnd None eq_refl Hst).
Qed.

Lemma stop_pollers_run (l : list (string * sqsProvider C)) p w :
  ok w → ∃ w' es, stop_pollers l (p, w) = (Done (), (p, w')) ∧ extends es w w' ∧
    started es = [] ∧ stopped es = l.*1 ∧ Forall (λ e, stopped1 e ≠ []) es.
Proof.
  revert w. induction l as [|[u pr] l IH]; intros w Hok; cbn [stop_pollers].
  { exists w, []. split; [done|]. split; [by apply extends_nil|]. by split_and!. }
  destruct (poller_Stop_spec u w Hok) as (r & w1 & E & Hx).
  rewrite (go_bind_done _ _ _ _ _ (on_env_run _ p _ _ _ E)).
  destruct (IH w1 (extends_ok _ _ _ Hx)) as (w' & es & E' & Hx' & Hst & Hsp & Hall).
  exists w', (EvPollerStop u r :: es). split; [done|]. split; [by eapply extends_cons|].
  split; [done|]. split; [|by constructor].
  change (stopped (EvPollerStop u r :: es)) with (u :: stopped es). by rewrite Hsp.
Qed.

(** The removals of the repositories. *)
Definition removals (es : list event) : Prop :=
  Forall (λ e, match e with EvRemoveAll _ _ => True | _ => False end) es.

Lemma Stop_run p w :
  ok w → proc_isRunning p = true → quit_closed p = false →
  ∃ p' w' es1 r es2, Stop (R := R) (K := K) (p, w) = (Done None, (p', w')) ∧
    extends (es1 ++ EvPoolStop r :: es2) w w' ∧
    started es1 = [] ∧ stopped es1 ≡ₚ (map_to_list (pollers p)).*1 ∧
    Forall (λ e, stopped1 e ≠ []) es1 ∧ removals es2 ∧
    pollers p' = pollers p ∧ proc_isRunning p' = false ∧ quit_closed p' = true.
Proof.
  intros Hok Hrun Hq. unfold Stop. unfold go_bind at 1, go_get. cbn [fst]. rewrite Hrun, Hq.
  cbn [negb]. unfold go_bind at 1, go_put. cbn [fst snd].
  set (p1 := set_quit p).
  destruct (map_range_spec (pollers p1) w Hok) as (l & w1 & E1 & Hx1 & Hl).
  destruct (stop_pollers_run l p1 w1) as (w2 & es2 & E2 & Hx2 & Hst & Hsp & Hall);
    [by eapply extends_ok|].
  assert (Eq : run_quit (p1, w) = (Done (), (p1, w2))).
  { unfold run_quit. unfold go_bind at 1, go_get. cbn [fst].
    by rewrite (go_bind_done _ _ _ _ _ (on_env_run _ p1 _ _ _ E1)). }
  rewrite (go_bind_done _ _ _ _ _ Eq).
  destruct (workerPool_Stop_spec w2) as (r & w3 & E3 & Hx3); [by eapply extends_ok|].
  rewrite (go_bind_done _ _ _ _ _ (on_env_run _ p1 _ _ _ E3)).
  destruct (remove_all_run (proc_repositories p1) w3) as (w4 & es4 & E4 & Hx4 & Hrm);
    [by eapply extends_ok|].
  rewrite (go_bind_done _ _ _ _ _ (on_repositories_run _ _ _ _ _ _ E4)).
  eexists _, w4, es2, r, es4. split; [reflexivity|].
  split; [exact (extends_trans _ _ _ _ _ (extends_trans _ _ _ _ _ Hx1 Hx2)
    (extends_cons _ _ _ _ _ Hx3 Hx4))|].
  split_and!; [done|by rewrite Hsp, Hl|done|done|done|done|done].
Qed.
End Life.
