(* ===== verification/ProcessorClaims.v ===== *)
(** * The properties of the queue processor. *)

From stdpp Require Import base list numbers strings gmap.
From Stdlib Require Import Lia ZifyBool.
From S2P Require Import Prelude Configuration WorkerPool GoError Interfaces GoStrings SqsProvider.
From S2P Require Import Retryer Git Actions Reader Processor ProcessorProps WorkerPoolProps.
Local Open Scope Z_scope.

Lemma action_loggers_elem l (s : gset string) f :
  f ∈ action_loggers l s ↔ f ∈ s ∨
    (f ≠ "" ∧ ∃ n a, (n, a) ∈ l ∧ (f = Stdout a ∨ f = Stderr a)).
Proof.
  revert s. induction l as [|[n a] l IH]; intros s; cbn [action_loggers].
  { split; [by left|]. intros [?|[_ (? & ? & ?%elem_of_nil & _)]]; done. }
  assert (Hadd : ∀ (g : string) (t : gset string), f ∈ (if decide (g = "") then t
      else if decide (g ∈ t) then t else {[ g ]} ∪ t) ↔ f ∈ t ∨ (f ≠ "" ∧ f = g)).
  { intros g t. destruct (decide (g = "")) as [->|Hg]; [tauto|].
    destruct (decide (g ∈ t)) as [Hin|_].
    - split; [tauto|]. by intros [?|[_ ->]].
    - rewrite elem_of_union, elem_of_singleton. split; [|tauto].
      intros [->|?]; [by right|by left]. }
  rewrite IH, !Hadd. setoid_rewrite elem_of_cons. split.
  - intros [[[?|[? ?]]|[? ?]]|[? (n' & a' & ? & ?)]]; [by left|right..].
    + split; [done|]. exists n, a. by split; [left|left].
    + split; [done|]. exists n, a. by split; [left|right].
    + split; [done|]. exists n', a'. by split; [right|].
  - intros [?|[Hf (n' & a' & [[= -> ->]|Hin] & Ho)]]; [by left; left; left| |].
    + destruct Ho as [Ho|Ho]; [left; left; right; by split|left; right; by split].
    + right. split; [done|]. by exists n', a'.
Qed.

Section ProcessorClaims.
Context {C N R K W : Type}.
Context `{Logged W, SQSClient C W, HttpClient N W, GitEnv R K W, GoRuntime W, Workers W}.
Context `{!SQSClientSpec (C := C) (W := W), !HttpClientSpec N W, !GitEnvSpec R K W,
  !GoRuntimeSpec W, !WorkersSpec W}.
Implicit Types (p : processor C) (w : W).

(** C20. Refreshing the pollers reconciles them with the token: afterwards only
    listed queues have a poller and every listed queue has one, except the new
    ones whose provider could not be created; the pollers that were there and
    are still listed are kept, and their provider is what [RefreshClient] makes
    of it with the role of each of the queue's entries, in the token's order;
    each new one is created from its entry and started once and each unlisted
    one stopped once; the refresh periods are the first queue's. *)
Theorem refresh_reconciles tok p w :
  ok w → filed p → ∃ p' w' es,
    refreshPollers (Some tok) (p, w) = (Done (), (p', w')) ∧ extends es w w' ∧
    reconciled (W := W) tok p p' es.
Proof. apply refreshPollers_run. Qed.

Lemma life_run n p w p1 w1 p2 w2 :
  ok w → pollers p = ∅ → proc_isRunning p = false → quit_closed p = false →
  Start (H := N) (R := R) (K := K) (p, w) = (Done None, (p1, w1)) →
  run_ticks (H := N) n (p1, w1) = (Done (), (p2, w2)) →
  ∃ p3 w3 es stops r rms, Stop (R := R) (K := K) (p2, w2) = (Done None, (p3, w3)) ∧
    extends (es ++ stops ++ EvPoolStop r :: rms) w w3 ∧
    started (es ++ stops) ≡ₚ stopped (es ++ stops) ∧
    Forall (λ e, stopped1 e ≠ []) stops ∧ removals rms ∧ proc_isRunning p3 = false.
Proof.
  intros Hok Hp Hrun Hq E1 E2. assert (Hf : filed p) by (intros u pr; by rewrite Hp, lookup_empty).
  destruct (Start_run (N := N) (R := R) (K := K) p w Hok Hf Hrun)
    as (out & p1' & w1' & es1 & E1' & Hx1 & Hf1 & Hb1 & Hq1 & _ & Hout).
  rewrite E1 in E1'. injection E1' as <- <- <-. cbn in Hout.
  destruct (run_ticks_run (N := N) n p1 w1) as (out & p2' & w2' & es2 & E2' & Hx2 & Hf2 & Hb2 & Hs2 & _);
    [by eapply extends_ok|done|].
  rewrite E2 in E2'. injection E2' as <- <- <-. destruct Hs2 as (Hr2 & Hq2 & _).
  destruct (Stop_run (R := R) (K := K) p2 w2)
    as (p3 & w3 & stops & r & rms & E3 & Hx3 & Hst & Hsp & Hall & Hrm & _ & Hr3 & _);
    [by eapply extends_ok|congruence|congruence|].
  exists p3, w3, (es1 ++ es2), stops, r, rms. split; [done|].
  split; [exact (extends_trans _ _ _ _ _ (extends_trans _ _ _ _ _ Hx1 Hx2) Hx3)|].
  split; [|done]. apply occ_permutation. intros u.
  specialize (balanced_trans _ _ _ _ _ Hb1 Hb2 u) as Hb.
  assert (Hz : filed_at p u = 0) by (unfold filed_at; by rewrite Hp, lookup_empty).
  assert (H2' : occ u (stopped stops) = filed_at p2 u).
  { by rewrite (occ_of_permutation u _ _ Hsp), occ_pollers. }
  rewrite started_app, stopped_app, !occ_app, Hst, occ_nil. lia.
Qed.

(** In a life of the processor from [Start] to [Stop], however many times it
    refreshed its token and whatever the tokens listed, every poller started was
    stopped, as often as it was started; [Stop] stops the pollers first, then
    the worker pool, then removes the repositories. *)
Theorem stop_stops_every_poller n p w p1 w1 p2 w2 :
  ok w → pollers p = ∅ → proc_isRunning p = false → quit_closed p = false →
  Start (H := N) (R := R) (K := K) (p, w) = (Done None, (p1, w1)) →
  run_ticks (H := N) n (p1, w1) = (Done (), (p2, w2)) →
  ∃ p3 w3 es stops r rms, Stop (R := R) (K := K) (p2, w2) = (Done None, (p3, w3)) ∧
    extends (es ++ stops ++ EvPoolStop r :: rms) w w3 ∧
    started (es ++ stops) ≡ₚ stopped (es ++ stops) ∧
    Forall (λ e, stopped1 e ≠ []) stops ∧ removals rms ∧ proc_isRunning p3 = false.
Proof. apply life_run. Qed.

(** A [Start] that returns an error has started nothing: no poller, not the
    worker pool, and the processor is not running. *)
Theorem start_failure_is_clean p w err p' w' :
  ok w → filed p → proc_isRunning p = false →
  Start (H := N) (R := R) (K := K) (p, w) = (Done (Some err), (p', w')) →
  ∃ es, extends es w w' ∧ Forall outside es ∧ pollers p' = pollers p ∧
    proc_isRunning p' = false.
Proof.
  intros Hok Hf Hrun E.
  destruct (Start_run (N := N) (R := R) (K := K) p w Hok Hf Hrun)
    as (out & p1 & w1 & es & E' & Hx & _ & _ & _ & _ & Hout).
  rewrite E in E'. injection E' as <- <- <-. destruct Hout as (? & ? & ?).
  by exists es.
Qed.

(** A second life of a processor cannot be stopped: [Stop] closes the quit
    channel again and panics. *)
Theorem processor_restart_panics p w p1 w1 p2 w2 p3 w3 :
  ok w → filed p → proc_isRunning p = false → quit_closed p = false →
  Start (H := N) (R := R) (K := K) (p, w) = (Done None, (p1, w1)) →
  Stop (R := R) (K := K) (p1, w1) = (Done None, (p2, w2)) →
  Start (H := N) (R := R) (K := K) (p2, w2) = (Done None, (p3, w3)) →
  Stop (R := R) (K := K) (p3, w3) = (Panicked "close of closed channel", (p3, w3)).
Proof.
  intros Hok Hf Hrun Hq E1 E2 E3.
  destruct (Start_run (N := N) (R := R) (K := K) p w Hok Hf Hrun)
    as (out & p1' & w1' & es1 & E1' & Hx1 & Hf1 & _ & Hq1 & _ & Hr1).
  rewrite E1 in E1'. injection E1' as <- <- <-. cbn in Hr1.
  destruct (Stop_run (R := R) (K := K) p1 w1)
    as (p2' & w2' & es2 & r & es2' & E2' & Hx2 & _ & _ & _ & _ & Hp2 & Hr2 & Hq2);
    [by eapply extends_ok|done|congruence|].
  rewrite E2 in E2'. injection E2' as <- <-.
  destruct (Start_run (N := N) (R := R) (K := K) p2 w2)
    as (out & p3' & w3' & es3 & E3' & _ & _ & _ & Hq3 & _ & Hr3);
    [by eapply extends_ok|unfold filed; by rewrite Hp2|done|].
  rewrite E3 in E3'. injection E3' as <- <- <-. cbn in Hr3.
  unfold Stop. unfold go_bind at 1, go_get. cbn [fst].
  by rewrite Hr3, Hq3, Hq2.
Qed.

(** A token whose first queue has a refresh period that is not positive (0
    when the field is missing) makes the next tick panic in [time.NewTicker]. *)
Theorem nonpositive_period_panics p w tok first rest w1 :
  ok w → filed p →
  receiveToken (H := N) (p, w) = (Done (inl (Some tok)), (p, w1)) →
  QueuePropertiesList tok = first :: rest →
  seconds (SuccessRefreshPeriodInSeconds (props_Configuration first)) <= 0 →
  ∃ p' w', run_tick (H := N) (p, w) =
    (Panicked "non-positive interval for NewTicker", (p', w')).
Proof.
  intros Hok Hf E El Hper.
  destruct (receiveToken_outside (N := N) p w Hok) as (r & w1' & es & E' & Hx & _).
  rewrite E in E'. injection E' as <- <-.
  destruct (refreshPollers_run tok p w1) as (p2 & w2 & es2 & E2 & _ & Hr);
    [by eapply extends_ok|done|].
  unfold run_tick. rewrite (go_bind_done _ _ _ _ _ E), (go_bind_done _ _ _ _ _ E2).
  unfold go_bind at 1, go_get. cbn [fst]. exists p2, w2.
  assert (Ep : successRefreshPeriod p2 =
    seconds (SuccessRefreshPeriodInSeconds (props_Configuration first))).
  { rewrite (rc_rest _ _ _ _ Hr). unfold periods_of. by rewrite El. }
  unfold NewTicker. rewrite Ep. by replace (_ <=? 0) with true by lia.
Qed.

(** The token's request asks the credentials path of the configured server
    with the API key and the connector's version, names the region and the
    expiry of every poller's credentials, goes through the retryer, and gives
    the token of a 200's header or an error. *)
Theorem receive_token_request p w :
  ok w → ∃ r w' es, receiveToken (H := N) (p, w) = (Done r, (p, w')) ∧ extends es w w' ∧
    match http_NewRequest (C := N) "GET" (BaseUrl (configuration p) +:+ tokenPath) None with
    | inr err => r = inr err ∧ es = []
    | inl q => ∃ l failed last, l ≡ₚ map_to_list (pollers p) ∧
        es = attempts (token_request p l q) 0 (failed ++ [last]) ∧
        r = token_of_answer last
    end.
Proof. apply receiveToken_run. Qed.

(** [NewProcessor] completes the configuration: the poller's numbers are in
    range, the worker pool's are valid, valid numbers are kept, and there is a
    logger for every output file of the actions and for nothing else. *)
Theorem new_processor_is_configured (c : Configuration) w :
  ok w → poolconf_typed (conf_PoolConf c) →
  ∃ p w', NewProcessor (C := C) c w = (Done p, w') ∧ extends [] w w' ∧
    pollers p = ∅ ∧ proc_isRunning p = false ∧ quit_closed p = false ∧
    (let pc := conf_PollerConf (configuration p) in
     1 <= MaxNumberOfMessages pc ∧ 1 <= PollingWaitIntervalInMillis pc ∧
     15 <= VisibilityTimeoutInSeconds pc) ∧
    poolconf_valid (conf_PoolConf (configuration p)) ∧
    (∀ f, f ∈ proc_actionLoggers p ↔ f ≠ "" ∧
      ∃ n a, conf_Mappings c !! n = Some a ∧ (f = Stdout a ∨ f = Stderr a)).
Proof.
  intros Hok Ht. unfold NewProcessor, newActionLoggers.
  destruct (map_range_spec (conf_Mappings c) w Hok) as (l & w' & E & Hx & Hl).
  change (conf_Mappings (mkConfiguration (Specs c) _ _ _ _ _ _ _)) with (conf_Mappings c).
  rewrite go_bind_assoc, (go_bind_done _ _ _ _ _ E), go_ret_bind.
  eexists _, w'. split; [reflexivity|]. split; [done|]. cbn.
  split; [done|]. split; [done|]. split; [done|]. split.
  { destruct (conf_PollerConf c) as [a b d]. cbn. unfold pollingWaitIntervalInMillis,
      visibilityTimeoutInSec, maxNumberOfMessages.
    destruct (a <=? 0) eqn:?, (b <? 15) eqn:?, (d <=? 0) eqn:?; lia. }
  split; [by apply validate_conf_valid|]. intros f. rewrite action_loggers_elem.
  setoid_rewrite Hl. split.
  - intros [[]%not_elem_of_empty|[Hf (n & a & Hin & Ho)]]. split; [done|].
    exists n, a. by apply elem_of_map_to_list in Hin.
  - intros [Hf (n & a & Hin & Ho)]. right. split; [done|]. exists n, a.
    by rewrite elem_of_map_to_list.
Qed.
End ProcessorClaims.

(** ** A life of a processor in the recording environment

    The first token lists the queues "q1" and "q2", the second "q2" and "q3". *)

Section ProcessorExample.

Definition queue_properties (url : string) (period : Z) : Properties :=
  mkProperties (example_role "key") (mkQueueConfiguration period 60 "us-west-2" url).

Definition token_of (name : string) : result (option token) :=
  if decide (name = "t1") then
    inl (Some (mkToken "me" [queue_properties "q1" 60; queue_properties "q2" 60]))
  else if decide (name = "t2") then
    inl (Some (mkToken "me" [queue_properties "q2" 60; queue_properties "q3" 60]))
  else if decide (name = "zero") then inl (Some (mkToken "me" [queue_properties "q1" 0]))
  else inr (PlainError "EOF").

#[local] Instance rec_workers : Workers rec_state := {
  poller_Start u := record (λ _, None) (EvPollerStart u);
  poller_Stop u := record (λ _, None) (EvPollerStop u);
  workerPool_Start := record (λ _, None) EvPoolStart;
  workerPool_Stop := record (λ _, None) EvPoolStop;
  decode_token := token_of;
  UserAgentHeader := "1.0/abc go1.12 (linux/amd64)"
}.

#[local] Instance rec_workers_spec : WorkersSpec rec_state.
Proof. split; intros; apply record_calls. Qed.

Definition token_answer (name : string) : http_answer :=
  (Some (mkResponse 200 "200 OK" name (inl "")), None).

Definition life_script : list http_answer := [token_answer "t1"; token_answer "t2"; token_answer "t1"].

#[local] Instance life_client : HttpClient unit rec_state := scripted_client life_script.

#[local] Instance life_client_spec : HttpClientSpec unit rec_state.
Proof. apply scripted_client_spec. by repeat constructor. Qed.

Definition life_conf : Configuration :=
  mkConfiguration (mkSpecs {[ "Create" := local_action ]} ∅ [] []) "" "key" "https://api"
    (mkPollerConf 0 0 0) (mkPoolConf 0 0 0 0 0) "info" 4.

Definition life_processor : processor aws_Config :=
  mkProcessor ∅ life_conf ∅ ∅ default_successRefreshPeriod default_errorRefreshPeriod false false.

(** The poller and pool calls of a life with one tick. *)
Definition life_calls : list event :=
  List.filter (λ e, match e with
    | EvPollerStart _ _ | EvPollerStop _ _ | EvPoolStart _ | EvPoolStop _ => true
    | _ => false
    end)
  (snd ((_ <- Start (H := unit) (R := string) (K := unit) ; _ <- run_begin ;
         _ <- run_ticks (H := unit) 1 ; Stop (R := string) (K := unit))%go
        (life_processor, []))).2.

Example life_example :
  life_calls =
  [EvPoolStart None; EvPollerStart "q1" None; EvPollerStart "q2" None;
   EvPollerStart "q3" None; EvPollerStop "q1" None;
   EvPollerStop "q3" None; EvPollerStop "q2" None; EvPoolStop None].
Proof. vm_compute. reflexivity. Qed.

Lemma life_filed : filed life_processor.
Proof. intros u pr. cbn. by rewrite lookup_empty. Qed.

(** A processor whose poller of "q1" has the credentials of an earlier token. *)
Definition stale_provider : sqsProvider aws_Config :=
  let props := mkProperties (example_role "old") (mkQueueConfiguration 60 60 "us-west-2" "q1") in
  mkProvider props (Some (newConfig (C := aws_Config) (mkProvider props None false) (example_role "old"))) true.

Definition stale_processor : processor aws_Config :=
  set_pollers {[ "q1" := stale_provider ]} life_processor.

Lemma stale_filed : filed stale_processor.
Proof. intros u pr. cbn. intros [<- <-]%lookup_singleton_Some. split; [done|by eexists]. Qed.

Lemma refresh_reconciles_witness :
  ∃ p' w' es, refreshPollers (Some (mkToken "me" [queue_properties "q1" 60; queue_properties "q2" 60]))
      (stale_processor, ([] : rec_state)) = (Done (), (p', w')) ∧
    extends es ([] : rec_state) w' ∧
    reconciled (W := rec_state)
      (mkToken "me" [queue_properties "q1" 60; queue_properties "q2" 60]) stale_processor p' es.
Proof.
  eapply (refresh_reconciles (W := rec_state)
    (mkToken "me" [queue_properties "q1" 60; queue_properties "q2" 60])
    stale_processor []); [exact I|exact stale_filed].
Defined.

(** The poller of "q1" gets a client for the new credentials. *)
Example refresh_renews_client :
  match refreshPollers (Some (mkToken "me" [queue_properties "q1" 60]))
      (stale_processor, ([] : rec_state)) with
  | (Done (), (p', _)) => option_map SqsProvider.client (pollers p' !! "q1") =
      Some (Some (newConfig (C := aws_Config) stale_provider (example_role "key")))
  | _ => False
  end.
Proof. vm_compute. reflexivity. Qed.

Definition after_start : processor aws_Config * rec_state :=
  snd (Start (H := unit) (R := string) (K := unit) (life_processor, [])).

Definition after_tick : processor aws_Config * rec_state :=
  snd (run_ticks (H := unit) 1 after_start).

Definition after_stop : processor aws_Config * rec_state :=
  snd (Stop (R := string) (K := unit) after_start).

Definition after_restart : processor aws_Config * rec_state :=
  snd (Start (H := unit) (R := string) (K := unit) after_stop).

Lemma pair_snd {A B} (x : A * B) a : fst x = a → x = (a, snd x).
Proof. destruct x. cbn. congruence. Qed.

Lemma life_starts :
  Start (H := unit) (R := string) (K := unit) (life_processor, []) =
    (Done None, (fst after_start, snd after_start)).
Proof.
  rewrite <- (surjective_pairing after_start). unfold after_start.
  apply pair_snd. vm_compute. reflexivity.
Qed.

Lemma life_ticks :
  run_ticks (H := unit) 1 (fst after_start, snd after_start) =
    (Done (), (fst after_tick, snd after_tick)).
Proof.
  rewrite <- (surjective_pairing after_start), <- (surjective_pairing after_tick).
  unfold after_tick. apply pair_snd. vm_compute. reflexivity.
Qed.

Lemma life_stops :
  Stop (R := string) (K := unit) (fst after_start, snd after_start) =
    (Done None, (fst after_stop, snd after_stop)).
Proof.
  rewrite <- (surjective_pairing after_start), <- (surjective_pairing after_stop).
  unfold after_stop. apply pair_snd. vm_compute. reflexivity.
Qed.

Lemma life_restarts :
  Start (H := unit) (R := string) (K := unit) (fst after_stop, snd after_stop) =
    (Done None, (fst after_restart, snd after_restart)).
Proof.
  rewrite <- (surjective_pairing after_stop), <- (surjective_pairing after_restart).
  unfold after_restart. apply pair_snd. vm_compute. reflexivity.
Qed.

Lemma stop_stops_every_poller_witness :
  ∃ p3 w3 es stops r rms, Stop (R := string) (K := unit) after_tick = (Done None, (p3, w3)) ∧
    extends (es ++ stops ++ EvPoolStop r :: rms) ([] : rec_state) w3 ∧
    started (es ++ stops) ≡ₚ stopped (es ++ stops) ∧
    Forall (λ e, stopped1 e ≠ []) stops ∧ removals rms ∧ proc_isRunning p3 = false.
Proof.
  rewrite (surjective_pairing after_tick).
  eapply (stop_stops_every_poller (N := unit) (R := string) (K := unit) (W := rec_state)
    1 life_processor [] (fst after_start) (snd after_start)).
  - exact I.
  - reflexivity.
  - reflexivity.
  - reflexivity.
  - exact life_starts.
  - exact life_ticks.
Defined.

(** With no answer at all the first token cannot be had. *)
Definition failed_start : outcome (option error) * (processor aws_Config * rec_state) :=
  Start (H := unit) (R := string) (K := unit) (H1 := scripted_client []) (life_processor, []).

Lemma life_fails :
  failed_start = (Done (Some (NetError false "script over")),
    (fst (snd failed_start), snd (snd failed_start))).
Proof.
  rewrite <- (surjective_pairing (snd failed_start)). apply pair_snd. vm_compute. reflexivity.
Qed.

Lemma start_failure_is_clean_witness :
  ∃ es, extends es ([] : rec_state) (snd (snd failed_start)) ∧ Forall outside es ∧
    pollers (fst (snd failed_start)) = ∅ ∧ proc_isRunning (fst (snd failed_start)) = false.
Proof.
  pose proof (scripted_client_spec [] ltac:(constructor)) as Hspec.
  eapply (start_failure_is_clean (N := unit) (R := string) (K := unit) (W := rec_state)
    (H1 := scripted_client []) life_processor [] (NetError false "script over")).
  - exact I.
  - exact life_filed.
  - reflexivity.
  - exact life_fails.
Defined.

Lemma processor_restart_panics_witness :
  Stop (R := string) (K := unit) after_restart =
    (Panicked "close of closed channel", after_restart).
Proof.
  rewrite (surjective_pairing after_restart).
  eapply (processor_restart_panics (N := unit) (R := string) (K := unit) (W := rec_state)
    life_processor [] (fst after_start) (snd after_start) (fst after_stop) (snd after_stop)).
  - exact I.
  - exact life_filed.
  - reflexivity.
  - reflexivity.
  - exact life_starts.
  - exact life_stops.
  - exact life_restarts.
Defined.

Lemma nonpositive_period_panics_witness :
  ∃ p' w', run_tick (H := unit) (H1 := scripted_client [token_answer "zero"])
      (life_processor, ([] : rec_state)) =
    (Panicked "non-positive interval for NewTicker", (p', w')).
Proof.
  pose proof (scripted_client_spec [token_answer "zero"] ltac:(by repeat constructor)) as Hspec.
  eapply (nonpositive_period_panics (N := unit) (W := rec_state)
    (H1 := scripted_client [token_answer "zero"]) life_processor []
    (mkToken "me" [queue_properties "q1" 0]) (queue_properties "q1" 0) []).
  - exact I.
  - exact life_filed.
  - vm_compute. reflexivity.
  - reflexivity.
  - vm_compute. discriminate.
Defined.

Lemma receive_token_request_witness :
  ∃ r w' es, receiveToken (H := unit) (life_processor, ([] : rec_state)) =
      (Done r, (life_processor, w')) ∧ extends es ([] : rec_state) w' ∧
    ∃ l failed last, l ≡ₚ map_to_list (pollers life_processor) ∧
      es = attempts (token_request life_processor l
        (mkRequest "GET" ("https://api" +:+ tokenPath) [] None)) 0 (failed ++ [last]) ∧
      r = token_of_answer last.
Proof.
  exact (receive_token_request (N := unit) (W := rec_state) life_processor [] I).
Defined.

Lemma new_processor_is_configured_witness :
  ∃ p w', NewProcessor (C := aws_Config) life_conf ([] : rec_state) = (Done p, w') ∧
    proc_isRunning p = false ∧ poolconf_valid (conf_PoolConf (configuration p)).
Proof.
  destruct (new_processor_is_configured (C := aws_Config) (W := rec_state) life_conf [])
    as (p & w' & E & _ & _ & Hr & _ & _ & Hv & _).
  - exact I.
  - vm_compute. repeat split; discriminate.
  - exists p, w'. split; [exact E|]. split; [exact Hr|exact Hv].
Defined.
End ProcessorExample.
