(* ===== verification/Lifecycle.v ===== *)
(** * queue/processor.go: the life cycle of the processor as a transition system.

    Any number of callers of [Start] and [Stop], the goroutine [run] and the
    goroutine [startPullingRepositories] interleave. The steps run the
    definitions of Processor and Git on the processor and its environment; a
    [select] with several ready cases may take any of them, and a ticker may
    fire at any time. A panic ends the process. Taken one after the other, the
    steps of a caller are Processor's [Start] ([Start_steps]). *)

From stdpp Require Import base list numbers strings gmap.
From Stdlib Require Import Lia ZifyBool.
From S2P Require Import Prelude Configuration WorkerPool PollerLoop GoError Interfaces GoStrings.
From S2P Require Import SqsProvider Retryer Git Actions Reader Processor ProcessorProps.
Local Open Scope Z_scope.

Definition repositoryRefreshPeriod : Z := 60 * Second.

(** Where a caller is in [Start] (first half) or [Stop]. *)
Inductive caller : Type :=
  | StLock                                  (* before startStopMu.Lock *)
  | StCheck                                 (* isRunning, the token, the downloads *)
  | StPaths (token : option token)          (* AddRepositoryPathToGitActionFilepaths *)
  | StPool (token : option token)           (* workerPool.Start *)
  | StRefresh (token : option token)        (* refreshPollers, go run *)
  | StEnd                                   (* isRunning = true *)
  | Started (err : option error)
  | SpLock
  | SpCheck                                 (* isRunning, close(quit) *)
  | SpWait                                  (* isRunningWg.Wait *)
  | SpPool                                  (* workerPool.Stop *)
  | SpRemove                                (* repositories.RemoveAll *)
  | SpEnd                                   (* isRunning = false *)
  | Stopped (err : option error).

(** Where [run] is. *)
Inductive runner (C : Type) : Type :=
  | RnBegin
  | RnLoop                                  (* at the select *)
  | RnToken                                 (* receiveToken *)
  | RnRefresh (token : option token)
  | RnStop (rest : list (string * sqsProvider C))   (* pollers still to stop *)
  | RnDone.

Arguments RnBegin {C}.
Arguments RnLoop {C}.
Arguments RnToken {C}.
Arguments RnRefresh {C}.
Arguments RnStop {C}.
Arguments RnDone {C}.

(** Where [startPullingRepositories] is. *)
Inductive puller : Type :=
  | PlBegin
  | PlLoop
  | PlPull (rest : list (string * Repository))      (* in PullAll *)
  | PlDone.

(** A move of a goroutine; [tick] says that the ticker fired. *)
Inductive life_label : Type :=
  | CallStart
  | CallStop
  | CallerMove (i : nat)
  | RunMove (i : nat) (tick : bool)
  | PullMove (i : nat) (tick : bool).

Section Lifecycle.
Context {C N R K W : Type}.
Context `{SQSClient C W, HttpClient N W, GitEnv R K W, GoRuntime W, Workers W}.

Record lifecycle : Type := mkLifecycle {
  lc_processor : processor C;
  lc_env : W;
  lc_locked : bool;                         (* startStopMu *)
  lc_wg : Z;                                (* isRunningWg *)
  lc_callers : list caller;
  lc_runs : list (runner C);
  lc_pulls : list puller;
  lc_panicked : option string
}.

Implicit Types s : lifecycle.

Definition with_state (p : processor C) (w : W) s : lifecycle :=
  mkLifecycle p w (lc_locked s) (lc_wg s) (lc_callers s) (lc_runs s) (lc_pulls s) (lc_panicked s).

Definition with_locked (b : bool) s : lifecycle :=
  mkLifecycle (lc_processor s) (lc_env s) b (lc_wg s) (lc_callers s) (lc_runs s) (lc_pulls s)
    (lc_panicked s).

Definition with_callers (cs : list caller) s : lifecycle :=
  mkLifecycle (lc_processor s) (lc_env s) (lc_locked s) (lc_wg s) cs (lc_runs s) (lc_pulls s)
    (lc_panicked s).

Definition with_goroutines (wg : Z) (rs : list (runner C)) (ps : list puller) s : lifecycle :=
  mkLifecycle (lc_processor s) (lc_env s) (lc_locked s) wg (lc_callers s) rs ps (lc_panicked s).

Definition lc_panic (why : string) s : lifecycle :=
  mkLifecycle (lc_processor s) (lc_env s) (lc_locked s) (lc_wg s) (lc_callers s) (lc_runs s)
    (lc_pulls s) (Some why).

(** Runs an operation on the processor, then goes on with [k]. *)
Definition perform {A : Type} (m : go (processor C * W) A) (k : A → lifecycle → lifecycle) s :
    lifecycle :=
  match m (lc_processor s, lc_env s) with
  | (Done a, (p, w)) => k a (with_state p w s)
  | (Panicked why, (p, w)) => lc_panic why (with_state p w s)
  end.

Definition to_caller (i : nat) (c : caller) s : lifecycle :=
  with_callers (<[i := c]> (lc_callers s)) s.

Definition to_run (i : nat) (r : runner C) s : lifecycle :=
  with_goroutines (lc_wg s) (<[i := r]> (lc_runs s)) (lc_pulls s) s.

Definition to_pull (i : nat) (r : puller) s : lifecycle :=
  with_goroutines (lc_wg s) (lc_runs s) (<[i := r]> (lc_pulls s)) s.

(** [isRunningWg.Done]. *)
Definition wg_Done s : lifecycle :=
  if lc_wg s - 1 <? 0 then lc_panic "sync: negative WaitGroup counter" s
  else with_goroutines (lc_wg s - 1) (lc_runs s) (lc_pulls s) s.

(** [isRunningWg.Add(1)] and the [go] statement. *)
Definition go_pull s : lifecycle :=
  with_goroutines (lc_wg s + 1) (lc_runs s) (lc_pulls s ++ [PlBegin]) s.

Definition go_run s : lifecycle :=
  with_goroutines (lc_wg s + 1) (lc_runs s ++ [RnBegin]) (lc_pulls s) s.

(** The return, with the deferred [Unlock]. *)
Definition return_ (i : nat) (c : caller) s : lifecycle := with_locked false (to_caller i c s).

(** [Start] up to [DownloadAll]: the token, or the error that is returned. *)
Definition start_downloads : go (processor C * W) (result (option token)) :=
  (q <- go_get ;
   token <- receiveToken (H := N) ;
   match token with
   | inr err => go_ret (inr err)
   | inl token =>
       opts <- on_env (GitActions (conf_Mappings (configuration q.1))) ;
       err <- on_repositories (DownloadAll (R := R) (K := K) opts) ;
       match err with
       | Some err => go_ret (inr err)
       | None => go_ret (inl token)
       end
   end)%go.

Definition start_paths : go (processor C * W) unit :=
  (q <- go_get ;
   mappings <- on_env (AddRepositoryPathToGitActionFilepaths
     (conf_Mappings (configuration q.1)) (proc_repositories q.1)) ;
   go_modify (λ q, (set_mappings mappings q.1, q.2)))%go.

Definition already_running : error := PlainError "Queue processor is already running.".

Definition not_running : error := PlainError "Queue processor is not running.".

Definition life_call_step (i : nat) s : option lifecycle :=
  match lc_callers s !! i with
  | None | Some (Started _) | Some (Stopped _) => None
  | Some StLock =>
      if lc_locked s then None else Some (to_caller i StCheck (with_locked true s))
  | Some StCheck => Some
      (if proc_isRunning (lc_processor s) then return_ i (Started (Some already_running)) s
       else perform start_downloads (λ r s,
         match r with
         | inr err => return_ i (Started (Some err)) s
         | inl token =>
             if NotEmpty (proc_repositories (lc_processor s))
             then to_caller i (StPaths token) (go_pull s)
             else to_caller i (StPool token) s
         end) s)
  | Some (StPaths token) => Some (perform start_paths (λ _, to_caller i (StPool token)) s)
  | Some (StPool token) =>
      Some (perform (on_env workerPool_Start) (λ _, to_caller i (StRefresh token)) s)
  | Some (StRefresh token) =>
      Some (perform (refreshPollers token) (λ _ s, to_caller i StEnd (go_run s)) s)
  | Some StEnd =>
      Some (return_ i (Started None) (with_state (set_running true (lc_processor s)) (lc_env s) s))
  | Some SpLock =>
      if lc_locked s then None else Some (to_caller i SpCheck (with_locked true s))
  | Some SpCheck => Some
      (if negb (proc_isRunning (lc_processor s)) then return_ i (Stopped (Some not_running)) s
       else if quit_closed (lc_processor s) then lc_panic "close of closed channel" s
       else to_caller i SpWait (with_state (set_quit (lc_processor s)) (lc_env s) s))
  | Some SpWait => if lc_wg s =? 0 then Some (to_caller i SpPool s) else None
  | Some SpPool => Some (perform (on_env workerPool_Stop) (λ _, to_caller i SpRemove) s)
  | Some SpRemove =>
      Some (perform (on_repositories (RemoveAll (R := R) (K := K))) (λ _, to_caller i SpEnd) s)
  | Some SpEnd =>
      Some (return_ i (Stopped None) (with_state (set_running false (lc_processor s)) (lc_env s) s))
  end.

(** [run]; the tickers are made by [NewTicker]. *)
Definition life_run_step (i : nat) (tick : bool) s : option lifecycle :=
  match lc_runs s !! i, tick with
  | Some RnBegin, false => Some (perform run_begin (λ _, to_run i RnLoop) s)
  | Some RnLoop, true => Some (to_run i RnToken s)
  | Some RnLoop, false =>
      if quit_closed (lc_processor s) then
        Some (perform (on_env (map_range (pollers (lc_processor s)))) (λ l, to_run i (RnStop l)) s)
      else None
  | Some RnToken, false => Some (perform (receiveToken (H := N)) (λ r s,
      match r with
      | inl token => to_run i (RnRefresh token) s
      | inr _ => perform (NewTicker (proc_errorRefreshPeriod (lc_processor s)))
                   (λ _, to_run i RnLoop) s
      end) s)
  | Some (RnRefresh token), false => Some (perform (refreshPollers token) (λ _ s,
      perform (NewTicker (successRefreshPeriod (lc_processor s))) (λ _, to_run i RnLoop) s) s)
  | Some (RnStop ((queueUrl, _) :: l)), false =>
      Some (perform (on_env (poller_Stop queueUrl)) (λ _, to_run i (RnStop l)) s)
  | Some (RnStop []), false => Some (to_run i RnDone (wg_Done s))
  | _, _ => None
  end.

(** [startPullingRepositories]. *)
Definition pull_step (i : nat) (tick : bool) s : option lifecycle :=
  match lc_pulls s !! i, tick with
  | Some PlBegin, false | Some (PlPull []), false =>
      Some (perform (NewTicker repositoryRefreshPeriod) (λ _, to_pull i PlLoop) s)
  | Some PlLoop, true =>
      Some (perform (on_env (map_range (proc_repositories (lc_processor s))))
        (λ l, to_pull i (PlPull l)) s)
  | Some PlLoop, false =>
      if quit_closed (lc_processor s) then Some (to_pull i PlDone (wg_Done s)) else None
  | Some (PlPull ((_, repository) :: l)), false =>
      Some (perform (on_env (Pull (R := R) (K := K) repository)) (λ _, to_pull i (PlPull l)) s)
  | _, _ => None
  end.

Definition life_step (l : life_label) s : option lifecycle :=
  match lc_panicked s with
  | Some _ => None
  | None =>
      match l with
      | CallStart => Some (with_callers (lc_callers s ++ [StLock]) s)
      | CallStop => Some (with_callers (lc_callers s ++ [SpLock]) s)
      | CallerMove i => life_call_step i s
      | RunMove i tick => life_run_step i tick s
      | PullMove i tick => pull_step i tick s
      end
  end.

Fixpoint life_exec (ls : list life_label) s : option lifecycle :=
  match ls with
  | [] => Some s
  | l :: ls => match life_step l s with Some s' => life_exec ls s' | None => None end
  end.

(** A processor before any call, in the environment [w]. *)
Definition life_init (p : processor C) (w : W) : lifecycle :=
  mkLifecycle p w false 0 [] [] [] None.
End Lifecycle.

Arguments lifecycle : clear implicits.

(** ** Counting goroutines *)

Definition inside (c : caller) : Z :=
  match c with StLock | SpLock | Started _ | Stopped _ => 0 | _ => 1 end.

Definition checking (c : caller) : Z := match c with StCheck | SpCheck => 1 | _ => 0 end.

(** A start that can no longer fail. *)
Definition starting (c : caller) : Z :=
  match c with StPaths _ | StPool _ | StRefresh _ => 1 | _ => 0 end.

Definition ending (c : caller) : Z := match c with StEnd => 1 | _ => 0 end.

(** A stop that has closed [quit]. *)
Definition stopping (c : caller) : Z :=
  match c with SpWait | SpPool | SpRemove | SpEnd => 1 | _ => 0 end.

(** A stop that has waited. *)
Definition waited (c : caller) : Z := match c with SpPool | SpRemove | SpEnd => 1 | _ => 0 end.

(** A stop that has stopped the pool. *)
Definition emptied (c : caller) : Z := match c with SpRemove | SpEnd => 1 | _ => 0 end.

Definition stopped_ok (c : caller) : Z := match c with Stopped None => 1 | _ => 0 end.

Definition run_live {C} (r : runner C) : Z := match r with RnDone => 0 | _ => 1 end.

Definition pull_live (r : puller) : Z := match r with PlDone => 0 | _ => 1 end.

Section Counts.
Context {C W : Type}.
Implicit Types s : lifecycle C W.

Definition count (f : caller → Z) s : Z := sumZ f (lc_callers s).

(** The lives begun: the goroutines [run], and the starts that will make one. *)
Definition lives s : Z := Z.of_nat (length (lc_runs s)) + count starting s.

Lemma run_live_nonneg (r : runner C) : 0 <= run_live r.
Proof. destruct r; done. Qed.

Lemma pull_live_nonneg r : 0 <= pull_live r.
Proof. destruct r; done. Qed.

(** What holds however many lives there are. *)
Record BasicInv s : Prop := {
  bi_lock : count inside s = Z.b2z (lc_locked s);
  bi_wg : lc_wg s = sumZ run_live (lc_runs s) + sumZ pull_live (lc_pulls s);
  bi_quit : 0 < count stopping s → quit_closed (lc_processor s) = true
}.

Lemma life_caller_facts s :
  0 <= count checking s ∧ 0 <= count starting s ∧ 0 <= count ending s ∧ 0 <= count stopped_ok s ∧
  0 <= count emptied s <= count waited s ∧ count waited s <= count stopping s ∧
  count inside s = count checking s + count starting s + count ending s + count stopping s.
Proof.
  unfold count. split_and!; try (apply sumZ_nonneg; by intros []);
    try (apply sumZ_nonneg; by intros [| | | | | | | | | | | | |[]]);
    rewrite <- ?sumZ_add; (apply sumZ_mono || apply sumZ_ext); by intros [].
Qed.

(** What the counts say of one caller. *)
Lemma life_caller_at s i c :
  lc_callers s !! i = Some c → checking c <= count checking s ∧ starting c <= count starting s ∧
  ending c <= count ending s ∧ stopping c <= count stopping s ∧ waited c <= count waited s ∧
  emptied c <= count emptied s ∧ stopped_ok c <= count stopped_ok s.
Proof.
  intros E. unfold count. split_and!; (eapply sumZ_lookup_le; [|exact E]);
    first [by intros []|by intros [| | | | | | | | | | | | |[]]].
Qed.

Lemma count_caller f s i c c' :
  lc_callers s !! i = Some c →
  sumZ f (<[i := c']> (lc_callers s)) = count f s - f c + f c'.
Proof. apply sumZ_insert. Qed.
End Counts.
