(* ===== verification/LifecycleProps.v ===== *)
(** * The invariant of the processor's life cycle. *)

From stdpp Require Import base list numbers strings gmap.
From Stdlib Require Import Lia ZifyBool.
From S2P Require Import Prelude Configuration WorkerPool PollerLoop GoError Interfaces GoStrings.
From S2P Require Import SqsProvider Retryer Git Actions Reader Processor ProcessorProps Lifecycle.
Local Open Scope Z_scope.

Section LifecycleProps.
Context {C N R K W : Type}.
Context `{Logged W, SQSClient C W, HttpClient N W, GitEnv R K W, GoRuntime W, Workers W}.
Context `{!SQSClientSpec (C := C) (W := W), !HttpClientSpec N W, !GitEnvSpec R K W,
  !GoRuntimeSpec W, !WorkersSpec W}.
Implicit Types (p : processor C) (w : W) (s : lifecycle C W).
Local Abbreviation sound := (sound_tokens (W := W)).

(** ** What the steps do to the processor and to the environment *)

(** The operation makes the calls [es] and keeps the flags. *)
Record effect (es : list event) p w p' w' : Prop := {
  ef_extends : extends es w w';
  ef_running : proc_isRunning p' = proc_isRunning p;
  ef_quit : quit_closed p' = quit_closed p;
  ef_filed : filed p → filed p'
}.

Lemma same_effect es p w w' : extends es w w' → effect es p w p w'.
Proof. intros Hx. by split. Qed.

Lemma env_effect {A} (m : go W A) p w a w' es :
  m w = (Done a, w') → extends es w w' →
  on_env m (p, w) = (Done a, (p, w')) ∧ effect es p w p w'.
Proof. intros E Hx. split; [by apply on_env_run|by apply same_effect]. Qed.

Lemma start_downloads_run p w :
  ok w → ∃ r p' w' es, start_downloads (N := N) (R := R) (K := K) (p, w) = (Done r, (p', w')) ∧
    effect es p w p' w' ∧ Forall outside es ∧ pollers p' = pollers p ∧
    (periods_ok p → periods_ok p') ∧
    ∀ tok, r = inl tok → sound es → sound_token tok.
Proof.
  intros Hok. unfold start_downloads. unfold go_bind at 1, go_get. cbn [fst].
  destruct (receiveToken_outside (N := N) p w Hok) as (r & w1 & es1 & E1 & Hx1 & Ho1 & Hsnd).
  rewrite (go_bind_done _ _ _ _ _ E1). destruct r as [tok|err].
  2: { exists (inr err), p, w1, es1. split_and!; try done. }
  destruct (GitActions_run (conf_Mappings (configuration p)) w1) as (opts & w2 & E2 & Hx2);
    [by eapply extends_ok|].
  rewrite (go_bind_done _ _ _ _ _ (on_env_run _ p _ _ _ E2)).
  destruct (DownloadAll_run (R := R) (K := K) opts (proc_repositories p) w2)
    as (err & rs & w3 & es3 & E3 & Hx3 & Hg & _); [by eapply extends_ok|].
  rewrite (go_bind_done _ _ _ _ _ (on_repositories_run _ _ _ _ _ _ E3)).
  pose proof (extends_trans _ _ _ _ _ Hx1 (extends_trans _ _ _ _ _ Hx2 Hx3)) as Hx.
  assert (Ho : Forall outside (es1 ++ es3)) by (apply Forall_app; split; [done|by apply outside_git]).
  assert (He : effect (es1 ++ es3) p w (set_repositories rs p) w3).
  { by split. }
  destruct err as [err|]; [eexists (inr err)|eexists (inl tok)]; eexists _, w3, _;
    (split; [reflexivity|]); split_and!; try done.
  intros tok' Et [Hs _]%sound_tokens_app. injection Et as <-. by apply Hsnd.
Qed.

Lemma start_paths_run p w :
  ok w → ∃ p' w', start_paths (C := C) (W := W) (p, w) = (Done (), (p', w')) ∧
    effect [] p w p' w' ∧ pollers p' = pollers p ∧ (periods_ok p → periods_ok p').
Proof.
  intros Hok. unfold start_paths. unfold go_bind at 1, go_get. cbn [fst].
  destruct (repository_run (conf_Mappings (configuration p)) (proc_repositories p) w Hok)
    as (w' & E & Hx).
  rewrite (go_bind_done _ _ _ _ _ (on_env_run _ p _ _ _ E)).
  eexists _, w'. split; [reflexivity|]. split; [by split|by split].
Qed.

Lemma refresh_effect tok p w :
  ok w → filed p → (∃ p' w' es, refreshPollers tok (p, w) = (Done (), (p', w')) ∧
    effect es p w p' w' ∧ balanced p p' es ∧
    (sound_token tok → periods_ok p → periods_ok p')) ∨
  (∃ why, refreshPollers tok (p, w) = (Panicked why, (p, w)) ∧
    ¬ sound_token tok).
Proof.
  intros Hok Hf. destruct tok as [tok|]; [left|right].
  2: { eexists _. split; [reflexivity|]. by intros []. }
  destruct (refreshPollers_run tok p w Hok Hf) as (p' & w' & es & E & Hx & Hr).
  exists p', w', es. split; [done|].
  pose proof (reconciled_flags _ _ _ _ Hr) as (F1 & F2 & _).
  split; [|split; [by eapply reconciled_balanced|intros; by eapply reconciled_periods]].
  split; [done..|]. intros _. exact (rc_filed _ _ _ _ Hr).
Qed.

(** The calls of a pull. *)
Definition pulling (e : event) : Prop :=
  match e with EvFetch _ _ _ | EvReset _ _ _ | EvChmod _ _ _ => True | _ => False end.

Lemma pulling_quiet es : Forall pulling es → quiet es.
Proof. induction 1 as [|[] es He _ IH]; try done; by apply (quiet_app [_]). Qed.

Lemma removals_outside es : removals es → Forall outside es.
Proof. intros Hr. eapply Forall_impl; [exact Hr|]. by intros []. Qed.

Lemma Pull_run r w :
  ok w → ∃ err w' es, Pull (R := R) (K := K) r w = (Done err, w') ∧ extends es w w' ∧
    Forall pulling es.
Proof.
  intros Hok. unfold Pull.
  destruct (fetch_run (R := R) (K := K) (Path r) (PrivateKeyFilepath (repo_Options r))
    (Passphrase (repo_Options r)) w Hok) as (err & w1 & es1 & E1 & Hx1 & Hes).
  rewrite (go_bind_done _ _ _ _ _ E1).
  destruct (chmod_run (R := R) (K := K) (Path r) mode_0700 w1) as (err2 & w2 & es2 & E2 & Hx2 & Hc);
    [by eapply extends_ok|].
  rewrite (go_bind_done _ _ _ _ _ E2). exists err, w2, (es1 ++ es2). split; [done|].
  split; [by eapply extends_trans|]. apply Forall_app. split.
  - destruct Hes as [[-> _]|[(? & -> & _)|[[-> _]|[? ->]]]]; by repeat constructor.
  - eapply Forall_impl; [exact Hc|]. by intros [].
Qed.

(** ** The invariant *)

(** The processor's side: the lock, the wait group, and how far the life is. *)
Record Control s : Prop := {
  ct_basic : BasicInv s;
  ct_lives : lives s <= 1;
  ct_idle : proc_isRunning (lc_processor s) = false → count starting s + count ending s = 0 →
    lc_wg s = 0;
  ct_start : 0 < count starting s + count ending s →
    proc_isRunning (lc_processor s) = false ∧ quit_closed (lc_processor s) = false;
  ct_stop : 0 < count stopping s → proc_isRunning (lc_processor s) = true;
  ct_run : quit_closed (lc_processor s) = true ∨ proc_isRunning (lc_processor s) = true ∨
    0 < count ending s → length (lc_runs s) = 1%nat;
  ct_quit : quit_closed (lc_processor s) = true → proc_isRunning (lc_processor s) = true →
    0 < count stopping s;
  ct_waited : 0 < count waited s → lc_wg s = 0;
  ct_done : 0 < count stopped_ok s → proc_isRunning (lc_processor s) = false ∧
    quit_closed (lc_processor s) = true
}.

(** The pollers that are running, by where [run] is. *)
Definition run_at p (r : runner C) (u : string) : Z :=
  match r with RnDone => 0 | RnStop l => occ u l.*1 | _ => filed_at p u end.

Definition live_at s (u : string) : Z :=
  match lc_runs s with [] => 0 | r :: _ => run_at (lc_processor s) r u end.

(** A token that waits in a goroutine. *)
Definition caller_sound (c : caller) : Prop :=
  match c with
  | StPaths tok | StPool tok | StRefresh tok => sound_token tok
  | _ => True
  end.

Definition run_sound (r : runner C) : Prop :=
  match r with RnRefresh tok => sound_token tok | _ => True end.

Record Sound s : Prop := {
  so_periods : periods_ok (lc_processor s);
  so_callers : Forall caller_sound (lc_callers s);
  so_runs : Forall run_sound (lc_runs s)
}.

(** The pool was stopped with no poller running, and nothing but token requests
    and repository clean-up came after. *)
Definition shut (es : list event) : Prop :=
  ∃ es1 r es2, es = es1 ++ EvPoolStop r :: es2 ∧ started es1 ≡ₚ stopped es1 ∧ Forall outside es2.

(** The calls [es] since the beginning in [w0]. *)
Record Data w0 (es : list event) s : Prop := {
  da_log : extends es w0 (lc_env s);
  da_filed : filed (lc_processor s);
  da_sound : sound es → Sound s;
  da_balance : ∀ u, occ u (started es) = occ u (stopped es) + live_at s u;
  da_fresh : lc_runs s = [] → pollers (lc_processor s) = ∅;
  da_shut : 0 < count emptied s + count stopped_ok s → shut es
}.

Record LifeInv w0 (es : list event) s : Prop := {
  in_control : Control s;
  in_data : Data w0 es s
}.

(** What a step may lead to. *)
Definition good w0 s : Prop :=
  (lc_panicked s = None ∧ ∃ es, LifeInv w0 es s) ∨
  (is_Some (lc_panicked s) ∧ ∃ es, extends es w0 (lc_env s) ∧ ¬ sound es).

Lemma perform_run {A} (m : go (processor C * W) A) k s a p w :
  m (lc_processor s, lc_env s) = (Done a, (p, w)) → perform m k s = k a (with_state p w s).
Proof. unfold perform. by intros ->. Qed.

Lemma perform_panicked {A} (m : go (processor C * W) A) k s why p w :
  m (lc_processor s, lc_env s) = (Panicked why, (p, w)) →
  perform m k s = lc_panic why (with_state p w s).
Proof. unfold perform. by intros ->. Qed.

Lemma Data_step w0 es es' s s' :
  Data w0 es s → extends es' (lc_env s) (lc_env s') →
  (filed (lc_processor s) → filed (lc_processor s')) → (sound es' → Sound s → Sound s') →
  (∀ u, live_at s u + occ u (started es') = live_at s' u + occ u (stopped es')) →
  (lc_runs s' = [] → pollers (lc_processor s') = ∅) →
  (0 < count emptied s' + count stopped_ok s' →
    (0 < count emptied s + count stopped_ok s ∧ Forall outside es') ∨ shut (es ++ es')) →
  Data w0 (es ++ es') s'.
Proof.
  intros [D1 D2 D3 D4 D5 D6] Hx Hf Hs Hl Hp He. split; [|by apply Hf| | |done|].
  - by eapply extends_trans.
  - intros [H1' H2']%sound_tokens_app. by apply Hs, D3.
  - intros u. specialize (D4 u). specialize (Hl u). rewrite started_app, stopped_app, !occ_app. lia.
  - intros Hc. destruct (He Hc) as [[Hc' Ho]|?]; [|done].
    destruct (D6 Hc') as (es1 & r & es2 & -> & Hb & Ho2).
    exists es1, r, (es2 ++ es'). split; [by rewrite <- (assoc_L (++))|]. split; [done|].
    by apply Forall_app.
Qed.
End LifecycleProps.

(** Proves the control part of the invariant after a move; [count_rules] turns
    the counts after the move into those before. *)
Ltac control_by HC count_rules :=
  let B1 := fresh "B" in let B2 := fresh "B" in let B3 := fresh "B" in
  destruct HC as [[B1 B2 B3] ? ? ? ? ? ? ? ?];
  match type of B1 with count inside ?s = _ => pose proof (life_caller_facts s) end;
  unfold lives, count in *; split; [split|..]; unfold lives, count;
  cbn [lc_callers lc_runs lc_pulls lc_wg lc_locked lc_processor lc_env to_caller to_run to_pull
    with_callers with_goroutines with_locked with_state return_ go_run go_pull] in *;
  count_rules; rewrite ?sumZ_app, ?length_insert, ?length_app in *;
  cbn [inside checking starting ending stopping waited emptied stopped_ok run_live pull_live
    sumZ length proc_isRunning quit_closed set_running set_quit] in *;
  try lia.

(** [E] is where the goroutine was. *)
Ltac control HC E :=
  try pose proof (life_caller_at _ _ _ E);
  control_by HC ltac:(rewrite ?(sumZ_insert _ _ _ _ _ E) in * ).

Section Moves.
Context {C N R K W : Type}.
Context `{Logged W, SQSClient C W, HttpClient N W, GitEnv R K W, GoRuntime W, Workers W}.
Context `{!SQSClientSpec (C := C) (W := W), !HttpClientSpec N W, !GitEnvSpec R K W,
  !GoRuntimeSpec W, !WorkersSpec W}.
Implicit Types (p : processor C) (w : W) (s : lifecycle C W).

Lemma control_lock s i c c' :
  Control s → lc_callers s !! i = Some c → lc_locked s = false →
  (c = StLock ∧ c' = StCheck) ∨ (c = SpLock ∧ c' = SpCheck) →
  Control (to_caller i c' (with_locked true s)).
Proof.
  intros HC E Hl [[-> ->]|[-> ->]]; control HC E.
Qed.

(** A move that starts and stops no poller and leaves [run] where it is. *)
Lemma Data_quiet w0 es es' s s' :
  Data w0 es s → extends es' (lc_env s) (lc_env s') → quiet es' →
  pollers (lc_processor s') = pollers (lc_processor s) → lc_runs s' = lc_runs s →
  (sound_tokens (W := W) es' → Sound s → Sound s') →
  (0 < count emptied s' + count stopped_ok s' →
    (0 < count emptied s + count stopped_ok s ∧ Forall outside es') ∨ shut (es ++ es')) →
  Data w0 (es ++ es') s'.
Proof.
  intros HD Hx [Q1 Q2] Hp Hr Hs He. apply (Data_step w0 es es' s s'); try done.
  - unfold filed. by rewrite Hp.
  - intros u. unfold live_at, run_at, filed_at. by rewrite Hr, Hp, Q1, Q2.
  - rewrite Hr, Hp. apply HD.
Qed.

Lemma Sound_caller i c s s' :
  Sound s → (periods_ok (lc_processor s) → periods_ok (lc_processor s')) →
  lc_callers s' = <[i := c]> (lc_callers s) → caller_sound c → lc_runs s' = lc_runs s →
  Sound s'.
Proof.
  intros [S1 S2 S3] Hp Hc Hs Hr. split; [by apply Hp| |by rewrite Hr].
  rewrite Hc. by apply Forall_insert.
Qed.

Lemma Sound_run i r s s' :
  Sound s → (periods_ok (lc_processor s) → periods_ok (lc_processor s')) →
  lc_callers s' = lc_callers s → run_sound (C := C) r →
  lc_runs s' = <[i := r]> (lc_runs s) → Sound s'.
Proof.
  intros [S1 S2 S3] Hp Hc Hs Hr. split; [by apply Hp|by rewrite Hc|].
  rewrite Hr. by apply Forall_insert.
Qed.

Lemma caller_sound_at i c s : Sound s → lc_callers s !! i = Some c → caller_sound c.
Proof. intros [_ S2 _] E. by eapply Forall_lookup_1. Qed.
End Moves.

(** Proves that a step without a panic keeps the invariant, for the calls [es]. *)
Ltac keeps es := left; split; [try done|exists es; split].

Section CallerMoves.
Context {C N R K W : Type}.
Context `{Logged W, SQSClient C W, HttpClient N W, GitEnv R K W, GoRuntime W, Workers W}.
Context `{!SQSClientSpec (C := C) (W := W), !HttpClientSpec N W, !GitEnvSpec R K W,
  !GoRuntimeSpec W, !WorkersSpec W}.
Implicit Types (p : processor C) (w : W) (s : lifecycle C W).

Lemma Data_nil w0 es s s' :
  Data w0 es s → lc_env s' = lc_env s → pollers (lc_processor s') = pollers (lc_processor s) →
  lc_runs s' = lc_runs s → (Sound s → Sound s') →
  count emptied s' + count stopped_ok s' = count emptied s + count stopped_ok s →
  Data w0 es s'.
Proof.
  intros HD Hw Hp Hr Hs He. rewrite <- (app_nil_r es).
  apply (Data_quiet w0 es [] s s'); try done.
  - rewrite Hw. apply extends_nil. eapply extends_ok, HD.
  - rewrite He. intros ?. by left.
Qed.

Lemma lock_good w0 es s i c c' :
  LifeInv w0 es s → lc_panicked s = None → lc_callers s !! i = Some c → lc_locked s = false →
  (c = StLock ∧ c' = StCheck) ∨ (c = SpLock ∧ c' = SpCheck) →
  good w0 (to_caller i c' (with_locked true s)).
Proof.
  intros [HC HD] Hn E Hl Hc. keeps es; [by eapply control_lock|].
  apply (Data_nil w0 es s); try done.
  - intros HS. apply (Sound_caller i c' s); try done. by destruct Hc as [[_ ->]|[_ ->]].
  - unfold count. cbn. rewrite !(sumZ_insert _ _ _ _ _ E).
    destruct Hc as [[-> ->]|[-> ->]]; cbn; lia.
Qed.

(** A caller that returns an error. *)
Lemma return_error_good w0 es es' s p w i c c' err :
  LifeInv w0 es s → lc_panicked s = None → lc_callers s !! i = Some c →
  (c = StCheck ∧ c' = Started (Some err)) ∨ (c = SpCheck ∧ c' = Stopped (Some err)) →
  effect es' (lc_processor s) (lc_env s) p w → Forall outside es' →
  pollers p = pollers (lc_processor s) → (periods_ok (lc_processor s) → periods_ok p) →
  good w0 (return_ i c' (with_state p w s)).
Proof.
  intros [HC HD] Hn E Hc [X1 X2 X3 X4] Ho Hp Hper. keeps (es ++ es').
  - destruct Hc as [[-> ->]|[-> ->]]; control HC E; rewrite ?X2, ?X3; lia.
  - apply (Data_quiet w0 es es' s); try done; [by apply outside_quiet| |].
    + intros _ HS. apply (Sound_caller i c' s); try done. by destruct Hc as [[_ ->]|[_ ->]].
    + unfold count. cbn. rewrite !(sumZ_insert _ _ _ _ _ E). intros Hz. left. split; [|done].
      destruct Hc as [[-> ->]|[-> ->]]; cbn in Hz; lia.
Qed.

(** [Start] once it can no longer fail. *)
Lemma started_good w0 es es' s p w i tok :
  LifeInv w0 es s → lc_panicked s = None → lc_callers s !! i = Some StCheck →
  proc_isRunning (lc_processor s) = false →
  effect es' (lc_processor s) (lc_env s) p w → Forall outside es' →
  pollers p = pollers (lc_processor s) → (periods_ok (lc_processor s) → periods_ok p) →
  (sound_tokens (W := W) es' → sound_token tok) →
  let s1 := with_state p w s in
  let s' := if NotEmpty (proc_repositories p) then to_caller i (StPaths tok) (go_pull s1)
            else to_caller i (StPool tok) s1 in
  lives s' <= 1 → good w0 s'.
Proof.
  intros [HC HD] Hn E Hrun [X1 X2 X3 X4] Ho Hp Hper Htok s1 s' Hl.
  assert (Hd : Data w0 (es ++ es') s').
  { subst s' s1. destruct (NotEmpty _); apply (Data_quiet w0 es es' s); try done;
      try (by apply outside_quiet);
      first [intros Hs HS; eapply (Sound_caller i _ s);
               [exact HS|exact Hper|reflexivity|exact (Htok Hs)|reflexivity]
            |unfold count; cbn; rewrite !(sumZ_insert _ _ _ _ _ E); cbn;
             intros ?; left; split; [lia|done]]. }
  keeps (es ++ es'); [by subst s' s1; destruct (NotEmpty _)| |done].
  clear Hd. subst s' s1. revert Hl. unfold lives, count.
  destruct (NotEmpty _); cbn; rewrite (sumZ_insert _ _ _ _ _ E); cbn; intros Hl; control HC E.
Qed.

(** While something can still start or run, the pool has not been stopped. *)
Lemma not_shut s :
  Control s → 0 < lc_wg s + count starting s + count ending s →
  count emptied s + count stopped_ok s = 0.
Proof.
  intros [_ _ C1 C2 C3 _ _ C6 C7] Hpos. pose proof (life_caller_facts s). lia.
Qed.

(** The pool is not stopped by a move of a caller that keeps [emptied] at 0. *)
Lemma shut_move s s' (es es' : list event) i c c' :
  lc_callers s !! i = Some c → lc_callers s' = <[i := c']> (lc_callers s) →
  emptied c' + stopped_ok c' <= emptied c + stopped_ok c →
  count emptied s + count stopped_ok s = 0 ∨ Forall outside es' →
  0 < count emptied s' + count stopped_ok s' →
  (0 < count emptied s + count stopped_ok s ∧ Forall outside es') ∨ shut (es ++ es').
Proof.
  intros E E' Hc [Hz|Ho] Hpos; unfold count in *; rewrite E', !(sumZ_insert _ _ _ _ _ E) in Hpos;
    [lia|left; split; [lia|done]].
Qed.

(** The rest of [Start] before the pollers. *)
Lemma starting_good w0 es es' s p w i c c' :
  LifeInv w0 es s → lc_panicked s = None → lc_callers s !! i = Some c →
  (∃ tok, c = StPaths tok ∧ c' = StPool tok) ∨ (∃ tok, c = StPool tok ∧ c' = StRefresh tok) →
  effect es' (lc_processor s) (lc_env s) p w → quiet es' →
  pollers p = pollers (lc_processor s) → (periods_ok (lc_processor s) → periods_ok p) →
  good w0 (to_caller i c' (with_state p w s)).
Proof.
  intros [HC HD] Hn E Hc [X1 X2 X3 X4] Hq Hp Hper.
  pose proof (life_caller_at _ _ _ E) as Hat.
  assert (Hz : count emptied s + count stopped_ok s = 0).
  { apply (not_shut s HC). pose proof (life_caller_facts s). destruct HC as [[_ B2 _] _ _ _ _ _ _ _ _].
    pose proof (sumZ_nonneg run_live (lc_runs s) run_live_nonneg).
    pose proof (sumZ_nonneg pull_live (lc_pulls s) pull_live_nonneg).
    destruct Hc as [(tok & -> & _)|(tok & -> & _)]; cbn in Hat; lia. }
  keeps (es ++ es').
  - destruct Hc as [(tok & -> & ->)|(tok & -> & ->)]; control HC E.
  - apply (Data_quiet w0 es es' s); try done.
    + intros Hs HS. apply (Sound_caller i c' s); try done.
      pose proof (caller_sound_at i c s HS E).
      by destruct Hc as [(tok & -> & ->)|(tok & -> & ->)].
    + eapply (shut_move s _ es es' i c c' E); [reflexivity| |by left].
      by destruct Hc as [(tok & -> & ->)|(tok & -> & ->)].
Qed.

(** The pollers of the first token, and [go qp.run()]. *)
Lemma refresh_good w0 es s i tok :
  LifeInv w0 es s → lc_panicked s = None → lc_callers s !! i = Some (StRefresh tok) →
  good w0 (perform (refreshPollers tok) (λ _ s, to_caller i StEnd (go_run s)) s).
Proof.
  intros [HC HD] Hn E. pose proof (life_caller_at _ _ _ E) as Hat. cbn in Hat.
  destruct (refresh_effect tok (lc_processor s) (lc_env s))
    as [(p & w & es' & Ep & [X1 X2 X3 X4] & X5 & Hper)|(why & Ep & Hbad)];
    [eapply extends_ok, HD|apply HD| |].
  2: { rewrite (perform_panicked _ _ _ _ _ _ Ep). right. split; [by eexists|].
       exists es. split; [apply HD|]. intros Hs.
       exact (Hbad (caller_sound_at i _ s (da_sound _ _ _ HD Hs) E)). }
  rewrite (perform_run _ _ _ _ _ _ Ep).
  pose proof (ct_lives _ HC) as Hl. unfold lives in Hl.
  assert (Hr : lc_runs s = []) by (destruct (lc_runs s); [done|cbn in Hl; lia]).
  pose proof (life_caller_facts s) as Hf. pose proof (ct_start _ HC ltac:(lia)) as [Hi Hq].
  keeps (es ++ es').
  - rewrite Hr in *. control HC E.
  - apply (Data_step w0 es es' s); try done.
    + intros Hs HS. split; cbn.
      * apply Hper, HS. exact (caller_sound_at i _ s HS E).
      * by apply Forall_insert; [apply HS|].
      * apply Forall_app. split; [apply HS|by repeat constructor].
    + intros u. unfold live_at. cbn. rewrite Hr. cbn [run_at app]. specialize (X5 u). unfold filed_at at 1 in X5.
      rewrite (da_fresh _ _ _ HD Hr), lookup_empty in X5. lia.
    + cbn. by rewrite Hr.
    + eapply (shut_move s _ es es' i _ StEnd E); [reflexivity|done|]. left.
      pose proof (ct_done _ HC). pose proof (ct_stop _ HC). lia.
Qed.

(** A new caller. *)
Lemma call_good w0 es s c :
  LifeInv w0 es s → lc_panicked s = None → c = StLock ∨ c = SpLock →
  good w0 (with_callers (lc_callers s ++ [c]) s).
Proof.
  intros [HC HD] Hn Hc. keeps es; [destruct Hc as [-> | ->]; control_by HC idtac|].
  apply (Data_nil w0 es s); try done.
  - intros HS. split; [apply HS| |apply HS]. apply Forall_app. split; [apply HS|].
    by destruct Hc as [-> | ->]; repeat constructor.
  - unfold count. cbn. rewrite !sumZ_app. by destruct Hc as [-> | ->]; cbn; lia.
Qed.

Lemma end_good w0 es s i :
  LifeInv w0 es s → lc_panicked s = None → lc_callers s !! i = Some StEnd →
  good w0 (return_ i (Started None)
    (with_state (set_running true (lc_processor s)) (lc_env s) s)).
Proof.
  intros [HC HD] Hn E. keeps es; [control HC E|].
  apply (Data_nil w0 es s); try done.
  - intros HS. by apply (Sound_caller i (Started None) s).
  - unfold count. cbn. rewrite !(sumZ_insert _ _ _ _ _ E). cbn. lia.
Qed.

(** *** Stop *)

Lemma close_good w0 es s i :
  LifeInv w0 es s → lc_panicked s = None → lc_callers s !! i = Some SpCheck →
  proc_isRunning (lc_processor s) = true →
  quit_closed (lc_processor s) = false ∧
  good w0 (to_caller i SpWait (with_state (set_quit (lc_processor s)) (lc_env s) s)).
Proof.
  intros [HC HD] Hn E Hr. pose proof (life_caller_at _ _ _ E) as Hat. cbn in Hat.
  pose proof (life_caller_facts s) as Hf. split.
  { pose proof (ct_quit _ HC). pose proof (bi_lock _ (ct_basic _ HC)). lia. }
  keeps es; [control HC E|]. apply (Data_nil w0 es s); try done.
  - intros HS. by apply (Sound_caller i SpWait s).
  - unfold count. cbn. rewrite !(sumZ_insert _ _ _ _ _ E). cbn. lia.
Qed.

Lemma wait_good w0 es s i :
  LifeInv w0 es s → lc_panicked s = None → lc_callers s !! i = Some SpWait →
  lc_wg s = 0 → good w0 (to_caller i SpPool s).
Proof.
  intros [HC HD] Hn E Hw. keeps es; [control HC E|]. apply (Data_nil w0 es s); try done.
  - intros HS. by apply (Sound_caller i SpPool s).
  - unfold count. cbn. rewrite !(sumZ_insert _ _ _ _ _ E). cbn. lia.
Qed.

(** With the wait group at zero, [run] has stopped the pollers. *)
Lemma waited_balance w0 es s :
  Control s → Data w0 es s → quit_closed (lc_processor s) = true → lc_wg s = 0 →
  started es ≡ₚ stopped es ∧ Forall (λ r, run_live r = 0) (lc_runs s) ∧
  Forall (λ r, pull_live r = 0) (lc_pulls s).
Proof.
  intros HC HD Hq Hw. pose proof (bi_wg _ (ct_basic _ HC)) as B2. rewrite Hw in B2.
  pose proof (sumZ_nonneg run_live (lc_runs s) run_live_nonneg) as N1.
  pose proof (sumZ_nonneg pull_live (lc_pulls s) pull_live_nonneg) as N2.
  assert (Hr : Forall (λ r, run_live r = 0) (lc_runs s))
    by (apply sumZ_all_zero; [apply run_live_nonneg|lia]).
  split; [|split; [done|apply sumZ_all_zero; [apply pull_live_nonneg|lia]]].
  apply occ_permutation. intros u. rewrite (da_balance _ _ _ HD u). unfold live_at, run_at.
  destruct (lc_runs s) as [|r rs]; [lia|]. apply Forall_cons_1 in Hr as [Hr _].
  destruct r; cbn in Hr; lia.
Qed.

Lemma pool_stop_good w0 es s p w i r :
  LifeInv w0 es s → lc_panicked s = None → lc_callers s !! i = Some SpPool →
  effect [EvPoolStop r] (lc_processor s) (lc_env s) p w → p = lc_processor s →
  good w0 (to_caller i SpRemove (with_state p w s)).
Proof.
  intros [HC HD] Hn E [X1 X2 X3 X4] ->. pose proof (life_caller_at _ _ _ E) as Hat. cbn in Hat.
  pose proof (life_caller_facts s) as Hf. keeps (es ++ [EvPoolStop r]); [control HC E|].
  apply (Data_quiet w0 es _ s); try done.
  - intros _ HS. by apply (Sound_caller i SpRemove s).
  - intros _. right. exists es, r, []. split; [done|]. split; [|done].
    apply (waited_balance w0 es s HC HD); [apply HC; lia|apply (ct_waited _ HC); lia].
Qed.

Lemma remove_good w0 es es' s p w i :
  LifeInv w0 es s → lc_panicked s = None → lc_callers s !! i = Some SpRemove →
  effect es' (lc_processor s) (lc_env s) p w → pollers p = pollers (lc_processor s) →
  (periods_ok (lc_processor s) → periods_ok p) → removals es' →
  good w0 (to_caller i SpEnd (with_state p w s)).
Proof.
  intros [HC HD] Hn E [X1 X2 X3 X4] Hp Hper Hrm. apply removals_outside in Hrm.
  keeps (es ++ es'); [control HC E|]. apply (Data_quiet w0 es es' s); try done.
  - by apply outside_quiet.
  - intros _ HS. by apply (Sound_caller i SpEnd s).
  - eapply (shut_move s _ es es' i _ SpEnd E); [reflexivity|done|by right].
Qed.

Lemma stop_end_good w0 es s i :
  LifeInv w0 es s → lc_panicked s = None → lc_callers s !! i = Some SpEnd →
  good w0 (return_ i (Stopped None)
    (with_state (set_running false (lc_processor s)) (lc_env s) s)).
Proof.
  intros [HC HD] Hn E. keeps es; [control HC E|]. apply (Data_nil w0 es s); try done.
  - intros HS. by apply (Sound_caller i (Stopped None) s).
  - unfold count. cbn. rewrite !(sumZ_insert _ _ _ _ _ E). cbn. lia.
Qed.
End CallerMoves.

Section GoroutineMoves.
Context {C N R K W : Type}.
Context `{Logged W, SQSClient C W, HttpClient N W, GitEnv R K W, GoRuntime W, Workers W}.
Context `{!SQSClientSpec (C := C) (W := W), !HttpClientSpec N W, !GitEnvSpec R K W,
  !GoRuntimeSpec W, !WorkersSpec W}.
Implicit Types (p : processor C) (w : W) (s : lifecycle C W) (r : runner C).

Lemma run_single s i r : Control s → lc_runs s !! i = Some r → i = 0%nat ∧ lc_runs s = [r].
Proof.
  intros HC E. pose proof (ct_lives _ HC) as Hl. pose proof (life_caller_facts s). unfold lives in Hl.
  destruct (lc_runs s) as [|r0 [|r1 rs]]; [done| |cbn in Hl; lia].
  destruct i as [|i]; [|done]. by injection E as ->.
Qed.

Lemma live_not_shut s :
  Control s → 0 < sumZ run_live (lc_runs s) + sumZ pull_live (lc_pulls s) →
  0 < lc_wg s ∧ count emptied s + count stopped_ok s = 0.
Proof.
  intros HC Hp. pose proof (bi_wg _ (ct_basic _ HC)) as B2. split; [lia|].
  apply (not_shut s HC). pose proof (life_caller_facts s). lia.
Qed.

Lemma run_at_live s i r : lc_runs s !! i = Some r → run_live r <= sumZ run_live (lc_runs s).
Proof. apply sumZ_lookup_le, run_live_nonneg. Qed.

Lemma pull_at_live s i q : lc_pulls s !! i = Some q → pull_live q <= sumZ pull_live (lc_pulls s).
Proof. apply sumZ_lookup_le, pull_live_nonneg. Qed.

(** A move of [run] that does not end it. *)
Lemma run_move_good w0 es es' s p w i r r' :
  LifeInv w0 es s → lc_panicked s = None → lc_runs s !! i = Some r →
  run_live r = 1 → run_live r' = 1 → effect es' (lc_processor s) (lc_env s) p w →
  (∀ u, run_at (lc_processor s) r u + occ u (started es') = run_at p r' u + occ u (stopped es')) →
  (sound_tokens (W := W) es' → Sound s → periods_ok p ∧ run_sound (C := C) r') →
  good w0 (to_run i r' (with_state p w s)).
Proof.
  intros [HC HD] Hn E Hr Hr' [X1 X2 X3 X4] Hat Hs.
  destruct (run_single s i r HC E) as [-> Hrs].
  pose proof (sumZ_nonneg pull_live (lc_pulls s) pull_live_nonneg) as Hpl.
  destruct (live_not_shut s HC) as [Hw Hz]; [rewrite Hrs; cbn; lia|].
  keeps (es ++ es'); [control HC E|]. apply (Data_step w0 es es' s); try done.
  - intros Hso HS. destruct (Hs Hso HS) as [? ?].
    split; [done|apply HS|cbn; rewrite Hrs; by repeat constructor].
  - intros u. unfold live_at. cbn. rewrite Hrs. apply Hat.
  - cbn. by rewrite Hrs.
  - unfold count in *. cbn. lia.
Qed.

(** A move of [run] that starts and stops no poller and stays before [quit]. *)
Lemma run_quiet_good w0 es es' s w i r r' :
  LifeInv w0 es s → lc_panicked s = None → lc_runs s !! i = Some r →
  run_at (lc_processor s) r = run_at (lc_processor s) r' → run_live r = 1 → run_live r' = 1 →
  extends es' (lc_env s) w → quiet es' →
  (sound_tokens (W := W) es' → run_sound (C := C) r') →
  good w0 (to_run i r' (with_state (lc_processor s) w s)).
Proof.
  intros HI Hn E Heq Hr Hr' Hx [Q1 Q2] Hs.
  apply (run_move_good w0 es es' s (lc_processor s) w i r r'); try done.
  - intros u. by rewrite Heq, Q1, Q2.
  - intros Hso HS. split; [apply HS|by apply Hs].
Qed.

Lemma run_done_good w0 es s i :
  LifeInv w0 es s → lc_panicked s = None → lc_runs s !! i = Some (RnStop []) →
  good w0 (to_run i RnDone (wg_Done s)).
Proof.
  intros [HC HD] Hn E. destruct (run_single s i _ HC E) as [-> Hrs].
  pose proof (sumZ_nonneg pull_live (lc_pulls s) pull_live_nonneg) as Hpl.
  destruct (live_not_shut s HC) as [Hw Hz]; [rewrite Hrs; cbn; lia|].
  unfold wg_Done. destruct (Z.ltb_spec (lc_wg s - 1) 0); [lia|].
  keeps es; [control HC E|]. rewrite <- (app_nil_r es). apply (Data_step w0 es [] s); try done.
  - apply extends_nil. eapply extends_ok, HD.
  - intros _ HS. split; [apply HS|apply HS|cbn; rewrite Hrs; by repeat constructor].
  - intros u. unfold live_at. cbn. by rewrite Hrs.
  - cbn. by rewrite Hrs.
  - unfold count in *. cbn. lia.
Qed.

(** A move of the puller. *)
Lemma pull_move_good w0 es es' s w i q q' :
  LifeInv w0 es s → lc_panicked s = None → lc_pulls s !! i = Some q →
  pull_live q = 1 → pull_live q' = 1 → extends es' (lc_env s) w → quiet es' →
  good w0 (to_pull i q' (with_state (lc_processor s) w s)).
Proof.
  intros [HC HD] Hn E Hq Hq' Hx Hqu. pose proof (pull_at_live s i q E) as Hl.
  pose proof (sumZ_nonneg run_live (lc_runs s) run_live_nonneg) as Hrl.
  destruct (live_not_shut s HC) as [Hw Hz]; [lia|].
  keeps (es ++ es'); [control HC E|]. apply (Data_quiet w0 es es' s); try done.
  - intros _ HS. split; apply HS.
  - unfold count in *. cbn. lia.
Qed.

Lemma pull_done_good w0 es s i :
  LifeInv w0 es s → lc_panicked s = None → lc_pulls s !! i = Some PlLoop →
  good w0 (to_pull i PlDone (wg_Done s)).
Proof.
  intros [HC HD] Hn E. pose proof (pull_at_live s i _ E) as Hl. cbn in Hl.
  pose proof (sumZ_nonneg run_live (lc_runs s) run_live_nonneg) as Hrl.
  destruct (live_not_shut s HC) as [Hw Hz]; [lia|].
  unfold wg_Done. destruct (Z.ltb_spec (lc_wg s - 1) 0); [lia|].
  keeps es; [control HC E|]. apply (Data_nil w0 es s); try done. intros HS. split; apply HS.
Qed.
End GoroutineMoves.
