(* ===== verification/LifecycleClaims.v ===== *)
(** * The properties of the processor's life cycle. *)

From stdpp Require Import base list numbers strings gmap relations.
From Stdlib Require Import Lia ZifyBool.
From S2P Require Import Prelude Configuration WorkerPool PollerLoop GoError Interfaces GoStrings.
From S2P Require Import SqsProvider Retryer Git Actions Reader Processor ProcessorProps.
From S2P Require Import ProcessorClaims Lifecycle LifecycleProps.
Local Open Scope Z_scope.

Section Steps.
Context {C N R K W : Type}.
Context `{Logged W, SQSClient C W, HttpClient N W, GitEnv R K W, GoRuntime W, Workers W}.
Context `{!SQSClientSpec (C := C) (W := W), !HttpClientSpec N W, !GitEnvSpec R K W,
  !GoRuntimeSpec W, !WorkersSpec W}.
Implicit Types (p : processor C) (w : W) (s : lifecycle C W).
Local Abbreviation sound := (sound_tokens (W := W)).

Lemma inv_ok w0 es s : LifeInv w0 es s → ok (lc_env s).
Proof. intros [_ HD]. eapply extends_ok, HD. Qed.

Lemma with_state_same s : with_state (lc_processor s) (lc_env s) s = s.
Proof. by destruct s. Qed.

(** A caller that finds the wrong value of [isRunning]. *)
Lemma refused_good w0 es s i c c' err :
  LifeInv w0 es s → lc_panicked s = None → lc_callers s !! i = Some c →
  (c = StCheck ∧ c' = Started (Some err)) ∨ (c = SpCheck ∧ c' = Stopped (Some err)) →
  good w0 (return_ i c' s).
Proof.
  intros HI Hn E Hc. rewrite <- (with_state_same s).
  apply (return_error_good w0 es [] s _ _ i c c' err); try done.
  apply same_effect, extends_nil. by eapply inv_ok.
Qed.

Lemma start_step_good w0 es s s' i :
  LifeInv w0 es s → lc_panicked s = None → lc_callers s !! i = Some StCheck →
  life_call_step (N := N) (R := R) (K := K) i s = Some s' → lives s' <= 1 → good w0 s'.
Proof.
  intros HI Hn E Hs Hl. unfold life_call_step in Hs. rewrite E in Hs. apply (inj Some) in Hs.
  destruct (proc_isRunning (lc_processor s)) eqn:Hrun.
  { subst s'. eapply refused_good; try done. by left. }
  destruct (start_downloads_run (N := N) (R := R) (K := K) (lc_processor s) (lc_env s))
    as (r & p & w & es' & Ep & He & Ho & Hp & Hper & Htok); [by eapply inv_ok|].
  rewrite (perform_run _ _ _ _ _ _ Ep) in Hs. destruct r as [tok|err]; subst s'.
  - apply (started_good w0 es es' s p w i tok); try done. by intros; apply Htok.
  - apply (return_error_good w0 es es' s p w i StCheck _ err); try done. by left.
Qed.

Lemma life_call_step_good w0 es s s' i :
  LifeInv w0 es s → lc_panicked s = None →
  life_call_step (N := N) (R := R) (K := K) i s = Some s' → lives s' <= 1 → good w0 s'.
Proof.
  intros HI Hn Hs Hl. pose proof (inv_ok _ _ _ HI) as Hok. pose proof Hs as Hs0.
  unfold life_call_step in Hs. destruct (lc_callers s !! i) as [c|] eqn:E; [|done].
  destruct c as [| |tok|tok|tok| |e| | | | | | |e]; try done.
  - destruct (lc_locked s) eqn:El; [done|]. injection Hs as <-.
    eapply lock_good; try done. by left.
  - by eapply start_step_good.
  - injection Hs as <-.
    destruct (start_paths_run (C := C) (lc_processor s) (lc_env s) Hok)
      as (p & w & Ep & He & Hp & Hper).
    rewrite (perform_run _ _ _ _ _ _ Ep).
    apply (starting_good w0 es [] s p w i (StPaths tok)); try done. left. by eexists.
  - injection Hs as <-. destruct (workerPool_Start_spec _ Hok) as (r & w & Ep & Hx).
    destruct (env_effect _ (lc_processor s) _ _ _ _ Ep Hx) as [Ep' He].
    rewrite (perform_run _ _ _ _ _ _ Ep').
    apply (starting_good w0 es [EvPoolStart r] s _ w i (StPool tok)); try done.
    right. by eexists.
  - injection Hs as <-. by eapply refresh_good.
  - injection Hs as <-. by eapply end_good.
  - destruct (lc_locked s) eqn:El; [done|]. injection Hs as <-.
    eapply lock_good; try done. by right.
  - injection Hs as <-. destruct (proc_isRunning (lc_processor s)) eqn:Hr; cbn [negb].
    + destruct (close_good w0 es s i) as [-> ?]; done.
    + eapply refused_good; try done. by right.
  - destruct (Z.eqb_spec (lc_wg s) 0); [|done]. injection Hs as <-. by eapply wait_good.
  - injection Hs as <-. destruct (workerPool_Stop_spec _ Hok) as (r & w & Ep & Hx).
    destruct (env_effect _ (lc_processor s) _ _ _ _ Ep Hx) as [Ep' He].
    rewrite (perform_run _ _ _ _ _ _ Ep'). by eapply pool_stop_good.
  - injection Hs as <-.
    destruct (remove_all_run (R := R) (K := K) (proc_repositories (lc_processor s)) (lc_env s) Hok)
      as (w & es' & Ep & Hx & Hrm).
    rewrite (perform_run _ _ _ _ _ _ (on_repositories_run _ _ _ _ _ _ Ep)).
    eapply (remove_good w0 es es'); try done.
  - injection Hs as <-. by eapply stop_end_good.
Qed.

(** [NewTicker] after a change of the environment. *)
Lemma ticker_good w0 es d k s :
  extends es w0 (lc_env s) → (sound es → 0 < d) → (0 < d → good w0 (k () s)) → good w0 (perform (NewTicker d) k s).
Proof.
  intros Hx Hs Hk. unfold perform, NewTicker. destruct (Z.leb_spec d 0).
  - right. split; [by eexists|]. exists es. split; [done|]. intros Hso. specialize (Hs Hso). lia.
  - cbn. rewrite with_state_same. by apply Hk.
Qed.

Lemma run_token_good w0 es s i :
  LifeInv w0 es s → lc_panicked s = None → lc_runs s !! i = Some RnToken →
  good w0 (perform (receiveToken (H := N)) (λ r s,
      match r with
      | inl token => to_run i (RnRefresh token) s
      | inr _ => perform (NewTicker (proc_errorRefreshPeriod (lc_processor s)))
                   (λ _, to_run i RnLoop) s
      end) s).
Proof.
  intros HI Hn E. pose proof (inv_ok _ _ _ HI) as Hok.
  destruct (receiveToken_outside (N := N) (lc_processor s) (lc_env s) Hok)
    as (r & w & es' & Ep & Hx & Ho & Htok).
  rewrite (perform_run _ _ _ _ _ _ Ep). apply outside_quiet in Ho. destruct r as [tok|err].
  - eapply run_quiet_good; try done. by apply Htok.
  - apply (ticker_good w0 (es ++ es')).
    + eapply extends_trans; [apply HI|exact Hx].
    + intros [Hs _]%sound_tokens_app. apply (da_sound _ _ _ (in_data _ _ _ HI) Hs).
    + intros _. by eapply run_quiet_good.
Qed.

Lemma run_refresh_good w0 es s i tok :
  LifeInv w0 es s → lc_panicked s = None → lc_runs s !! i = Some (RnRefresh tok) →
  good w0 (perform (refreshPollers tok) (λ _ s,
      perform (NewTicker (successRefreshPeriod (lc_processor s))) (λ _, to_run i RnLoop) s) s).
Proof.
  intros HI Hn E. pose proof (inv_ok _ _ _ HI) as Hok. pose proof (in_data _ _ _ HI) as HD.
  assert (Htok : Sound s → sound_token tok).
  { intros HS. pose proof (so_runs _ HS) as Hr. exact (Forall_lookup_1 _ _ _ _ Hr E). }
  destruct (refresh_effect tok (lc_processor s) (lc_env s) Hok (da_filed _ _ _ HD))
    as [(p & w & es' & Ep & He & Hb & Hper)|(why & Ep & Hbad)].
  2: { rewrite (perform_panicked _ _ _ _ _ _ Ep). right. split; [by eexists|].
       exists es. split; [apply HD|]. intros Hs. by apply Hbad, Htok, (da_sound _ _ _ HD). }
  rewrite (perform_run _ _ _ _ _ _ Ep).
  assert (Hp : Sound s → periods_ok p) by (intros HS; apply Hper; [by apply Htok|apply HS]).
  apply (ticker_good w0 (es ++ es')).
  { eapply extends_trans; [apply HD|apply He]. }
  { intros [Hs _]%sound_tokens_app. apply Hp, (da_sound _ _ _ HD Hs). }
  intros _.
  eapply (run_move_good w0 es es' s p w i (RnRefresh tok)); try done.
  intros _ HS. by split; [apply Hp|].
Qed.

(** [run] takes the case of [quit]. *)
Lemma run_quit_good w0 es s i :
  LifeInv w0 es s → lc_panicked s = None → lc_runs s !! i = Some RnLoop →
  good w0 (perform (on_env (map_range (pollers (lc_processor s)))) (λ l, to_run i (RnStop l)) s).
Proof.
  intros HI Hn E. pose proof (inv_ok _ _ _ HI) as Hok.
  destruct (map_range_spec (pollers (lc_processor s)) (lc_env s) Hok) as (l & w & Ep & Hx & Hl).
  destruct (env_effect _ (lc_processor s) _ _ _ _ Ep Hx) as [Ep' He].
  rewrite (perform_run _ _ _ _ _ _ Ep').
  apply (run_move_good w0 es [] s _ w i RnLoop (RnStop l)); try done.
  - intros u. cbn [run_at]. f_equal.
    rewrite (occ_of_permutation u _ _ (fmap_Permutation fst _ _ Hl)). symmetry.
    apply occ_pollers.
  - intros _ HS. by split; [apply HS|].
Qed.

Lemma run_step_good w0 es s s' i tick :
  LifeInv w0 es s → lc_panicked s = None →
  life_run_step (N := N) i tick s = Some s' → good w0 s'.
Proof.
  intros HI Hn Hs. pose proof (inv_ok _ _ _ HI) as Hok.
  unfold life_run_step in Hs. destruct (lc_runs s !! i) as [r|] eqn:E; [|done].
  destruct r as [| | |tok|[|[u pr] l]|], tick; try done.
  - injection Hs as <-. unfold perform, run_begin, go_bind, go_get. cbn [fst].
    change (good w0 (perform (NewTicker (successRefreshPeriod (lc_processor s)))
      (λ _, to_run i RnLoop) s)).
    apply (ticker_good w0 es);
      [apply HI|intros Hso; apply (da_sound _ _ _ (in_data _ _ _ HI) Hso)|].
    intros _. rewrite <- (with_state_same s).
    apply (run_quiet_good w0 es [] s _ i RnBegin RnLoop); try done. by apply extends_nil.
  - injection Hs as <-. rewrite <- (with_state_same s).
    apply (run_quiet_good w0 es [] s _ i RnLoop RnToken); try done. by apply extends_nil.
  - destruct (quit_closed (lc_processor s)); [|done]. injection Hs as <-. by eapply run_quit_good.
  - injection Hs as <-. by eapply run_token_good.
  - injection Hs as <-. by eapply run_refresh_good.
  - injection Hs as <-. by eapply run_done_good.
  - injection Hs as <-. destruct (poller_Stop_spec u _ Hok) as (r & w & Ep & Hx).
    rewrite (perform_run _ _ _ _ _ _ (on_env_run _ _ _ _ _ Ep)).
    eapply (run_move_good w0 es [EvPollerStop u r] s _ w i _ (RnStop l)); try done.
    + intros v. cbn. rewrite occ_cons. change (stopped [EvPollerStop u r]) with [u].
      rewrite occ_cons, !occ_nil. lia.
    + intros _ HS. by split; [apply HS|].
Qed.

Lemma pull_step_good w0 es s s' i tick :
  LifeInv w0 es s → lc_panicked s = None →
  pull_step (R := R) (K := K) i tick s = Some s' → good w0 s'.
Proof.
  intros HI Hn Hs. pose proof (inv_ok _ _ _ HI) as Hok.
  unfold pull_step in Hs. destruct (lc_pulls s !! i) as [q|] eqn:E; [|done].
  assert (Hloop : pull_live q = 1 →
    good w0 (perform (NewTicker repositoryRefreshPeriod) (λ _, to_pull i PlLoop) s)).
  { intros Hq. apply (ticker_good w0 es); [apply HI|done|]. intros _. rewrite <- (with_state_same s).
    eapply (pull_move_good w0 es []); try done. by apply extends_nil. }
  destruct q as [| |[|[u r] l]|], tick; try done; try (injection Hs as <-; by apply Hloop).
  - injection Hs as <-.
    destruct (map_range_spec (proc_repositories (lc_processor s)) (lc_env s) Hok)
      as (l & w & Ep & Hx & _).
    rewrite (perform_run _ _ _ _ _ _ (on_env_run _ _ _ _ _ Ep)).
    by eapply (pull_move_good w0 es []).
  - destruct (quit_closed (lc_processor s)); [|done]. injection Hs as <-. by eapply pull_done_good.
  - injection Hs as <-. destruct (Pull_run (R := R) (K := K) r (lc_env s) Hok)
      as (err & w & es' & Ep & Hx & Hp).
    rewrite (perform_run _ _ _ _ _ _ (on_env_run _ _ _ _ _ Ep)).
    eapply (pull_move_good w0 es es'); try done. by apply pulling_quiet.
Qed.

Lemma life_step_good w0 es l s s' :
  LifeInv w0 es s → lc_panicked s = None →
  life_step (N := N) (R := R) (K := K) l s = Some s' → lives s' <= 1 → good w0 s'.
Proof.
  intros HI Hn Hs Hl. unfold life_step in Hs. rewrite Hn in Hs.
  destruct l as [| |i|i tick|i tick].
  - injection Hs as <-. eapply call_good; try done. by left.
  - injection Hs as <-. eapply call_good; try done. by right.
  - by eapply life_call_step_good.
  - by eapply run_step_good.
  - by eapply pull_step_good.
Qed.

(** The number of lives never falls. *)
Lemma life_step_lives l s s' :
  life_step (N := N) (R := R) (K := K) l s = Some s' → lives s <= lives s'.
Proof.
  unfold life_step, life_call_step, life_run_step, pull_step, perform, wg_Done. intros Hs.
  destruct (lc_panicked s); [done|]. unfold lives, count.
  destruct l; repeat case_match; simplify_eq/=;
    repeat match goal with E : lc_callers s !! _ = Some _ |- _ =>
      rewrite (sumZ_insert _ _ _ _ _ E); clear E end;
    rewrite ?sumZ_app, ?length_app, ?length_insert; cbn; lia.
Qed.

Lemma life_exec_lives ls s s' :
  life_exec (N := N) (R := R) (K := K) ls s = Some s' → lives s <= lives s'.
Proof.
  revert s. induction ls as [|l ls IH]; intros s Hs; simplify_eq/=; [lia|].
  destruct (life_step l s) as [s1|] eqn:E; [|done].
  apply life_step_lives in E. apply IH in Hs. lia.
Qed.

Lemma life_exec_good w0 ls s s' :
  good w0 s → life_exec (N := N) (R := R) (K := K) ls s = Some s' → lives s' <= 1 → good w0 s'.
Proof.
  revert s. induction ls as [|l ls IH]; intros s Hg Hs Hl; simplify_eq/=; [done|].
  destruct (life_step l s) as [s1|] eqn:E; [|done].
  pose proof (life_exec_lives _ _ _ Hs) as Hm. apply (IH s1); try done.
  destruct Hg as [(Hn & es & HI)|[[why Hn] _]].
  - eapply life_step_good; try done. lia.
  - unfold life_step in E. by rewrite Hn in E.
Qed.

Lemma life_init_inv p w : ok w → fresh p → LifeInv w [] (life_init p w).
Proof.
  intros Hok (Hp & Hr & Hq & Hper). split.
  - split; [split|..]; unfold lives, count; cbn; rewrite ?Hr, ?Hq; try done; lia.
  - split; cbn.
    + by apply extends_nil.
    + intros u pr. by rewrite Hp, lookup_empty.
    + intros _. by split; [|constructor..].
    + done.
    + done.
    + unfold count. cbn. lia.
Qed.

Lemma life_run_inv p w ls s :
  ok w → fresh p → life_exec (N := N) (R := R) (K := K) ls (life_init p w) = Some s →
  lives s <= 1 → good w s.
Proof.
  intros Hok Hf Hs Hl. eapply life_exec_good; try done. left. split; [done|].
  exists []. by apply life_init_inv.
Qed.

(** C11. Whatever the interleaving of the callers of [Start] and [Stop], of the
    token refreshes and of the repository pulls, in one life of the processor
    every poller started is stopped or running, the process panics only after it
    received a token that is not sound (null, or without a positive refresh
    period on its first queue), and once a [Stop] has returned [nil] no goroutine
    is left, every poller has been stopped before the worker pool, and nothing
    followed but the removal of the repositories and the token requests of
    later starts. *)
Theorem interleaved_stop_leaves_nothing p w ls s :
  ok w → fresh p → life_exec (N := N) (R := R) (K := K) ls (life_init p w) = Some s →
  lives s <= 1 →
  (lc_panicked s = None ∧ ∃ es, extends es w (lc_env s) ∧
    (∀ u, occ u (started es) = occ u (stopped es) + live_at s u) ∧
    ∀ i, lc_callers s !! i = Some (Stopped None) →
      proc_isRunning (lc_processor s) = false ∧ started es ≡ₚ stopped es ∧ shut es ∧
      Forall (λ r, run_live r = 0) (lc_runs s) ∧ Forall (λ q, pull_live q = 0) (lc_pulls s)) ∨
  (is_Some (lc_panicked s) ∧ ∃ es, extends es w (lc_env s) ∧ ¬ sound es).
Proof.
  intros Hok Hf Hs Hl. destruct (life_run_inv p w ls s Hok Hf Hs Hl) as [(Hn & es & HC & HD)|Hbad];
    [left|by right].
  split; [done|]. exists es. split; [apply HD|]. split; [apply HD|]. intros i E.
  pose proof (life_caller_at _ _ _ E) as Hat. cbn in Hat. pose proof (life_caller_facts s) as Hc.
  destruct (ct_done _ HC) as [Hr Hq]; [lia|].
  assert (Hw : lc_wg s = 0).
  { apply (ct_idle _ HC Hr). destruct (decide (0 < count starting s + count ending s)); [|lia].
    destruct (ct_start _ HC) as [_ Hq']; [done|]. congruence. }
  destruct (waited_balance w es s HC HD Hq Hw) as (Hb & Hruns & Hpulls).
  split; [done|]. split; [done|]. split; [|done]. apply (da_shut _ _ _ HD). lia.
Qed.

(** The callers that use the map of pollers, by the value of [isRunning]. *)
Definition accessing (running : bool) (c : caller) : Z :=
  match c with
  | StCheck => if running then 0 else 1
  | StPaths _ | StPool _ | StRefresh _ => 1
  | _ => 0
  end.

Lemma accessing_sum b l :
  sumZ (accessing b) l <= (if b then 0 else sumZ checking l) + sumZ starting l.
Proof. destruct b; induction l as [|[] l IH]; cbn [sumZ accessing checking starting]; lia. Qed.

Lemma run_live_length (rs : list (runner C)) : sumZ run_live rs <= Z.of_nat (length rs).
Proof. induction rs as [|[] rs IH]; cbn [sumZ length run_live]; lia. Qed.

(** C15. The map of pollers, which no lock protects, has one owner at a time: in
    every interleaving at most one goroutine is between the checks of [Start]
    and its last use of the map, or in [run]. *)
Theorem pollers_have_one_owner p w ls s :
  ok w → fresh p → life_exec (N := N) (R := R) (K := K) ls (life_init p w) = Some s →
  lives s <= 1 → lc_panicked s = None →
  sumZ (accessing (proc_isRunning (lc_processor s))) (lc_callers s) + sumZ run_live (lc_runs s) <= 1.
Proof.
  intros Hok Hf Hs Hl Hn.
  destruct (life_run_inv p w ls s Hok Hf Hs Hl) as [(_ & es & HC & HD)|[[? Hp] _]]; [|congruence].
  pose proof (life_caller_facts s) as Hc. pose proof (bi_lock _ (ct_basic _ HC)) as B1.
  pose proof (bi_wg _ (ct_basic _ HC)) as B2. pose proof (ct_idle _ HC) as Hi.
  pose proof (sumZ_nonneg run_live (lc_runs s) run_live_nonneg) as N1.
  pose proof (sumZ_nonneg pull_live (lc_pulls s) pull_live_nonneg) as N2.
  pose proof (run_live_length (lc_runs s)) as Hlen.
  pose proof (accessing_sum (proc_isRunning (lc_processor s)) (lc_callers s)) as Ha.
  fold (count checking s) (count starting s) in Ha.
  unfold lives in Hl. destruct (proc_isRunning (lc_processor s)) eqn:Hr; cbv iota in Ha; [lia|].
  destruct (decide (count starting s + count ending s = 0)) as [Hz|Hz]; [specialize (Hi eq_refl Hz); lia|].
  pose proof (ct_start _ HC). pose proof (ct_run _ HC). lia.
Qed.
End Steps.

(** ** Termination *)

(** A move that is not a ticker's and not a new call. *)
Definition is_work (l : life_label) : bool :=
  match l with
  | CallerMove _ | RunMove _ false | PullMove _ false => true
  | _ => false
  end.

Definition caller_rank (c : caller) : Z :=
  match c with
  | StLock => 18 | StCheck => 17 | StPaths _ => 12 | StPool _ => 11 | StRefresh _ => 10
  | StEnd => 5 | SpLock => 8 | SpCheck => 7 | SpWait => 6 | SpPool => 5 | SpRemove => 4
  | SpEnd => 3 | Started _ | Stopped _ => 0
  end.

Definition run_rank {C} (r : runner C) : Z :=
  match r with
  | RnToken => 6 | RnRefresh _ => 5 | RnBegin => 4 | RnLoop => 3 | RnStop _ => 2 | RnDone => 0
  end.

Definition pull_rank (q : puller) : Z :=
  match q with PlPull _ => 5 | PlBegin => 4 | PlLoop => 3 | PlDone => 0 end.

(** The pollers still to stop, the repositories still to pull. *)
Definition run_rest {C} (r : runner C) : Z :=
  match r with RnStop l => Z.of_nat (length l) | _ => 0 end.

Definition pull_rest (q : puller) : Z :=
  match q with PlPull l => Z.of_nat (length l) | _ => 0 end.

Section Termination.
Context {C N R K W : Type}.
Context `{SQSClient C W, HttpClient N W, GitEnv R K W, GoRuntime W, Workers W}.
Implicit Types (s : lifecycle C W).

Definition rank s : Z :=
  match lc_panicked s with
  | Some _ => 0
  | None => 1 + sumZ caller_rank (lc_callers s) + sumZ run_rank (lc_runs s) +
      sumZ pull_rank (lc_pulls s)
  end.

Definition rest s : Z := sumZ run_rest (lc_runs s) + sumZ pull_rest (lc_pulls s).

Lemma rank_nonneg s : 0 <= rank s ∧ 0 <= rest s ∧ (lc_panicked s = None → 0 < rank s).
Proof.
  unfold rank, rest.
  pose proof (sumZ_nonneg caller_rank (lc_callers s) ltac:(by intros [])).
  pose proof (sumZ_nonneg run_rank (lc_runs s) ltac:(by intros [])).
  pose proof (sumZ_nonneg pull_rank (lc_pulls s) ltac:(by intros [])).
  pose proof (sumZ_nonneg run_rest (lc_runs s) ltac:(intros []; cbn; lia)).
  pose proof (sumZ_nonneg pull_rest (lc_pulls s) ltac:(intros []; cbn; lia)).
  destruct (lc_panicked s); split_and!; intros; try done; lia.
Qed.

Lemma life_work_decreases l s s' :
  life_step (N := N) (R := R) (K := K) l s = Some s' → is_work l = true →
  rank s' < rank s ∨ (rank s' = rank s ∧ rest s' < rest s).
Proof.
  unfold life_step, life_call_step, life_run_step, pull_step, perform, wg_Done. intros Hs Hw.
  destruct (rank_nonneg s) as (_ & _ & Hpos).
  destruct (lc_panicked s) eqn:Hn; [done|]. specialize (Hpos eq_refl). revert Hpos.
  unfold rank, rest. rewrite Hn.
  destruct l; try done; repeat case_match; simplify_eq/=; rewrite ?Hn;
    repeat match goal with
    | E : lc_callers s !! _ = Some _ |- _ => rewrite !(sumZ_insert _ _ _ _ _ E); clear E
    | E : lc_runs s !! _ = Some _ |- _ => rewrite !(sumZ_insert _ _ _ _ _ E); clear E
    | E : lc_pulls s !! _ = Some _ |- _ => rewrite !(sumZ_insert _ _ _ _ _ E); clear E
    end;
    rewrite ?sumZ_app; cbn; lia.
Qed.

(** [s'] follows [s] by such a move. *)
Definition works s' s : Prop :=
  ∃ l, is_work l = true ∧ life_step (N := N) (R := R) (K := K) l s = Some s'.

Lemma works_wf s : Acc works s.
Proof.
  remember (Z.to_nat (rank s)) as n eqn:En. revert s En.
  induction n as [n IHn] using lt_wf_ind. intros s En.
  remember (Z.to_nat (rest s)) as m eqn:Em. revert s En Em.
  induction m as [m IHm] using lt_wf_ind. intros s En Em. constructor. intros s' (l & Hw & Hs).
  destruct (rank_nonneg s) as (N1 & N2 & _). destruct (rank_nonneg s') as (N3 & N4 & _).
  destruct (life_work_decreases l s s' Hs Hw) as [Hlt|[Heq Hlt]].
  - apply (IHn (Z.to_nat (rank s'))); [lia|done].
  - apply (IHm (Z.to_nat (rest s'))); [lia|lia|done].
Qed.
End Termination.

Section Progress.
Context {C N R K W : Type}.
Context `{Logged W, SQSClient C W, HttpClient N W, GitEnv R K W, GoRuntime W, Workers W}.
Context `{!SQSClientSpec (C := C) (W := W), !HttpClientSpec N W, !GitEnvSpec R K W,
  !GoRuntimeSpec W, !WorkersSpec W}.
Implicit Types (s : lifecycle C W).

Definition stuck s : Prop :=
  ∀ l, is_work l = true → life_step (N := N) (R := R) (K := K) l s = None.

Definition returned (c : caller) : Prop :=
  match c with Started _ | Stopped _ => True | _ => False end.

(** A goroutine that cannot move is at its [select], with [quit] open, or over. *)
Lemma run_stuck s i r :
  stuck s → lc_panicked s = None → lc_runs s !! i = Some r →
  r = RnDone ∨ (r = RnLoop ∧ quit_closed (lc_processor s) = false).
Proof.
  intros Hs Hn E. specialize (Hs (RunMove i false) eq_refl). unfold life_step in Hs.
  rewrite Hn in Hs. unfold life_run_step in Hs. rewrite E in Hs.
  destruct r as [| | |tok|[|[u pr] l]|]; try done; [|by left].
  right. split; [done|]. by destruct (quit_closed _).
Qed.

Lemma pull_stuck s i q :
  stuck s → lc_panicked s = None → lc_pulls s !! i = Some q →
  q = PlDone ∨ (q = PlLoop ∧ quit_closed (lc_processor s) = false).
Proof.
  intros Hs Hn E. specialize (Hs (PullMove i false) eq_refl). unfold life_step in Hs.
  rewrite Hn in Hs. unfold pull_step in Hs. rewrite E in Hs.
  destruct q as [| |[|[u r] l]|]; try done; [|by left].
  right. split; [done|]. by destruct (quit_closed _).
Qed.

Lemma inside_not_stuck w0 es s i c :
  LifeInv w0 es s → stuck s → lc_panicked s = None → lc_callers s !! i = Some c →
  inside c = 0.
Proof.
  intros [HC _] Hs Hn E. pose proof (life_caller_at _ _ _ E) as Hat.
  pose proof (Hs (CallerMove i) eq_refl) as Hm. unfold life_step in Hm. rewrite Hn in Hm.
  unfold life_call_step in Hm. rewrite E in Hm.
  destruct c; try done. cbn in Hat.
  pose proof (bi_quit _ (ct_basic _ HC) ltac:(lia)) as Hq.
  pose proof (bi_wg _ (ct_basic _ HC)) as B2.
  destruct (Z.eqb_spec (lc_wg s) 0) as [|Hw]; [done|exfalso].
  assert (Hr : sumZ run_live (lc_runs s) = 0).
  { destruct (decide (0 < sumZ run_live (lc_runs s))) as [Hp|Hp];
      [|pose proof (sumZ_nonneg run_live (lc_runs s) run_live_nonneg); lia].
    destruct (sumZ_pos_lookup _ _ run_live_nonneg Hp) as (j & r & Ej & Hr).
    destruct (run_stuck s j r Hs Hn Ej) as [-> |[_ ?]]; [done|congruence]. }
  destruct (decide (0 < sumZ pull_live (lc_pulls s))) as [Hp|Hp];
    [|pose proof (sumZ_nonneg pull_live (lc_pulls s) pull_live_nonneg); lia].
  destruct (sumZ_pos_lookup _ _ pull_live_nonneg Hp) as (j & q & Ej & Hql).
  destruct (pull_stuck s j q Hs Hn Ej) as [-> |[_ ?]]; [done|congruence].
Qed.

Lemma stuck_returned w0 es s :
  LifeInv w0 es s → stuck s → lc_panicked s = None → Forall returned (lc_callers s).
Proof.
  intros HI Hs Hn. apply Forall_lookup. intros i c E.
  pose proof (inside_not_stuck w0 es s i c HI Hs Hn E) as Hi.
  assert (Hl : lc_locked s = false).
  { pose proof (bi_lock _ (ct_basic _ (in_control _ _ _ HI))) as B1.
    destruct (lc_locked s); [|done]. cbn in B1.
    destruct (sumZ_pos_lookup inside (lc_callers s)) as (j & d & Ej & Hd);
      [by intros []|unfold count in B1; lia|].
    rewrite (inside_not_stuck w0 es s j d HI Hs Hn Ej) in Hd. done. }
  pose proof (Hs (CallerMove i) eq_refl) as Hm. unfold life_step in Hm. rewrite Hn in Hm.
  unfold life_call_step in Hm. rewrite E, Hl in Hm. by destruct c.
Qed.

(** C12. Every [Start] and every [Stop] returns: without the tickers, no infinite
    sequence of moves exists, from any state and for any number of lives; and
    when no move is left in one life, every caller has returned and every
    goroutine has ended or waits at its [select] for a tick or for a [Stop]. So
    there is no deadlock between the mutex, the wait group and the channel. *)
Theorem calls_always_return p w ls s :
  ok w → fresh p → life_exec (N := N) (R := R) (K := K) ls (life_init p w) = Some s →
  lives s <= 1 → lc_panicked s = None →
  Acc (works (N := N) (R := R) (K := K)) s ∧
  (stuck s → Forall returned (lc_callers s) ∧
    Forall (λ r, r = RnDone ∨ (r = RnLoop ∧ quit_closed (lc_processor s) = false)) (lc_runs s) ∧
    Forall (λ q, q = PlDone ∨ (q = PlLoop ∧ quit_closed (lc_processor s) = false)) (lc_pulls s)).
Proof.
  intros Hok Hf Hs Hl Hn. split; [apply works_wf|]. intros Hst.
  destruct (life_run_inv p w ls s Hok Hf Hs Hl) as [(_ & es & HI)|[[? Hp] _]]; [|congruence].
  split; [by eapply stuck_returned|].
  split; apply Forall_lookup; intros i x E; [by eapply run_stuck|by eapply pull_stuck].
Qed.
End Progress.

(** [run], which was at [E], is back there. *)
Ltac back_to_loop E :=
  repeat match goal with s := to_run _ _ _ |- _ => subst s end;
  unfold to_run, with_goroutines, with_state; cbn;
  rewrite !list_insert_insert_eq, (list_insert_id _ _ _ E); reflexivity.

(** ** The operations of Processor are the steps of one goroutine after the other *)

Section Sequential.
Context {C N R K W : Type}.
Context `{SQSClient C W, HttpClient N W, GitEnv R K W, GoRuntime W, Workers W}.
Implicit Types (p : processor C) (w : W) (s : lifecycle C W).
Local Abbreviation exec := (life_exec (N := N) (R := R) (K := K)).

Lemma life_exec_app ls1 ls2 s s1 : exec ls1 s = Some s1 → exec (ls1 ++ ls2) s = exec ls2 s1.
Proof.
  revert s. induction ls1 as [|l ls1 IH]; intros s Hs; simplify_eq/=; [done|].
  destruct (life_step l s); [by apply IH|done].
Qed.

(** [Start] after the check, in the pieces of [life_call_step]. *)
Definition start_rest (token : option token) : go (processor C * W) (option error) :=
  (q <- go_get ;
   _ <- (if NotEmpty (proc_repositories q.1) then start_paths else go_ret ()) ;
   _ <- on_env workerPool_Start ;
   _ <- refreshPollers token ;
   _ <- go_modify (λ q, (set_running true q.1, q.2)) ;
   go_ret None)%go.

Lemma Start_pieces q :
  proc_isRunning q.1 = false →
  Start (H := N) (R := R) (K := K) q =
    go_bind (start_downloads (N := N) (R := R) (K := K)) (λ r,
      match r with inr err => go_ret (Some err) | inl token => start_rest token end) q.
Proof.
  intros Hr. unfold Start, start_downloads, start_rest, start_paths, go_get. unfold go_bind at 1.
  rewrite Hr. unfold go_bind at 1. symmetry. unfold go_bind at 1 2 3. cbn [fst].
  destruct (receiveToken q) as [[[tok|err]|why] q1]; [|done|done]. unfold go_bind at 1. symmetry.
  unfold go_bind at 1. destruct (on_env _ q1) as [[opts|why] q2]; [|done].
  unfold go_bind at 1. symmetry. unfold go_bind at 1.
  destruct (on_repositories _ q2) as [[[err|]|why] q3]; try done.
  cbn. unfold go_bind at 1. symmetry. unfold go_bind at 1. by destruct (NotEmpty _).
Qed.

(** Where the [i]th caller is, in a process that runs. *)
Definition at_caller (i : nat) (c : caller) s : Prop :=
  lc_panicked s = None ∧ lc_callers s !! i = Some c.

Lemma at_to_caller i c c' s s' :
  at_caller i c s → lc_panicked s' = None → lc_callers s' = lc_callers s →
  at_caller i c' (to_caller i c' s').
Proof.
  intros [_ E] Hn Hc. split; [done|]. cbn. rewrite Hc.
  apply list_lookup_insert_eq. by eapply lookup_lt_Some.
Qed.

Lemma exec_caller i c s s' ls :
  at_caller i c s → life_call_step (N := N) (R := R) (K := K) i s = Some s' →
  exec (CallerMove i :: ls) s = exec ls s'.
Proof. intros [Hn _] Hs. cbn [life_exec]. unfold life_step. by rewrite Hn, Hs. Qed.

(** The caller's next move runs [m] and goes to [c']. *)
Definition runs_to {A} i c c' (m : go (processor C * W) A) : Prop :=
  ∀ s, lc_callers s !! i = Some c →
    life_call_step (N := N) (R := R) (K := K) i s = Some (perform m (λ _, to_caller i c') s).

Lemma exec_runs_to {A} i c c' (m : go (processor C * W) A) s a p w :
  runs_to i c c' m → at_caller i c s → m (lc_processor s, lc_env s) = (Done a, (p, w)) →
  (∀ ls, exec (CallerMove i :: ls) s = exec ls (to_caller i c' (with_state p w s))) ∧
  at_caller i c' (to_caller i c' (with_state p w s)).
Proof.
  intros Hm Hat E. split; [intros ls|apply (at_to_caller i c c' s _ Hat); [apply Hat|done]].
  rewrite (exec_caller i c s _ ls Hat (Hm s (proj2 Hat))). by rewrite (perform_run _ _ _ _ _ _ E).
Qed.

(** [Start] from the call of [workerPool.Start]. *)
Lemma pool_steps i s tok q r p' w' :
  at_caller i (StPool tok) s → q = (lc_processor s, lc_env s) →
  (_ <- on_env workerPool_Start ;
   _ <- refreshPollers tok ;
   _ <- go_modify (λ q, (set_running true q.1, q.2)) ;
   go_ret (@None error))%go q = (Done r, (p', w')) →
  r = None ∧ ∃ ls, Forall (eq (CallerMove i)) ls ∧
    exec ls s = Some (mkLifecycle p' w' false (lc_wg s + 1)
      (<[i := Started None]> (lc_callers s)) (lc_runs s ++ [RnBegin]) (lc_pulls s) None).
Proof.
  intros Hat -> Hs. unfold go_bind at 1 in Hs.
  destruct (on_env workerPool_Start _) as [[a|why] [p1 w1]] eqn:E1; [|done].
  destruct (exec_runs_to i (StPool tok) (StRefresh tok) (on_env workerPool_Start) s a p1 w1
    ltac:(intros t Et; unfold life_call_step; by rewrite Et) Hat E1) as [X1 Hat1].
  set (s1 := to_caller i (StRefresh tok) (with_state p1 w1 s)) in *.
  unfold go_bind at 1 in Hs.
  destruct (refreshPollers tok (p1, w1)) as [[[]|why] [p2 w2]] eqn:E2; [|done].
  cbn in Hs. injection Hs as <- <- <-.
  assert (Hm2 : life_call_step (N := N) (R := R) (K := K) i s1 =
    Some (to_caller i StEnd (go_run (with_state p2 w2 s1)))).
  { unfold life_call_step. rewrite (proj2 Hat1). by rewrite (perform_run _ _ s1 _ _ _ E2). }
  pose proof (at_to_caller i _ StEnd s1 (go_run (with_state p2 w2 s1)) Hat1 (proj1 Hat1) eq_refl)
    as Hat2.
  split; [done|]. eexists [_; _; _]. split; [by repeat constructor|].
  rewrite X1, (exec_caller _ _ _ _ _ Hat1 Hm2). cbn [life_exec]. unfold life_step.
  rewrite (proj1 Hat2). unfold life_call_step. rewrite (proj2 Hat2).
  unfold return_, to_caller, with_locked. cbn. by rewrite !list_insert_insert_eq, (proj1 Hat).
Qed.

(** A caller that returns an error in its next move. *)
Lemma returned_steps i c err p w s :
  at_caller i c s →
  life_call_step (N := N) (R := R) (K := K) i s =
    Some (return_ i (Started (Some err)) (with_state p w s)) →
  ∃ ls (go_runs : list (runner C)) go_pulls, Forall (eq (CallerMove i)) ls ∧
    exec ls s = Some (mkLifecycle p w false (lc_wg s + Z.of_nat (length go_runs + length go_pulls))
      (<[i := Started (Some err)]> (lc_callers s)) (lc_runs s ++ go_runs) (lc_pulls s ++ go_pulls)
      None) ∧
    go_runs = [] ∧ (go_pulls = [] ∨ Some err = None ∧ go_pulls = [PlBegin]).
Proof.
  intros Hat Hm. exists [CallerMove i], [], []. split; [by constructor|].
  split; [|by split; [|left]]. rewrite (exec_caller i _ s _ [] Hat Hm). cbn.
  unfold return_, to_caller, with_locked. cbn. by rewrite Z.add_0_r, !app_nil_r, (proj1 Hat).
Qed.

(** The sequential [Start] is the interleaving in which nobody else moves:
    whenever it returns, the moves of the caller alone lead to the same
    processor, environment and result, with the goroutines it has started. *)
Theorem start_is_an_interleaving i s r p' w' :
  at_caller i StCheck s →
  Start (H := N) (R := R) (K := K) (lc_processor s, lc_env s) = (Done r, (p', w')) →
  ∃ ls go_runs go_pulls, Forall (eq (CallerMove i)) ls ∧
    exec ls s = Some (mkLifecycle p' w' false (lc_wg s + Z.of_nat (length go_runs + length go_pulls))
      (<[i := Started r]> (lc_callers s)) (lc_runs s ++ go_runs) (lc_pulls s ++ go_pulls) None) ∧
    go_runs = match r with Some _ => [] | None => [RnBegin] end ∧ (go_pulls = [] ∨ r = None ∧ go_pulls = [PlBegin]).
Proof.
  intros Hat Hs. destruct (proc_isRunning (lc_processor s)) eqn:Hr.
  { unfold Start in Hs. unfold go_bind at 1, go_get at 1 in Hs. cbn [fst] in Hs. rewrite Hr in Hs.
    injection Hs as <- <- <-.
    assert (Hm : life_call_step (N := N) (R := R) (K := K) i s =
      Some (return_ i (Started (Some already_running)) s))
      by (unfold life_call_step; by rewrite (proj2 Hat), Hr).
    apply (returned_steps i StCheck _ _ _ s Hat). by rewrite with_state_same. }
  rewrite Start_pieces in Hs by done. unfold go_bind at 1 in Hs.
  destruct (start_downloads _) as [[res|why] [p1 w1]] eqn:E1; [|done].
  assert (Hm : ∀ s', match res with
      | inr err => return_ i (Started (Some err)) (with_state p1 w1 s)
      | inl tok => if NotEmpty (proc_repositories p1)
          then to_caller i (StPaths tok) (go_pull (with_state p1 w1 s))
          else to_caller i (StPool tok) (with_state p1 w1 s)
      end = s' → life_call_step (N := N) (R := R) (K := K) i s = Some s').
  { intros s' <-. unfold life_call_step. rewrite (proj2 Hat), Hr. f_equal.
    by rewrite (perform_run _ _ _ _ _ _ E1). }
  destruct res as [tok|err].
  2: { injection Hs as <- <- <-. by apply (returned_steps i _ _ p1 w1 s Hat (Hm _ eq_refl)). }
  unfold start_rest in Hs. unfold go_bind at 1, go_get in Hs. cbn [fst] in Hs.
  destruct (NotEmpty (proc_repositories p1)).
  - unfold go_bind at 1 in Hs. destruct (start_paths _) as [[[]|why] [p2 w2]] eqn:E2; [|done].
    set (s1 := to_caller i (StPaths tok) (go_pull (with_state p1 w1 s))) in *.
    assert (Hat1 : at_caller i (StPaths tok) s1)
      by exact (at_to_caller i _ _ s _ Hat (proj1 Hat) eq_refl).
    destruct (exec_runs_to i (StPaths tok) (StPool tok) start_paths s1 () p2 w2
      ltac:(intros t Et; unfold life_call_step; by rewrite Et) Hat1 E2) as [X2 Hat2].
    destruct (pool_steps i _ tok _ r p' w' Hat2 eq_refl Hs)
      as (-> & ls & Hls & X3).
    exists (CallerMove i :: CallerMove i :: ls), [RnBegin], [PlBegin].
    split; [by repeat constructor|]. split; [|by split; [|right]].
    rewrite (exec_caller i _ s _ _ Hat (Hm _ eq_refl)), X2, X3. cbn.
    rewrite !list_insert_insert_eq. by rewrite <- Z.add_assoc.
  - rewrite go_ret_bind in Hs. cbv beta iota in Hm. set (s1 := to_caller i (StPool tok) (with_state p1 w1 s)) in *.
    assert (Hat1 : at_caller i (StPool tok) s1)
      by exact (at_to_caller i _ _ s _ Hat (proj1 Hat) eq_refl).
    destruct (pool_steps i _ tok _ r p' w' Hat1 eq_refl Hs)
      as (-> & ls & Hls & X3).
    exists (CallerMove i :: ls), [RnBegin], []. split; [by constructor|]. split; [|by split; [|left]].
    rewrite (exec_caller i _ s _ _ Hat (Hm _ eq_refl)), X3. cbn.
    by rewrite list_insert_insert_eq, app_nil_r.
Qed.

Lemma exec_run i tick s s' ls :
  lc_panicked s = None → life_run_step (N := N) i tick s = Some s' →
  exec (RunMove i tick :: ls) s = exec ls s'.
Proof. intros Hn Hs. cbn [life_exec]. unfold life_step. by rewrite Hn, Hs. Qed.

Lemma exec_pull i tick s s' ls :
  lc_panicked s = None → pull_step (R := R) (K := K) i tick s = Some s' →
  exec (PullMove i tick :: ls) s = exec ls s'.
Proof. intros Hn Hs. cbn [life_exec]. unfold life_step. by rewrite Hn, Hs. Qed.

Definition exec_to s s' : Prop := ∃ ls, exec ls s = Some s'.

Lemma exec_to_refl s : exec_to s s.
Proof. by exists []. Qed.

Lemma exec_to_trans s1 s2 s3 : exec_to s1 s2 → exec_to s2 s3 → exec_to s1 s3.
Proof.
  intros [ls1 E1] [ls2 E2]. exists (ls1 ++ ls2). by rewrite (life_exec_app ls1 ls2 s1 s2 E1).
Qed.

Lemma run_to i tick s s' :
  lc_panicked s = None → life_run_step (N := N) i tick s = Some s' → exec_to s s'.
Proof. intros Hn Hs. exists [RunMove i tick]. by rewrite (exec_run i tick s s' [] Hn Hs). Qed.

Lemma lookup_to_run i r r' s : lc_runs s !! i = Some r → lc_runs (to_run i r' s) !! i = Some r'.
Proof. intros E. apply list_lookup_insert_eq. by eapply lookup_lt_Some. Qed.

(** One token refresh is a sequence of moves of [run]. *)
Lemma tick_steps i s p w :
  lc_panicked s = None → lc_runs s !! i = Some RnLoop →
  run_tick (H := N) (lc_processor s, lc_env s) = (Done (), (p, w)) →
  exec_to s (with_state p w s).
Proof.
  intros Hn E Hs. unfold run_tick in Hs. unfold go_bind at 1 in Hs.
  destruct (receiveToken (lc_processor s, lc_env s)) as [[r|why] [p1 w1]] eqn:E1; [|done].
  set (s1 := to_run i RnToken s).
  pose proof (lookup_to_run i RnLoop RnToken s E) as L1. fold s1 in L1.
  apply (exec_to_trans s s1).
  { apply (run_to i true); [done|]. unfold life_run_step. by rewrite E. }
  assert (Hm : life_run_step (N := N) i false s1 = Some match r with
      | inl token => to_run i (RnRefresh token) (with_state p1 w1 s1)
      | inr _ => perform (NewTicker (proc_errorRefreshPeriod p1)) (λ _, to_run i RnLoop)
          (with_state p1 w1 s1)
      end).
  { unfold life_run_step. rewrite L1. by rewrite (perform_run _ _ s1 _ _ _ E1). }
  destruct r as [tok|err].
  - unfold go_bind at 1 in Hs.
    destruct (refreshPollers tok (p1, w1)) as [[[]|why] [p2 w2]] eqn:E2; [|done].
    unfold go_bind, go_get in Hs. cbn [fst] in Hs.
    set (s2 := to_run i (RnRefresh tok) (with_state p1 w1 s1)) in *.
    apply (exec_to_trans _ s2); [by apply (run_to i false)|].
    pose proof (lookup_to_run i _ (RnRefresh tok) (with_state p1 w1 s1) L1) as L2.
    apply (run_to i false); [done|]. unfold life_run_step. fold s2 in L2. rewrite L2.
    rewrite (perform_run _ _ s2 _ _ _ E2). cbn [lc_processor with_state].
    rewrite (perform_run _ _ (with_state p2 w2 s2) _ _ _ Hs). f_equal.
    back_to_loop E.
  - apply (run_to i false); [done|]. rewrite Hm. unfold go_bind, go_get in Hs. cbn [fst] in Hs.
    rewrite (perform_run _ _ (with_state p1 w1 s1) _ _ _ Hs). f_equal. back_to_loop E.
Qed.

Lemma ticks_steps n i s p w :
  lc_panicked s = None → lc_runs s !! i = Some RnLoop →
  run_ticks (H := N) n (lc_processor s, lc_env s) = (Done (), (p, w)) →
  exec_to s (with_state p w s).
Proof.
  revert s. induction n as [|n IH]; intros s Hn E Hs; cbn [run_ticks] in Hs.
  { injection Hs as <- <-. rewrite with_state_same. apply exec_to_refl. }
  unfold go_bind in Hs.
  destruct (run_tick _) as [[[]|why] [p1 w1]] eqn:E1; [|done].
  apply (exec_to_trans _ (with_state p1 w1 s)); [by eapply tick_steps|].
  by apply (IH (with_state p1 w1 s)).
Qed.

Lemma stop_pollers_steps l i s p w :
  lc_panicked s = None → lc_runs s !! i = Some (RnStop l) →
  stop_pollers l (lc_processor s, lc_env s) = (Done (), (p, w)) →
  exec_to s (to_run i (RnStop []) (with_state p w s)).
Proof.
  revert s. induction l as [|[u pr] l IH]; intros s Hn E Hs; cbn [stop_pollers] in Hs.
  { injection Hs as <- <-. rewrite with_state_same. exists []. cbn [life_exec]. f_equal.
    unfold to_run, with_goroutines. rewrite (list_insert_id _ _ _ E). by destruct s. }
  unfold go_bind in Hs.
  destruct (on_env (poller_Stop u) _) as [[a|why] [p1 w1]] eqn:E1; [|done].
  set (s1 := to_run i (RnStop l) (with_state p1 w1 s)).
  apply (exec_to_trans _ s1).
  { apply (run_to i false); [done|]. unfold life_run_step. rewrite E.
    by rewrite (perform_run _ _ s _ _ _ E1). }
  assert (E2 : lc_runs s1 !! i = Some (RnStop l))
    by exact (lookup_to_run i _ (RnStop l) (with_state p1 w1 s) E).
  pose proof (IH s1 Hn E2 Hs) as Hx. revert Hx. subst s1.
  unfold to_run, with_goroutines, with_state. cbn. by rewrite list_insert_insert_eq.
Qed.

(** The state in which [Stop] begins: [run] and the pullers, if any, wait. *)
Definition idle_life (p : processor C) (w : W) (cs : list caller) (pulls : list puller) :
    lifecycle C W :=
  mkLifecycle p w true (1 + Z.of_nat (length pulls)) cs [RnLoop] pulls None.

(** The moves of the puller and of [run] once [quit] is closed. *)
Lemma quit_steps p w cs (pulls : list puller) p1 w1 :
  pulls = [] ∨ pulls = [PlLoop] → quit_closed p = true →
  run_quit (p, w) = (Done (), (p1, w1)) →
  exec_to (idle_life p w cs pulls)
    (mkLifecycle p1 w1 true 0 cs [RnDone] ((λ _, PlDone) <$> pulls) None).
Proof.
  intros Hpl Hq Hs. set (s0 := mkLifecycle p w true 1 cs [RnLoop] ((λ _, PlDone) <$> pulls) None).
  apply (exec_to_trans _ s0).
  { destruct Hpl as [-> | ->]; [apply exec_to_refl|]. exists [PullMove 0 false].
    apply (exec_pull 0 false (idle_life p w cs [PlLoop]) s0 []); [done|].
    unfold pull_step. cbn. by rewrite Hq. }
  unfold run_quit in Hs. unfold go_bind, go_get in Hs. cbn [fst] in Hs.
  destruct (on_env _ (p, w)) as [[l|why] [p2 w2]] eqn:E1; [|done].
  set (s1 := to_run 0 (RnStop l) (with_state p2 w2 s0)).
  apply (exec_to_trans _ s1).
  { apply (run_to 0 false); [done|]. unfold life_run_step. cbn [lc_runs s0 lookup list_lookup].
    cbn [lc_processor s0]. rewrite Hq. by rewrite (perform_run _ _ s0 _ _ _ E1). }
  apply (exec_to_trans _ _ _ (stop_pollers_steps l 0 s1 p1 w1 eq_refl eq_refl Hs)).
  by apply (run_to 0 false).
Qed.

(** The sequential [Stop] is an interleaving too. *)
Lemma stop_steps p w cs pulls i r p' w' :
  pulls = [] ∨ pulls = [PlLoop] → cs !! i = Some SpCheck →
  Stop (R := R) (K := K) (p, w) = (Done r, (p', w')) →
  ∃ s', exec_to (idle_life p w cs pulls) s' ∧ lc_processor s' = p' ∧ lc_env s' = w' ∧
    lc_locked s' = false ∧ lc_panicked s' = None ∧ lc_callers s' = <[i := Stopped r]> cs ∧
    (r = None → lc_wg s' = 0 ∧ lc_runs s' = [RnDone] ∧ lc_pulls s' = (λ _, PlDone) <$> pulls).
Proof.
  intros Hpl E Hs. set (s0 := idle_life p w cs pulls).
  assert (Hat : at_caller i SpCheck s0) by done.
  unfold Stop in Hs. unfold go_bind at 1, go_get in Hs. cbn [fst] in Hs.
  destruct (proc_isRunning p) eqn:Hr; cbn [negb] in Hs.
  2: { injection Hs as <- <- <-. eexists. split.
       - exists [CallerMove i]. rewrite (exec_caller i _ s0 (return_ i (Stopped (Some not_running)) s0) [] Hat);
           [reflexivity|]. unfold life_call_step. rewrite (proj2 Hat). cbn [s0 idle_life lc_processor].
         by rewrite Hr.
       - by split_and!. }
  destruct (quit_closed p) eqn:Hq; [done|].
  unfold go_bind at 1, go_put in Hs. cbn [fst snd] in Hs.
  set (s1 := idle_life (set_quit p) w (<[i := SpWait]> cs) pulls).
  assert (X1 : exec_to s0 s1).
  { exists [CallerMove i]. rewrite (exec_caller i _ s0 s1 [] Hat); [done|].
    unfold life_call_step. rewrite (proj2 Hat). cbn [s0 idle_life lc_processor]. by rewrite Hr, Hq. }
  unfold go_bind at 1 in Hs. destruct (run_quit _) as [[[]|why] [p2 w2]] eqn:E2; [|done].
  pose proof (quit_steps (set_quit p) w (<[i := SpWait]> cs) pulls p2 w2 Hpl eq_refl E2) as X2.
  fold s1 in X2. set (s2 := mkLifecycle p2 w2 true 0 _ _ _ _) in X2.
  assert (Hat2 : at_caller i SpWait s2)
    by (split; [done|]; apply list_lookup_insert_eq; by eapply lookup_lt_Some).
  pose proof (at_to_caller i _ SpPool s2 s2 Hat2 eq_refl eq_refl) as Hat3.
  unfold go_bind at 1 in Hs. destruct (on_env workerPool_Stop _) as [[a|why] [p3 w3]] eqn:E3; [|done].
  destruct (exec_runs_to i SpPool SpRemove (on_env workerPool_Stop) (to_caller i SpPool s2) a p3 w3
    ltac:(intros t Et; unfold life_call_step; by rewrite Et) Hat3 E3) as [X4 Hat4].
  set (s4 := to_caller i SpRemove _) in *.
  unfold go_bind at 1 in Hs. destruct (on_repositories RemoveAll _) as [[b|why] [p4 w4]] eqn:E4; [|done].
  destruct (exec_runs_to i SpRemove SpEnd (on_repositories (RemoveAll (R := R) (K := K))) s4 b p4 w4
    ltac:(intros t Et; unfold life_call_step; by rewrite Et) Hat4 E4) as [X5 Hat5].
  set (s5 := to_caller i SpEnd _) in *. cbn in Hs. injection Hs as <- <- <-.
  eexists. split.
  { apply (exec_to_trans _ _ _ X1), (exec_to_trans _ _ _ X2).
    exists [CallerMove i; CallerMove i; CallerMove i; CallerMove i].
    rewrite (exec_caller i SpWait s2 (to_caller i SpPool s2) _ Hat2);
      [|unfold life_call_step; by rewrite (proj2 Hat2)].
    rewrite X4, X5. cbn [life_exec]. unfold life_step. rewrite (proj1 Hat5).
    unfold life_call_step. by rewrite (proj2 Hat5). }
  split_and!; try done. cbn. by rewrite !list_insert_insert_eq.
Qed.
End Sequential.

(** ** A life in which a refresh and a pull overlap with [Stop] *)

Section LifecycleExample.

#[local] Existing Instance rec_workers.
#[local] Existing Instance rec_workers_spec.
#[local] Existing Instance life_client.
#[local] Existing Instance life_client_spec.

Definition git_life_processor : processor aws_Config :=
  mkProcessor ∅
    (mkConfiguration (mkSpecs {[ "Create" := local_action; "Close" := git_action ]} ∅ [] []) ""
      "key" "https://api" (mkPollerConf 0 0 0) (mkPoolConf 0 0 0 0 0) "info" 4)
    ∅ ∅ default_successRefreshPeriod default_errorRefreshPeriod false false.

(** [Stop] closes [quit] while the second token is on its way and the puller is
    about to pull. *)
Definition overlapping : list life_label :=
  [CallStart; CallStop; CallerMove 0; CallerMove 0; CallerMove 0; PullMove 0 false; CallerMove 0;
   CallerMove 0; CallerMove 0; RunMove 0 false; RunMove 0 true; PullMove 0 true; CallerMove 1;
   CallerMove 1; RunMove 0 false; PullMove 0 false; RunMove 0 false; PullMove 0 false;
   RunMove 0 false; RunMove 0 false; PullMove 0 false; RunMove 0 false; RunMove 0 false;
   CallerMove 1; CallerMove 1; CallerMove 1; CallerMove 1].

Definition run_life (ls : list life_label) : lifecycle aws_Config rec_state :=
  default (life_init git_life_processor [])
    (life_exec (N := unit) (R := string) (K := unit) ls (life_init git_life_processor [])).

(** The calls that start, stop or change something. *)
Definition life_actions (es : list event) : list event :=
  List.filter (λ e, match e with EvDo _ _ _ | EvChmod _ _ _ => false | _ => true end) es.

Example overlapping_example :
  lc_callers (run_life overlapping) = [Started None; Stopped None] ∧
  life_actions (lc_env (run_life overlapping)) =
  [EvClone "/tmp/jec1" "testUrl" true None; EvPoolStart None; EvPollerStart "q1" None;
   EvPollerStart "q2" None; EvFetch "/tmp/jec1" true None; EvReset "/tmp/jec1" "abcdef" None;
   EvPollerStart "q3" None; EvPollerStop "q1" None; EvPollerStop "q3" None;
   EvPollerStop "q2" None; EvPoolStop None; EvRemoveAll "/tmp/jec1" None].
Proof. vm_compute. by split. Qed.

(** A second life ends in a panic. *)
Example second_life_panics :
  lc_panicked (run_life (overlapping ++ [CallStart; CallStop] ++ repeat (CallerMove 2) 6 ++
    [CallerMove 3; CallerMove 3])) = Some "close of closed channel".
Proof. vm_compute. reflexivity. Qed.

Lemma git_life_ok : ok ([] : rec_state).
Proof. exact I. Qed.

Lemma git_life_fresh : fresh git_life_processor.
Proof. by vm_compute. Qed.

(** The state is reached, in a first life and without a panic. *)
Definition first_life (ls : list life_label) : Prop :=
  life_exec (N := unit) (R := string) (K := unit) ls
    (life_init git_life_processor ([] : rec_state)) = Some (run_life ls) ∧
  lives (run_life ls) <= 1 ∧ lc_panicked (run_life ls) = None.

Lemma overlapping_life : first_life overlapping.
Proof. split; [|split]; vm_compute; [reflexivity|discriminate|reflexivity]. Qed.

Lemma refreshing_life : first_life (firstn 11 overlapping).
Proof. split; [|split]; vm_compute; [reflexivity|discriminate|reflexivity]. Qed.

Lemma overlapping_stopped :
  lc_callers (run_life overlapping) !! 1%nat = Some (Stopped None).
Proof. vm_compute. reflexivity. Qed.

Lemma interleaved_stop_leaves_nothing_witness :
  ∃ es, extends es ([] : rec_state) (lc_env (run_life overlapping)) ∧
    started es ≡ₚ stopped es ∧ shut es.
Proof.
  destruct overlapping_life as (He & Hl & Hn).
  destruct (interleaved_stop_leaves_nothing (N := unit) (R := string) (K := unit)
    git_life_processor ([] : rec_state) overlapping _ git_life_ok git_life_fresh He Hl)
    as [(_ & es & Hx & _ & Hs)|[[why Hp] _]].
  - destruct (Hs 1%nat overlapping_stopped) as (_ & Hb & Hsh & _). exists es.
    split; [exact Hx|]. split; [exact Hb|exact Hsh].
  - rewrite Hn in Hp. discriminate.
Defined.

Lemma pollers_have_one_owner_witness :
  let s := run_life (firstn 11 overlapping) in
  sumZ (accessing (proc_isRunning (lc_processor s))) (lc_callers s) +
    sumZ run_live (lc_runs s) <= 1.
Proof.
  destruct refreshing_life as (He & Hl & Hn).
  exact (pollers_have_one_owner (N := unit) (R := string) (K := unit) git_life_processor
    ([] : rec_state) (firstn 11 overlapping) _ git_life_ok git_life_fresh He Hl Hn).
Defined.

Lemma calls_always_return_witness :
  Acc (works (N := unit) (R := string) (K := unit)) (run_life (firstn 11 overlapping)).
Proof.
  destruct refreshing_life as (He & Hl & Hn).
  exact (proj1 (calls_always_return (N := unit) (R := string) (K := unit) git_life_processor
    ([] : rec_state) (firstn 11 overlapping) _ git_life_ok git_life_fresh He Hl Hn)).
Defined.

Definition checking_life : lifecycle aws_Config rec_state := run_life (firstn 3 overlapping).

Lemma checking_life_at : at_caller 0 StCheck checking_life.
Proof. split; vm_compute; reflexivity. Qed.

Lemma checking_life_starts : ∃ p w, Start (H := unit) (R := string) (K := unit)
  (lc_processor checking_life, lc_env checking_life) = (Done None, (p, w)).
Proof. eexists _, _. vm_compute. reflexivity. Qed.

Lemma start_is_an_interleaving_witness :
  ∃ ls go_runs go_pulls p w, Forall (eq (CallerMove 0)) ls ∧
    life_exec (N := unit) (R := string) (K := unit) ls checking_life =
      Some (mkLifecycle p w false
        (lc_wg checking_life + Z.of_nat (length go_runs + length go_pulls))
        (<[0%nat := Started None]> (lc_callers checking_life))
        (lc_runs checking_life ++ go_runs) (lc_pulls checking_life ++ go_pulls) None).
Proof.
  destruct checking_life_starts as (p & w & E).
  destruct (start_is_an_interleaving (N := unit) (R := string) (K := unit) 0 checking_life
    None p w checking_life_at E) as (ls & rs & ps & Hls & Hx & _).
  exists ls, rs, ps, p, w. split; [exact Hls|exact Hx].
Defined.
End LifecycleExample.
