(* ===== verification/Main.v ===== *)
(** * main/main.go: the program from its start to its exit.

    The log file and [CheckLogFile]'s goroutine are in LogFiles; the metrics
    server and the flag for its port are left out.
    [main] starts the processor in a goroutine and waits for a signal;
    [startStopMu] makes the processor's [Start] and [Stop] exclude each other,
    so a signal is served before the start or after it. The result is the
    status the process exits with: 1 for logrus's [Fatal] functions. *)

From stdpp Require Import base list numbers strings gmap.
From Stdlib Require Import Lia ZifyBool.
From S2P Require Import Prelude Configuration WorkerPool GoError Interfaces GoStrings SqsProvider.
From S2P Require Import Retryer Git Actions Reader Processor ProcessorProps ProcessorClaims.
From S2P Require Import Lifecycle LifecycleProps LifecycleClaims.
Local Open Scope Z_scope.

(** When the signal arrives: before [Start] has the lock, or after the given
    number of token refreshes. *)
Inductive schedule : Type :=
  | SignalFirst
  | SignalAfter (ticks : nat).

Section Main.
Context {C N R K W : Type}.
Context `{SQSClient C W, HttpClient N W, ConfEnv W, GitEnv R K W, GoRuntime W, Workers W}.

(** [queue.UserAgentHeader]: [fmt.Sprintf("%s/%s %s (%s/%s)", ...)]. *)
Definition user_agent (JECVersion JECCommitVersion version goos goarch : string) : string :=
  JECVersion +:+ "/" +:+ JECCommitVersion +:+ " " +:+ version +:+
  " (" +:+ goos +:+ "/" +:+ goarch +:+ ")".

Definition exit_status (err : option error) : Z :=
  match err with Some _ => 1 | None => 0 end.

(** The goroutine that starts the processor, and the wait for the signal. *)
Definition serve (sch : schedule) : go (processor C * W) Z :=
  match sch with
  | SignalFirst => (err <- Stop (R := R) (K := K) ; go_ret (exit_status err))%go
  | SignalAfter n =>
      (err <- Start (H := N) (R := R) (K := K) ;
       match err with
       | Some _ => go_ret 1
       | None =>
           _ <- run_begin ;
           _ <- run_ticks (H := N) n ;
           err <- Stop (R := R) (K := K) ;
           go_ret (exit_status err)
       end)%go
  end.

(** Runs a processor's operation in the environment. *)
Definition with_processor {A : Type} (p : processor C) (m : go (processor C * W) A) : go W A :=
  λ w, let '(r, (_, w')) := m (p, w) in (r, w').

Definition main (sch : schedule) : go W Z :=
  (r <- Read (R := R) (K := K) ;
   match r.2 with
   | Some _ => go_ret 1
   | None =>
       configuration <- deref r.1 ;
       queueProcessor <- NewProcessor configuration ;
       with_processor queueProcessor (serve sch)
   end)%go.

(** ** The schedules are interleavings of the life cycle *)

(** The calls that have returned, and the exit status they give. *)
Definition served (sch : schedule) (code : Z) (cs : list caller) : Prop :=
  match sch with
  | SignalFirst => ∃ err, cs = [Stopped err] ∧ code = exit_status err
  | SignalAfter _ =>
      (∃ e, cs = [Started (Some e)] ∧ code = 1) ∨
      (∃ err, cs = [Started None; Stopped err] ∧ code = exit_status err)
  end.

(** After [Start], the goroutines come to wait. *)
Lemma begin_steps (p : processor C) (w : W) cs wg (pulls : list puller) :
  run_begin (p, w) = (Done (), (p, w)) → pulls = [] ∨ pulls = [PlBegin] →
  exec_to (N := N) (R := R) (K := K) (mkLifecycle p w false wg cs [RnBegin] pulls None)
    (mkLifecycle p w false wg cs [RnLoop] ((λ _, PlLoop) <$> pulls) None).
Proof.
  intros Hb Hpl. set (s0 := mkLifecycle p w false wg cs [RnBegin] pulls None).
  set (s1 := mkLifecycle p w false wg cs [RnLoop] pulls None).
  apply (exec_to_trans _ s1).
  { apply (run_to 0 false); [done|]. unfold life_run_step. cbn [lc_runs s0 lookup list_lookup].
    by rewrite (perform_run _ _ s0 _ _ _ Hb). }
  destruct Hpl as [-> | ->]; [apply exec_to_refl|]. by exists [PullMove 0 false].
Qed.

(** C14. The schedules of [main] are interleavings of the life cycle: whenever
    the sequence of [Start], the token refreshes and [Stop] comes to an exit
    status, some interleaving of the callers, [run] and the puller reaches the
    same processor and environment, with the calls returned that give this
    status. *)
Theorem schedules_are_interleavings sch p w code p' w' :
  proc_isRunning p = false →
  serve sch (p, w) = (Done code, (p', w')) →
  ∃ s, exec_to (N := N) (R := R) (K := K) (life_init p w) s ∧ lc_panicked s = None ∧
    lc_processor s = p' ∧ lc_env s = w' ∧ served sch code (lc_callers s).
Proof.
  intros Hr Hs. destruct sch as [|n]; cbn [serve] in Hs.
  { unfold Stop in Hs. unfold go_bind, go_get in Hs. cbn [fst] in Hs. rewrite Hr in Hs.
    injection Hs as <- <- <-. eexists. split.
    - exists [CallStop; CallerMove 0; CallerMove 0]. cbn. rewrite Hr. reflexivity.
    - split; [done|]. split; [done|]. split; [done|]. by eexists. }
  unfold go_bind at 1 in Hs. destruct (Start (p, w)) as [[r|why] [p1 w1]] eqn:E1; [|done].
  set (s0 := mkLifecycle p w true 0 [StCheck] [] [] None : lifecycle C W).
  assert (X0 : exec_to (N := N) (R := R) (K := K) (life_init p w) s0)
    by (by exists [CallStart; CallerMove 0]).
  destruct (start_is_an_interleaving 0 s0 r p1 w1 (conj eq_refl eq_refl) E1)
    as (ls & rs & pulls & _ & X1 & -> & Hpl).
  cbn in X1. pose proof (exec_to_trans _ _ _ X0 (ex_intro _ ls X1)) as X01.
  destruct r as [e|].
  { injection Hs as <- <- <-. eexists. split; [exact X01|]. split_and!; try done.
    left. by eexists. }
  unfold go_bind at 1 in Hs. destruct (run_begin (p1, w1)) as [[[]|why] q] eqn:E2; [|done].
  assert (Hq : q = (p1, w1)) by (revert E2; unfold run_begin, go_bind, go_get, NewTicker; case_match;
    by intros [= <-]). subst q.
  assert (Hpl' : pulls = [] ∨ pulls = [PlBegin]) by (destruct Hpl as [?|[_ ?]]; auto).
  pose proof (exec_to_trans _ _ _ X01 (begin_steps p1 w1 [Started None] _ pulls E2 Hpl')) as X2.
  set (s2 := mkLifecycle p1 w1 false _ _ _ _ _) in X2.
  unfold go_bind at 1 in Hs. destruct (run_ticks n (p1, w1)) as [[[]|why] [p2 w2]] eqn:E3; [|done].
  pose proof (exec_to_trans _ _ _ X2 (ticks_steps n 0 s2 p2 w2 eq_refl eq_refl E3)) as X3.
  unfold go_bind at 1 in Hs. destruct (Stop (p2, w2)) as [[err|why] [p3 w3]] eqn:E4; [|done].
  injection Hs as <- <- <-.
  destruct (stop_steps p2 w2 [Started None; SpCheck] ((λ _, PlLoop) <$> pulls) 1 err p3 w3)
    as (s' & X4 & Hp & Hw & _ & Hn & Hc & _); [by destruct Hpl' as [-> | ->]; auto|done|done|].
  exists s'. split; [|split; [done|split; [done|split; [done|right; by exists err]]]].
  apply (exec_to_trans _ _ _ X3). eapply exec_to_trans; [|exact X4].
  exists [CallStop; CallerMove 1]. cbn. by destruct Hpl' as [-> | ->].
Qed.
End Main.

Section MainClaims.
Context {C N R K W : Type}.
Context `{Logged W, SQSClient C W, HttpClient N W, ConfEnv W, GitEnv R K W, GoRuntime W, Workers W}.
Context `{!SQSClientSpec (C := C) (W := W), !HttpClientSpec N W, !GitEnvSpec R K W,
  !GoRuntimeSpec W, !WorkersSpec W}.
Implicit Types (p : processor C) (w : W).

Lemma NewProcessor_run c w :
  ok w → ∃ p w', NewProcessor (C := C) c w = (Done p, w') ∧ extends [] w w' ∧ fresh p.
Proof.
  intros Hok. unfold NewProcessor, newActionLoggers.
  destruct (map_range_spec (conf_Mappings c) w Hok) as (l & w' & E & Hx & _).
  change (conf_Mappings (mkConfiguration (Specs c) _ _ _ _ _ _ _)) with (conf_Mappings c).
  rewrite go_bind_assoc, (go_bind_done _ _ _ _ _ E), go_ret_bind. by eexists _, w'.
Qed.

(** The shutdown: the pollers, then the pool, then the repositories. *)
Definition shut_down (es : list event) : Prop :=
  ∃ es1 stops r rms, es = es1 ++ stops ++ EvPoolStop r :: rms ∧
    Forall (λ e, stopped1 e ≠ []) stops ∧ removals rms.

#[export] Instance valid_action_dec a : Decision (valid_action a).
Proof. unfold valid_action. apply _. Defined.

#[export] Instance valid_conf_dec c : Decision (valid_conf c).
Proof.
  unfold valid_conf. apply and_dec; [apply _|]. apply and_dec; [apply _|].
  change (Decision (map_Forall (λ _ a, valid_action a) (conf_Mappings c : gmap string _))).
  apply _.
Defined.

(** What a run of the program leaves, by its outcome. *)
Definition main_outcome (sch : schedule) (out : outcome Z) (es : list event) : Prop :=
  match out with
  | Done code => started es ≡ₚ stopped es ∧ (code = 0 ∨ code = 1) ∧
      (code = 0 → shut_down es) ∧ (sch = SignalFirst → code = 1)
  | Panicked _ => (∃ n, sch = SignalAfter n) ∧
      ∃ tok, received es tok ∧ ¬ sound_token tok
  end.

Lemma Stop_fresh p w :
  fresh p → ∃ e, Stop (R := R) (K := K) (p, w) = (Done (Some e), (p, w)).
Proof.
  intros (_ & Hr & _ & _). unfold Stop. unfold go_bind at 1, go_get. cbn [fst]. rewrite Hr.
  by eexists.
Qed.

Lemma run_begin_run p w :
  ∃ out, run_begin (W := W) (p, w) = (out, (p, w)) ∧ no_panic p p [] out.
Proof.
  unfold run_begin. unfold go_bind at 1, go_get. cbn [fst].
  destruct (NewTicker_run (successRefreshPeriod p) (p, w)) as (out & E & Hd).
  exists out. split; [done|]. intros _ Hp. split; [done|]. eexists. apply Hd, Hp.
Qed.

Lemma quiet_outcome sch es : Forall outside es → main_outcome sch (Done 1) es.
Proof.
  intros [E1 E2]%outside_quiet. unfold main_outcome. rewrite E1, E2.
  split; [done|]. split; [by right|]. by split.
Qed.

Lemma serve_run sch p w :
  ok w → fresh p → ∃ out p' w' es,
    serve (N := N) (R := R) (K := K) sch (p, w) = (out, (p', w')) ∧
    extends es w w' ∧ main_outcome sch out es.
Proof.
  intros Hok Hfr. pose proof Hfr as (Hp & Hrun & Hq & Hper).
  assert (Hf : filed p) by (intros u pr; by rewrite Hp, lookup_empty).
  destruct sch as [|n]; cbn [serve].
  { destruct (Stop_fresh p w Hfr) as [e E]. rewrite (go_bind_done _ _ _ _ _ E).
    exists (Done 1), p, w, []. split; [done|]. split; [by apply extends_nil|].
    apply quiet_outcome. constructor. }
  destruct (Start_run (N := N) (R := R) (K := K) p w Hok Hf Hrun)
    as (out & p1 & w1 & es1 & E1 & Hx1 & Hf1 & _ & _ & Hn1 & Hout).
  destruct out as [[e|]|why].
  - rewrite (go_bind_done _ _ _ _ _ E1). destruct Hout as (_ & Ho & _).
    exists (Done 1), p1, w1, es1. split; [done|]. split; [done|]. by apply quiet_outcome.
  - rewrite (go_bind_done _ _ _ _ _ E1).
    destruct (run_begin_run p1 w1) as (out & Eb & Hnb). destruct out as [[]|why].
    2: { rewrite (go_bind_panicked _ _ _ _ _ Eb). exists (Panicked why), p1, w1, es1.
         split; [done|]. split; [done|]. split; [by exists n|]. apply unsound_received.
         intros Hst. destruct (Hn1 Hst Hper) as [Hp1 _].
         destruct (Hnb (proj2 (sound_tokens_app es1 [] ltac:(by rewrite app_nil_r))) Hp1)
           as (_ & [] & ?). done. }
    rewrite (go_bind_done _ _ _ _ _ Eb).
    destruct (run_ticks_run (N := N) n p1 w1) as (out & p2 & w2 & es2 & E2 & Hx2 & _ & _ & _ & Hn2);
      [by eapply extends_ok|done|].
    destruct out as [[]|why].
    2: { rewrite (go_bind_panicked _ _ _ _ _ E2). exists (Panicked why), p2, w2, (es1 ++ es2).
         split; [done|]. split; [by eapply extends_trans|].
         split; [by exists n|]. apply unsound_received.
         intros [Hst1 Hst2]%sound_tokens_app. destruct (Hn1 Hst1 Hper) as [Hp1 _].
         by destruct (Hn2 Hst2 Hp1) as (_ & [] & ?). }
    rewrite (go_bind_done _ _ _ _ _ E2).
    destruct (life_run n p w p1 w1 p2 w2 Hok Hp Hrun Hq E1 E2)
      as (p3 & w3 & es & stops & r & rms & E3 & Hx & Hb & Hall & Hrm & _).
    rewrite (go_bind_done _ _ _ _ _ E3). eexists (Done 0), p3, w3, _.
    split; [done|]. split; [exact Hx|]. split; [|split; [by left|]].
    + assert (Hno : started (EvPoolStop r :: rms) = [] ∧ stopped (EvPoolStop r :: rms) = []).
      { apply (outside_quiet rms). eapply Forall_impl; [exact Hrm|]. by intros []. }
      destruct Hno as [N1 N2].
      by rewrite (assoc_L (++)), started_app, (stopped_app _ (EvPoolStop r :: rms)), N1, N2, !app_nil_r.
    + split; [intros _; by exists es, stops, r, rms|done].
  - rewrite (go_bind_panicked _ _ _ _ _ E1). exists (Panicked why), p1, w1, es1.
    split; [done|]. split; [done|]. split; [by exists n|]. apply unsound_received.
    intros Hst. by destruct (Hn1 Hst Hper) as (_ & [] & ?).
Qed.

(** C13. However the program ends by itself, it leaves nothing running: from the
    reading of the configuration to the exit, whatever the schedule of the
    signal and the answers of the outside, every poller that was started has
    been stopped, as often as it was started; an exit with status 0 follows a
    complete shutdown (pollers, then worker pool, then repositories); a signal
    before the start gives status 1; and the process panics only after a start
    that was attempted and that received, then or at a later refresh, a token
    which is null or whose first queue has a refresh period that is not
    positive. *)
Theorem main_leaves_nothing_running sch w :
  reads_files → ok w → ∃ out w' es,
    main (C := C) (N := N) (R := R) (K := K) sch w = (out, w') ∧ extends es w w' ∧
    main_outcome sch out es.
Proof.
  intros Hrf Hok.
  destruct (Read_run w Hrf Hok)
    as (c0 & err0 & w0 & es0 & _ & Hx0 & _ & Hg & r & w1 & es1 & E & Hx1 & Hr).
  assert (Ho : Forall outside (es0 ++ es1)).
  { apply Forall_app. split; [by apply outside_git|].
    destruct err0 as [err|]; [by destruct Hr as [_ ->]|]. destruct Hr as (c & _ & Hn & Hv).
    destruct (decide (valid_conf (keyed c))) as [Hc|Hc].
    - destruct (Hv Hc) as (_ & l & _ & Hf). clear -Hf.
      induction Hf as [|e q ? ? (x & ->) _ IH]; by constructor.
    - destruct (Hn Hc) as [-> _]. constructor. }
  assert (Hx : extends (es0 ++ es1) w w1) by (by eapply extends_trans).
  unfold main.
  rewrite (go_bind_done _ _ _ _ _ E).
  assert (Hfail : ∃ out w' es, (Done 1, w1) = (out : outcome Z, w') ∧ extends es w w' ∧
    main_outcome sch out es).
  { exists (Done 1), w1, (es0 ++ es1). split; [done|]. split; [done|]. by apply quiet_outcome. }
  destruct err0 as [err|]; [by destruct Hr as [-> _]|]. destruct Hr as (c & _ & Hn & Hv).
  destruct (decide (valid_conf (keyed c))) as [Hc|Hc].
  2: { by destruct (Hn Hc) as [_ [err ->]]. }
  destruct (Hv Hc) as [-> _]. cbn [fst snd]. rewrite go_bind_deref.
  destruct (NewProcessor_run (prepared (keyed c)) w1) as (p & w2 & E2 & Hx2 & Hfr);
    [by eapply extends_ok|].
  rewrite (go_bind_done _ _ _ _ _ E2).
  destruct (serve_run sch p w2) as (out & p' & w3 & es & E3 & Hx3 & Hout);
    [by eapply extends_ok|done|].
  unfold with_processor. rewrite E3. exists out, w3, ((es0 ++ es1) ++ es).
  split; [done|]. split.
  { eapply extends_trans; [exact Hx|]. exact (extends_trans [] es _ _ _ Hx2 Hx3). }
  destruct out as [code|why].
  2: { destruct Hout as [Hn' (tok & Hrec & Hu)]. split; [exact Hn'|]. exists tok.
       split; [|exact Hu]. eapply received_mono; [|exact Hrec].
       intros e He. apply elem_of_app. by right. }
  destruct Hout as (Hb & Hcode & Hsd & Hs).
  destruct (outside_quiet _ Ho) as [Q1 Q2]. cbn. rewrite started_app, stopped_app, Q1, Q2.
  split; [done|]. split; [done|]. split; [|done]. intros Hz.
  destruct (Hsd Hz) as (e1 & stops & q & rms & -> & Hrest).
  exists ((es0 ++ es1) ++ e1), stops, q, rms.
  split; [by rewrite <- !(assoc_L (++))|exact Hrest].
Qed.
End MainClaims.

(** ** The program with one token refresh *)

Section MainExample.

#[local] Instance main_workers : Workers rec_state := {
  poller_Start u := record (λ _, None) (EvPollerStart u);
  poller_Stop u := record (λ _, None) (EvPollerStop u);
  workerPool_Start := record (λ _, None) EvPoolStart;
  workerPool_Stop := record (λ _, None) EvPoolStop;
  decode_token := token_of;
  UserAgentHeader := user_agent "1.0" "abc" "go1.12" "linux" "amd64"
}.

#[local] Instance main_workers_spec : WorkersSpec rec_state.
Proof. split; intros; apply record_calls. Qed.

#[local] Instance main_client : HttpClient unit rec_state := scripted_client life_script.

Definition run_main (sch : schedule) : outcome Z * rec_state :=
  main (C := aws_Config) (N := unit) (R := string) (K := unit) sch [].

Example main_example :
  let '(code, es) := run_main (SignalAfter 1) in
  code = Done 0 ∧ started es = ["q1"; "q2"; "q3"] ∧ stopped es = ["q1"; "q3"; "q2"] ∧
  (run_main SignalFirst).1 = Done 1 ∧
  (run_main (SignalAfter 3)).1 = Done 0.
Proof. vm_compute. by repeat split. Qed.

(** A token with a refresh period of 0 seconds, and the panic it leads to. *)
Example main_panics_on_zero_period :
  let '(out, es) := main (C := aws_Config) (N := unit) (R := string) (K := unit)
    (H0 := scripted_client [token_answer "zero"]) (SignalAfter 0) [] in
  out = Panicked "non-positive interval for NewTicker" ∧
  received (W := rec_state) es (Some (mkToken "me" [queue_properties "q1" 0])) ∧
  ¬ sound_token (Some (mkToken "me" [queue_properties "q1" 0])).
Proof.
  assert (E : (main (C := aws_Config) (N := unit) (R := string) (K := unit)
    (H0 := scripted_client [token_answer "zero"]) (SignalAfter 0) []).1 =
    Panicked "non-positive interval for NewTicker") by (vm_compute; reflexivity).
  assert (E2 : (main (C := aws_Config) (N := unit) (R := string) (K := unit)
    (H0 := scripted_client [token_answer "zero"]) (SignalAfter 0) []).2 ≫= received1 =
    [Some (mkToken "me" [queue_properties "q1" 0])]) by (vm_compute; reflexivity).
  destruct (main _ _) as [out es]. split; [exact E|]. split.
  - apply received_spec. cbn [snd] in E2. rewrite E2. by left.
  - intros [H _]. vm_compute in H. discriminate.
Qed.

Lemma main_leaves_nothing_running_witness :
  ∃ out w' es, run_main (SignalAfter 1) = (out, w') ∧ extends es ([] : rec_state) w' ∧
    main_outcome (W := rec_state) (SignalAfter 1) out es.
Proof.
  pose proof (scripted_client_spec life_script ltac:(by repeat constructor)) as Hspec.
  apply (main_leaves_nothing_running (C := aws_Config) (N := unit) (R := string) (K := unit)
    (SignalAfter 1) ([] : rec_state)); [exact rec_reads_files|exact I].
Defined.

Lemma life_is_served : ∃ p w, serve (N := unit) (R := string) (K := unit) (SignalAfter 1)
  (life_processor, ([] : rec_state)) = (Done 0, (p, w)).
Proof. eexists _, _. vm_compute. reflexivity. Qed.

Lemma schedules_are_interleavings_witness :
  ∃ s, exec_to (N := unit) (R := string) (K := unit)
      (life_init life_processor ([] : rec_state)) s ∧
    lc_panicked s = None ∧ served (SignalAfter 1) 0 (lc_callers s).
Proof.
  destruct life_is_served as (p & w & E).
  destruct (schedules_are_interleavings (N := unit) (R := string) (K := unit) (SignalAfter 1)
    life_processor ([] : rec_state) 0 p w eq_refl E) as (s & Hx & Hn & _ & _ & Hs).
  exists s. split; [exact Hx|]. split; [exact Hn|exact Hs].
Defined.
End MainExample.
