(* ===== verification/WindowsService.v ===== *)
(** * windows_service/main/jecService.go: the connector as a Windows service.

    The service manager calls [Program.Start] and [Program.Stop]; [Start]
    launches [run], which opens the output files, runs the connector as a child
    process and asks the manager for a stop at its end. [p.cmd] is shared by
    [run] and [Stop] without synchronisation: [cmd.Process] is set when the
    process has been started and [cmd.ProcessState] when it has exited. The
    service library, the DLL and the file system are outside the program. *)

From Stdlib Require Import Ascii.
From Stdlib Require String.
From stdpp Require Import base list numbers strings relations.
From Stdlib Require Import Lia.
From S2P Require Import Prelude GoError GoStrings.

(** ** The life of the service *)

Record Config : Type := mkServiceConfig {
  Name : string;
  DisplayName : string;
  Description : string;
  JECPath : string;
  svc_Args : list string;
  svc_Env : list string;
  svc_Stderr : string;
  svc_Stdout : string
}.

(** The command [Start] creates: [exec.Command("cmd", ...)]. *)
Definition service_command (c : Config) : string * list string :=
  ("cmd", ["/C"; JECPath c] ++ svc_Args c).

(** The goroutine [p.run]. *)
Inductive service_pc : Type :=
  | RnStderr                     (* before the stderr file *)
  | RnStdout                     (* before the stdout file *)
  | RnStart                      (* before p.cmd.Run starts the process *)
  | RnWaiting                    (* in p.cmd.Run *)
  | RnReturned                   (* before p.service.Stop() *)
  | RnDone.

(** A call of [Program.Stop] by the service manager. *)
Inductive stop_pc : Type :=
  | StEntry
  | StChecked                    (* ProcessState was nil; before Process.Pid *)
  | StSending (pid : Z)          (* in sendCtrlCEvent *)
  | StReturned.

Record service : Type := mkService {
  run_goroutine : option service_pc;
  Process : option Z;            (* p.cmd.Process, by its pid *)
  ProcessState : bool;           (* p.cmd.ProcessState != nil *)
  stop_calls : list stop_pc;
  nil_dereference : bool;
  (* history *)
  signalled : list Z;            (* processes sent the Ctrl-C event *)
  stop_requests : nat            (* p.service.Stop() calls of run *)
}.

Definition service_init : service := mkService None None false [] false [] 0.

Definition to_run (r : service_pc) (s : service) : service :=
  mkService (Some r) (Process s) (ProcessState s) (stop_calls s) (nil_dereference s)
    (signalled s) (stop_requests s).

Definition to_stop (i : nat) (x : stop_pc) (s : service) : service :=
  mkService (run_goroutine s) (Process s) (ProcessState s) (<[i:=x]> (stop_calls s))
    (nil_dereference s) (signalled s) (stop_requests s).

Section Life.
Context (config : Config).

Inductive service_step : service → service → Prop :=
  (* Start *)
  | sv_start s :
      run_goroutine s = None → nil_dereference s = false → service_step s (to_run RnStderr s)
  (* run *)
  | sv_stderr s :
      run_goroutine s = Some RnStderr → nil_dereference s = false →
      service_step s (to_run RnStdout s)
  | sv_stderr_fails s :
      run_goroutine s = Some RnStderr → nil_dereference s = false → svc_Stderr config ≠ "" →
      service_step s (to_run RnReturned s)
  | sv_stdout s :
      run_goroutine s = Some RnStdout → nil_dereference s = false →
      service_step s (to_run RnStart s)
  | sv_stdout_fails s :
      run_goroutine s = Some RnStdout → nil_dereference s = false → svc_Stdout config ≠ "" →
      service_step s (to_run RnReturned s)
  | sv_process s pid :
      run_goroutine s = Some RnStart → nil_dereference s = false →
      service_step s (mkService (Some RnWaiting) (Some pid) (ProcessState s) (stop_calls s)
        (nil_dereference s) (signalled s) (stop_requests s))
  | sv_process_fails s :
      run_goroutine s = Some RnStart → nil_dereference s = false →
      service_step s (to_run RnReturned s)
  | sv_exit s :
      run_goroutine s = Some RnWaiting → nil_dereference s = false →
      service_step s (mkService (Some RnReturned) (Process s) true (stop_calls s)
        (nil_dereference s) (signalled s) (stop_requests s))
  | sv_request s :
      run_goroutine s = Some RnReturned → nil_dereference s = false →
      service_step s (mkService (Some RnDone) (Process s) (ProcessState s) (stop_calls s)
        (nil_dereference s) (signalled s) (S (stop_requests s)))
  (* Stop, called after a request of run or of the administrator *)
  | sv_stop s r :
      run_goroutine s = Some r → nil_dereference s = false →
      service_step s (mkService (run_goroutine s) (Process s) (ProcessState s)
        (stop_calls s ++ [StEntry]) (nil_dereference s) (signalled s) (stop_requests s))
  | sv_stop_exited s i :
      stop_calls s !! i = Some StEntry → nil_dereference s = false → ProcessState s = true →
      service_step s (to_stop i StReturned s)
  | sv_stop_running s i :
      stop_calls s !! i = Some StEntry → nil_dereference s = false → ProcessState s = false →
      service_step s (to_stop i StChecked s)
  | sv_stop_pid s i pid :
      stop_calls s !! i = Some StChecked → nil_dereference s = false → Process s = Some pid →
      service_step s (to_stop i (StSending pid) s)
  | sv_stop_nil s i :
      stop_calls s !! i = Some StChecked → nil_dereference s = false → Process s = None →
      service_step s (mkService (run_goroutine s) (Process s) (ProcessState s) (stop_calls s)
        true (signalled s) (stop_requests s))
  | sv_stop_sent s i pid :
      stop_calls s !! i = Some (StSending pid) → nil_dereference s = false →
      service_step s (mkService (run_goroutine s) (Process s) (ProcessState s)
        (<[i:=StReturned]> (stop_calls s)) (nil_dereference s) (signalled s ++ [pid])
        (stop_requests s)).

(** ** The invariant *)

Definition before_process (r : service_pc) : Prop :=
  match r with RnStderr | RnStdout | RnStart => True | _ => False end.

Definition requested (r : option service_pc) : nat :=
  match r with Some RnDone => 1 | _ => 0 end.

Record ServiceInv (s : service) : Prop := {
  sv_no_process : ∀ r, run_goroutine s = Some r → before_process r → Process s = None;
  sv_idle : run_goroutine s = None → Process s = None ∧ stop_calls s = [];
  sv_waiting : run_goroutine s = Some RnWaiting → is_Some (Process s) ∧ ProcessState s = false;
  sv_exited : ProcessState s = true → is_Some (Process s);
  sv_sending : ∀ i pid, stop_calls s !! i = Some (StSending pid) → Process s = Some pid;
  sv_signalled : ∀ pid, pid ∈ signalled s → Process s = Some pid;
  sv_crashed : nil_dereference s = true → Process s = None;
  sv_returned : ∀ i, stop_calls s !! i = Some StReturned → is_Some (Process s);
  sv_requests : stop_requests s = requested (run_goroutine s)
}.

Lemma stop_call_inv s i x :
  ServiceInv s → is_Some (stop_calls s !! i) →
  (∀ pid, x = StSending pid → Process s = Some pid) →
  (x = StReturned → is_Some (Process s)) → ServiceInv (to_stop i x s).
Proof.
  intros [V1 V2 V3 V4 V5 V6 V7 V9 V8] [y Hi] Hx Hx'. split; cbn; try done.
  - intros Hr. destruct (V2 Hr) as [Hp Hs]. by rewrite Hs in Hi.
  - intros k pid [(_ & -> & _)|[_ Hk]]%list_lookup_insert_Some; [by apply Hx|by eapply V5].
  - intros k [(_ & -> & _)|[_ Hk]]%list_lookup_insert_Some; [by apply Hx'|by eapply V9].
Qed.

(** A move of [run] that leaves the process alone. *)
Lemma run_move_inv s r r' :
  ServiceInv s → run_goroutine s = Some r → nil_dereference s = false →
  (before_process r' → before_process r) → r' ≠ RnWaiting → r ≠ RnDone → r' ≠ RnDone →
  ServiceInv (to_run r' s).
Proof.
  intros [V1 V2 V3 V4 V5 V6 V7 V9 V8] Hr Hn Hb Hw Hd Hd'. split; cbn; try done.
  - intros q [= <-] Hq. by eapply V1, Hb.
  - congruence.
  - rewrite V8, Hr. by destruct r, r'.
Qed.

Lemma service_step_inv s s' : ServiceInv s → service_step s s' → ServiceInv s'.
Proof.
  intros HI Hs. pose proof HI as [V1 V2 V3 V4 V5 V6 V7 V9 V8].
  destruct Hs as [s Hr Hn|s Hr Hn|s Hr Hn _|s Hr Hn|s Hr Hn _|s pid Hr Hn|s Hr Hn|s Hr Hn|s Hr Hn
    |s r Hr Hn|s i Hi Hn Hp|s i Hi Hn Hp|s i pid Hi Hn Hp|s i Hi Hn Hp|s i pid Hi Hn];
    try (eapply run_move_inv; [done|exact Hr|done..]; fail).
  - destruct (V2 Hr) as [Hp Hst]. split; cbn; try done. by rewrite V8, Hr.
  - assert (Hp : Process s = None) by (by eapply V1).
    split; cbn; try done.
    + intros ? [= <-]. by intros [].
    + intros _. split; [by eexists|]. destruct (ProcessState s) eqn:E; [|done].
      destruct (V4 eq_refl). congruence.
    + intros i q Hi. apply V5 in Hi. congruence.
    + intros q Hq. apply V6 in Hq. congruence.
    + congruence.
    + by rewrite V8, Hr.
  - destruct (V3 Hr) as [Hp _]. split; cbn; try done.
    + intros ? [= <-]. by intros [].
    + by rewrite V8, Hr.
  - split; cbn; try done; [intros ? [= <-]; by intros []|]. by rewrite V8, Hr.
  - split; cbn; try done; [congruence|intros i pid Hi|].
    + apply lookup_snoc_Some in Hi as [[_ Hi]|[_ [=]]]. by eapply V5.
    + intros i Hi. apply lookup_snoc_Some in Hi as [[_ Hi]|[_ [=]]]. by eapply V9.
  - apply stop_call_inv; [done|by eexists|done|by intros _; apply V4].
  - by apply stop_call_inv; [|eexists|..].
  - apply stop_call_inv; [done|by eexists| |done]. by intros ? [= <-].
  - by split.
  - destruct (stop_call_inv s i StReturned HI) as [W1 W2 W3 W4 W5 W6 W7 W9 W8]; [by eexists|done| |].
    { intros _. eexists. by eapply V5. }
    split; try done. cbn. intros q [Hq|Hq%list_elem_of_singleton]%elem_of_app; [by apply V6|].
    subst q. by eapply V5.
Qed.

Lemma service_init_inv : ServiceInv service_init.
Proof. split; cbn; try done. intros pid Hp. by apply elem_of_nil in Hp. Qed.

Lemma service_reachable_inv s : rtc service_step service_init s → ServiceInv s.
Proof.
  intros Hr. pose proof service_init_inv as Hi. revert Hi.
  induction Hr as [|s1 s2 s3 Hs _ IH]; [done|]. intros Hi. by eapply IH, service_step_inv.
Qed.

(** [Stop] acts on the connector's process and on nothing else: every
    process that was ever sent the Ctrl-C event is the child that [run] started;
    a [Stop] that comes after the process was started never fails; and [run]
    asks the manager for a stop once, at its end. *)
Theorem stop_signals_the_connector s :
  rtc service_step service_init s →
  (∀ pid, pid ∈ signalled s → Process s = Some pid) ∧
  (is_Some (Process s) → nil_dereference s = false) ∧
  stop_requests s = requested (run_goroutine s).
Proof.
  intros [_ _ _ _ _ V6 V7 _ V8]%service_reachable_inv. split; [done|]. split; [|done].
  intros [pid Hp]. destruct (nil_dereference s); [|done]. by rewrite V7 in Hp.
Qed.

Lemma done_stays s s' :
  ServiceInv s → run_goroutine s = Some RnDone → Process s = None →
  rtc service_step s s' → ServiceInv s' ∧ run_goroutine s' = Some RnDone ∧ Process s' = None.
Proof.
  intros HI Hr Hp Hs. revert HI Hr Hp. induction Hs as [|s1 s2 s3 Hs _ IH]; [done|].
  intros HI Hr Hp. apply IH; [by eapply service_step_inv|..]; destruct Hs; cbn; congruence.
Qed.

(** C36. When [run] ends without having started the process (an output file that
    cannot be opened, or an executable that cannot be run), the stop it then
    asks for can only crash the service: no [Stop] ever returns or signals
    anything, some continuation dereferences the nil [cmd.Process], and until
    that has happened the service is not stuck. *)
Theorem unstarted_process_crashes_stop s :
  rtc service_step service_init s → run_goroutine s = Some RnDone → Process s = None →
  (∃ s', rtc service_step s s' ∧ nil_dereference s' = true) ∧
  ∀ s', rtc service_step s s' →
    signalled s' = [] ∧ (∀ i, stop_calls s' !! i ≠ Some StReturned) ∧
    (nil_dereference s' = true ∨ ∃ s'', service_step s' s'').
Proof.
  intros HI%service_reachable_inv Hr Hp. split.
  - destruct (nil_dereference s) eqn:Hn; [by exists s|].
    assert (HS : ProcessState s = false).
    { destruct (ProcessState s) eqn:E; [|done]. destruct (sv_exited s HI E). congruence. }
    eexists. split.
    + eapply rtc_l; [by eapply sv_stop|].
      eapply rtc_l; [apply (sv_stop_running _ (length (stop_calls s))); cbn; [|done..]|].
      { by rewrite lookup_app_r, Nat.sub_diag by lia. }
      eapply rtc_l; [apply (sv_stop_nil _ (length (stop_calls s))); cbn; [|done..]|apply rtc_refl].
      rewrite list_lookup_insert_eq; [done|]. rewrite length_app. cbn. lia.
    + done.
  - intros s' Hs. destruct (done_stays s s' HI Hr Hp Hs) as ([_ _ _ _ _ V6 _ V9 _] & Hr' & Hp').
    split; [|split].
    + destruct (signalled s') as [|pid l] eqn:E; [done|].
      rewrite (V6 pid) in Hp'; [done|by left].
    + intros i Hi. destruct (V9 i Hi). congruence.
    + destruct (nil_dereference s') eqn:Hn; [by left|right]. eexists. by eapply sv_stop.
Qed.
End Life.

(** A service whose standard error file cannot be opened. *)
Definition example_config : Config :=
  mkServiceConfig "jec" "JEC" "" "C:/jec.exe" [] [] "C:/none/err.log" "".

Definition unstarted : service := mkService (Some RnDone) None false [] false [] 1.

Lemma unstarted_reachable : rtc (service_step example_config) service_init unstarted.
Proof.
  eapply rtc_l; [by apply sv_start|]. eapply rtc_l; [by apply sv_stderr_fails|].
  eapply rtc_l; [by apply sv_request|]. apply rtc_refl.
Qed.

Lemma unstarted_process_crashes_stop_witness :
  (∃ s', rtc (service_step example_config) unstarted s' ∧ nil_dereference s' = true) ∧
  ∀ s', rtc (service_step example_config) unstarted s' →
    signalled s' = [] ∧ (∀ i, stop_calls s' !! i ≠ Some StReturned) ∧
    (nil_dereference s' = true ∨ ∃ s'', service_step example_config s' s'').
Proof.
  exact (unstarted_process_crashes_stop example_config unstarted unstarted_reachable
    eq_refl eq_refl).
Defined.

Lemma stop_signals_the_connector_witness :
  (∀ pid, pid ∈ signalled unstarted → Process unstarted = Some pid) ∧
  (is_Some (Process unstarted) → nil_dereference unstarted = false) ∧ stop_requests unstarted = 1.
Proof.
  exact (stop_signals_the_connector example_config unstarted unstarted_reachable).
Defined.

(** ** The path of the configuration *)

(** [os.IsPathSeparator] on Windows. *)
Definition is_separator (c : ascii) : bool := Ascii.eqb c "/"%char || Ascii.eqb c "\"%char.

Fixpoint has_separator (s : string) : bool :=
  match s with "" => false | String c s => is_separator c || has_separator s end.

(** [filepath.Ext]: from the last dot of the last component. *)
Fixpoint Ext_windows (path : string) : string :=
  match path with
  | "" => ""
  | String c rest =>
      let ext := Ext_windows rest in
      if decide (ext ≠ "") then ext
      else if Ascii.eqb c "."%char && negb (has_separator rest) then String c rest
      else ""
  end.

(** [exePath] is what [os.Executable] returns. *)
Definition getConfigPath (exePath : result string) : result string :=
  match exePath with
  | inr err => inr err
  | inl exePath =>
      let ext := Ext_windows exePath in
      inl (String.substring 0 (String.length exePath - String.length ext) exePath +:+ ".json")
  end.

Lemma Ext_windows_suffix p :
  ∃ stem, p = stem +:+ Ext_windows p ∧
    String.substring 0 (String.length p - String.length (Ext_windows p)) p = stem.
Proof.
  induction p as [|c p (stem & E & Es)]; [by exists ""|]. cbn [Ext_windows].
  destruct (decide (Ext_windows p ≠ "")) as [Hne|Heq].
  - exists (String c stem). rewrite string_app_cons, <- E. split; [done|].
    assert (Hl : String.length (Ext_windows p) <= String.length p).
    { rewrite E at 2. rewrite length_string_app. lia. }
    cbn [String.length]. rewrite Nat.sub_succ_l by done. cbn. by rewrite Es.
  - assert (E0 : Ext_windows p = "") by (destruct (Ext_windows p); [done|by destruct Heq]).
    destruct (_ && _).
    + exists "". split; [done|]. by rewrite Nat.sub_diag; destruct p.
    + exists (String c p). rewrite string_app_nil_r. split; [done|].
      rewrite E0, string_app_nil_r in E. rewrite E0 in Es. cbn [String.length] in *.
      rewrite Nat.sub_0_r in *. cbn. by rewrite Es, <- E.
Qed.

(** The configuration file lies beside the executable: its path is the
    executable's with the extension, if there is one, replaced by [.json]; the
    slice that cuts the extension off is always in bounds. *)
Theorem config_path_replaces_extension p :
  ∃ stem, p = stem +:+ Ext_windows p ∧ getConfigPath (inl p) = inl (stem +:+ ".json") ∧
    (has_separator (Ext_windows p) = false).
Proof.
  destruct (Ext_windows_suffix p) as (stem & E & Es). exists stem. split; [done|].
  unfold getConfigPath. rewrite Es. split; [done|]. clear E Es.
  induction p as [|c p IH]; [done|]. cbn [Ext_windows]. case_decide; [done|].
  destruct (Ascii.eqb c "."%char) eqn:Ec; [|done]. destruct (has_separator p) eqn:Ep; [done|].
  cbn. rewrite Ep. apply Ascii.eqb_eq in Ec as ->. done.
Qed.

(** ** sendCtrlCEvent *)

Inductive win_event : Type :=
  | WeWrite (message : string)
  | WeCall (procedure : string) (args : list Z).

Section CtrlC.
(** The answers of Windows: the error of opening the log, of loading the
    library, of looking up a procedure, and what a call returns. *)
Context (open_error load_error : option string) (find_error : string → option string).
Context (call : string → list Z → Z * string).

Definition errMessageCtrlC (errType err : string) : string :=
  "Failed while stopping the service. " +:+ errType +:+ " error: " +:+ err +:+
  String (ascii_of_nat 10) "".

(** [file.Write]: on a nil file it does nothing. *)
Definition write_log (message : string) : go (list win_event) unit :=
  match open_error with
  | Some _ => go_ret ()
  | None => go_modify (λ l, l ++ [WeWrite message])
  end.

(** [kernel32.FindProc(name)], the call, and their error reports; the call
    of a procedure that was not found dereferences nil. *)
Definition call_procedure (name : string) (args : list Z) : go (list win_event) unit :=
  match find_error name with
  | Some err =>
      (_ <- write_log (errMessageCtrlC ("FindProc[" +:+ name +:+ "]") err) ;
       go_panic "invalid memory address or nil pointer dereference")%go
  | None =>
      (_ <- go_modify (λ l, l ++ [WeCall name args]) ;
       let '(r, err) := call name args in
       if decide (r = 0%Z) then write_log (errMessageCtrlC name err) else go_ret ())%go
  end.

Definition CTRL_C_EVENT : Z := 0.

Definition procedures (pid : Z) : list (string * list Z) :=
  [("FreeConsole", []); ("AttachConsole", [pid]); ("SetConsoleCtrlHandler", [0%Z; 1%Z]);
   ("GenerateConsoleCtrlEvent", [CTRL_C_EVENT; pid])].

Fixpoint call_procedures (l : list (string * list Z)) : go (list win_event) unit :=
  match l with
  | [] => go_ret ()
  | (name, args) :: l => (_ <- call_procedure name args ; call_procedures l)%go
  end.

Definition sendCtrlCEvent (pid : Z) : go (list win_event) unit :=
  match load_error with
  | Some err =>
      (_ <- write_log (errMessageCtrlC "LoadDLL" err) ;
       go_panic "invalid memory address or nil pointer dereference")%go
  | None => call_procedures (procedures pid)
  end.

(** The procedures called. *)
Definition win_calls (l : list win_event) : list (string * list Z) :=
  l ≫= λ e, match e with WeCall n a => [(n, a)] | _ => [] end.

(** The procedures up to the first that is not found. *)
Fixpoint found_prefix (l : list (string * list Z)) : list (string * list Z) :=
  match l with
  | [] => []
  | (name, args) :: l =>
      match find_error name with Some _ => [] | None => (name, args) :: found_prefix l end
  end.

Lemma win_calls_app l1 l2 : win_calls (l1 ++ l2) = win_calls l1 ++ win_calls l2.
Proof. apply bind_app. Qed.

Lemma write_log_run message l :
  ∃ l', write_log message l = (Done (), l') ∧ win_calls l' = win_calls l.
Proof.
  unfold write_log. destruct open_error; [by exists l|]. eexists. split; [reflexivity|].
  by rewrite win_calls_app, app_nil_r.
Qed.

Lemma call_procedures_run ps l :
  ∃ out l', call_procedures ps l = (out, l') ∧ win_calls l' = win_calls l ++ found_prefix ps ∧
    (out = Done () ↔ Forall (λ p, find_error p.1 = None) ps).
Proof.
  revert l. induction ps as [|[name args] ps IH]; intros l; cbn [call_procedures found_prefix].
  { exists (Done ()), l. by rewrite app_nil_r. }
  unfold call_procedure. destruct (find_error name) as [err|] eqn:Ef.
  - destruct (write_log_run (errMessageCtrlC ("FindProc[" +:+ name +:+ "]") err) l)
      as (l1 & E1 & C1).
    eexists (Panicked _), l1. unfold go_bind. rewrite E1. split; [reflexivity|].
    rewrite C1, app_nil_r. split; [done|]. split; [done|]. intros Hall.
    apply Forall_cons in Hall as [Hn _]. cbn in Hn. congruence.
  - assert (Hcall : ∃ l1, (_ <- go_modify (λ l, l ++ [WeCall name args]) ;
        let '(r, err) := call name args in
        if decide (r = 0%Z) then write_log (errMessageCtrlC name err) else go_ret ())%go l =
        (Done (), l1) ∧ win_calls l1 = win_calls l ++ [(name, args)]).
    { unfold go_bind, go_modify. destruct (call name args) as [r err].
      assert (Ea : win_calls (l ++ [WeCall name args]) = win_calls l ++ [(name, args)])
        by apply win_calls_app.
      case_decide; [|by eexists].
      destruct (write_log_run (errMessageCtrlC name err) (l ++ [WeCall name args]))
        as (l1 & E1 & C1). exists l1. by rewrite C1. }
    destruct Hcall as (l1 & E1 & C1). destruct (IH l1) as (out & l2 & E2 & C2 & Hout).
    exists out, l2. unfold go_bind at 1. rewrite E1, E2, C2, C1, <- (assoc_L (++)).
    split; [done|]. split; [done|]. rewrite Forall_cons, Hout. cbn. tauto.
Qed.

(** [sendCtrlCEvent] detaches from the console, attaches to the process's,
    ignores the event itself and sends it to the process, in this order and
    whatever the calls return; a library or procedure that is missing is
    reported in the log and then crashes the service. *)
Theorem ctrl_c_sequence pid l :
  ∃ out l', sendCtrlCEvent pid l = (out, l') ∧
    match load_error with
    | Some _ => out ≠ Done () ∧ win_calls l' = win_calls l
    | None => win_calls l' = win_calls l ++ found_prefix (procedures pid) ∧
        (out = Done () ↔ Forall (λ p, find_error p.1 = None) (procedures pid))
    end.
Proof.
  unfold sendCtrlCEvent. destruct load_error as [err|]; [|apply call_procedures_run].
  destruct (write_log_run (errMessageCtrlC "LoadDLL" err) l) as (l1 & E1 & C1).
  eexists (Panicked _), l1. unfold go_bind. by rewrite E1.
Qed.
End CtrlC.
