(* ===== verification/WindowsMain.v ===== *)
(** * windows_service/main/jecService.go: [main], the command line of the service.

    Without an argument [main] runs the service under the service manager; with
    one it passes the action to the manager, after [validateConfig] for
    [start]. The file system, the JSON decoder and the service library answer
    by functions of the calls made so far; what is logged is left out, and
    [log.Fatal] is the exit status 1. *)

From stdpp Require Import base list numbers strings.
From Stdlib Require Import Lia.
From S2P Require Import Prelude GoError GoStrings WindowsService.

(** One call to the outside. *)
Inductive service_event : Type :=
  | EvOpen (path : string) (r : result string)          (* the text of the file *)
  | EvOpenFile (path : string) (r : option error)
  | EvStat (path : string) (r : option error)
  | EvNew (name displayName description : string) (r : option error)
  | EvLogger (r : option error)
  | EvControl (action : string) (r : option error)
  | EvServiceRun (r : option error).

Record service_answers : Type := mkServiceAnswers {
  ans_executable : result string;
  ans_open : list service_event → string → result string;
  ans_decode : string → result (option Config);          (* JSON null is None *)
  ans_open_file : list service_event → string → option error;
  ans_stat : list service_event → string → option error;
  ans_new : list service_event → option error;
  ans_logger : list service_event → option error;
  ans_control : list service_event → string → option error;
  ans_run : list service_event → option error
}.

Section WindowsMain.
Context (ans : service_answers).

Definition ask {A : Type} (f : list service_event → A) (e : A → service_event) :
    go (list service_event) A :=
  λ l, (Done (f l), l ++ [e (f l)]).

Definition OpenFile (path : string) : go (list service_event) (option error) :=
  ask (λ l, ans_open_file ans l path) (EvOpenFile path).

Definition getConfig (path : string) : go (list service_event) (result (option Config)) :=
  (file <- ask (λ l, ans_open ans l path) (EvOpen path) ;
   match file with
   | inr err => go_ret (inr err)
   | inl content => go_ret (ans_decode ans content)
   end)%go.

(** The result says whether [log.Fatalf] has ended the process. *)
Definition validateConfig (config : Config) : go (list service_event) bool :=
  (err <- (if decide (svc_Stderr config ≠ "") then OpenFile (svc_Stderr config) else go_ret None) ;
   match err with
   | Some _ => go_ret true
   | None =>
       err <- (if decide (svc_Stdout config ≠ "") then OpenFile (svc_Stdout config)
               else go_ret None) ;
       match err with
       | Some _ => go_ret true
       | None =>
           err <- ask (λ l, ans_stat ans l (JECPath config)) (EvStat (JECPath config)) ;
           go_ret (match err with Some _ => true | None => false end)
       end
   end)%go.

(** The exit status; [args] is [os.Args] without the program's name. *)
Definition control (config : Config) (action : string) : go (list service_event) Z :=
  (fatal <- (if decide (action = "start") then validateConfig config else go_ret false) ;
   if fatal : bool then go_ret 1%Z
   else
     err <- ask (λ l, ans_control ans l action) (EvControl action) ;
     go_ret (match err with Some _ => 1%Z | None => 0%Z end))%go.

Definition service_main (args : list string) : go (list service_event) Z :=
  match getConfigPath (ans_executable ans) with
  | inr err => go_ret 1%Z
  | inl configPath =>
      (config <- getConfig configPath ;
       match config with
       | inr err => go_ret 1%Z
       | inl config =>
           config <- deref config ;
           err <- ask (ans_new ans)
                    (EvNew (Name config) (DisplayName config) (Description config)) ;
           match err with
           | Some _ => go_ret 1%Z
           | None =>
               err <- ask (ans_logger ans) EvLogger ;
               match err with
               | Some _ => go_ret 1%Z
               | None =>
                   match args with
                   | action :: _ => control config action
                   | [] => _ <- ask (ans_run ans) EvServiceRun ; go_ret 0%Z
                   end
               end
           end
       end)%go
  end.
End WindowsMain.

Section WindowsMainClaims.
Context (ans : service_answers).

(** The configuration's files were opened, and the executable was found. *)
Definition files_checked (c : Config) (es : list service_event) : Prop :=
  (svc_Stderr c ≠ "" → EvOpenFile (svc_Stderr c) None ∈ es) ∧
  (svc_Stdout c ≠ "" → EvOpenFile (svc_Stdout c) None ∈ es) ∧
  EvStat (JECPath c) None ∈ es.

(** The call does not ask the service manager for anything. *)
Definition preparing (e : service_event) : Prop :=
  match e with EvControl _ _ | EvServiceRun _ => False | _ => True end.

Lemma files_checked_mono c es es' : files_checked c es → es ⊆ es' → files_checked c es'.
Proof. intros (H1 & H2 & H3) Hsub. split_and!; intros; apply Hsub; auto. Qed.

(** Opening a file of the configuration, if it is named. *)
Lemma open_run path l :
  ∃ err es, (if decide (path ≠ "") then OpenFile ans path else go_ret None) l = (Done err, l ++ es) ∧
    Forall preparing es ∧ (err = None → path ≠ "" → EvOpenFile path None ∈ es).
Proof.
  case_decide as Hp; [|by exists None, []; rewrite app_nil_r].
  eexists _, [_]. split; [reflexivity|]. split; [by constructor|].
  intros -> _. by apply list_elem_of_singleton.
Qed.

Lemma validateConfig_run c l :
  ∃ fatal es, validateConfig ans c l = (Done fatal, l ++ es) ∧ Forall preparing es ∧
    (fatal = false → files_checked c es).
Proof.
  unfold validateConfig.
  destruct (open_run (svc_Stderr c) l) as (e1 & es1 & E1 & P1 & C1). unfold go_bind at 1. rewrite E1.
  destruct e1 as [e1|]; [by exists true, es1|].
  destruct (open_run (svc_Stdout c) (l ++ es1)) as (e2 & es2 & E2 & P2 & C2).
  unfold go_bind at 1. rewrite E2. rewrite <- (assoc_L (++)).
  destruct e2 as [e2|]; [exists true, (es1 ++ es2); split_and!; [done|by apply Forall_app|done]|].
  set (l2 := l ++ es1 ++ es2). exists (match ans_stat ans l2 (JECPath c) with Some _ => true | None => false end).
  exists (es1 ++ es2 ++ [EvStat (JECPath c) (ans_stat ans l2 (JECPath c))]).
  split; [unfold go_bind, ask, go_ret; subst l2; by rewrite <- !(assoc_L (++))|].
  split; [rewrite !Forall_app; split_and!; [done|done|by repeat constructor]|].
  destruct (ans_stat ans l2 (JECPath c)); [done|]. intros _. specialize (C1 eq_refl).
  specialize (C2 eq_refl). split_and!; intros; rewrite !elem_of_app, list_elem_of_singleton; auto.
Qed.

(** What a run of [main] did, by its outcome. *)
Definition main_requests (args : list string) (out : outcome Z) (es : list service_event) : Prop :=
  match out with
  | Panicked _ => ∃ content, ans_decode ans content = inl None
  | Done code =>
      (Forall preparing es ∧ code = 1%Z) ∨
      ∃ c content prep, ans_decode ans content = inl (Some c) ∧ Forall preparing prep ∧
        match args with
        | [] => ∃ r, es = prep ++ [EvServiceRun r] ∧ code = 0%Z
        | action :: _ => ∃ r, es = prep ++ [EvControl action r] ∧
            (action = "start" → files_checked c prep) ∧ (code = 0%Z ↔ r = None) ∧
            (code = 0%Z ∨ code = 1%Z)
        end
  end.

Lemma control_run c action l :
  ∃ code es, control ans c action l = (Done code, l ++ es) ∧
    ((Forall preparing es ∧ code = 1%Z) ∨
     ∃ prep r, es = prep ++ [EvControl action r] ∧ Forall preparing prep ∧
       (action = "start" → files_checked c prep) ∧ (code = 0%Z ↔ r = None) ∧
       (code = 0%Z ∨ code = 1%Z)).
Proof.
  assert (Hv : ∃ fatal es, (if decide (action = "start") then validateConfig ans c else go_ret false) l =
    (Done fatal, l ++ es) ∧ Forall preparing es ∧
    (fatal = false → action = "start" → files_checked c es)).
  { case_decide as Ha; [|by exists false, []; rewrite app_nil_r].
    destruct (validateConfig_run c l) as (fatal & es & E & P & Hf). exists fatal, es. auto. }
  destruct Hv as (fatal & es & E & P & Hf). unfold control. unfold go_bind at 1. rewrite E.
  destruct fatal; [exists 1%Z, es; by split; [|left]|].
  unfold go_bind, ask, go_ret. set (r := ans_control ans (l ++ es) action).
  eexists _, (es ++ [EvControl action r]). split; [by rewrite (assoc_L (++))|]. right.
  exists es, r. split; [done|]. split; [done|]. split; [by apply Hf|].
  destruct r; split; try split; try done; auto.
Qed.

(** The service's command line: [main] asks the service manager for at most
    one thing, as its last call: to run the service when there is no argument,
    and otherwise the named action. The configuration has been read and decoded
    before, and for [start] its output files have been opened and the
    connector's executable found. The exit status of an action is 0 exactly
    when the manager accepts it; only a configuration that is JSON null makes
    [main] panic. *)
Theorem service_main_requests args :
  ∃ out es, service_main ans args [] = (out, es) ∧ main_requests args out es.
Proof.
  unfold service_main. destruct (getConfigPath (ans_executable ans)) as [path|err].
  2: { eexists _, []. split; [reflexivity|]. by left. }
  unfold getConfig, ask, go_bind, go_ret. cbn. destruct (ans_open ans [] path) as [content|err]; cbn.
  2: { eexists _, _. split; [reflexivity|]. left. by repeat constructor. }
  destruct (ans_decode ans content) as [[c|]|err] eqn:Hd; cbn.
  2: { eexists _, _. split; [reflexivity|]. by exists content. }
  2: { eexists _, _. split; [reflexivity|]. left. by repeat constructor. }
  destruct (ans_new ans _) as [err|]; cbn.
  { eexists _, _. split; [reflexivity|]. left. by repeat constructor. }
  destruct (ans_logger ans _) as [err|]; cbn.
  { eexists _, _. split; [reflexivity|]. left. by repeat constructor. }
  destruct args as [|action args]; cbn.
  - eexists _, _. split; [reflexivity|]. right.
    eexists c, content, [EvOpen _ _; EvNew _ _ _ _; EvLogger _]. split; [done|]. split; [by repeat constructor|].
    by eexists.
  - match goal with |- context [control ans c action ?l] =>
      destruct (control_run c action l) as (code & es & E & [[P ->]|(prep & r & -> & P & Hf & Hc & Hb)]);
      assert (Hl : Forall preparing l) by (by repeat constructor) end;
      rewrite E; eexists _, _; (split; [reflexivity|]).
    + left. by split; [apply Forall_app|].
    + right. eexists c, content, (_ ++ prep). split; [done|].
      split; [apply Forall_app; split; [exact Hl|exact P]|].
      exists r. split; [by rewrite <- (assoc_L (++))|]. split; [|done].
      intros Ha. eapply files_checked_mono; [by apply Hf|]. intros e He. apply elem_of_app. by right.
Qed.
End WindowsMainClaims.

(** A start whose files are in order, and one whose executable is missing. *)
Definition all_well (missing : bool) : service_answers :=
  mkServiceAnswers (inl "C:\jec\jec.exe") (λ _ _, inl "{}") (λ _, inl (Some example_config))
    (λ _ _, None) (λ _ _, if missing then Some (PlainError "not found") else None)
    (λ _, None) (λ _, None) (λ _ _, None) (λ _, None).

Example service_main_example :
  (service_main (all_well false) ["start"] []).1 = Done 0%Z ∧
  (service_main (all_well true) ["start"] []).1 = Done 1%Z ∧
  (service_main (all_well true) ["stop"] []).1 = Done 0%Z ∧
  (service_main (all_well true) [] []).1 = Done 0%Z.
Proof. by vm_compute. Qed.
